(* ===== verification/_CoqProject ===== *)
-Q . S2P
Prelude.v
GoStrings.v
Model.v
Config.v
Router.v
RFC3339.v
Base64.v
Json.v
Store.v
Migration.v
LinkHeader.v
World.v
Client.v
ClientProps.v
NonceUse.v
ClientThreads.v
Pool.v
PoolProps.v
PoolThreads.v
PoolThreadsProps.v
Probe.v
DNSPolicy.v
JWS.v
Handlers.v
HandlerRel.v
Health.v
ServeProps.v
Responses.v
AuthProps.v
OrderProps.v
Background.v
Bootstrap.v
BackgroundProps.v
BootstrapProps.v
System.v
Startup.v
Scenario.v
BootScenario.v
