(* ===== verification/Prelude.v ===== *)
(** * acme-gateway: a verification development

    acme-gateway is an ACME (RFC 8555) server that answers clients on behalf of one or
    several upstream CAs.  A client's signed request is checked, its order is routed to an
    upstream by configured rules, submitted there under an upstream account kept for the
    client's account, and every upstream URL the client may see is replaced by a URL of the
    gateway that the database maps back.  dns-01 challenges are answered by the gateway
    itself: a background goroutine publishes the record with an operator's script, waits
    until the authoritative nameservers show it, and triggers the upstream.

    ** How the parts correspond to the source

    - Data and libraries.  [Prelude] (results, errors, lists), [GoStrings] (package
      strings), [RFC3339] (package time's layout), [Base64] and [Json] (encoding/base64,
      encoding/json, with the parser, the printer and the decoding into structs), [Model]
      (internal/model/types.go, and the error chains and problem documents of
      internal/upstream/client.go).
    - [Config]: internal/config/config.go.  [Router]: internal/router/router.go.
    - [Store]: internal/store, one function of the database per method; [Migration]: New
      and migrate of store.go, on files of this or an earlier version of the schema.
    - [World]: the process.  The database, the heap of upstream clients (shared by pointer
      in the source), the pool's tables, the records of challenges in progress, the
      goroutines started and the outside effects are one record; code that has effects is a
      program of the state monad [M] over it, whose result [None] is a Go panic.
    - [Client] (internal/upstream/client.go, order.go, account.go) with [LinkHeader]
      (the Link parser of order.go), [ClientProps] and [NonceUse].  [ClientThreads]:
      signed requests of several goroutines, cut where the client's mutex is taken and
      where requests are made.
    - [Pool] (internal/upstream/pool.go) with [PoolProps]: one call at a time.
      [PoolThreads]: calls of several goroutines, one pool access, database statement or
      request at a time, with the registration mutexes; [PoolThreadsProps] relates the two.
    - [DNSPolicy]: internal/server/dns_policy.go.  [JWS]: internal/server/jws.go.
    - [Handlers]: the endpoints of internal/server/handlers.go and directory.go.
      [Health]: health.go, and the routing table and panic recovery of server.go.
    - [Background]: the goroutines of handlers.go; [BackgroundProps] what they guarantee.
    - [Bootstrap]: internal/bootstrap, how the gateway gets its own certificate;
      [BootstrapProps] what the files on disk hold at every point.
    - [Startup]: run of cmd/acme-gateway/main.go and the listeners of server.go.
      [Probe]: cmd/acme-probe.
    - [HandlerRel], [ServeProps], [System]: relations kept by every handler, by any
      sequence of requests, and by any interleaving with the background work.
      [Responses], [AuthProps], [OrderProps]: what clients are answered and who may do what.
    - [Scenario], [BootScenario]: a concrete gateway, with runs of it, at which the
      theorems about reachable states, interleaved calls and the bootstrap are applied.

    Definitions keep the names of the source (a prefix tells apart what Go distinguishes
    by receiver or package, as [UpstreamGetOrder] for [Client.GetOrder]).  Log lines and
    tracing are left out; contexts appear where their end is observed.

    ** What is a parameter

    What the code gets from outside is read from oracles ([Env]): the clock, randomness,
    the network, the database engine's failures, name servers, scripts, the file system's
    failures.  A reading advances a counter, so any sequence of answers is possible and
    two readings are unrelated.  Third-party code is a class: cryptography and X.509
    ([Crypto], [PKI], [TLSFiles]), net/url ([NetURL]), go-chi's matching ([Mux]), what SQL leaves
    open ([RowOrder], [SQLDriver]), the YAML decoder (an argument of [Load]).  Laws are
    assumed only where a theorem names them: [CryptoLaws] (a stored key is read back),
    [FreshNonces] (upstreams do not repeat nonces), [SaneClock] (years of four digits),
    [SQLDriverLaws], [SteadyClock] (a sleep takes its time).  [Scenario] and
    [BootScenario] instantiate all of them.

    ** What the theorems show

    - Authority ([AuthProps]): no endpoint has an effect, nonces apart, except for the
      authenticated party that may ask for it.
    - Answers ([Responses], [OrderProps], [Health]): one response per request whatever
      fails; an answered order is a stored order, and which of the URLs of a new order are
      mapped when the upstream repeats some; the URLs in answers for existing orders resolve.
    - Nonces ([Store], [NonceUse], [System], [ClientThreads]): the gateway's are accepted
      once and until they expire; the upstream's are sent once, in every interleaving, and
      an attempt of a signed request ([ClientProps]) spends one and saves the answer's.
    - State ([Store], [Migration], [PoolProps], [System]): the schema and the agreement of
      pool and database hold in every reachable state; accounts survive restarts; opening a
      file of any version keeps what it holds, but for the slots a failing probe loses.
    - Concurrency ([PoolThreadsProps], [ClientThreads]): in every interleaving of pool calls
      an account has one client and is registered once, pool and database agree, and no
      deadlock can arise; signed requests end. Two lemmas check the models against each
      other: a call that runs alone computes what the sequential definition does.
    - Challenges ([ServeProps], [BackgroundProps], [System], [DNSPolicy]): started once,
      published for an allowed name, cleaned up once. Every challenge that says processing
      has its goroutine, and the goroutine returns with a verdict, as the clock advances
      while it waits ([time_passes]). A wait that succeeds has seen the quorum: [round_at]
      gives the answers of a round as readings of the name servers' oracle, so that the
      theorem names the queries of that very run.
    - The gateway's own certificate ([BootstrapProps], [Startup]): files are replaced
      atomically, in which states a crash can leave the pair, the life of the account key,
      that a run ends, which scripts it runs for which authorization of its order, and which
      certificate connections get. The states of the pair are for configured paths that are
      distinct ([distinct_paths]), which the configuration's validation does not check.
    - Inputs ([Config], [Router], [JWS], [LinkHeader]): exactly what is accepted, and what
      routing does with it.

    Where the code does something else than its comments or its purpose say, a lemma or
    an example shows it: [expired_nonce_survives_pruning], [failed_probe_loses_slots],
    [payload_of_last_member], [unregistered_key_panics], [revoke_check_fails_open],
    [timeout_overflow], [finalize_of_other_order], [registration_failures],
    [failed_column_unreported], [failed_read_replaces_account_key],
    [renewal_days_overflow], [finalize_without_names], [new_order_recorded_witness] (a URL
    the upstream repeats).

    ** Bounds and fuel

    Signed POSTs make three attempts ([maxAttempts]) and CNAME chains ten look-ups, as in
    the source.  The waits that end by the clock (the DNS propagation wait, the polls of
    the bootstrap) take a number of rounds and return [None] when it does not suffice;
    [wait_returns], [challenge_ends] and [acquire_returns] show which number always does.  The JSON parser's fuel is the
    length of its input, which every nested call shortens.  The quorum computation is
    IEEE 754 arithmetic on the standard library's binary64, compared with the exact
    ceiling for up to 24 nameservers.

    ** Granularity, and what is not modelled

    A step of [System] is a whole request, one part of a challenge's goroutine (up to the
    trigger, the trigger, one turn of the clean-up watcher), a renewal of the gateway's
    certificate or one turn of the nonce pruner; steps interleave in any order, their
    insides do not.  The insides of pool calls interleave in [PoolThreads], whose state has
    the registration mutexes, those of signed requests in [ClientThreads]; the other
    mutexes of the pool and of the clients guard single steps there.  A request and its
    answer are one step: an answer's nonce depends on nothing another goroutine does.

    Not modelled: the flags, the output and the logging of the two commands; net/http's
    listeners, including the effect of their time-outs, and signal delivery, whose
    outcomes are arguments of [Startup]; what sql.Open does with the DSN; the connection
    pool of database/sql; HTTPClientWithCACert, whose outcome is an oracle. *)
From stdpp Require Export base option list list_numbers strings gmap fin_maps pretty.
From stdpp Require Export sorting.
From Stdlib Require Export Ascii ZArith Lia.

(** The source's strings are Go strings: byte sequences. *)
#[global] Arguments String.append : simpl nomatch.

Declare Scope gateway_scope.
Delimit Scope gateway_scope with gw.
#[global] Open Scope gateway_scope.

(** ** Errors and fallible results

    A Go function returning [(T, error)] is modelled by [result T].  An error
    keeps its [fmt.Errorf] structure: a message prefix and, for [%w], the
    wrapped error, so that [errors.As] can look through it. *)
Inductive result_of (E A : Type) : Type :=
| Ok (a : A)
| Err (e : E).
Arguments Ok {E A} a.
Arguments Err {E A} e.

Definition result_bind {E A B} (r : result_of E A) (k : A → result_of E B) : result_of E B :=
  match r with Ok a => k a | Err e => Err e end.

Notation "'let?' x := r 'in' k" := (result_bind r (fun x => k))
  (at level 10, x pattern, r at level 200, k at level 200,
   format "'[v' 'let?'  x  :=  r  'in'  '/' k ']'") : gateway_scope.
Notation "'fail_if' b 'with' e 'in' k" := (if b then Err e else k)
  (at level 10, b at level 200, e at level 200, k at level 200,
   format "'[v' 'fail_if'  b  'with'  e  'in'  '/' k ']'") : gateway_scope.

Definition is_ok {E A} (r : result_of E A) : bool :=
  match r with Ok _ => true | Err _ => false end.

Definition ok_opt {E A} (r : result_of E A) : option A :=
  match r with Ok a => Some a | Err _ => None end.

Lemma result_bind_ok {E A B} (r : result_of E A) (k : A → result_of E B) b :
  result_bind r k = Ok b ↔ ∃ a, r = Ok a ∧ k a = Ok b.
Proof. destruct r; simpl; naive_solver. Qed.

Lemma fail_if_ok {E A} (b : bool) (e : E) (k : result_of E A) a :
  (if b then Err e else k) = Ok a ↔ b = false ∧ k = Ok a.
Proof. destruct b; naive_solver. Qed.

Lemma is_ok_true {E A} (r : result_of E A) : is_ok r = true ↔ ∃ a, r = Ok a.
Proof. destruct r; naive_solver. Qed.

(** ** Hint databases

    [gateway] collects the resolution lemmas that close the recurring side
    conditions; [gateway_rw] the rewriting lemmas. *)
Create HintDb gateway discriminated.
Create Rewrite HintDb gateway_rw.
#[export] Hint Rewrite @result_bind_ok @fail_if_ok @is_ok_true : gateway_rw.

(** ** Booleans *)
Lemma bool_decide_string (s t : string) : String.eqb s t = bool_decide (s = t).
Proof.
  case_bool_decide as H; [subst; apply String.eqb_refl|].
  by apply String.eqb_neq.
Qed.

Notation "s ==? t" := (String.eqb s t) (at level 70, no associativity) : gateway_scope.
Notation "s !=? t" := (negb (String.eqb s t)) (at level 70, no associativity) : gateway_scope.

Lemma neqb_true (s t : string) : (s !=? t) = true ↔ s ≠ t.
Proof. rewrite negb_true_iff. apply String.eqb_neq. Qed.
Lemma neqb_false (s t : string) : (s !=? t) = false ↔ s = t.
Proof. rewrite negb_false_iff. apply String.eqb_eq. Qed.
#[export] Hint Rewrite String.eqb_eq String.eqb_neq neqb_true neqb_false
  andb_true_iff andb_false_iff orb_true_iff orb_false_iff negb_true_iff negb_false_iff
  : gateway_rw.

(** [simp_bool] turns the boolean tests of the code into propositions. *)
Ltac simp_bool := autorewrite with gateway_rw in *.

(** [case_tests] splits on every boolean test and option match left in the goal. *)
Ltac case_tests :=
  repeat match goal with
  | |- context [if ?b then _ else _] => destruct b eqn:?
  | |- context [match ?o with Some _ => _ | None => _ end] => destruct o eqn:?
  end.

(** ** Lists *)
Lemma existsb_elem {A} (f : A → bool) l :
  existsb f l = true ↔ ∃ x, x ∈ l ∧ f x = true.
Proof. rewrite existsb_exists. by setoid_rewrite list_elem_of_In. Qed.

Lemma forallb_elem {A} (f : A → bool) l :
  forallb f l = true ↔ ∀ x, x ∈ l → f x = true.
Proof. rewrite forallb_forall. by setoid_rewrite list_elem_of_In. Qed.

(** The first element satisfying a test, as a [for ... return] loop finds it. *)
Lemma find_some_split {A} (f : A → bool) l x :
  List.find f l = Some x ↔
  ∃ l1 l2, l = l1 ++ x :: l2 ∧ f x = true ∧ Forall (λ y, f y = false) l1.
Proof.
  split.
  - induction l as [|y l IH]; simpl; [done|].
    destruct (f y) eqn:Hy.
    + intros [= ->]. exists [], l. naive_solver.
    + intros (l1 & l2 & -> & Hx & Hl)%IH.
      exists (y :: l1), l2. naive_solver.
  - intros (l1 & l2 & -> & Hx & Hl). induction Hl; simpl; [by rewrite Hx|].
    by rewrite H.
Qed.

Lemma find_none_forall {A} (f : A → bool) l :
  List.find f l = None ↔ Forall (λ y, f y = false) l.
Proof.
  split.
  - intros H. apply Forall_forall. intros x Hx%list_elem_of_In.
    by eapply find_none.
  - induction 1; simpl; [done|]. by rewrite H.
Qed.
