(* ===== verification/GoStrings.v ===== *)
(** * Go's byte strings: the [strings] functions the gateway uses

    A Go [string] is a byte sequence, here Rocq's [string] of 8-bit [ascii].
    [HasPrefix], [HasSuffix], [TrimPrefix], [TrimSuffix], [Split], [SplitN],
    [Join], [Contains] and [IndexByte] are byte-level in Go too and are exact
    for every input.  [ToLower], [ToUpper], [EqualFold], [TrimSpace] and
    [Fields] are modelled on their ASCII behaviour: bytes of value 128 and
    above are neither letters nor spaces. *)
From S2P Require Export Prelude.


Fixpoint str_drop (n : nat) (s : string) : string :=
  match n, s with
  | S n, String _ s => str_drop n s
  | _, _ => s
  end.

Fixpoint str_take (n : nat) (s : string) : string :=
  match n, s with
  | S n, String c s => String c (str_take n s)
  | _, _ => ""
  end.

(** [strings.HasPrefix] *)
Fixpoint HasPrefix (s p : string) {struct p} : bool :=
  match p, s with
  | "", _ => true
  | String a p, String b s => Ascii.eqb a b && HasPrefix s p
  | String _ _, "" => false
  end.

(** [strings.HasSuffix]: [len(s) >= len(suf) && s[len(s)-len(suf):] == suf] *)
Definition HasSuffix (s suf : string) : bool :=
  (String.length suf <=? String.length s)%nat
  && (str_drop (String.length s - String.length suf) s ==? suf).

Definition TrimPrefix (s p : string) : string :=
  if HasPrefix s p then str_drop (String.length p) s else s.

Definition TrimSuffix (s suf : string) : string :=
  if HasSuffix s suf then str_take (String.length s - String.length suf) s else s.

(** [strings.TrimSpace], through the list of bytes. *)
Fixpoint trim_left_with (f : ascii → bool) (s : string) : string :=
  match s with
  | String c s' => if f c then trim_left_with f s' else s
  | "" => ""
  end.

Fixpoint trim_right_with (f : ascii → bool) (s : string) : string :=
  match s with
  | String c s' =>
      match trim_right_with f s' with
      | "" => if f c then "" else String c ""
      | r => String c r
      end
  | "" => ""
  end.

Definition trim_with (f : ascii → bool) (s : string) : string :=
  trim_right_with f (trim_left_with f s).

Definition TrimSpace : string → string := trim_with Ascii.is_space.

(** [strings.Trim(s, cutset)] with a one-byte cutset. *)
Definition TrimByte (c : ascii) : string → string := trim_with (Ascii.eqb c).

Definition lower_byte (c : ascii) : ascii :=
  let n := N_of_ascii c in
  if ((65 <=? n) && (n <=? 90))%N then ascii_of_N (n + 32) else c.
Definition upper_byte (c : ascii) : ascii :=
  let n := N_of_ascii c in
  if ((97 <=? n) && (n <=? 122))%N then ascii_of_N (n - 32) else c.

Fixpoint str_map (f : ascii → ascii) (s : string) : string :=
  match s with
  | "" => ""
  | String c s => String (f c) (str_map f s)
  end.

Definition ToLower : string → string := str_map lower_byte.
Definition ToUpper : string → string := str_map upper_byte.
Definition EqualFold (s t : string) : bool := ToLower s ==? ToLower t.

(** [strings.IndexByte]; Go's [-1] is [None]. *)
Fixpoint IndexByte (s : string) (c : ascii) : option nat :=
  match s with
  | "" => None
  | String a s => if Ascii.eqb a c then Some 0%nat else S <$> IndexByte s c
  end.

Fixpoint Contains (s sub : string) : bool :=
  HasPrefix s sub || match s with "" => false | String _ s => Contains s sub end.

(** [strings.Split] on a one-byte separator. *)
Fixpoint Split (s : string) (c : ascii) : list string :=
  match s with
  | "" => [""]
  | String a s =>
      if Ascii.eqb a c then "" :: Split s c
      else match Split s c with
           | h :: t => String a h :: t
           | [] => [String a ""]
           end
  end.

(** [strings.SplitN(s, sep, 2)]: at most one cut, at the first separator. *)
Definition SplitN2 (s : string) (c : ascii) : list string :=
  match IndexByte s c with
  | None => [s]
  | Some i => [str_take i s; str_drop (S i) s]
  end.

Fixpoint Join (l : list string) (sep : string) : string :=
  match l with
  | [] => ""
  | [x] => x
  | x :: l => x +:+ sep +:+ Join l sep
  end.

(** [strings.Fields]: maximal runs of non-space bytes. *)
Definition Fields (s : string) : list string := String.words s.

(** [fmt]'s [%q] on printable bytes: the quotes and backslashes are escaped. *)
Definition dquote : ascii := "034"%char.
Definition backslash : ascii := "092"%char.
Fixpoint quote_body (s : string) : string :=
  match s with
  | "" => ""
  | String c s =>
      if Ascii.eqb c dquote || Ascii.eqb c backslash
      then String backslash (String c (quote_body s))
      else String c (quote_body s)
  end.
Definition Quote (s : string) : string :=
  String dquote (quote_body s +:+ String dquote "").

(** ** Length and slices *)
Lemma app_nil_r_str (s : string) : s +:+ "" = s.
Proof. induction s; simpl; [done|]. by f_equal. Qed.

Lemma app_assoc_str (s t u : string) : s +:+ (t +:+ u) = (s +:+ t) +:+ u.
Proof. induction s; simpl; [done|]. by f_equal. Qed.

Lemma length_app_str (s t : string) :
  String.length (s +:+ t) = (String.length s + String.length t)%nat.
Proof. induction s; simpl; [done|]. by f_equal. Qed.

Lemma take_drop_str n (s : string) : str_take n s +:+ str_drop n s = s.
Proof. revert s; induction n; intros [|c s]; simpl; [done..|]. by f_equal. Qed.

Lemma str_take_app (s t : string) : str_take (String.length s) (s +:+ t) = s.
Proof. induction s; simpl; [by destruct t|]. by f_equal. Qed.

Lemma str_drop_app (s t : string) : str_drop (String.length s) (s +:+ t) = t.
Proof. induction s; simpl; [by destruct t|done]. Qed.

Lemma length_str_take n (s : string) :
  String.length (str_take n s) = Nat.min n (String.length s).
Proof. revert s; induction n; intros [|c s]; simpl; auto. Qed.

#[export] Hint Rewrite length_app_str length_str_take : gateway_rw.

(** ** Prefixes and suffixes *)
Lemma HasPrefix_spec (s p : string) : HasPrefix s p = true ↔ ∃ t, s = p +:+ t.
Proof.
  revert s; induction p as [|a p IH]; intros s; simpl.
  - split; [|done]. intros _. by exists s.
  - destruct s as [|b s]; simpl.
    + split; [done|]. by intros [t ?].
    + rewrite andb_true_iff, Ascii.eqb_eq, IH. naive_solver.
Qed.

Lemma HasSuffix_spec (s suf : string) : HasSuffix s suf = true ↔ ∃ t, s = t +:+ suf.
Proof.
  unfold HasSuffix. rewrite andb_true_iff, Nat.leb_le, String.eqb_eq. split.
  - intros [Hle Hd].
    exists (str_take (String.length s - String.length suf) s).
    by rewrite <-Hd at 2; rewrite take_drop_str.
  - intros [t ->]. rewrite length_app_str. split; [lia|].
    replace (_ + _ - _)%nat with (String.length t) by lia. apply str_drop_app.
Qed.

Lemma HasPrefix_app (p t : string) : HasPrefix (p +:+ t) p = true.
Proof. apply HasPrefix_spec. by eexists. Qed.

Lemma TrimPrefix_app (p t : string) : TrimPrefix (p +:+ t) p = t.
Proof. unfold TrimPrefix. by rewrite HasPrefix_app, str_drop_app. Qed.

Lemma TrimPrefix_no (s p : string) : HasPrefix s p = false → TrimPrefix s p = s.
Proof. unfold TrimPrefix. by intros ->. Qed.

Lemma TrimSuffix_app (t suf : string) : TrimSuffix (t +:+ suf) suf = t.
Proof.
  unfold TrimSuffix. assert (HasSuffix (t +:+ suf) suf = true) as ->.
  { apply HasSuffix_spec. by eexists. }
  rewrite length_app_str. replace (_ + _ - _)%nat with (String.length t) by lia.
  apply str_take_app.
Qed.

Lemma TrimSuffix_no (s suf : string) : HasSuffix s suf = false → TrimSuffix s suf = s.
Proof. unfold TrimSuffix. by intros ->. Qed.

(** ** Case folding *)
Lemma lower_byte_idemp c : lower_byte (lower_byte c) = lower_byte c.
Proof. destruct c as [[] [] [] [] [] [] [] []]; reflexivity. Qed.
Lemma upper_lower_byte c : lower_byte (upper_byte c) = lower_byte c.
Proof. destruct c as [[] [] [] [] [] [] [] []]; reflexivity. Qed.

Lemma str_map_map f g (s : string) : str_map f (str_map g s) = str_map (λ c, f (g c)) s.
Proof. induction s; simpl; [done|]. by f_equal. Qed.
Lemma str_map_ext f g (s : string) : (∀ c, f c = g c) → str_map f s = str_map g s.
Proof. intros H. induction s; simpl; [done|]. by f_equal. Qed.
Lemma str_map_app f (s t : string) : str_map f (s +:+ t) = str_map f s +:+ str_map f t.
Proof. induction s; simpl; [done|]. by f_equal. Qed.
Lemma length_str_map f (s : string) : String.length (str_map f s) = String.length s.
Proof. induction s; simpl; auto. Qed.

Lemma ToLower_idemp s : ToLower (ToLower s) = ToLower s.
Proof. unfold ToLower. rewrite str_map_map. apply str_map_ext, lower_byte_idemp. Qed.
Lemma ToLower_ToUpper s : ToLower (ToUpper s) = ToLower s.
Proof. unfold ToLower, ToUpper. rewrite str_map_map. apply str_map_ext, upper_lower_byte. Qed.

Lemma EqualFold_refl s : EqualFold s s = true.
Proof. apply String.eqb_refl. Qed.
Lemma EqualFold_sym s t : EqualFold s t = EqualFold t s.
Proof. apply String.eqb_sym. Qed.
Lemma EqualFold_spec s t : EqualFold s t = true ↔ ToLower s = ToLower t.
Proof. apply String.eqb_eq. Qed.
Lemma EqualFold_upper s t : EqualFold (ToUpper s) t = EqualFold s t.
Proof. unfold EqualFold. by rewrite ToLower_ToUpper. Qed.

(** ** Split and Join *)
Lemma Split_nonempty s c : Split s c ≠ [].
Proof. destruct s as [|a s]; simpl; [done|]. case_match; [done|]. by destruct (Split s c). Qed.

Lemma Join_Split s c : Join (Split s c) (String c "") = s.
Proof.
  induction s as [|a s IH]; simpl; [done|].
  pose proof (Split_nonempty s c) as Hne.
  destruct (Ascii.eqb_spec a c) as [->|Hac].
  - destruct (Split s c) as [|h t] eqn:E; [done|].
    simpl in *. by f_equal.
  - destruct (Split s c) as [|h t] eqn:E; [done|].
    destruct t; simpl in *; by f_equal.
Qed.

(** ** Order: [sort.Strings], [slices.Sort] *)
Definition str_le (s t : string) : Prop := String.leb s t = true.
#[global] Instance str_le_dec s t : Decision (str_le s t) := decide (String.leb s t = true).

Lemma compare_lt_trans s t u :
  String.compare s t = Lt → String.compare t u = Lt → String.compare s u = Lt.
Proof.
  revert t u. induction s as [|a s IH]; intros [|b t] [|c u]; simpl; try done.
  unfold Ascii.compare.
  destruct (N.compare_spec (N_of_ascii a) (N_of_ascii b)) as [Hab|Hab|Hab]; [| |done];
    destruct (N.compare_spec (N_of_ascii b) (N_of_ascii c)) as [Hbc|Hbc|Hbc]; try done;
    destruct (N.compare_spec (N_of_ascii a) (N_of_ascii c)); try lia; try done.
  by apply IH.
Qed.

Lemma str_le_cases s t : str_le s t ↔ s = t ∨ String.compare s t = Lt.
Proof.
  unfold str_le, String.leb. destruct (String.compare s t) eqn:E.
  - apply String.compare_eq_iff in E. naive_solver.
  - naive_solver.
  - split; [done|]. intros [->|?]; [|done].
    pose proof (String.compare_antisym t t) as Hself. by rewrite E in Hself.
Qed.

#[global] Instance str_le_trans : Transitive str_le.
Proof.
  intros s t u. rewrite !str_le_cases. intros [->|Hst] [->|Htu]; eauto using compare_lt_trans.
Qed.
#[global] Instance str_le_total : Total str_le.
Proof. intros s t. apply String.leb_total. Qed.

Definition sort_strings : list string → list string := merge_sort str_le.
