(* ===== verification/Model.v ===== *)
(** * The data model shared by all components (internal/model/types.go)

    Also the error values of the program: [fmt.Errorf] chains and the ACME
    problem documents of the upstream (internal/upstream/client.go). *)
From S2P Require Export GoStrings.


(** Instants are nanoseconds since the Unix epoch, in UTC; Go's zero
    [time.Time] is the first instant of year 1. *)
Definition time := Z.
Definition second : Z := 1000000000.
Definition zero_time : time := (-62135596800 * 1000000000)%Z.

(** ** Entities *)
Record Account := MkAccount {
  acct_ID : string;
  acct_PublicKey : string;
  acct_KeyType : string;
  acct_Contact : list string;
  acct_Status : string;
  acct_CreatedAt : time
}.

Record UpstreamAccount := MkUpstreamAccount {
  ua_UpstreamID : string;
  ua_AccountID : string;
  ua_Slot : Z;
  ua_AccountURL : string;
  ua_PrivateKey : string;
  ua_CreatedAt : time
}.

Record Identifier := MkIdentifier { id_Type : string; id_Value : string }.

(** [Identifiers] is a JSON array kept as text. *)
Record Order := MkOrder {
  order_ID : string;
  order_AccountID : string;
  order_UpstreamID : string;
  order_UpstreamSlot : Z;
  order_UpstreamOrderURL : string;
  order_Status : string;
  order_Identifiers : string;
  order_Profile : string;
  order_RequireCSRKeyType : string;
  order_CreatedAt : time;
  order_UpdatedAt : time
}.

Record ResourceMap := MkResourceMap {
  rm_GatewayID : string;
  rm_ResourceType : string;
  rm_OrderID : string;
  rm_UpstreamURL : string;
  rm_CertFingerprint : string
}.

(** ** Constants *)
Definition KeyTypeRSA := "RSA".
Definition KeyTypeECDSA := "ECDSA".

Definition OrderStatusPending := "pending".
Definition OrderStatusReady := "ready".
Definition OrderStatusProcessing := "processing".
Definition OrderStatusValid := "valid".
Definition OrderStatusInvalid := "invalid".

Definition AccountStatusValid := "valid".
Definition AccountStatusDeactivated := "deactivated".

Definition ResourceTypeAuthz := "authz".
Definition ResourceTypeChallenge := "challenge".
Definition ResourceTypeFinalize := "finalize".
Definition ResourceTypeCert := "cert".

Definition UpstreamProfilePassthrough := "$passthrough".

#[global] Instance Identifier_eq_dec : EqDecision Identifier.
Proof. solve_decision. Defined.
#[global] Instance ResourceMap_eq_dec : EqDecision ResourceMap.
Proof. solve_decision. Defined.
#[global] Instance Order_eq_dec : EqDecision Order.
Proof. solve_decision. Defined.
#[global] Instance Account_eq_dec : EqDecision Account.
Proof. solve_decision. Defined.
#[global] Instance UpstreamAccount_eq_dec : EqDecision UpstreamAccount.
Proof. solve_decision. Defined.

(** ** Errors *)

(** An ACME problem document; [Subproblems] is raw JSON, empty when absent. *)
Record ACMEError := MkACMEError {
  ae_Type : string;
  ae_Detail : string;
  ae_Status : Z;
  ae_Subproblems : string
}.

#[global] Instance ACMEError_eq_dec : EqDecision ACMEError.
Proof. solve_decision. Defined.

(** [EStr msg] is [errors.New]/[fmt.Errorf] without [%w]; [EWrap pre e] is
    [fmt.Errorf(pre + "%w", e)]; [EACME] an [*ACMEError]; [EDNS] a
    [*net.DNSError] with its [Error()] text, [Err] field and [IsNotFound] flag. *)
Inductive error : Type :=
| EStr (msg : string)
| EWrap (pre : string) (e : error)
| EACME (ae : ACMEError)
| EDNS (text : string) (msg : string) (not_found : bool).

Abbreviation result := (result_of error).

Definition Errorf {A} (msg : string) : result A := Err (EStr msg).
Definition Wrapf {A} (pre : string) (e : error) : result A := Err (EWrap pre e).

#[global] Instance error_eq_dec : EqDecision error.
Proof. solve_decision. Defined.

(** [errors.As(err, *ACMEError)]: the first ACME problem of the chain. *)
Fixpoint errors_As_ACME (e : error) : option ACMEError :=
  match e with
  | EACME ae => Some ae
  | EWrap _ e => errors_As_ACME e
  | _ => None
  end.

(** [errors.As(err, *net.DNSError)] *)
Fixpoint errors_As_DNS (e : error) : option (string * bool) :=
  match e with
  | EDNS _ m b => Some (m, b)
  | EWrap _ e => errors_As_DNS e
  | _ => None
  end.

(** [summarizeSubproblems]: newlines and carriage returns become spaces and
    the text is cut after [maxSubproblemLogRunes] runes (bytes, on ASCII). *)
Definition maxSubproblemLogRunes : nat := 512.
Definition newline : ascii := "010"%char.
Definition carriage_return : ascii := "013"%char.
Definition flatten_byte (c : ascii) : ascii :=
  if Ascii.eqb c newline || Ascii.eqb c carriage_return then " "%char else c.
(** The UTF-8 bytes of the ellipsis, then the marker. *)
Definition truncated_marker : string :=
  String "226"%char (String "128"%char (String "166"%char "(truncated)")).
Definition summarizeSubproblems (raw : string) : string :=
  let s := str_map flatten_byte raw in
  if (maxSubproblemLogRunes <? String.length s)%nat
  then str_take maxSubproblemLogRunes s +:+ truncated_marker
  else s.

Definition ACMEError_Error (ae : ACMEError) : string :=
  if (0 <? String.length (ae_Subproblems ae))%nat
  then "ACME error " +:+ ae_Type ae +:+ ": " +:+ ae_Detail ae +:+ " (subproblems: "
       +:+ summarizeSubproblems (ae_Subproblems ae) +:+ ")"
  else "ACME error " +:+ ae_Type ae +:+ ": " +:+ ae_Detail ae.

(** [err.Error()] *)
Fixpoint error_string (e : error) : string :=
  match e with
  | EStr m => m
  | EWrap pre e => pre +:+ error_string e
  | EACME ae => ACMEError_Error ae
  | EDNS text _ _ => text
  end.

(** A line of a log never breaks: the summary has no newline or carriage
    return, whatever the upstream sent, and its length is bounded. *)
Fixpoint no_line_break (s : string) : bool :=
  match s with
  | "" => true
  | String c s => negb (Ascii.eqb c newline || Ascii.eqb c carriage_return) && no_line_break s
  end.

Lemma no_line_break_app s t :
  no_line_break (s +:+ t) = no_line_break s && no_line_break t.
Proof. induction s as [|c s IH]; simpl; [done|]. by rewrite IH, andb_assoc. Qed.

Lemma no_line_break_flatten s : no_line_break (str_map flatten_byte s) = true.
Proof.
  induction s as [|c s IH]; simpl; [done|]. rewrite IH, andb_true_r.
  by destruct c as [[] [] [] [] [] [] [] []].
Qed.

Lemma no_line_break_take n s : no_line_break s = true → no_line_break (str_take n s) = true.
Proof.
  revert n; induction s as [|c s IH]; intros [|n]; simpl; [done..|].
  rewrite !andb_true_iff. naive_solver.
Qed.

Lemma summarizeSubproblems_safe raw :
  no_line_break (summarizeSubproblems raw) = true
  ∧ (String.length (summarizeSubproblems raw) ≤ maxSubproblemLogRunes + 14)%nat.
Proof.
  unfold summarizeSubproblems. case_match eqn:E.
  - split.
    + rewrite no_line_break_app, andb_true_iff. split; [|done].
      apply no_line_break_take, no_line_break_flatten.
    + rewrite length_app_str, length_str_take.
      change (String.length truncated_marker) with 14%nat. lia.
  - apply Nat.ltb_ge in E. split; [apply no_line_break_flatten|]. lia.
Qed.
