(* ===== verification/Config.v ===== *)
(** * Configuration (internal/config/config.go)

    The configuration records, the accessors with their defaults, the
    [${ENV}] interpolation and [validate].  Decoding the YAML text is a
    third-party library: [Load] takes it as an argument. *)
From S2P Require Export Model.


(** ** Records *)
Record ServerConfig := MkServerConfig {
  Listen : string;
  BaseURL : string;
  TLS : option bool
}.
Record StateConfig := MkStateConfig { DBPath : string }.

Record DNSPropagationPolicy := MkDNSPropagationPolicy {
  prop_Enabled : option bool;
  TimeoutSeconds : Z;
  PollSeconds : Z;
  MinConsecutiveSuccesses : Z;
  QuorumPercent : Z;
  SettleSeconds : Z
}.

Record DNSDelegationPolicy := MkDNSDelegationPolicy {
  deleg_Enabled : option bool;
  Mode : string;
  AllowedZoneSuffixes : list string
}.

Record DNSHook := MkDNSHook {
  DeployScript : string;
  CleanupScript : string;
  Propagation : DNSPropagationPolicy;
  Delegation : DNSDelegationPolicy
}.

Record BootstrapConfig := MkBootstrapConfig {
  boot_Enabled : bool;
  boot_Upstream : string;
  boot_Domain : string;
  boot_ContactEmail : string;
  boot_Challenge : string;
  CertPath : string;
  KeyPath : string;
  RenewBeforeDays : Z;
  boot_DNSHook : DNSHook
}.

Record EABConfig := MkEABConfig { KeyID : string; HMACKey : string }.

Record UpstreamConfig := MkUpstreamConfig {
  DirectoryURL : string;
  up_ContactEmail : string;
  EAB : option EABConfig;
  up_DNSHook : DNSHook;
  AccountCount : Z;
  CACertPath : string
}.

Record MatchConfig := MkMatchConfig {
  match_Profile : string;
  match_KeyType : string;
  match_DomainSuffix : string
}.

Record RoutingRule := MkRoutingRule {
  rule_Match : MatchConfig;
  rule_Upstream : string;
  rule_UpstreamProfile : string;
  rule_RequireCSRKeyType : string
}.

Record RoutingConfig := MkRoutingConfig {
  Rules : list RoutingRule;
  DefaultUpstream : string
}.

Record Config := MkConfig {
  Server : ServerConfig;
  State : StateConfig;
  Bootstrap : BootstrapConfig;
  Upstreams : gmap string UpstreamConfig;
  Profiles : gmap string string;
  Routing : RoutingConfig
}.

(** Go zero values. *)
Definition zero_propagation : DNSPropagationPolicy := MkDNSPropagationPolicy None 0 0 0 0 0.
Definition zero_delegation : DNSDelegationPolicy := MkDNSDelegationPolicy None "" [].
Definition zero_DNSHook : DNSHook := MkDNSHook "" "" zero_propagation zero_delegation.
Definition zero_Bootstrap : BootstrapConfig :=
  MkBootstrapConfig false "" "" "" "" "" "" 0 zero_DNSHook.
Definition zero_UpstreamConfig : UpstreamConfig :=
  MkUpstreamConfig "" "" None zero_DNSHook 0 "".

(** ** Accessors with defaults *)

(** [time.Duration] is an [int64] of nanoseconds: the product wraps. *)
Definition wrap64 (z : Z) : Z := ((z + 2 ^ 63) mod 2 ^ 64 - 2 ^ 63)%Z.
Definition seconds (v : Z) : Z := wrap64 (v * second).

Definition TLSEnabled (s : ServerConfig) : bool :=
  match TLS s with None => true | Some b => b end.

Definition prop_EnabledOrDefault (p : DNSPropagationPolicy) : bool :=
  match prop_Enabled p with None => true | Some b => b end.

Definition TimeoutOrDefault (p : DNSPropagationPolicy) : Z :=
  seconds (if (TimeoutSeconds p <=? 0)%Z then 300 else TimeoutSeconds p).

Definition PollOrDefault (p : DNSPropagationPolicy) : Z :=
  seconds (if (PollSeconds p <=? 0)%Z then 2 else PollSeconds p).

Definition MinConsecutiveOrDefault (p : DNSPropagationPolicy) : Z :=
  if (MinConsecutiveSuccesses p <=? 0)%Z then 3 else MinConsecutiveSuccesses p.

Definition QuorumPercentOrDefault (p : DNSPropagationPolicy) : Z :=
  if (QuorumPercent p <=? 0)%Z then 100 else QuorumPercent p.

Definition SettleDelayOrDefault (p : DNSPropagationPolicy) : Z :=
  if (SettleSeconds p <=? 0)%Z then 0 else seconds (SettleSeconds p).

Definition deleg_EnabledOrDefault (d : DNSDelegationPolicy) : bool :=
  match deleg_Enabled d with None => false | Some b => b end.

Definition ModeOrDefault (d : DNSDelegationPolicy) : string :=
  let mode := ToLower (TrimSpace (Mode d)) in
  if mode ==? "" then "strict" else mode.

(** ** [${VAR}] interpolation *)

(** The text of a [[^}]+] match: the bytes before the first closing brace. *)
Fixpoint until_brace (s : string) : option string :=
  match s with
  | "" => None
  | String c s =>
      if Ascii.eqb c "}"%char then Some "" else String c <$> until_brace s
  end.

(** The [\$\{([^}]+)\}] match that starts at the head of [s], if any: the
    captured name. *)
Definition env_token (s : string) : option string :=
  match s with
  | String a (String b rest) =>
      if Ascii.eqb a "$"%char && Ascii.eqb b "{"%char then
        match until_brace rest with
        | Some "" | None => None
        | Some name => Some name
        end
      else None
  | _ => None
  end.

(** [ReplaceAllStringFunc]: leftmost, non-overlapping.  [skip] counts the
    bytes of a match already replaced. *)
Fixpoint interpolate_from (LookupEnv : string → option string) (skip : nat) (s : string)
    : string :=
  match s with
  | "" => ""
  | String c rest =>
      match skip with
      | S k => interpolate_from LookupEnv k rest
      | O =>
          match env_token s with
          | Some name =>
              let len := (String.length name + 3)%nat in
              match LookupEnv name with
              | Some val => val +:+ interpolate_from LookupEnv (len - 1) rest
              | None => str_take len s +:+ interpolate_from LookupEnv (len - 1) rest
              end
          | None => String c (interpolate_from LookupEnv 0 rest)
          end
      end
  end.

Definition interpolateEnv (LookupEnv : string → option string) (s : string) : string :=
  interpolate_from LookupEnv 0 s.

(** ** Validation *)
Definition validate_suffix (path : string) (i : nat) (suffix : string) : result unit :=
  if TrimSpace suffix ==? ""
  then Errorf (path +:+ ".delegation.allowed_zone_suffixes[" +:+ pretty i +:+ "] must not be empty")
  else Ok tt.

Fixpoint validate_suffixes (path : string) (i : nat) (l : list string) : result unit :=
  match l with
  | [] => Ok tt
  | s :: l => let? _ := validate_suffix path i s in validate_suffixes path (S i) l
  end.

Definition validateDNSHookPolicy (path : string) (hook : DNSHook) : result unit :=
  let p := Propagation hook in
  let mode := ModeOrDefault (Delegation hook) in
  fail_if (TimeoutSeconds p <? 0)%Z
    with EStr (path +:+ ".propagation.timeout_seconds must be >= 0") in
  fail_if (PollSeconds p <? 0)%Z
    with EStr (path +:+ ".propagation.poll_seconds must be >= 0") in
  fail_if (MinConsecutiveSuccesses p <? 0)%Z
    with EStr (path +:+ ".propagation.min_consecutive_successes must be >= 0") in
  fail_if ((QuorumPercent p <? 0) || (100 <? QuorumPercent p))%Z
    with EStr (path +:+ ".propagation.quorum_percent must be between 0 and 100") in
  fail_if ((mode !=? "strict") && (mode !=? "permissive"))
    with EStr (path +:+ ".delegation.mode must be strict or permissive") in
  validate_suffixes path 0 (AllowedZoneSuffixes (Delegation hook)).

Definition validate_upstream (name : string) (up : UpstreamConfig) : result unit :=
  fail_if (DirectoryURL up ==? "")
    with EStr ("upstreams." +:+ name +:+ ": directory_url is required") in
  fail_if ((1 <? AccountCount up)%Z && match EAB up with Some _ => true | None => false end)
    with EStr ("upstreams." +:+ name +:+ ": account_count > 1 requires no EAB (each account needs its own credential; configure separate upstream entries instead)") in
  validateDNSHookPolicy ("upstreams." +:+ name +:+ ".dns_hook") (up_DNSHook up).

(** The [range] over the map visits the entries in an unspecified order: the
    list it produces is an argument. *)
Fixpoint validate_upstreams (ups : list (string * UpstreamConfig)) : result unit :=
  match ups with
  | [] => Ok tt
  | (name, up) :: ups => let? _ := validate_upstream name up in validate_upstreams ups
  end.

Definition has_key {V} (m : gmap string V) (k : string) : bool :=
  match m !! k with Some _ => true | None => false end.

Definition rule_prefix (i : nat) : string := "routing.rules[" +:+ pretty i +:+ "]: ".

Definition bad_key_type (kt : string) : bool :=
  (kt !=? "") && (kt !=? "RSA") && (kt !=? "ECDSA").

(** One turn of the rules loop: the rule as the loop leaves it. *)
Definition validate_rule (cfg : Config) (i : nat) (rule : RoutingRule) : result RoutingRule :=
  let kt := ToUpper (match_KeyType (rule_Match rule)) in
  let rct := ToUpper (rule_RequireCSRKeyType rule) in
  fail_if (rule_Upstream rule ==? "")
    with EStr (rule_prefix i +:+ "upstream is required") in
  fail_if (negb (has_key (Upstreams cfg) (rule_Upstream rule)))
    with EStr (rule_prefix i +:+ "upstream " +:+ Quote (rule_Upstream rule) +:+ " not found in upstreams") in
  fail_if ((match_Profile (rule_Match rule) !=? "")
           && negb (has_key (Profiles cfg) (match_Profile (rule_Match rule))))
    with EStr (rule_prefix i +:+ "profile " +:+ Quote (match_Profile (rule_Match rule)) +:+ " not defined in profiles map") in
  fail_if (bad_key_type kt)
    with EStr (rule_prefix i +:+ "key_type must be RSA or ECDSA, got " +:+ Quote (match_KeyType (rule_Match rule))) in
  fail_if (bad_key_type rct)
    with EStr (rule_prefix i +:+ "require_csr_key_type must be RSA or ECDSA, got " +:+ Quote (rule_RequireCSRKeyType rule)) in
  Ok (MkRoutingRule (rule_Match rule) (rule_Upstream rule) (rule_UpstreamProfile rule) rct).

Fixpoint validate_rules (cfg : Config) (i : nat) (rules : list RoutingRule)
    : result (list RoutingRule) :=
  match rules with
  | [] => Ok []
  | r :: rules =>
      let? r' := validate_rule cfg i r in
      let? rest := validate_rules cfg (S i) rules in
      Ok (r' :: rest)
  end.

(** The TLS-mode checks at the end of [validate]. *)
Definition validate_tls (cfg : Config) : result unit :=
  let b := Bootstrap cfg in
  if negb (TLSEnabled (Server cfg)) then
    fail_if (boot_Enabled b)
      with EStr "bootstrap.enabled cannot be true when server.tls is false: certificate management is unnecessary when TLS is terminated externally" in
    Ok tt
  else if boot_Enabled b then
    fail_if (boot_Upstream b ==? "")
      with EStr "bootstrap.upstream is required when bootstrap is enabled" in
    fail_if (negb (has_key (Upstreams cfg) (boot_Upstream b)))
      with EStr ("bootstrap.upstream " +:+ Quote (boot_Upstream b) +:+ " not found in upstreams") in
    fail_if (boot_Domain b ==? "")
      with EStr "bootstrap.domain is required when bootstrap is enabled" in
    fail_if ((CertPath b ==? "") || (KeyPath b ==? ""))
      with EStr "bootstrap.cert_path and bootstrap.key_path are required when bootstrap is enabled" in
    validateDNSHookPolicy "bootstrap.dns_hook" (boot_DNSHook b)
  else
    fail_if ((CertPath b ==? "") || (KeyPath b ==? ""))
      with EStr "bootstrap.cert_path and bootstrap.key_path are required when bootstrap.enabled is false (externally-managed cert)" in
    Ok tt.

Definition default_listen (s : ServerConfig) : ServerConfig :=
  if Listen s ==? ""
  then MkServerConfig (if TLSEnabled s then ":443" else ":80") (BaseURL s) (TLS s)
  else s.

Definition with_server_rules (cfg : Config) (s : ServerConfig) (rules : list RoutingRule)
    : Config :=
  MkConfig s (State cfg) (Bootstrap cfg) (Upstreams cfg) (Profiles cfg)
    (MkRoutingConfig rules (DefaultUpstream (Routing cfg))).

(** [validate]: [ups] is the order in which [range cfg.Upstreams] visits the
    map.  The result is the configuration as the function leaves it. *)
Definition validate (ups : list (string * UpstreamConfig)) (cfg : Config) : result Config :=
  fail_if (BaseURL (Server cfg) ==? "") with EStr "server.base_url is required" in
  fail_if (HasSuffix (BaseURL (Server cfg)) "/")
    with EStr "server.base_url must not have a trailing slash" in
  fail_if (DBPath (State cfg) ==? "") with EStr "state.db_path is required" in
  fail_if (bool_decide (Upstreams cfg = ∅))
    with EStr "at least one upstream must be configured" in
  let? _ := validate_upstreams ups in
  let? rules := validate_rules cfg 0 (Rules (Routing cfg)) in
  fail_if ((DefaultUpstream (Routing cfg) !=? "")
           && negb (has_key (Upstreams cfg) (DefaultUpstream (Routing cfg))))
    with EStr ("routing.default_upstream " +:+ Quote (DefaultUpstream (Routing cfg)) +:+ " not found in upstreams") in
  fail_if (negb (HasPrefix (BaseURL (Server cfg)) "https://"))
    with EStr "server.base_url must begin with https://: ACME clients connect via https:// and this URL is embedded verbatim in signed JWS requests" in
  let? _ := validate_tls cfg in
  Ok (with_server_rules cfg (default_listen (Server cfg)) rules).

(** [Load]: the file read, the environment and the YAML decoder are the
    caller's; [range_order] is the order the map is visited in. *)
Definition Load (ReadFile : string → result string) (LookupEnv : string → option string)
    (yaml_Unmarshal : string → result Config)
    (range_order : gmap string UpstreamConfig → list (string * UpstreamConfig))
    (path : string) : result Config :=
  match ReadFile path with
  | Err e => Wrapf "reading config: " e
  | Ok data =>
      match yaml_Unmarshal (interpolateEnv LookupEnv data) with
      | Err e => Wrapf "parsing config: " e
      | Ok cfg =>
          match validate (range_order (Upstreams cfg)) cfg with
          | Err e => Wrapf "invalid config: " e
          | Ok cfg' => Ok cfg'
          end
      end
  end.

(** ** What [validate] promises

    [config_ok] is the contract of a configuration that the rest of the
    gateway relies on, written without the order of the checks and without
    the map's iteration order. *)
Definition hook_ok (h : DNSHook) : Prop :=
  (0 ≤ TimeoutSeconds (Propagation h))%Z
  ∧ (0 ≤ PollSeconds (Propagation h))%Z
  ∧ (0 ≤ MinConsecutiveSuccesses (Propagation h))%Z
  ∧ (0 ≤ QuorumPercent (Propagation h) ≤ 100)%Z
  ∧ (ModeOrDefault (Delegation h) = "strict" ∨ ModeOrDefault (Delegation h) = "permissive")
  ∧ ∀ s, s ∈ AllowedZoneSuffixes (Delegation h) → TrimSpace s ≠ "".

Definition upstream_ok (up : UpstreamConfig) : Prop :=
  DirectoryURL up ≠ ""
  ∧ ((AccountCount up ≤ 1)%Z ∨ EAB up = None)
  ∧ hook_ok (up_DNSHook up).

Definition key_type_ok (kt : string) : Prop :=
  ToUpper kt = "" ∨ ToUpper kt = "RSA" ∨ ToUpper kt = "ECDSA".

Definition rule_ok (cfg : Config) (r : RoutingRule) : Prop :=
  rule_Upstream r ≠ ""
  ∧ is_Some (Upstreams cfg !! rule_Upstream r)
  ∧ (match_Profile (rule_Match r) = "" ∨ is_Some (Profiles cfg !! match_Profile (rule_Match r)))
  ∧ key_type_ok (match_KeyType (rule_Match r))
  ∧ key_type_ok (rule_RequireCSRKeyType r).

Definition tls_ok (cfg : Config) : Prop :=
  let b := Bootstrap cfg in
  if TLSEnabled (Server cfg) then
    CertPath b ≠ "" ∧ KeyPath b ≠ ""
    ∧ (boot_Enabled b = true →
       boot_Upstream b ≠ "" ∧ is_Some (Upstreams cfg !! boot_Upstream b)
       ∧ boot_Domain b ≠ "" ∧ hook_ok (boot_DNSHook b))
  else boot_Enabled b = false.

Definition config_ok (cfg : Config) : Prop :=
  (∃ rest, BaseURL (Server cfg) = "https://" +:+ rest)
  ∧ HasSuffix (BaseURL (Server cfg)) "/" = false
  ∧ DBPath (State cfg) ≠ ""
  ∧ Upstreams cfg ≠ ∅
  ∧ map_Forall (λ _, upstream_ok) (Upstreams cfg)
  ∧ Forall (rule_ok cfg) (Rules (Routing cfg))
  ∧ (DefaultUpstream (Routing cfg) = "" ∨ is_Some (Upstreams cfg !! DefaultUpstream (Routing cfg)))
  ∧ tls_ok cfg.

Definition normalise_rule (r : RoutingRule) : RoutingRule :=
  MkRoutingRule (rule_Match r) (rule_Upstream r) (rule_UpstreamProfile r)
    (ToUpper (rule_RequireCSRKeyType r)).

Definition normalise (cfg : Config) : Config :=
  with_server_rules cfg (default_listen (Server cfg)) (normalise_rule <$> Rules (Routing cfg)).

(** ** Lemmas *)
Lemma has_key_true {V} (m : gmap string V) k : has_key m k = true ↔ is_Some (m !! k).
Proof. unfold has_key. destruct (m !! k); naive_solver eauto. Qed.
Lemma has_key_false {V} (m : gmap string V) k : has_key m k = false ↔ m !! k = None.
Proof. unfold has_key. by destruct (m !! k). Qed.
#[export] Hint Rewrite @has_key_true : gateway_rw.

Lemma validate_suffixes_ok path i l :
  validate_suffixes path i l = Ok tt ↔ ∀ s, s ∈ l → TrimSpace s ≠ "".
Proof.
  revert i; induction l as [|s l IH]; intros i; simpl.
  - split; [intros _ s Hs; by apply elem_of_nil in Hs|done].
  - unfold validate_suffix. setoid_rewrite elem_of_cons.
    destruct (String.eqb_spec (TrimSpace s) "") as [E|E]; simpl.
    + split; [done|]. intros H. by destruct (H s); [left|].
    + rewrite IH. naive_solver.
Qed.

Lemma validateDNSHookPolicy_ok path h :
  validateDNSHookPolicy path h = Ok tt ↔ hook_ok h.
Proof.
  unfold validateDNSHookPolicy, hook_ok. rewrite !fail_if_ok, validate_suffixes_ok.
  rewrite !Z.ltb_ge, orb_false_iff, !Z.ltb_ge, andb_false_iff, !neqb_false.
  naive_solver lia.
Qed.

Lemma validate_upstream_ok name up : validate_upstream name up = Ok tt ↔ upstream_ok up.
Proof.
  unfold validate_upstream, upstream_ok.
  rewrite !fail_if_ok, validateDNSHookPolicy_ok, String.eqb_neq, andb_false_iff, Z.ltb_ge.
  destruct (EAB up); naive_solver.
Qed.

Lemma validate_upstreams_ok ups :
  validate_upstreams ups = Ok tt ↔ ∀ name up, (name, up) ∈ ups → upstream_ok up.
Proof.
  induction ups as [|[n u] ups IH]; simpl.
  - split; [|done]. intros _ ?? H. by apply elem_of_nil in H.
  - setoid_rewrite elem_of_cons. rewrite result_bind_ok. split.
    + intros ([] & Hu%validate_upstream_ok & Hr) name up [[= -> ->]|Hin]; [done|].
      rewrite IH in Hr. eauto.
    + intros H. exists tt. rewrite validate_upstream_ok, IH. naive_solver.
Qed.

Lemma bad_key_type_ok kt : bad_key_type (ToUpper kt) = false ↔ key_type_ok kt.
Proof.
  unfold bad_key_type, key_type_ok. rewrite !andb_false_iff, !neqb_false. tauto.
Qed.

Lemma validate_rule_ok cfg i r r' :
  validate_rule cfg i r = Ok r' ↔ rule_ok cfg r ∧ r' = normalise_rule r.
Proof.
  unfold validate_rule, rule_ok. rewrite !fail_if_ok, String.eqb_neq, !bad_key_type_ok.
  rewrite negb_false_iff, has_key_true, andb_false_iff, neqb_false, negb_false_iff, has_key_true.
  unfold normalise_rule. naive_solver.
Qed.

Lemma validate_rules_ok cfg i rules rules' :
  validate_rules cfg i rules = Ok rules' ↔
  Forall (rule_ok cfg) rules ∧ rules' = normalise_rule <$> rules.
Proof.
  revert i rules'; induction rules as [|r rules IH]; intros i rules'; simpl.
  - naive_solver.
  - rewrite result_bind_ok, Forall_cons. setoid_rewrite result_bind_ok.
    setoid_rewrite validate_rule_ok. setoid_rewrite IH. naive_solver.
Qed.

Lemma validate_tls_ok cfg : validate_tls cfg = Ok tt ↔ tls_ok cfg.
Proof.
  unfold validate_tls, tls_ok. destruct (TLSEnabled (Server cfg)); simpl.
  - destruct (boot_Enabled (Bootstrap cfg)).
    + rewrite !fail_if_ok, validateDNSHookPolicy_ok, !String.eqb_neq, negb_false_iff,
        has_key_true, orb_false_iff, !String.eqb_neq. naive_solver.
    + rewrite fail_if_ok, orb_false_iff, !String.eqb_neq. naive_solver.
  - rewrite fail_if_ok. naive_solver.
Qed.

Lemma validate_upstreams_map ups (m : gmap string UpstreamConfig) :
  ups ≡ₚ map_to_list m →
  validate_upstreams ups = Ok tt ↔ map_Forall (λ _, upstream_ok) m.
Proof.
  intros Hp. rewrite validate_upstreams_ok. split.
  - intros H name up Hm. apply (H name). rewrite Hp. by apply elem_of_map_to_list.
  - intros H name up. rewrite Hp. intros Hin%elem_of_map_to_list. by eapply H.
Qed.

(** C39: [validate] accepts exactly the configurations that satisfy the
    contract, whatever order the upstreams map is visited in, and returns
    them with the listener default filled in and the required CSR key types
    in upper case. *)
Theorem validate_iff ups cfg cfg' :
  ups ≡ₚ map_to_list (Upstreams cfg) →
  validate ups cfg = Ok cfg' ↔ config_ok cfg ∧ cfg' = normalise cfg.
Proof.
  intros Hp. unfold validate, config_ok, normalise.
  rewrite !fail_if_ok, result_bind_ok, !String.eqb_neq.
  repeat (setoid_rewrite result_bind_ok || setoid_rewrite fail_if_ok).
  setoid_rewrite validate_rules_ok.
  rewrite bool_decide_eq_false.
  setoid_rewrite andb_false_iff. setoid_rewrite neqb_false.
  setoid_rewrite negb_false_iff. setoid_rewrite has_key_true. setoid_rewrite HasPrefix_spec.
  split.
  - intros (Hb & Hs & Hdb & Hne & [] & Hu%(validate_upstreams_map _ _ Hp) & rules & [Hr ->]
      & Hdef & Hpre & [] & Ht%validate_tls_ok & [= <-]). tauto.
  - intros [(Hpre & Hs & Hdb & Hne & Hu & Hr & Hdef & Ht) ->].
    split; [destruct Hpre as [? ->]; done|]. do 3 (split; [done|]).
    exists tt. split; [by apply (validate_upstreams_map _ _ Hp)|].
    eexists; split; [done|]. do 2 (split; [done|]).
    exists tt. split; [by apply validate_tls_ok|done].
Qed.

Lemma ToUpper_idemp s : ToUpper (ToUpper s) = ToUpper s.
Proof.
  unfold ToUpper. rewrite str_map_map. apply str_map_ext.
  intros [[] [] [] [] [] [] [] []]; reflexivity.
Qed.

Lemma normalise_rule_idemp r : normalise_rule (normalise_rule r) = normalise_rule r.
Proof. unfold normalise_rule; simpl. by rewrite ToUpper_idemp. Qed.

Lemma default_listen_idemp s : default_listen (default_listen s) = default_listen s.
Proof.
  unfold default_listen at 2 3. destruct (Listen s ==? "") eqn:E; unfold default_listen; simpl.
  - by destruct (TLSEnabled s).
  - by rewrite E.
Qed.

Lemma normalise_idemp cfg : normalise (normalise cfg) = normalise cfg.
Proof.
  unfold normalise, with_server_rules; simpl. rewrite default_listen_idemp.
  rewrite <-list_fmap_compose. do 2 f_equal. apply list_fmap_ext.
  intros i r _. apply normalise_rule_idemp.
Qed.

Lemma rule_ok_normalise cfg r : rule_ok cfg r → rule_ok (normalise cfg) (normalise_rule r).
Proof.
  unfold rule_ok, key_type_ok. simpl. rewrite ToUpper_idemp. tauto.
Qed.

Lemma TLSEnabled_default s : TLSEnabled (default_listen s) = TLSEnabled s.
Proof. unfold default_listen. by destruct (Listen s ==? ""). Qed.
Lemma BaseURL_default s : BaseURL (default_listen s) = BaseURL s.
Proof. unfold default_listen. by destruct (Listen s ==? ""). Qed.

Lemma config_ok_normalise cfg : config_ok cfg → config_ok (normalise cfg).
Proof.
  unfold config_ok, tls_ok. simpl. rewrite BaseURL_default, TLSEnabled_default.
  intros (?&?&?&?&?&Hr&?&?). do 5 (split; [done|]). split; [|done].
  apply Forall_fmap, (Forall_impl _ _ _ Hr). intros r. apply rule_ok_normalise.
Qed.

(** A configuration that [validate] returned is accepted again and comes
    back unchanged: everything downstream of [Load] sees a fixed point. *)
Theorem validate_idempotent ups cfg cfg' :
  ups ≡ₚ map_to_list (Upstreams cfg) →
  validate ups cfg = Ok cfg' → validate ups cfg' = Ok cfg'.
Proof.
  intros Hp. rewrite (validate_iff _ _ _ Hp). intros [Hok ->].
  apply validate_iff; [done|]. split; [by apply config_ok_normalise|].
  by rewrite normalise_idemp.
Qed.

(** ** Interpolation *)
Definition token (name : string) : string := "${" +:+ name +:+ "}".

Fixpoint no_byte (c : ascii) (s : string) : bool :=
  match s with
  | "" => true
  | String a s => negb (Ascii.eqb a c) && no_byte c s
  end.

Lemma until_brace_app name post :
  no_byte "}" name = true → until_brace (name +:+ String "}" post) = Some name.
Proof.
  induction name as [|c name IH]; simpl; [done|].
  rewrite andb_true_iff, negb_true_iff. intros [-> Hn]. by rewrite IH.
Qed.

Lemma env_token_app name post :
  name ≠ "" → no_byte "}" name = true →
  env_token (token name +:+ post) = Some name.
Proof.
  intros Hne Hn. unfold token, env_token; simpl.
  rewrite <-app_assoc_str; simpl. rewrite until_brace_app by done. by destruct name.
Qed.

Lemma interpolate_skip LookupEnv (u v : string) :
  interpolate_from LookupEnv (String.length u) (u +:+ v) = interpolateEnv LookupEnv v.
Proof. induction u as [|c u IH]; simpl; [by destruct v|done]. Qed.

Lemma env_token_not_dollar c s : c ≠ "$"%char → env_token (String c s) = None.
Proof.
  intros Hc. unfold env_token. destruct s; [done|].
  rewrite (proj2 (Ascii.eqb_neq _ _) Hc). done.
Qed.

Lemma interpolate_pre LookupEnv (pre s : string) :
  no_byte "$" pre = true →
  interpolateEnv LookupEnv (pre +:+ s) = pre +:+ interpolateEnv LookupEnv s.
Proof.
  unfold interpolateEnv. induction pre as [|c pre IH]; [done|].
  cbn [no_byte]. rewrite andb_true_iff, negb_true_iff, Ascii.eqb_neq. intros [Hc Hp].
  change (String c pre +:+ s) with (String c (pre +:+ s)). cbn [interpolate_from].
  rewrite env_token_not_dollar by done. rewrite IH by done. done.
Qed.

(** The token at the head of a string is a prefix of it. *)
Lemma until_brace_split s name :
  until_brace s = Some name → ∃ post, s = name +:+ String "}" post.
Proof.
  revert name; induction s as [|c s IH]; intros name; simpl; [done|].
  destruct (Ascii.eqb_spec c "}"%char) as [->|_].
  - intros [= <-]. by exists s.
  - destruct (until_brace s) as [n|]; simpl; [|done]. intros [= <-].
    destruct (IH n) as [post ->]; [done|]. by exists post.
Qed.

Lemma env_token_split s name :
  env_token s = Some name → ∃ post, s = token name +:+ post.
Proof.
  unfold env_token. destruct s as [|a [|b rest]]; [done..|].
  destruct (Ascii.eqb_spec a "$"%char) as [->|]; [|done].
  destruct (Ascii.eqb_spec b "{"%char) as [->|]; simpl; [|done].
  destruct (until_brace rest) as [n|] eqn:E; [|done].
  apply until_brace_split in E as [post ->]. intros H. exists post.
  destruct n; [done|]. injection H as <-. unfold token. by rewrite <-!app_assoc_str.
Qed.

Lemma length_token name : String.length (token name) = (String.length name + 3)%nat.
Proof. unfold token. rewrite !length_app_str. simpl. lia. Qed.

Lemma interpolate_token LookupEnv s name post :
  s = token name +:+ post → env_token s = Some name →
  interpolateEnv LookupEnv s =
  default (token name) (LookupEnv name) +:+ interpolateEnv LookupEnv post.
Proof.
  intros -> Hs. unfold interpolateEnv at 1.
  assert (∃ u, token name = String "$" u) as [u Hu] by (by eexists).
  assert (String.length name + 3 - 1 = String.length u)%nat as Hl.
  { rewrite <-length_token, Hu. simpl. lia. }
  rewrite Hu in *. change (String "$" u +:+ post) with (String "$" (u +:+ post)) in *.
  cbn [interpolate_from]. rewrite Hs, Hl, interpolate_skip.
  destruct (LookupEnv name); [done|]. f_equal.
  replace (String.length name + 3)%nat with (String.length (token name))
    by apply length_token.
  rewrite Hu. change (String "$" (u +:+ post)) with (String "$" u +:+ post).
  apply str_take_app.
Qed.

(** Interpolation replaces the first [${NAME}] token by the variable's
    value, or leaves the token in place when the variable is not set, copies
    the text before it and goes on after it; a value is not scanned again. *)
Theorem interpolateEnv_token LookupEnv pre name post :
  no_byte "$" pre = true → name ≠ "" → no_byte "}" name = true →
  interpolateEnv LookupEnv (pre +:+ token name +:+ post) =
  pre +:+ default (token name) (LookupEnv name) +:+ interpolateEnv LookupEnv post.
Proof.
  intros Hpre Hne Hn. rewrite interpolate_pre by done. f_equal.
  apply interpolate_token; [done|]. by apply env_token_app.
Qed.

(** With no variable set, any text comes back unchanged. *)
Lemma interpolateEnv_unset LookupEnv s :
  (∀ n, LookupEnv n = None) → interpolateEnv LookupEnv s = s.
Proof.
  intros Hn. remember (String.length s) as n eqn:Hlen. revert s Hlen.
  induction (lt_wf n) as [n _ IH]; intros s ->.
  destruct (env_token s) as [name|] eqn:E.
  - pose proof (env_token_split _ _ E) as [post Hs].
    rewrite (interpolate_token _ _ _ _ Hs E), Hn.
    assert (interpolateEnv LookupEnv post = post) as ->; [|done].
    eapply IH; [|done]. rewrite Hs, length_app_str, length_token. lia.
  - destruct s as [|c s]; [done|].
    unfold interpolateEnv. cbn [interpolate_from]. rewrite E. f_equal.
    eapply (IH (String.length s)); [simpl; lia|done].
Qed.

(** ** Durations *)
Lemma wrap64_small z : (- 2 ^ 63 ≤ z < 2 ^ 63)%Z → wrap64 z = z.
Proof. intros H. unfold wrap64. rewrite Z.mod_small; lia. Qed.

Lemma wrap64_range z : (- 2 ^ 63 ≤ wrap64 z < 2 ^ 63)%Z.
Proof. unfold wrap64. pose proof (Z.mod_pos_bound (z + 2 ^ 63) (2 ^ 64)). lia. Qed.

(** The largest second count whose [time.Duration] does not overflow. *)
Definition max_seconds : Z := 9223372036.

Lemma seconds_exact v : (0 ≤ v ≤ max_seconds)%Z → seconds v = (v * second)%Z.
Proof. unfold max_seconds, seconds, second. intros H. apply wrap64_small. lia. Qed.

(** Every defaulted duration and count of a propagation policy is
    positive (the settle delay non-negative) as long as the configured
    seconds fit a [time.Duration], so the wait loop has a deadline in the
    future, a timer that fires and a reachable streak. *)
Theorem propagation_defaults_positive p :
  (TimeoutSeconds p ≤ max_seconds)%Z → (PollSeconds p ≤ max_seconds)%Z →
  (SettleSeconds p ≤ max_seconds)%Z →
  (second ≤ TimeoutOrDefault p)%Z ∧ (second ≤ PollOrDefault p)%Z
  ∧ (1 ≤ MinConsecutiveOrDefault p)%Z ∧ (1 ≤ QuorumPercentOrDefault p)%Z
  ∧ (0 ≤ SettleDelayOrDefault p)%Z.
Proof.
  unfold TimeoutOrDefault, PollOrDefault, MinConsecutiveOrDefault, QuorumPercentOrDefault,
    SettleDelayOrDefault. intros Ht Hp Hs.
  repeat case_match; rewrite ?Z.leb_le, ?Z.leb_gt in *;
    rewrite ?seconds_exact by (unfold max_seconds in *; lia);
    unfold second, max_seconds in *; repeat split; lia.
Qed.

(** Beyond that bound the product wraps: a timeout that [validate] accepts
    becomes a negative duration. *)
Example timeout_overflow :
  (TimeoutOrDefault (MkDNSPropagationPolicy None (max_seconds + 1) 0 0 0 0) < 0)%Z.
Proof. vm_compute. reflexivity. Qed.
