(* ===== verification/Router.v ===== *)
(** * Routing rules (internal/router/router.go)

    [Route] evaluates the rules in order; [ResolveUpstreamProfile] computes
    the profile sent upstream.  The theorems say that the first matching rule
    decides, and that on a validated configuration the chosen upstream
    exists. *)
From S2P Require Export Config.


Record Decision := MkDecision {
  dec_UpstreamID : string;
  dec_UpstreamProfile : string;
  dec_RequireCSRKeyType : string
}.

Record Request := MkRequest {
  req_Profile : string;
  req_KeyType : string;
  req_Identifiers : list Identifier
}.

Fixpoint anyIdentifierHasSuffix (ids : list Identifier) (suffix : string) : bool :=
  match ids with
  | [] => false
  | id :: ids =>
      if HasSuffix (id_Value id) suffix then true else anyIdentifierHasSuffix ids suffix
  end.

Definition matches (mc : MatchConfig) (req : Request) : bool :=
  if (match_Profile mc !=? "") && (match_Profile mc !=? req_Profile req) then false
  else if (match_KeyType mc !=? "") && negb (EqualFold (match_KeyType mc) (req_KeyType req)) then false
  else if (match_DomainSuffix mc !=? "")
          && negb (anyIdentifierHasSuffix (req_Identifiers req) (match_DomainSuffix mc)) then false
  else true.

Fixpoint Route_rules (rules : list RoutingRule) (default_up : string) (req : Request) : Decision :=
  match rules with
  | [] => MkDecision default_up "" ""
  | rule :: rules =>
      if matches (rule_Match rule) req
      then MkDecision (rule_Upstream rule) (rule_UpstreamProfile rule) (rule_RequireCSRKeyType rule)
      else Route_rules rules default_up req
  end.

Definition Route (cfg : RoutingConfig) (req : Request) : Decision :=
  Route_rules (Rules cfg) (DefaultUpstream cfg) req.

Definition ResolveUpstreamProfile (d : Decision) (inboundProfile : string) : string :=
  if dec_UpstreamProfile d ==? "" then ""
  else if dec_UpstreamProfile d ==? UpstreamProfilePassthrough then inboundProfile
  else dec_UpstreamProfile d.

(** ** Specification *)

(** What a match block means: every non-empty field holds of the request. *)
Definition match_spec (mc : MatchConfig) (req : Request) : Prop :=
  (match_Profile mc = "" ∨ match_Profile mc = req_Profile req)
  ∧ (match_KeyType mc = "" ∨ ToLower (match_KeyType mc) = ToLower (req_KeyType req))
  ∧ (match_DomainSuffix mc = "" ∨
     ∃ id t, id ∈ req_Identifiers req ∧ id_Value id = t +:+ match_DomainSuffix mc).

Definition rule_decision (r : RoutingRule) : Decision :=
  MkDecision (rule_Upstream r) (rule_UpstreamProfile r) (rule_RequireCSRKeyType r).

Lemma anyIdentifierHasSuffix_spec ids suffix :
  anyIdentifierHasSuffix ids suffix = true ↔
  ∃ id t, id ∈ ids ∧ id_Value id = t +:+ suffix.
Proof.
  induction ids as [|i ids IH]; simpl.
  - split; [done|]. by intros (?&?&?%elem_of_nil&_).
  - setoid_rewrite elem_of_cons. destruct (HasSuffix (id_Value i) suffix) eqn:E.
    + apply HasSuffix_spec in E as [t Ht]. naive_solver.
    + rewrite IH. split; [naive_solver|].
      intros (id & t & [->|Hin] & Hv); [|by eauto].
      assert (HasSuffix (id_Value i) suffix = true); [|congruence].
      apply HasSuffix_spec. eauto.
Qed.

Lemma matches_spec mc req : matches mc req = true ↔ match_spec mc req.
Proof.
  unfold matches, match_spec. rewrite <-anyIdentifierHasSuffix_spec, <-EqualFold_spec.
  destruct (String.eqb_spec (match_Profile mc) ""), (String.eqb_spec (match_Profile mc) (req_Profile req)),
    (String.eqb_spec (match_KeyType mc) ""), (EqualFold (match_KeyType mc) (req_KeyType req)),
    (String.eqb_spec (match_DomainSuffix mc) ""),
    (anyIdentifierHasSuffix (req_Identifiers req) (match_DomainSuffix mc)); simpl;
    intuition congruence.
Qed.

Lemma Route_rules_find rules default_up req :
  Route_rules rules default_up req =
  match List.find (λ r, matches (rule_Match r) req) rules with
  | Some r => rule_decision r
  | None => MkDecision default_up "" ""
  end.
Proof.
  induction rules as [|r rules IH]; simpl; [done|].
  destruct (matches (rule_Match r) req); [done|apply IH].
Qed.

(** The decision is that of the first rule, in configuration order,
    whose match block holds of the request; the default upstream, with no
    profile and no key-type constraint, exactly when no rule matches. *)
Theorem Route_first_match cfg req :
  (∃ rs1 r rs2, Rules cfg = rs1 ++ r :: rs2
     ∧ match_spec (rule_Match r) req
     ∧ Forall (λ r', ¬ match_spec (rule_Match r') req) rs1
     ∧ Route cfg req = rule_decision r)
  ∨ (Forall (λ r', ¬ match_spec (rule_Match r') req) (Rules cfg)
     ∧ Route cfg req = MkDecision (DefaultUpstream cfg) "" "").
Proof.
  assert (∀ l, Forall (λ r, matches (rule_Match r) req = false) l →
               Forall (λ r, ¬ match_spec (rule_Match r) req) l) as Hno.
  { intros l H. eapply Forall_impl; [exact H|]. intros r Hr.
    rewrite <-matches_spec. by rewrite Hr. }
  unfold Route. rewrite Route_rules_find.
  destruct (List.find _ (Rules cfg)) as [r|] eqn:E.
  - apply find_some_split in E as (rs1 & rs2 & Hl & Hr%matches_spec & Hn).
    left. exists rs1, r, rs2. eauto.
  - apply find_none_forall in E. right. eauto.
Qed.

(** C40: on a validated configuration the chosen upstream is one of the
    configured upstreams, or empty when no rule matches and no default is
    set; and the required CSR key type is empty, RSA or ECDSA in that very
    spelling, which is what the finalize check compares with. *)
Theorem Route_validated ups cfg cfg' req :
  ups ≡ₚ map_to_list (Upstreams cfg) → validate ups cfg = Ok cfg' →
  let d := Route (Routing cfg') req in
  (dec_UpstreamID d = "" ∧ DefaultUpstream (Routing cfg') = ""
   ∨ is_Some (Upstreams cfg' !! dec_UpstreamID d))
  ∧ (dec_RequireCSRKeyType d = "" ∨ dec_RequireCSRKeyType d = KeyTypeRSA
     ∨ dec_RequireCSRKeyType d = KeyTypeECDSA).
Proof.
  intros Hp [Hok ->]%(validate_iff _ _ _ Hp).
  pose proof (config_ok_normalise _ Hok) as (_&_&_&_&_&Hr&Hdef&_).
  unfold Route. rewrite Route_rules_find.
  destruct (List.find _ _) as [r|] eqn:E; simpl; [|naive_solver].
  apply List.find_some in E as [Hin%list_elem_of_In _].
  assert (∃ r0, r = normalise_rule r0) as [r0 ->].
  { apply list_elem_of_fmap in Hin as (r0 & -> & _). by exists r0. }
  rewrite Forall_forall in Hr. destruct (Hr _ Hin) as (_ & Hup & _ & _ & Hkt).
  unfold key_type_ok in Hkt. simpl in *. rewrite ToUpper_idemp in Hkt. auto.
Qed.

(** The profile sent upstream: nothing when the rule has no profile, the
    client's own with the passthrough sentinel, the rule's otherwise. *)
Theorem ResolveUpstreamProfile_spec d p :
  (dec_UpstreamProfile d = "" ∧ ResolveUpstreamProfile d p = "")
  ∨ (dec_UpstreamProfile d = UpstreamProfilePassthrough ∧ ResolveUpstreamProfile d p = p)
  ∨ (dec_UpstreamProfile d ≠ "" ∧ dec_UpstreamProfile d ≠ UpstreamProfilePassthrough
     ∧ ResolveUpstreamProfile d p = dec_UpstreamProfile d).
Proof.
  unfold ResolveUpstreamProfile.
  destruct (String.eqb_spec (dec_UpstreamProfile d) ""); [by left|right].
  destruct (String.eqb_spec (dec_UpstreamProfile d) UpstreamProfilePassthrough); auto.
Qed.

(** ** Witnesses *)
Definition ex_upstream : UpstreamConfig :=
  MkUpstreamConfig "https://ca.example/directory" "ops@example.com" None zero_DNSHook 0 "".
Definition ex_rule : RoutingRule :=
  MkRoutingRule (MkMatchConfig "" "rsa" "") "le" "$passthrough" "rsa".
Definition ex_config : Config :=
  MkConfig (MkServerConfig "" "https://gw.example" (Some false)) (MkStateConfig "/db")
    zero_Bootstrap {["le" := ex_upstream]} ∅ (MkRoutingConfig [ex_rule] "").

Lemma ex_config_valid :
  validate [("le", ex_upstream)] ex_config = Ok (normalise ex_config).
Proof. vm_compute. reflexivity. Qed.

Lemma ex_config_order : [("le", ex_upstream)] ≡ₚ map_to_list (Upstreams ex_config).
Proof. cbn [Upstreams ex_config]. by rewrite map_to_list_singleton. Qed.

Lemma validate_iff_witness :
  config_ok ex_config ∧ normalise ex_config = normalise ex_config.
Proof. apply (validate_iff _ _ _ ex_config_order), ex_config_valid. Defined.

Lemma validate_idempotent_witness :
  validate [("le", ex_upstream)] (normalise ex_config) = Ok (normalise ex_config).
Proof. apply (validate_idempotent _ ex_config _ ex_config_order), ex_config_valid. Defined.

Lemma Route_validated_witness :
  let d := Route (Routing (normalise ex_config)) (MkRequest "" "RSA" []) in
  (dec_UpstreamID d = "" ∧ DefaultUpstream (Routing (normalise ex_config)) = ""
   ∨ is_Some (Upstreams (normalise ex_config) !! dec_UpstreamID d))
  ∧ (dec_RequireCSRKeyType d = "" ∨ dec_RequireCSRKeyType d = KeyTypeRSA
     ∨ dec_RequireCSRKeyType d = KeyTypeECDSA).
Proof. apply (Route_validated _ ex_config _ _ ex_config_order), ex_config_valid. Defined.

Lemma interpolateEnv_token_witness :
  let lookup n := if n ==? "KID" then Some "k1" else None in
  interpolateEnv lookup ("key_id: " +:+ token "KID" +:+ " ${NOPE} ${}") =
  "key_id: k1 ${NOPE} ${}".
Proof.
  intros lookup.
  rewrite (interpolateEnv_token lookup "key_id: " "KID" " ${NOPE} ${}")
    by (reflexivity || discriminate).
  vm_compute. reflexivity.
Defined.

Lemma propagation_defaults_positive_witness :
  (second ≤ TimeoutOrDefault zero_propagation)%Z ∧ (second ≤ PollOrDefault zero_propagation)%Z
  ∧ (1 ≤ MinConsecutiveOrDefault zero_propagation)%Z
  ∧ (1 ≤ QuorumPercentOrDefault zero_propagation)%Z
  ∧ (0 ≤ SettleDelayOrDefault zero_propagation)%Z.
Proof. apply propagation_defaults_positive; vm_compute; discriminate. Defined.
