(* ===== verification/RFC3339.v ===== *)
(** * [time.Format] and [time.Parse] with the RFC 3339 layout, in UTC

    The store keeps every instant as RFC 3339 text.  The calendar is the
    proleptic Gregorian one of Go's [time] package; [format_rfc3339] writes
    the four-digit-year form the store writes, [parse_rfc3339] reads that form
    back (a text of any other shape is a parse error, which no row of the
    store has).  The calendar facts are checked by computation over one
    400-year era and extended by periodicity. *)
From S2P Require Export Model.
#[local] Open Scope Z_scope.

(** [lia] with the Euclidean equations of [/] and [mod]. *)
Ltac Zify.zify_post_hook ::= Z.to_euclidean_division_equations.

(** ** Calendar *)

(** Year (of era, March-based), month and day of the [doe]-th day of an era. *)
Definition civil_of_doe (doe : Z) : Z * Z * Z :=
  let yoe := (doe - doe / 1460 + doe / 36524 - doe / 146096) / 365 in
  let doy := doe - (365 * yoe + yoe / 4 - yoe / 100) in
  let mp := (5 * doy + 2) / 153 in
  let d := doy - (153 * mp + 2) / 5 + 1 in
  let m := if mp <? 10 then mp + 3 else mp - 9 in
  ((if m <=? 2 then yoe + 1 else yoe), m, d).

Definition doe_of_civil (yoe m d : Z) : Z :=
  let doy := (153 * (if 2 <? m then m - 3 else m + 9) + 2) / 5 + d - 1 in
  yoe * 365 + yoe / 4 - yoe / 100 + doy.

Definition era_days : Z := 146097.
Definition epoch_shift : Z := 719468.

(** Days since 1970-01-01 to year, month, day, and back. *)
Definition civil_from_days (z : Z) : Z * Z * Z :=
  let z' := z + epoch_shift in
  let '(y, m, d) := civil_of_doe (z' mod era_days) in
  (y + 400 * (z' / era_days), m, d).

Definition days_from_civil (y m d : Z) : Z :=
  let y' := if m <=? 2 then y - 1 else y in
  (y' / 400) * era_days + doe_of_civil (y' mod 400) m d - epoch_shift.

Definition is_leap (y : Z) : bool :=
  (y mod 4 =? 0) && (negb (y mod 100 =? 0) || (y mod 400 =? 0)).

Definition days_in_month (y m : Z) : Z :=
  if m =? 2 then (if is_leap y then 29 else 28)
  else if (m =? 4) || (m =? 6) || (m =? 9) || (m =? 11) then 30 else 31.

(** ** Text *)
Definition digit (n : Z) : ascii := ascii_of_N (Z.to_N (48 + n)).
Definition d2 (n : Z) (s : string) : string :=
  String (digit (n / 10)) (String (digit (n mod 10)) s).

Definition date_text (days : Z) (rest : string) : string :=
  let '(y, m, d) := civil_from_days days in
  d2 (y / 100) (d2 (y mod 100) (String "-" (d2 m (String "-" (d2 d rest))))).

Definition clock_text (sod : Z) (rest : string) : string :=
  d2 (sod / 3600) (String ":" (d2 (sod / 60 mod 60) (String ":" (d2 (sod mod 60) rest)))).

Definition unix_seconds (t : time) : Z := t / second.
Definition day_of (t : time) : Z := unix_seconds t / 86400.

(** [t.UTC().Format(time.RFC3339)] *)
Definition format_rfc3339 (t : time) : string :=
  date_text (day_of t) (String "T" (clock_text (unix_seconds t mod 86400) "Z")).

Definition digit_val (c : ascii) : option Z :=
  let n := Z.of_N (N_of_ascii c) in
  if (48 <=? n) && (n <=? 57) then Some (n - 48) else None.

Definition parse_d2 (s : string) : option (Z * string) :=
  match s with
  | String a (String b s) =>
      x ← digit_val a; y ← digit_val b; Some (10 * x + y, s)
  | _ => None
  end.

Definition parse_char (c : ascii) (s : string) : option string :=
  match s with
  | String a s => if Ascii.eqb a c then Some s else None
  | "" => None
  end.

(** A date and time of day with separator [sep] and the literal [suffix]. *)
Definition parse_layout (sep : ascii) (suffix : string) (s : string) : option time :=
  '(c, s) ← parse_d2 s; '(y, s) ← parse_d2 s; s ← parse_char "-" s;
  '(m, s) ← parse_d2 s; s ← parse_char "-" s; '(d, s) ← parse_d2 s;
  s ← parse_char sep s;
  '(hh, s) ← parse_d2 s; s ← parse_char ":" s;
  '(mm, s) ← parse_d2 s; s ← parse_char ":" s; '(ss, s) ← parse_d2 s;
  let y := 100 * c + y in
  if (s ==? suffix) && (1 <=? m) && (m <=? 12) && (1 <=? d) && (d <=? days_in_month y m)
     && (hh <=? 23) && (mm <=? 59) && (ss <=? 59)
  then Some ((days_from_civil y m d * 86400 + hh * 3600 + mm * 60 + ss) * second)
  else None.

(** [time.Parse(time.RFC3339, s)] *)
Definition parse_rfc3339 : string → option time := parse_layout "T" "Z".

(** [time.Parse("2006-01-02 15:04:05+00:00", s)] *)
Definition parse_legacy : string → option time := parse_layout " " "+00:00".

(** The instants whose year has four digits. *)
Definition representable (t : time) : Prop :=
  days_from_civil 0 1 1 ≤ day_of t < days_from_civil 10000 1 1.

(** ** The calendar

    A year of the era (March-based) is checked at its two ends, a day of the
    year by itself; the rest is arithmetic. *)
Definition yoe_of (doe : Z) : Z := (doe - doe / 1460 + doe / 36524 - doe / 146096) / 365.
Definition year_start (yoe : Z) : Z := 365 * yoe + yoe / 4 - yoe / 100.
Definition year_len (yoe : Z) : Z := if is_leap (yoe + 1) then 366 else 365.
Definition year_ok (yoe : Z) : bool :=
  (year_start yoe + year_len yoe =? (if yoe =? 399 then era_days else year_start (yoe + 1)))
  && (yoe_of (year_start yoe) =? yoe) && (yoe_of (year_start yoe + year_len yoe - 1) =? yoe).

(** Month and day of a day of the year, and its position in the year. *)
Definition month_day (doy : Z) : Z * Z :=
  let mp := (5 * doy + 2) / 153 in
  ((if mp <? 10 then mp + 3 else mp - 9), doy - (153 * mp + 2) / 5 + 1).
Definition month_key (doy : Z) : Z :=
  let '(m, d) := month_day doy in (if m <=? 2 then 10000 else 0) + m * 100 + d.
Definition doy_ok (doy : Z) : bool :=
  let '(m, d) := month_day doy in
  (1 <=? m) && (m <=? 12) && (1 <=? d)
  && (d <=? (if m =? 2 then (if doy =? 365 then 29 else 28) else days_in_month 1 m))
  && ((153 * (if 2 <? m then m - 3 else m + 9) + 2) / 5 + d - 1 =? doy)
  && (month_key doy <? month_key (doy + 1)).

Definition check_below (f : Z → bool) (n : nat) : bool := forallb f (Z.of_nat <$> seq 0 n).

Lemma check_below_spec f n :
  check_below f n = true → ∀ i, 0 ≤ i < Z.of_nat n → f i = true.
Proof.
  intros H i Hi. unfold check_below in H. rewrite forallb_elem in H. apply H.
  apply list_elem_of_fmap. exists (Z.to_nat i). split; [lia|]. apply elem_of_seq. lia.
Qed.

Lemma year_ok_all i : 0 ≤ i < 400 → year_ok i = true.
Proof. apply (check_below_spec _ 400). vm_compute. reflexivity. Qed.
Lemma doy_ok_all i : 0 ≤ i < 366 → doy_ok i = true.
Proof. apply (check_below_spec _ 366). vm_compute. reflexivity. Qed.

Lemma yoe_of_mono a b : 0 ≤ a ≤ b → b < era_days - 1 → yoe_of a ≤ yoe_of b.
Proof.
  unfold yoe_of, era_days. intros Hab Hb. apply Z.div_le_mono; [lia|].
  rewrite (Z.div_small a 146096), (Z.div_small b 146096) by lia.
  assert (a / 36524 ≤ b / 36524) by (apply Z.div_le_mono; lia).
  assert (b / 1460 ≤ a / 1460 + (b - a)); [|lia].
  rewrite <-(Z.div_add a (b - a) 1460) by lia. apply Z.div_le_mono; lia.
Qed.

Lemma year_of_doe doe :
  0 ≤ doe < era_days →
  ∃ yoe, 0 ≤ yoe < 400 ∧ year_start yoe ≤ doe < year_start yoe + year_len yoe.
Proof.
  intros Hd.
  assert (∀ n : nat, (n ≤ 400)%nat → doe < (if Z.of_nat n =? 400 then era_days else year_start (Z.of_nat n)) →
    ∃ yoe, 0 ≤ yoe < 400 ∧ year_start yoe ≤ doe < year_start yoe + year_len yoe) as H.
  { induction n as [|n IH]; intros Hn Hlt; [change (doe < 0) in Hlt; lia|].
    assert (0 ≤ Z.of_nat n < 400) as Hr by lia.
    pose proof (year_ok_all _ Hr) as Hy. unfold year_ok in Hy.
    rewrite !andb_true_iff, !Z.eqb_eq in Hy. destruct Hy as [[Hy _] _].
    replace (Z.of_nat (S n)) with (Z.of_nat n + 1) in Hlt by lia.
    replace (Z.of_nat n + 1 =? 400) with (Z.of_nat n =? 399) in Hlt by lia.
    destruct (decide (year_start (Z.of_nat n) ≤ doe)).
    - exists (Z.of_nat n). lia.
    - apply IH; [lia|]. destruct (Z.eqb_spec (Z.of_nat n) 400); lia. }
  apply (H 400%nat); [lia|]. simpl. lia.
Qed.

Lemma yoe_of_year doe yoe :
  0 ≤ yoe < 400 → year_start yoe ≤ doe < year_start yoe + year_len yoe → yoe_of doe = yoe.
Proof.
  intros Hy Hd. pose proof (year_ok_all _ Hy) as H. unfold year_ok in H.
  rewrite !andb_true_iff, !Z.eqb_eq in H. destruct H as [[H1 H2] H3].
  assert (0 ≤ year_start yoe) by (unfold year_start; lia).
  destruct (decide (doe = year_start yoe + year_len yoe - 1)) as [->|]; [done|].
  assert (year_start yoe + year_len yoe ≤ era_days) as Hle.
  { rewrite H1. destruct (Z.eqb_spec yoe 399); [lia|]. unfold year_start, era_days. lia. }
  pose proof (yoe_of_mono (year_start yoe) doe). 
  destruct (decide (year_start yoe + year_len yoe - 1 < era_days - 1)).
  - pose proof (yoe_of_mono doe (year_start yoe + year_len yoe - 1)). lia.
  - assert (yoe = 399) as -> by
      (destruct (Z.eqb_spec yoe 399); [done|]; unfold year_start, era_days in *; lia).
    assert (year_start 399 + year_len 399 - 2 < era_days - 1) by lia.
    pose proof (yoe_of_mono doe (year_start 399 + year_len 399 - 2)) as Hm.
    assert (yoe_of (year_start 399 + year_len 399 - 2) = 399) as Hl by (vm_compute; reflexivity).
    lia.
Qed.

(** Every fact about a day of an era the rest needs, in one place. *)
Lemma civil_of_doe_spec doe :
  0 ≤ doe < era_days →
  ∃ yoe doy m d,
    0 ≤ yoe < 400 ∧ 0 ≤ doy < 366 ∧ doe = year_start yoe + doy
    ∧ doy < year_len yoe ∧ month_day doy = (m, d)
    ∧ civil_of_doe doe = ((if m <=? 2 then yoe + 1 else yoe), m, d)
    ∧ 1 ≤ m ≤ 12 ∧ 1 ≤ d ≤ days_in_month (if m <=? 2 then yoe + 1 else yoe) m
    ∧ doe_of_civil yoe m d = doe.
Proof.
  intros Hd. destruct (year_of_doe doe Hd) as (yoe & Hy & Hr).
  pose proof (yoe_of_year _ _ Hy Hr) as Hyoe.
  set (doy := doe - year_start yoe).
  assert (0 ≤ doy < 366) as Hdoy by (unfold year_len in Hr; case_match; lia).
  pose proof (doy_ok_all _ Hdoy) as Hok. unfold doy_ok in Hok.
  destruct (month_day doy) as [m d] eqn:Emd.
  rewrite !andb_true_iff, !Z.leb_le, Z.eqb_eq in Hok.
  destruct Hok as [[[[[Hm1 Hm2] Hd1] Hd2] Hback] _].
  exists yoe, doy, m, d. do 2 (split; [done|]). do 2 (split; [lia|]). split; [done|]. split.
  { unfold month_day in Emd. injection Emd as Em Ed.
    unfold civil_of_doe. fold (yoe_of doe). rewrite Hyoe. fold (year_start yoe). fold doy.
    by rewrite Em, Ed. }
  split; [done|]. split; [split; [done|]|].
  - unfold days_in_month. destruct (Z.eqb_spec m 2) as [->|].
    + simpl in *. unfold year_len in Hr. destruct (is_leap (yoe + 1)); case_match; lia.
    + unfold days_in_month in Hd2. destruct (Z.eqb_spec m 2); [done|]. done.
  - unfold doe_of_civil. rewrite Hback. unfold year_start in *. lia.
Qed.

Lemma is_leap_era y k : is_leap (y + 400 * k) = is_leap y.
Proof.
  unfold is_leap.
  replace ((y + 400 * k) mod 4) with (y mod 4) by lia.
  replace ((y + 400 * k) mod 100) with (y mod 100) by lia.
  by replace ((y + 400 * k) mod 400) with (y mod 400) by lia.
Qed.

Lemma days_in_month_era y k m : days_in_month (y + 400 * k) m = days_in_month y m.
Proof. unfold days_in_month. by rewrite is_leap_era. Qed.

Lemma civil_from_days_spec z :
  let '(y, m, d) := civil_from_days z in
  1 ≤ m ≤ 12 ∧ 1 ≤ d ≤ days_in_month y m ∧ days_from_civil y m d = z.
Proof.
  unfold civil_from_days.
  assert (0 ≤ (z + epoch_shift) mod era_days < era_days) as Hdoe
    by (apply Z.mod_pos_bound; done).
  destruct (civil_of_doe_spec _ Hdoe) as (yoe & doy & m & d & Hy & _ & _ & _ & _ & -> & Hm & Hd & Hback).
  split; [done|]. rewrite days_in_month_era. split; [done|].
  unfold days_from_civil.
  replace (if m <=? 2 then _ else _) with (yoe + 400 * ((z + epoch_shift) / era_days))
    by (destruct (m <=? 2); lia).
  replace ((yoe + 400 * ((z + epoch_shift) / era_days)) / 400)
    with ((z + epoch_shift) / era_days) by lia.
  replace ((yoe + 400 * ((z + epoch_shift) / era_days)) mod 400) with yoe by lia.
  rewrite Hback. pose proof (Z.div_mod (z + epoch_shift) era_days). unfold era_days in *. lia.
Qed.

(** ** The order of dates *)
Definition date_key (c : Z * Z * Z) : Z := let '(y, m, d) := c in y * 10000 + m * 100 + d.

Lemma month_key_bounds doy : 0 ≤ doy < 366 → 301 ≤ month_key doy ≤ 10229.
Proof.
  intros H. assert (check_below (λ d, (301 <=? month_key d) && (month_key d <=? 10229)) 366 = true)
    as Hc by (vm_compute; reflexivity).
  apply (check_below_spec _ _ Hc) in H. rewrite andb_true_iff, !Z.leb_le in H. lia.
Qed.

Lemma month_key_mono a b : 0 ≤ a < b → b < 366 → month_key a < month_key b.
Proof.
  intros Ha Hb. replace b with (a + 1 + Z.of_nat (Z.to_nat (b - a - 1))) in * by lia.
  generalize dependent (Z.to_nat (b - a - 1)). clear b. intros n.
  induction n as [|n IH]; intros Ha Hb.
  - assert (0 ≤ a < 366) as Hr by lia. pose proof (doy_ok_all _ Hr) as H.
    unfold doy_ok in H. destruct (month_day a). rewrite !andb_true_iff, Z.ltb_lt in H.
    replace (a + 1 + Z.of_nat 0) with (a + 1) by lia. tauto.
  - assert (0 ≤ a + 1 + Z.of_nat n < 366) as Hr by lia. pose proof (doy_ok_all _ Hr) as H.
    unfold doy_ok in H. destruct (month_day _). rewrite !andb_true_iff, Z.ltb_lt in H.
    replace (a + 1 + Z.of_nat (S n)) with (a + 1 + Z.of_nat n + 1) by lia.
    etrans; [apply IH; lia|tauto].
Qed.

Lemma date_key_doe doe :
  0 ≤ doe < era_days →
  ∃ yoe doy, 0 ≤ yoe < 400 ∧ 0 ≤ doy < 366 ∧ doe = year_start yoe + doy
    ∧ doy < year_len yoe ∧ date_key (civil_of_doe doe) = yoe * 10000 + month_key doy.
Proof.
  intros Hd. destruct (civil_of_doe_spec _ Hd) as
    (yoe & doy & m & d & Hy & Hdoy & He & Hl & Emd & -> & _).
  exists yoe, doy. do 4 (split; [done|]).
  unfold date_key, month_key. rewrite Emd. destruct (m <=? 2); lia.
Qed.

Lemma year_start_next a b :
  0 ≤ a < b → b < 400 → year_start a + year_len a ≤ year_start b.
Proof.
  intros Ha Hb. assert (0 ≤ a < 400) as Hr by lia.
  pose proof (year_ok_all _ Hr) as H. unfold year_ok in H.
  rewrite !andb_true_iff, !Z.eqb_eq in H. destruct H as [[-> _] _].
  destruct (Z.eqb_spec a 399); [lia|]. unfold year_start. lia.
Qed.

Lemma date_key_mono_doe a b :
  0 ≤ a < b → b < era_days → date_key (civil_of_doe a) < date_key (civil_of_doe b).
Proof.
  intros Ha Hb.
  destruct (date_key_doe a) as (ya & da & Hya & Hda & Hea & Hla & ->); [lia|].
  destruct (date_key_doe b) as (yb & db & Hyb & Hdb & Heb & Hlb & ->); [lia|].
  pose proof (month_key_bounds _ Hda). pose proof (month_key_bounds _ Hdb).
  destruct (decide (ya < yb)); [lia|].
  assert (ya = yb) as -> by
    (destruct (decide (ya = yb)); [done|]; pose proof (year_start_next yb ya); lia).
  pose proof (month_key_mono da db). lia.
Qed.

Lemma date_key_bounds_doe a :
  0 ≤ a < era_days → 301 ≤ date_key (civil_of_doe a) ≤ 4000229.
Proof.
  intros Ha. destruct (date_key_doe a Ha) as (ya & da & Hya & Hda & _ & _ & ->).
  pose proof (month_key_bounds _ Hda). lia.
Qed.

Lemma date_key_from_days z :
  date_key (civil_from_days z) =
  date_key (civil_of_doe ((z + epoch_shift) mod era_days)) + (z + epoch_shift) / era_days * 4000000.
Proof.
  unfold civil_from_days. destruct (civil_of_doe _) as [[y m] d]. unfold date_key. lia.
Qed.

(** Dates are ordered as their day numbers are. *)
Lemma date_key_mono a b : a < b → date_key (civil_from_days a) < date_key (civil_from_days b).
Proof.
  intros Hab. rewrite !date_key_from_days.
  pose proof (Z.mod_pos_bound (a + epoch_shift) era_days eq_refl) as Ha.
  pose proof (Z.mod_pos_bound (b + epoch_shift) era_days eq_refl) as Hb.
  pose proof (date_key_bounds_doe _ Ha). pose proof (date_key_bounds_doe _ Hb).
  pose proof (Z.div_mod (a + epoch_shift) era_days) as Ea.
  pose proof (Z.div_mod (b + epoch_shift) era_days) as Eb.
  pose proof (date_key_mono_doe ((a + epoch_shift) mod era_days) ((b + epoch_shift) mod era_days)).
  set (qa := (a + epoch_shift) / era_days) in *. set (qb := (b + epoch_shift) / era_days) in *.
  set (ra := (a + epoch_shift) mod era_days) in *. set (rb := (b + epoch_shift) mod era_days) in *.
  clearbody qa qb ra rb. unfold era_days, epoch_shift in *.
  assert (qa < qb ∨ qa = qb) as [|] by lia; lia.
Qed.

(** ** Round trip *)
Lemma representable_year t :
  representable t →
  let '(y, m, d) := civil_from_days (day_of t) in 0 ≤ y ≤ 9999.
Proof.
  unfold representable. intros [Hlo Hhi]. pose proof (civil_from_days_spec (day_of t)) as Hs.
  assert (date_key (civil_from_days (days_from_civil 0 1 1)) ≤ date_key (civil_from_days (day_of t))) as H1.
  { destruct (decide (days_from_civil 0 1 1 = day_of t)) as [->|]; [done|].
    apply Z.lt_le_incl, date_key_mono. lia. }
  pose proof (date_key_mono _ _ Hhi) as H2.
  change (date_key (civil_from_days (days_from_civil 0 1 1))) with 101 in H1.
  change (date_key (civil_from_days (days_from_civil 10000 1 1))) with 100000101 in H2.
  destruct (civil_from_days (day_of t)) as [[y m] d]. destruct Hs as (Hm & Hd & _).
  unfold days_in_month in Hd. unfold date_key in *. repeat case_match; lia.
Qed.

Lemma digit_val_digit n : 0 ≤ n < 10 → digit_val (digit n) = Some n.
Proof.
  intros H. assert (check_below (λ n, bool_decide (digit_val (digit n) = Some n)) 10 = true) as Hc
    by (vm_compute; reflexivity).
  apply (check_below_spec _ _ Hc) in H. by apply bool_decide_eq_true in H.
Qed.

Lemma parse_d2_d2 n s : 0 ≤ n < 100 → parse_d2 (d2 n s) = Some (n, s).
Proof.
  intros H. unfold parse_d2, d2. rewrite !digit_val_digit by lia. simpl.
  do 2 f_equal. lia.
Qed.

Lemma parse_char_eq c s : parse_char c (String c s) = Some s.
Proof. unfold parse_char. by rewrite Ascii.eqb_refl. Qed.

(** Writing a date and a time of day and reading them back. *)
Lemma parse_layout_text sep suffix days sod :
  days_from_civil 0 1 1 ≤ days < days_from_civil 10000 1 1 → 0 ≤ sod < 86400 →
  parse_layout sep suffix (date_text days (String sep (clock_text sod suffix))) =
  Some ((days * 86400 + sod) * second).
Proof.
  intros Hdays Hsod. pose proof (representable_year (days * 86400 * second)) as Hy.
  unfold representable, day_of, unix_seconds in Hy.
  rewrite Z.div_mul in Hy by done. rewrite Z.div_mul in Hy by done. specialize (Hy Hdays).
  pose proof (civil_from_days_spec days) as Hs. unfold date_text.
  destruct (civil_from_days days) as [[y m] d]. destruct Hs as (Hm & Hd & Hback).
  assert (d ≤ 31) by (unfold days_in_month in Hd; repeat case_match; lia).
  unfold parse_layout, clock_text.
  repeat ((rewrite parse_char_eq || (rewrite parse_d2_d2 by lia)); cbn [mbind option_bind]).
  replace (100 * (y / 100) + y mod 100) with y by lia.
  rewrite String.eqb_refl, (proj2 (Z.leb_le _ _)), (proj2 (Z.leb_le m _)), (proj2 (Z.leb_le 1 d)),
    (proj2 (Z.leb_le d _)), (proj2 (Z.leb_le _ 23)), (proj2 (Z.leb_le _ 59)),
    (proj2 (Z.leb_le _ 59)) by lia.
  simpl. do 2 f_equal. rewrite Hback. lia.
Qed.

(** Reading back a stored timestamp gives the instant truncated to the
    second, for every instant of a four-digit year. *)
Theorem parse_format_rfc3339 t :
  representable t → parse_rfc3339 (format_rfc3339 t) = Some (unix_seconds t * second).
Proof.
  intros Ht. unfold parse_rfc3339, format_rfc3339.
  rewrite (parse_layout_text _ _ _ _ Ht) by (apply Z.mod_pos_bound; lia).
  do 2 f_equal. unfold day_of. rewrite (Z.div_mod (unix_seconds t) 86400) at 3 by lia. lia.
Qed.

Lemma truncated_bounds t : t - second < unix_seconds t * second ≤ t.
Proof. unfold unix_seconds, second. lia. Qed.

(** ** Text order

    SQLite compares TEXT values byte by byte. *)
Definition text_le (s t : string) : bool := String.leb s t.

Lemma compare_digit a b :
  0 ≤ a < 10 → 0 ≤ b < 10 → Ascii.compare (digit a) (digit b) = (a ?= b).
Proof.
  intros Ha Hb.
  assert (check_below (λ a, check_below (λ b,
    bool_decide (Ascii.compare (digit a) (digit b) = (a ?= b))) 10) 10 = true) as Hc
    by (vm_compute; reflexivity).
  apply (check_below_spec _ _ Hc) in Ha. apply (check_below_spec _ _ Ha) in Hb.
  by apply bool_decide_eq_true in Hb.
Qed.

Lemma compare_d2 x y s t :
  0 ≤ x < 100 → 0 ≤ y < 100 →
  String.compare (d2 x s) (d2 y t) = match x ?= y with Eq => String.compare s t | c => c end.
Proof.
  intros Hx Hy. unfold d2. cbn [String.compare]. rewrite !compare_digit by lia.
  destruct (Z.compare_spec x y) as [->|H|H].
  - by rewrite !Z.compare_refl.
  - destruct (Z.compare_spec (x / 10) (y / 10)); [|done|lia].
    by rewrite (proj2 (Z.compare_lt_iff _ _)) by lia.
  - destruct (Z.compare_spec (x / 10) (y / 10)); [|lia|done].
    by rewrite (proj2 (Z.compare_gt_iff _ _)) by lia.
Qed.

Lemma compare_same c s t : String.compare (String c s) (String c t) = String.compare s t.
Proof. cbn [String.compare]. unfold Ascii.compare. by rewrite N.compare_refl. Qed.

(** Two dates compare as texts the way their day numbers compare; on the same
    day, what follows the date decides. *)
Lemma compare_date_text a b s t :
  days_from_civil 0 1 1 ≤ a < days_from_civil 10000 1 1 →
  days_from_civil 0 1 1 ≤ b < days_from_civil 10000 1 1 →
  String.compare (date_text a s) (date_text b t) =
  match a ?= b with Eq => String.compare s t | c => c end.
Proof.
  assert (∀ z, days_from_civil 0 1 1 ≤ z < days_from_civil 10000 1 1 →
    let '(y, m, d) := civil_from_days z in 0 ≤ y ≤ 9999 ∧ 1 ≤ m ≤ 12 ∧ 1 ≤ d ≤ 31) as Hr.
  { intros z Hz. pose proof (representable_year (z * 86400 * second)) as Hy.
    unfold representable, day_of, unix_seconds in Hy.
    rewrite !Z.div_mul in Hy by done. specialize (Hy Hz).
    pose proof (civil_from_days_spec z) as Hs. destruct (civil_from_days z) as [[y m] d].
    unfold days_in_month in Hs. repeat case_match; lia. }
  intros Ha%Hr Hb%Hr.
  assert (match date_key (civil_from_days a) ?= date_key (civil_from_days b) with
          | Eq => String.compare s t | c => c end =
          match a ?= b with Eq => String.compare s t | c => c end) as <-.
  { destruct (Z.compare_spec a b) as [->|H|H]; [by rewrite Z.compare_refl| |];
      pose proof (date_key_mono _ _ H).
    - by rewrite (proj2 (Z.compare_lt_iff _ _)).
    - by rewrite (proj2 (Z.compare_gt_iff _ _)) by lia. }
  unfold date_text. destruct (civil_from_days a) as [[ya ma] da], (civil_from_days b) as [[yb mb] db].
  repeat (rewrite compare_same || (rewrite compare_d2 by lia)). unfold date_key.
  destruct (Z.compare_spec (ya * 10000 + ma * 100 + da) (yb * 10000 + mb * 100 + db));
  destruct (Z.compare_spec (ya / 100) (yb / 100)); try lia; try done;
  destruct (Z.compare_spec (ya mod 100) (yb mod 100)); try lia; try done;
  destruct (Z.compare_spec ma mb); try lia; try done;
  destruct (Z.compare_spec da db); try lia; done.
Qed.

Lemma parse_format_rfc3339_witness :
  parse_rfc3339 (format_rfc3339 (1750000000 * second + 5)) = Some (1750000000 * second).
Proof.
  rewrite (parse_format_rfc3339 (1750000000 * second + 5)); [reflexivity|].
  split; vm_compute; congruence.
Defined.
