(* ===== verification/Base64.v ===== *)
(** * [base64.RawURLEncoding]

    The unpadded URL-safe alphabet used for nonces, thumbprints, CSRs and
    certificates.  As in Go's decoder, newlines and carriage returns are
    skipped, unused trailing bits are not checked, and a lone trailing
    character is an error. *)
From S2P Require Export Model.
#[local] Open Scope Z_scope.
Ltac Zify.zify_post_hook ::= Z.to_euclidean_division_equations.

Definition byte_val (c : ascii) : Z := Z.of_N (N_of_ascii c).
Definition byte_of (z : Z) : ascii := ascii_of_N (Z.to_N z).

Definition b64_char (v : Z) : ascii :=
  if v <? 26 then byte_of (65 + v)
  else if v <? 52 then byte_of (97 + (v - 26))
  else if v <? 62 then byte_of (48 + (v - 52))
  else if v =? 62 then "-"%char else "_"%char.

Definition b64_val (c : ascii) : option Z :=
  let n := byte_val c in
  if (65 <=? n) && (n <=? 90) then Some (n - 65)
  else if (97 <=? n) && (n <=? 122) then Some (n - 97 + 26)
  else if (48 <=? n) && (n <=? 57) then Some (n - 48 + 52)
  else if n =? 45 then Some 62 else if n =? 95 then Some 63 else None.

Fixpoint EncodeToString (s : string) : string :=
  match s with
  | "" => ""
  | String a "" =>
      let x := byte_val a in
      String (b64_char (x / 4)) (String (b64_char (x mod 4 * 16)) "")
  | String a (String b "") =>
      let x := byte_val a in let y := byte_val b in
      String (b64_char (x / 4)) (String (b64_char (x mod 4 * 16 + y / 16))
        (String (b64_char (y mod 16 * 4)) ""))
  | String a (String b (String c s)) =>
      let x := byte_val a in let y := byte_val b in let z := byte_val c in
      String (b64_char (x / 4)) (String (b64_char (x mod 4 * 16 + y / 16))
        (String (b64_char (y mod 16 * 4 + z / 64)) (String (b64_char (z mod 64))
          (EncodeToString s))))
  end.

(** The 6-bit values of the characters, newlines skipped. *)
Fixpoint b64_vals (s : string) : option (list Z) :=
  match s with
  | "" => Some []
  | String c s =>
      if Ascii.eqb c newline || Ascii.eqb c carriage_return then b64_vals s
      else v ← b64_val c; vs ← b64_vals s; Some (v :: vs)
  end.

Fixpoint b64_bytes (l : list Z) : option string :=
  match l with
  | [] => Some ""
  | [_] => None
  | [v1; v2] => Some (String (byte_of (v1 * 4 + v2 / 16)) "")
  | [v1; v2; v3] =>
      Some (String (byte_of (v1 * 4 + v2 / 16))
        (String (byte_of (v2 mod 16 * 16 + v3 / 4)) ""))
  | v1 :: v2 :: v3 :: v4 :: l =>
      rest ← b64_bytes l;
      Some (String (byte_of (v1 * 4 + v2 / 16))
        (String (byte_of (v2 mod 16 * 16 + v3 / 4))
          (String (byte_of (v3 mod 4 * 64 + v4)) rest)))
  end.

Definition DecodeString (s : string) : option string := vs ← b64_vals s; b64_bytes vs.

(** ** Round trip *)
Lemma byte_val_range c : 0 ≤ byte_val c < 256.
Proof. unfold byte_val. pose proof (N_ascii_bounded c). lia. Qed.

Lemma byte_of_val c : byte_of (byte_val c) = c.
Proof. unfold byte_of, byte_val. rewrite N2Z.id. apply ascii_N_embedding. Qed.

Definition b64_ok (v : Z) : bool :=
  bool_decide (b64_val (b64_char v) = Some v)
  && negb (Ascii.eqb (b64_char v) newline || Ascii.eqb (b64_char v) carriage_return).

Lemma b64_ok_all v : 0 ≤ v < 64 → b64_ok v = true.
Proof.
  intros Hv. assert (forallb b64_ok (Z.of_nat <$> seq 0 64) = true) as Hc
    by (vm_compute; reflexivity).
  rewrite forallb_elem in Hc. apply Hc, list_elem_of_fmap.
  exists (Z.to_nat v). split; [lia|]. apply elem_of_seq. lia.
Qed.

Lemma b64_vals_char v s :
  0 ≤ v < 64 → b64_vals (String (b64_char v) s) = (v ::.) <$> b64_vals s.
Proof.
  intros Hv. pose proof (b64_ok_all v Hv) as Hok. unfold b64_ok in Hok.
  rewrite andb_true_iff, bool_decide_eq_true, negb_true_iff in Hok. destruct Hok as [Hd Hn].
  cbn [b64_vals]. rewrite Hn, Hd. simpl. by destruct (b64_vals s).
Qed.

(** Strings in steps of three bytes. *)
Lemma string_ind3 (P : string → Prop) :
  P "" → (∀ a, P (String a "")) → (∀ a b, P (String a (String b ""))) →
  (∀ a b c s, P s → P (String a (String b (String c s)))) → ∀ s, P s.
Proof.
  intros H0 H1 H2 H3.
  assert (∀ s, P s ∧ (∀ a, P (String a s)) ∧ ∀ a b, P (String a (String b s))) as H.
  { induction s as [|c s (IH0 & IH1 & IH2)]; [done|]. split; [done|]. auto. }
  intros s. apply H.
Qed.

(** Decoding what was encoded gives back the bytes, for every string. *)
Theorem DecodeString_EncodeToString s : DecodeString (EncodeToString s) = Some s.
Proof.
  unfold DecodeString. induction s as [|a|a b|a b c s IH] using string_ind3; [done| | |];
    cbn [EncodeToString];
    repeat match goal with c : ascii |- _ =>
      lazymatch goal with H : 0 ≤ byte_val c < 256 |- _ => fail | _ =>
        pose proof (byte_val_range c) end end;
    rewrite !b64_vals_char by lia.
  - simpl. f_equal. rewrite <-(byte_of_val a) at 3. f_equal. f_equal. lia.
  - simpl. rewrite <-(byte_of_val a) at 4. rewrite <-(byte_of_val b) at 4.
    do 2 f_equal; [f_equal; lia|]. do 2 f_equal. lia.
  - destruct (b64_vals (EncodeToString s)) as [vs|] eqn:E; simpl in *; [|done].
    rewrite IH. simpl. f_equal.
    rewrite <-(byte_of_val a) at 4. rewrite <-(byte_of_val b) at 5.
    rewrite <-(byte_of_val c) at 4.
    f_equal; [f_equal; lia|]. f_equal; [f_equal; lia|]. do 2 f_equal. lia.
Qed.

Lemma length_EncodeToString s :
  Z.of_nat (String.length (EncodeToString s)) = (Z.of_nat (String.length s) * 4 + 2) / 3.
Proof.
  induction s as [|a|a b|a b c s IH] using string_ind3; [done..|].
  cbn [EncodeToString String.length]. lia.
Qed.

Lemma EncodeToString_inj s t : EncodeToString s = EncodeToString t → s = t.
Proof.
  intros H. apply (inj Some). by rewrite <-!DecodeString_EncodeToString, H.
Qed.
