(* ===== verification/Json.v ===== *)
(** * [encoding/json]: values, text and the decoding of fields

    [json] is the syntax tree; [Marshal] prints it compactly with Go's HTML-safe
    escaping and [Unmarshal] parses RFC 8259 text.  Numbers are kept as their
    literal.  Bytes of value 128 and above are copied both ways.  The decoding
    of an object into a Go struct (case-insensitive field names, [null] leaves
    the zero value, a value of the wrong type is an error) is at the end. *)
From S2P Require Export Model.

#[warnings="-register-all"]
Inductive json : Type :=
| JNull
| JBool (b : bool)
| JNum (lit : string)
| JStr (s : string)
| JArr (l : list json)
| JObj (m : list (string * json)).

(** ** Printing *)
Definition hex_digit (n : N) : ascii :=
  if (n <? 10)%N then ascii_of_N (48 + n) else ascii_of_N (87 + n).

Definition escape_byte (c : ascii) (rest : string) : string :=
  let n := N_of_ascii c in
  if Ascii.eqb c dquote || Ascii.eqb c backslash then String backslash (String c rest)
  else if (n =? 8)%N then String backslash (String "b" rest)
  else if (n =? 12)%N then String backslash (String "f" rest)
  else if (n =? 10)%N then String backslash (String "n" rest)
  else if (n =? 13)%N then String backslash (String "r" rest)
  else if (n =? 9)%N then String backslash (String "t" rest)
  else if (n <? 32)%N || (n =? 60)%N || (n =? 62)%N || (n =? 38)%N then
    String backslash (String "u" (String "0" (String "0"
      (String (hex_digit (n / 16)) (String (hex_digit (n mod 16)) rest)))))
  else String c rest.

Fixpoint escape_string (s : string) (rest : string) : string :=
  match s with
  | "" => rest
  | String c s => escape_byte c (escape_string s rest)
  end.

Definition print_string (s : string) (rest : string) : string :=
  String dquote (escape_string s (String dquote rest)).

Fixpoint print_value (j : json) (rest : string) {struct j} : string :=
  match j with
  | JNull => "null" +:+ rest
  | JBool true => "true" +:+ rest
  | JBool false => "false" +:+ rest
  | JNum lit => lit +:+ rest
  | JStr s => print_string s rest
  | JArr [] => "[]" +:+ rest
  | JArr (v :: l) =>
      String "[" (print_value v
        (foldr (λ v acc, String "," (print_value v acc)) (String "]" rest) l))
  | JObj [] => "{}" +:+ rest
  | JObj ((k, v) :: m) =>
      String "{" (print_string k (String ":" (print_value v
        (foldr (λ '(k, v) acc, String "," (print_string k (String ":" (print_value v acc))))
           (String "}" rest) m))))
  end.

Definition Marshal (j : json) : string := print_value j "".

(** ** Parsing *)
Definition is_ws (c : ascii) : bool :=
  let n := N_of_ascii c in (n =? 32)%N || (n =? 9)%N || (n =? 10)%N || (n =? 13)%N.

Fixpoint skip_ws (s : string) : string :=
  match s with
  | String c s' => if is_ws c then skip_ws s' else s
  | "" => ""
  end.

Definition hex_val (c : ascii) : option N :=
  let n := N_of_ascii c in
  if ((48 <=? n) && (n <=? 57))%N then Some (n - 48)%N
  else if ((97 <=? n) && (n <=? 102))%N then Some (n - 87)%N
  else if ((65 <=? n) && (n <=? 70))%N then Some (n - 55)%N
  else None.

(** The UTF-8 bytes of a code point, in front of [rest]. *)
Definition utf8 (n : N) (rest : string) : string :=
  if (n <? 128)%N then String (ascii_of_N n) rest
  else if (n <? 2048)%N then
    String (ascii_of_N (192 + n / 64)) (String (ascii_of_N (128 + n mod 64)) rest)
  else if (n <? 65536)%N then
    String (ascii_of_N (224 + n / 4096)) (String (ascii_of_N (128 + n / 64 mod 64))
      (String (ascii_of_N (128 + n mod 64)) rest))
  else
    String (ascii_of_N (240 + n / 262144)) (String (ascii_of_N (128 + n / 4096 mod 64))
      (String (ascii_of_N (128 + n / 64 mod 64)) (String (ascii_of_N (128 + n mod 64)) rest))).

Definition hex4 (a b c d : ascii) : option N :=
  w ← hex_val a; x ← hex_val b; y ← hex_val c; z ← hex_val d;
  Some (((w * 16 + x) * 16 + y) * 16 + z)%N.

Definition is_surrogate (n : N) : bool := ((55296 <=? n) && (n <=? 57343))%N.

Definition simple_escape (e : ascii) : option ascii :=
  if Ascii.eqb e dquote || Ascii.eqb e backslash || Ascii.eqb e "/"%char then Some e
  else if Ascii.eqb e "b"%char then Some "008"%char
  else if Ascii.eqb e "f"%char then Some "012"%char
  else if Ascii.eqb e "n"%char then Some "010"%char
  else if Ascii.eqb e "r"%char then Some "013"%char
  else if Ascii.eqb e "t"%char then Some "009"%char
  else None.

(** The body of a string literal, after its opening quote: the decoded text
    and what follows the closing quote.  A surrogate escape decodes to the
    replacement character (pairs are not recombined). *)
Fixpoint parse_string (s : string) : option (string * string) :=
  match s with
  | "" => None
  | String c s1 =>
      if Ascii.eqb c dquote then Some ("", s1)
      else if Ascii.eqb c backslash then
        match s1 with
        | "" => None
        | String e s2 =>
            if Ascii.eqb e "u"%char then
              match s2 with
              | String h1 (String h2 (String h3 (String h4 s3))) =>
                  n ← hex4 h1 h2 h3 h4;
                  '(t, r) ← parse_string s3;
                  Some (utf8 (if is_surrogate n then 65533 else n) t, r)
              | _ => None
              end
            else
              b ← simple_escape e;
              '(t, r) ← parse_string s2;
              Some (String b t, r)
        end
      else if (N_of_ascii c <? 32)%N then None
      else '(t, r) ← parse_string s1; Some (String c t, r)
  end.

Definition is_digit (c : ascii) : bool :=
  let n := N_of_ascii c in ((48 <=? n) && (n <=? 57))%N.
Definition is_number_byte (c : ascii) : bool :=
  is_digit c || Ascii.eqb c "-"%char || Ascii.eqb c "+"%char || Ascii.eqb c "."%char
  || Ascii.eqb c "e"%char || Ascii.eqb c "E"%char.

Fixpoint span (f : ascii → bool) (s : string) : string * string :=
  match s with
  | String c s' => if f c then let '(a, b) := span f s' in (String c a, b) else ("", s)
  | "" => ("", "")
  end.

(** The number grammar of RFC 8259: optional minus, integer part without a
    leading zero, optional fraction, optional exponent. *)
Definition digits1 (s : string) : option string :=
  let '(d, r) := span is_digit s in if d ==? "" then None else Some r.
Definition opt_exp (s : string) : option string :=
  match s with
  | String c s' =>
      if Ascii.eqb c "e"%char || Ascii.eqb c "E"%char then
        match s' with
        | String sg s'' =>
            if Ascii.eqb sg "+"%char || Ascii.eqb sg "-"%char then digits1 s'' else digits1 s'
        | "" => None
        end
      else Some s
  | "" => Some ""
  end.
Definition opt_frac (s : string) : option string :=
  match s with
  | String "."%char s' => digits1 s'
  | _ => Some s
  end.
Definition int_part (s : string) : option string :=
  match s with
  | String "0"%char s' => Some s'
  | _ => digits1 s
  end.
Definition valid_number (lit : string) : bool :=
  let unsigned := match lit with String "-"%char s => s | _ => lit end in
  match (s ← int_part unsigned; s ← opt_frac s; opt_exp s) with
  | Some "" => true
  | _ => false
  end.

Definition expect (p : string) (j : json) (s : string) : option (json * string) :=
  if HasPrefix s p then Some (j, str_drop (String.length p) s) else None.

(** One value; then the tail of an array or an object after an element. *)
Fixpoint parse_value (fuel : nat) (s : string) {struct fuel} : option (json * string) :=
  match fuel with
  | O => None
  | S fuel =>
      let s := skip_ws s in
      match s with
      | "" => None
      | String c s' =>
          if Ascii.eqb c dquote then '(t, r) ← parse_string s'; Some (JStr t, r)
          else if Ascii.eqb c "["%char then
            match skip_ws s' with
            | String "]"%char r => Some (JArr [], r)
            | _ =>
                '(v, r) ← parse_value fuel s';
                '(vs, r) ← parse_elements fuel r;
                Some (JArr (v :: vs), r)
            end
          else if Ascii.eqb c "{"%char then
            match skip_ws s' with
            | String "}"%char r => Some (JObj [], r)
            | _ =>
                '(kv, r) ← parse_member fuel s';
                '(kvs, r) ← parse_members fuel r;
                Some (JObj (kv :: kvs), r)
            end
          else if Ascii.eqb c "n"%char then expect "null" JNull s
          else if Ascii.eqb c "t"%char then expect "true" (JBool true) s
          else if Ascii.eqb c "f"%char then expect "false" (JBool false) s
          else let '(lit, r) := span is_number_byte s in
               if valid_number lit then Some (JNum lit, r) else None
      end
  end
with parse_elements (fuel : nat) (s : string) {struct fuel} : option (list json * string) :=
  match fuel with
  | O => None
  | S fuel =>
      match skip_ws s with
      | String "]"%char r => Some ([], r)
      | String ","%char s' =>
          '(v, r) ← parse_value fuel s';
          '(vs, r) ← parse_elements fuel r;
          Some (v :: vs, r)
      | _ => None
      end
  end
with parse_members (fuel : nat) (s : string) {struct fuel} : option (list (string * json) * string) :=
  match fuel with
  | O => None
  | S fuel =>
      match skip_ws s with
      | String "}"%char r => Some ([], r)
      | String ","%char s' =>
          '(kv, r) ← parse_member fuel s';
          '(kvs, r) ← parse_members fuel r;
          Some (kv :: kvs, r)
      | _ => None
      end
  end
with parse_member (fuel : nat) (s : string) {struct fuel} : option ((string * json) * string) :=
  match fuel with
  | O => None
  | S fuel =>
      match skip_ws s with
      | String c s' =>
          if Ascii.eqb c dquote then
            '(k, r) ← parse_string s';
            match skip_ws r with
            | String ":"%char r' => '(v, r'') ← parse_value fuel r'; Some ((k, v), r'')
            | _ => None
            end
          else None
      | "" => None
      end
  end.

(** [json.Unmarshal]'s syntax check: one value and nothing but white space
    after it.  Every call consumes a byte of the text, so twice its length is
    fuel enough. *)
Definition Unmarshal (s : string) : option json :=
  match parse_value (S (2 * String.length s)) s with
  | Some (j, r) => if skip_ws r ==? "" then Some j else None
  | None => None
  end.

(** ** Round trip *)
Lemma json_ind' (P : json → Prop) :
  P JNull → (∀ b, P (JBool b)) → (∀ n, P (JNum n)) → (∀ s, P (JStr s)) →
  (∀ l, Forall P l → P (JArr l)) → (∀ m, Forall (λ kv, P kv.2) m → P (JObj m)) → ∀ j, P j.
Proof.
  intros Hn Hb Hnum Hs Ha Ho.
  fix IH 1. intros [ |b|lit|s|l|m]; [done|apply Hb|apply Hnum|apply Hs| |].
  - apply Ha. induction l as [|v l IHl]; constructor; [apply IH|apply IHl].
  - apply Ho. induction m as [|[k v] m IHm]; constructor; [apply IH|apply IHm].
Qed.

Fixpoint all_bytes (f : ascii → bool) (s : string) : bool :=
  match s with "" => true | String c s => f c && all_bytes f s end.

(** Well-formed values: every number literal obeys the grammar. *)
#[warnings="-register-all"]
Inductive wf_json : json → Prop :=
| wf_null : wf_json JNull
| wf_bool b : wf_json (JBool b)
| wf_num lit : valid_number lit = true → all_bytes is_number_byte lit = true → wf_json (JNum lit)
| wf_str s : wf_json (JStr s)
| wf_arr l : Forall wf_json l → wf_json (JArr l)
| wf_obj m : Forall (λ kv, wf_json kv.2) m → wf_json (JObj m).

(** Fuel that suffices to parse back a printed value. *)
Fixpoint need (j : json) : nat :=
  match j with
  | JArr (v :: l) => S (Nat.max (need v) (foldr (λ v n, S (Nat.max (need v) n)) 1 l))
  | JObj ((_, v) :: m) =>
      S (Nat.max (S (need v)) (foldr (λ '(_, v) n, S (Nat.max (S (need v)) n)) 1 m))
  | _ => 1
  end%nat.

(** A text whose head cannot extend a number. *)
Definition ends_number (s : string) : bool :=
  match s with "" => true | String c _ => negb (is_number_byte c) end.

(** Evaluates the closed tests of conditionals one after the other. *)
Ltac eval_tests :=
  repeat match goal with
  | |- context [if ?b then _ else _] => let v := eval vm_compute in b in change b with v; cbn iota
  | |- context [hex4 ?a ?b ?c ?d] =>
      let v := eval vm_compute in (hex4 a b c d) in change (hex4 a b c d) with v;
      cbn [mbind option_bind]
  | |- context [simple_escape ?a] =>
      let v := eval vm_compute in (simple_escape a) in change (simple_escape a) with v;
      cbn [mbind option_bind]
  end.

Lemma escape_byte_parse c t s r :
  parse_string t = Some (s, r) → parse_string (escape_byte c t) = Some (String c s, r).
Proof.
  intros H. destruct c as [[] [] [] [] [] [] [] []]; unfold escape_byte; cbv zeta; eval_tests;
    cbn [parse_string]; eval_tests; rewrite H; reflexivity.
Qed.

Lemma escape_string_parse s rest :
  parse_string (escape_string s (String dquote rest)) = Some (s, rest).
Proof. induction s as [|c s IH]; [done|]. cbn [escape_string]. by apply escape_byte_parse. Qed.

Lemma span_all f s rest :
  all_bytes f s = true → (match rest with "" => true | String c _ => negb (f c) end) = true →
  span f (s +:+ rest) = (s, rest).
Proof.
  intros Hs Hr. induction s as [|c s IH]; simpl in *.
  - destruct rest as [|c rest]; simpl; [done|]. apply negb_true_iff in Hr. by rewrite Hr.
  - apply andb_true_iff in Hs as [-> Hs]. by rewrite IH.
Qed.

(** What the head byte of a printed value decides. *)
Definition starts_value (c : ascii) : bool :=
  negb (is_ws c) && negb (Ascii.eqb c "]"%char) && negb (Ascii.eqb c "}"%char).

Lemma number_head c :
  is_number_byte c = true →
  starts_value c = true ∧ Ascii.eqb c dquote = false ∧ Ascii.eqb c "["%char = false
  ∧ Ascii.eqb c "{"%char = false ∧ Ascii.eqb c "n"%char = false ∧ Ascii.eqb c "t"%char = false
  ∧ Ascii.eqb c "f"%char = false.
Proof. destruct c as [[] [] [] [] [] [] [] []]; vm_compute; tauto || discriminate. Qed.

Lemma print_head j rest :
  wf_json j → ∃ c t, print_value j rest = String c t ∧ starts_value c = true.
Proof.
  destruct 1 as [|b|lit Hv Hn|s|l _|m _]; simpl.
  - by eexists _, _.
  - destruct b; by eexists _, _.
  - destruct lit as [|c lit]; [done|]. simpl in *. apply andb_true_iff in Hn as [Hc _].
    eexists _, _. split; [done|]. by apply number_head.
  - by eexists _, _.
  - destruct l; by eexists _, _.
  - destruct m as [|[k v] m]; by eexists _, _.
Qed.

Lemma skip_ws_value c t : starts_value c = true → skip_ws (String c t) = String c t.
Proof.
  unfold starts_value. rewrite !andb_true_iff, negb_true_iff. intros [[H _] _].
  simpl. by rewrite H.
Qed.

Definition elements_tail (rest : string) (l : list json) : string :=
  foldr (λ v acc, String "," (print_value v acc)) (String "]" rest) l.
Definition members_tail (rest : string) (m : list (string * json)) : string :=
  foldr (λ '(k, v) acc, String "," (print_string k (String ":" (print_value v acc))))
    (String "}" rest) m.
Definition need_elements : list json → nat := foldr (λ v n, S (Nat.max (need v) n)) 1%nat.
Definition need_members : list (string * json) → nat :=
  foldr (λ '(_, v) n, S (Nat.max (S (need v)) n)) 1%nat.

(** What the induction carries for one value. *)
Definition parses_back (j : json) : Prop :=
  ∀ fuel rest, (need j ≤ fuel)%nat → ends_number rest = true →
  parse_value fuel (print_value j rest) = Some (j, rest).

Lemma ends_elements rest l : ends_number (elements_tail rest l) = true.
Proof. by destruct l. Qed.
Lemma ends_members rest m : ends_number (members_tail rest m) = true.
Proof. by destruct m as [|[k v] m]. Qed.

Lemma parse_elements_back l :
  Forall parses_back l →
  ∀ fuel rest, (need_elements l ≤ fuel)%nat →
  parse_elements fuel (elements_tail rest l) = Some (l, rest).
Proof.
  induction 1 as [|v l Hv _ IH]; intros [|fuel] rest Hf; simpl in Hf; try lia; [done|].
  cbn [elements_tail foldr parse_elements skip_ws]. 
  change (is_ws ",") with false. cbv iota.
  fold (elements_tail rest l). rewrite Hv; [|lia|apply ends_elements]. simpl.
  rewrite IH; [done|]. lia.
Qed.

Lemma parse_member_back k v fuel rest :
  parses_back v → (S (need v) ≤ fuel)%nat → ends_number rest = true →
  parse_member fuel (print_string k (String ":" (print_value v rest))) = Some ((k, v), rest).
Proof.
  intros Hv Hf Hr. destruct fuel as [|fuel]; [lia|].
  unfold print_string. cbn [parse_member skip_ws].
  change (is_ws dquote) with false. cbv iota. rewrite Ascii.eqb_refl, escape_string_parse.
  cbn [mbind option_bind skip_ws]. change (is_ws ":") with false. cbv iota.
  rewrite Hv; [done|lia|done].
Qed.

Lemma parse_members_back m :
  Forall (λ kv, parses_back kv.2) m →
  ∀ fuel rest, (need_members m ≤ fuel)%nat →
  parse_members fuel (members_tail rest m) = Some (m, rest).
Proof.
  induction 1 as [|[k v] m Hv _ IH]; intros [|fuel] rest Hf; simpl in Hf; try lia; [done|].
  cbn [members_tail foldr parse_members skip_ws]. change (is_ws ",") with false. cbv iota.
  fold (members_tail rest m).
  rewrite parse_member_back; [|done|lia|apply ends_members]. simpl.
  rewrite IH; [done|]. lia.
Qed.

Lemma parse_number_back lit fuel rest :
  valid_number lit = true → all_bytes is_number_byte lit = true → ends_number rest = true →
  parse_value (S fuel) (lit +:+ rest) = Some (JNum lit, rest).
Proof.
  intros Hv Hb Hr. destruct lit as [|c lit]; [done|].
  pose proof Hb as Hb'. simpl in Hb'. apply andb_true_iff in Hb' as [Hc _].
  destruct (number_head c Hc) as (Hs & H1 & H2 & H3 & H4 & H5 & H6).
  change (String c lit +:+ rest) with (String c (lit +:+ rest)).
  cbn [parse_value]. rewrite skip_ws_value by done. cbv zeta. cbv iota.
  rewrite H1, H2, H3, H4, H5, H6.
  change (String c (lit +:+ rest)) with (String c lit +:+ rest).
  rewrite span_all by done. by rewrite Hv.
Qed.

Lemma need_pos j : (1 ≤ need j)%nat.
Proof. destruct j as [| | | |[|]|[|[]]]; simpl; lia. Qed.

Lemma parses_back_arr l : Forall parses_back l → Forall wf_json l → parses_back (JArr l).
Proof.
  intros IH Hl [|fuel] rest Hf Hr; [pose proof (need_pos (JArr l)); lia|].
  destruct l as [|v l]; [done|].
  apply Forall_cons in Hl as [Hv _]. apply Forall_cons in IH as [IHv IHl].
  cbn [print_value parse_value]. fold (elements_tail rest l).
  rewrite skip_ws_value by done. cbv iota zeta.
  change (Ascii.eqb "[" dquote) with false. change (Ascii.eqb "[" "[") with true. cbv iota.
  destruct (print_head v (elements_tail rest l) Hv) as (c & t & E & Hc).
  rewrite E, skip_ws_value by done. simpl in Hf. fold need_elements in Hf.
  pose proof (IHv fuel (elements_tail rest l)) as Hback. rewrite E in Hback.
  rewrite Hback by (lia || apply ends_elements). simpl.
  rewrite parse_elements_back by (done || lia). simpl.
  by destruct c as [[] [] [] [] [] [] [] []].
Qed.

Lemma parses_back_obj m :
  Forall (λ kv, parses_back kv.2) m → parses_back (JObj m).
Proof.
  intros IH [|fuel] rest Hf Hr; [pose proof (need_pos (JObj m)); lia|].
  destruct m as [|[k v] m]; [done|]. apply Forall_cons in IH as [IHv IHm]. simpl in IHv.
  cbn [print_value parse_value]. fold (members_tail rest m).
  rewrite skip_ws_value by done. cbv iota zeta. simpl in Hf. fold need_members in Hf.
  change (Ascii.eqb "{" dquote) with false. change (Ascii.eqb "{" "[") with false.
  change (Ascii.eqb "{" "{") with true. cbv iota.
  change (skip_ws (print_string k (String ":" (print_value v (members_tail rest m)))))
    with (print_string k (String ":" (print_value v (members_tail rest m)))).
  rewrite parse_member_back by (done || lia || apply ends_members). simpl.
  by rewrite parse_members_back by (done || lia).
Qed.

Lemma parse_print j : wf_json j → parses_back j.
Proof.
  induction j as [|b|lit|s|l IH|m IH] using json_ind'; inversion 1 as [| | | |? Hl|? Hm]; subst.
  - intros [|fuel] rest Hf Hr; [simpl in Hf; lia|done].
  - intros [|fuel] rest Hf Hr; [simpl in Hf; lia|]. by destruct b.
  - intros [|fuel] rest Hf Hr; [simpl in Hf; lia|]. by apply parse_number_back.
  - intros [|fuel] rest Hf Hr; [simpl in Hf; lia|].
    cbn [print_value parse_value]. unfold print_string.
    rewrite skip_ws_value by done. cbv iota zeta.
    by rewrite Ascii.eqb_refl, escape_string_parse.
  - apply parses_back_arr; [|done]. clear -IH Hl. induction IH; inversion Hl; constructor; auto.
  - apply parses_back_obj. clear -IH Hm. induction IH; inversion Hm; constructor; auto.
Qed.

(** The fuel [Unmarshal] starts with is enough. *)
Definition need_bounded (j : json) : Prop :=
  ∀ rest, (need j + 2 * String.length rest ≤ 2 * String.length (print_value j rest))%nat.

Lemma length_escape s rest :
  (String.length rest ≤ String.length (escape_string s rest))%nat.
Proof.
  induction s as [|c s IH]; simpl; [done|]. etrans; [exact IH|].
  unfold escape_byte. repeat case_match; simpl; lia.
Qed.

Lemma length_print_string k rest :
  (2 + String.length rest ≤ String.length (print_string k rest))%nat.
Proof.
  unfold print_string. simpl. pose proof (length_escape k (String dquote rest)) as H.
  simpl in H. lia.
Qed.

Lemma elements_bounded l rest :
  Forall need_bounded l →
  (need_elements l + 2 * String.length rest ≤ 2 * String.length (elements_tail rest l))%nat.
Proof.
  induction 1 as [|v l Hv _ IH]; simpl in *; [lia|]. fold (elements_tail rest l).
  pose proof (Hv (elements_tail rest l)). lia.
Qed.

Lemma members_bounded m rest :
  Forall (λ kv, need_bounded kv.2) m →
  (need_members m + 2 * String.length rest ≤ 2 * String.length (members_tail rest m))%nat.
Proof.
  induction 1 as [|[k v] m Hv _ IH]; simpl in *; [lia|]. fold (members_tail rest m).
  pose proof (Hv (members_tail rest m)).
  pose proof (length_print_string k (String ":" (print_value v (members_tail rest m)))) as Hk.
  simpl in Hk. lia.
Qed.

Lemma need_bound j : wf_json j → need_bounded j.
Proof.
  induction j as [|b|lit|s|l IH|m IH] using json_ind'; inversion 1 as [| | | |? Hl|? Hm]; subst;
    intros rest; cbn [print_value].
  - simpl. lia.
  - destruct b; simpl; lia.
  - destruct lit; [done|]. rewrite length_app_str. simpl. lia.
  - pose proof (length_print_string s rest). cbn [need]. lia.
  - destruct l as [|v l]; [simpl; lia|].
    assert (Forall need_bounded (v :: l)) as Hb
      by (clear -IH Hl; induction IH; inversion Hl; constructor; auto).
    apply Forall_cons in Hb as [Hv Hb]. fold (elements_tail rest l).
    pose proof (elements_bounded _ rest Hb). pose proof (Hv (elements_tail rest l)).
    simpl. fold need_elements. lia.
  - destruct m as [|[k v] m]; [simpl; lia|].
    assert (Forall (λ kv, need_bounded kv.2) ((k, v) :: m)) as Hb
      by (clear -IH Hm; induction IH; inversion Hm; constructor; auto).
    apply Forall_cons in Hb as [Hv Hb]. fold (members_tail rest m).
    pose proof (members_bounded _ rest Hb). pose proof (Hv (members_tail rest m)).
    pose proof (length_print_string k (String ":" (print_value v (members_tail rest m)))) as Hk.
    simpl in *. fold need_members. lia.
Qed.

(** What [Marshal] writes, [Unmarshal] reads back as the same value. *)
Theorem Unmarshal_Marshal j : wf_json j → Unmarshal (Marshal j) = Some j.
Proof.
  intros Hwf. unfold Unmarshal, Marshal. rewrite (parse_print j Hwf); [done| |done].
  pose proof (need_bound j Hwf ""). simpl in *. lia.
Qed.

(** ** Decoding into Go values *)

(** A JSON value decoded into a field of a given type: [None] is an
    [UnmarshalTypeError]; [null] leaves the field as it is. *)
Definition decode_string (old : string) (j : json) : option string :=
  match j with JStr s => Some s | JNull => Some old | _ => None end.

Definition decode_bool (old : bool) (j : json) : option bool :=
  match j with JBool b => Some b | JNull => Some old | _ => None end.

Fixpoint decimal (acc : Z) (s : string) : option Z :=
  match s with
  | "" => Some acc
  | String c s =>
      if is_digit c then decimal (10 * acc + (Z.of_N (N_of_ascii c) - 48)) s else None
  end.

(** An [int] field: an integer literal in range. *)
Definition int_literal (lit : string) : option Z :=
  z ← match lit with String "-"%char s => Z.opp <$> decimal 0 s | _ => decimal 0 lit end;
  if ((- 2 ^ 63 <=? z) && (z <? 2 ^ 63))%Z then Some z else None.
Definition decode_int (old : Z) (j : json) : option Z :=
  match j with JNum lit => int_literal lit | JNull => Some old | _ => None end.

(** A slice field; [null] makes it nil, which the model writes []. *)
Definition decode_list {A} (zero : A) (dec : A → json → option A) (j : json) : option (list A) :=
  match j with
  | JArr l => mapM (dec zero) l
  | JNull => Some []
  | _ => None
  end.

(** An object decoded into a struct: every member, in order, updates the
    field whose name it equals up to case; other members are ignored. *)
Definition decode_struct {A} (set_field : string → json → A → option A) (zero : A) (j : json)
    : option A :=
  match j with
  | JObj m => foldl (λ acc '(k, v), a ← acc; set_field (ToLower k) v a) (Some zero) m
  | JNull => Some zero
  | _ => None
  end.

Lemma Unmarshal_Marshal_witness :
  Unmarshal (Marshal (JArr [JStr "mailto:a@b.c"; JNum "42"; JNull])) =
  Some (JArr [JStr "mailto:a@b.c"; JNum "42"; JNull]).
Proof.
  apply Unmarshal_Marshal. constructor. repeat (constructor; [constructor; reflexivity|]).
  constructor.
Defined.
