(* ===== verification/Store.v ===== *)
(** * The SQLite state store (internal/store)

    The tables are finite maps keyed by their primary keys, with the schema's
    constraints (NOT NULL, the unique index on (order_id, upstream_url), the
    foreign keys, which the DSN turns on) as guards of the statements.  Each
    method of [*Store] is a function of the database; a transaction is one
    step.  What SQL leaves open is a parameter: the order in which a query
    returns its rows ([RowOrder]) and the text the driver binds for a
    [time.Time] argument ([SQLDriver]).  Failures of the database engine
    itself are added where the handlers call the store (World.v). *)
From S2P Require Export RFC3339 Base64 Json.

(** ** Rows and tables *)
Record account_row := MkAccountRow {
  ar_public_key : string; ar_key_type : string; ar_contact : string;
  ar_status : string; ar_created_at : string
}.
Record upstream_account_row := MkUpstreamAccountRow {
  ur_account_url : string; ur_private_key : string; ur_created_at : string
}.
Record order_row := MkOrderRow {
  or_account_id : string; or_upstream_id : string; or_upstream_slot : Z;
  or_upstream_order_url : string; or_status : string; or_identifiers : string;
  or_profile : string; or_require_csr_key_type : string;
  or_created_at : string; or_updated_at : string
}.
Record resource_row := MkResourceRow {
  rr_type : string; rr_order_id : string; rr_upstream_url : string;
  rr_cert_fingerprint : option string
}.

Record Store := MkStore {
  accounts : gmap string account_row;
  upstream_accounts : gmap (string * Z) upstream_account_row;
  upstream_accounts_by_account : gmap (string * string) upstream_account_row;
  orders : gmap string order_row;
  resource_map : gmap string resource_row;
  nonces : gmap string string
}.

Definition empty_store : Store := MkStore ∅ ∅ ∅ ∅ ∅ ∅.

Definition with_accounts f s := MkStore (f (accounts s)) (upstream_accounts s)
  (upstream_accounts_by_account s) (orders s) (resource_map s) (nonces s).
Definition with_upstream_accounts f s := MkStore (accounts s) (f (upstream_accounts s))
  (upstream_accounts_by_account s) (orders s) (resource_map s) (nonces s).
Definition with_by_account f s := MkStore (accounts s) (upstream_accounts s)
  (f (upstream_accounts_by_account s)) (orders s) (resource_map s) (nonces s).
Definition with_orders f s := MkStore (accounts s) (upstream_accounts s)
  (upstream_accounts_by_account s) (f (orders s)) (resource_map s) (nonces s).
Definition with_resources f s := MkStore (accounts s) (upstream_accounts s)
  (upstream_accounts_by_account s) (orders s) (f (resource_map s)) (nonces s).
Definition with_nonces f s := MkStore (accounts s) (upstream_accounts s)
  (upstream_accounts_by_account s) (orders s) (resource_map s) (f (nonces s)).

Class RowOrder := {
  row_order : list (string * resource_row) → list (string * resource_row);
  row_order_perm l : row_order l ≡ₚ l
}.

Class SQLDriver := { bind_time : time → string }.

(** The driver's documented default: a [time.Time] is bound as its [String()],
    which starts with the date and a space. *)
Class SQLDriverLaws `{SQLDriver} := {
  bind_time_date t : representable t →
    ∃ rest, bind_time t = date_text (day_of t) (String " " rest)
}.

(** ** Nonces (nonces.go, store.go) *)
Definition nonceTTL : Z := (10 * 60 * second)%Z.

(** [IssueNonce]: [b] are the 16 random bytes, [None] when the source fails. *)
Definition IssueNonce (b : option string) (now : time) (s : Store) : result string * Store :=
  match b with
  | None => (Errorf "generating nonce: entropy unavailable", s)
  | Some b =>
      let value := EncodeToString b in
      match nonces s !! value with
      | Some _ => (Errorf "saving nonce: UNIQUE constraint failed: nonces.nonce", s)
      | None => (Ok value, with_nonces (<[value := format_rfc3339 (now + nonceTTL)%Z]>) s)
      end
  end.

Definition ConsumeNonce (value : string) (now : time) (s : Store) : result unit * Store :=
  match nonces s !! value with
  | None => (Errorf "nonce not found", s)
  | Some expires_at =>
      match parse_rfc3339 expires_at with
      | None => (Errorf "parsing nonce expiry: bad format", s)
      | Some t =>
          if (t <? now)%Z
          then (Errorf "nonce expired", with_nonces (delete value) s)
          else (Ok tt, with_nonces (delete value) s)
      end
  end.

(** [DELETE FROM nonces WHERE expires_at <= ?] *)
Definition PruneExpiredNonces `{SQLDriver} (now : time) (s : Store) : result unit * Store :=
  (Ok tt, with_nonces (filter (λ kv, text_le kv.2 (bind_time now) = false)) s).

(** ** Accounts (accounts.go) *)
Definition marshal_strings (l : list string) : string :=
  Marshal (match l with [] => JNull | _ => JArr (JStr <$> l) end).
Definition unmarshal_strings (text : string) : option (list string) :=
  j ← Unmarshal text; decode_list "" decode_string j.

(** [time.Parse] with the fallback layout; the second error is ignored. *)
Definition parse_created (text : string) : time :=
  match parse_rfc3339 text with
  | Some t => t
  | None => default zero_time (parse_legacy text)
  end.

Definition SaveAccount (a : Account) (s : Store) : result unit * Store :=
  (Ok tt, with_accounts (<[acct_ID a := MkAccountRow (acct_PublicKey a) (acct_KeyType a)
    (marshal_strings (acct_Contact a)) (acct_Status a) (format_rfc3339 (acct_CreatedAt a))]>) s).

Definition scanAccount (id : string) (r : account_row) : Account :=
  MkAccount id (ar_public_key r) (ar_key_type r) (default [] (unmarshal_strings (ar_contact r)))
    (ar_status r) (parse_created (ar_created_at r)).

Definition GetAccount (id : string) (s : Store) : result (option Account) :=
  Ok (scanAccount id <$> accounts s !! id).

Definition SaveUpstreamAccount (ua : UpstreamAccount) (s : Store) : result unit * Store :=
  (Ok tt, with_upstream_accounts (<[(ua_UpstreamID ua, ua_Slot ua) :=
    MkUpstreamAccountRow (ua_AccountURL ua) (ua_PrivateKey ua) (format_rfc3339 (ua_CreatedAt ua))]>) s).

Definition SaveUpstreamAccountForAccount (ua : UpstreamAccount) (s : Store) : result unit * Store :=
  (Ok tt, with_by_account (<[(ua_UpstreamID ua, ua_AccountID ua) :=
    MkUpstreamAccountRow (ua_AccountURL ua) (ua_PrivateKey ua) (format_rfc3339 (ua_CreatedAt ua))]>) s).

Definition scanUpstreamAccount (upstreamID : string) (slot : Z) (r : upstream_account_row)
    : UpstreamAccount :=
  MkUpstreamAccount upstreamID "" slot (ur_account_url r) (ur_private_key r)
    (parse_created (ur_created_at r)).

Definition GetUpstreamAccountBySlot (upstreamID : string) (slot : Z) (s : Store)
    : result (option UpstreamAccount) :=
  Ok (scanUpstreamAccount upstreamID slot <$> upstream_accounts s !! (upstreamID, slot)).

Definition GetUpstreamAccountForAccount (upstreamID accountID : string) (s : Store)
    : result (option UpstreamAccount) :=
  Ok ((λ r, MkUpstreamAccount upstreamID accountID 0 (ur_account_url r) (ur_private_key r)
        (parse_created (ur_created_at r)))
      <$> upstream_accounts_by_account s !! (upstreamID, accountID)).

(** ** Orders (orders.go) *)
Definition fk_error {A} : result A := Errorf "FOREIGN KEY constraint failed".

Definition SaveOrder (o : Order) (s : Store) : result unit * Store :=
  match accounts s !! order_AccountID o with
  | None => (fk_error, s)
  | Some _ =>
      (Ok tt, with_orders (<[order_ID o := MkOrderRow (order_AccountID o) (order_UpstreamID o)
        (order_UpstreamSlot o) (order_UpstreamOrderURL o) (order_Status o) (order_Identifiers o)
        (order_Profile o) (order_RequireCSRKeyType o) (format_rfc3339 (order_CreatedAt o))
        (format_rfc3339 (order_UpdatedAt o))]>) s)
  end.

(** The parse errors of both timestamps are ignored. *)
Definition scanOrder (id : string) (r : order_row) : Order :=
  MkOrder id (or_account_id r) (or_upstream_id r) (or_upstream_slot r) (or_upstream_order_url r)
    (or_status r) (or_identifiers r) (or_profile r) (or_require_csr_key_type r)
    (default zero_time (parse_rfc3339 (or_created_at r)))
    (default zero_time (parse_rfc3339 (or_updated_at r))).

Definition GetOrder (id : string) (s : Store) : result (option Order) :=
  Ok (scanOrder id <$> orders s !! id).

Definition UpdateOrderStatus (id status : string) (now : time) (s : Store) : result unit * Store :=
  match orders s !! id with
  | None => (Errorf ("order " +:+ Quote id +:+ " not found"), s)
  | Some r =>
      (Ok tt, with_orders (<[id := MkOrderRow (or_account_id r) (or_upstream_id r)
        (or_upstream_slot r) (or_upstream_order_url r) status (or_identifiers r) (or_profile r)
        (or_require_csr_key_type r) (or_created_at r) (format_rfc3339 now)]>) s)
  end.

(** ** Resource mappings (resources.go) *)

(** A row with the same (order_id, upstream_url), the unique index. *)
Definition index_hit (order_id url : string) (r : resource_row) : bool :=
  (rr_order_id r ==? order_id) && (rr_upstream_url r ==? url).

Definition index_conflict (order_id url : string) (s : Store) : bool :=
  existsb (λ '(_, r), index_hit order_id url r) (map_to_list (resource_map s)).

(** [INSERT OR IGNORE]: a primary-key or unique-index conflict is ignored, a
    foreign-key violation is not. *)
Definition SaveResource (r : ResourceMap) (s : Store) : result unit * Store :=
  match resource_map s !! rm_GatewayID r with
  | Some _ => (Ok tt, s)
  | None =>
      if index_conflict (rm_OrderID r) (rm_UpstreamURL r) s then (Ok tt, s)
      else match orders s !! rm_OrderID r with
           | None => (fk_error, s)
           | Some _ =>
               (Ok tt, with_resources (<[rm_GatewayID r :=
                 MkResourceRow (rm_ResourceType r) (rm_OrderID r) (rm_UpstreamURL r) None]>) s)
           end
  end.

Definition scanResource (id : string) (r : resource_row) : ResourceMap :=
  MkResourceMap id (rr_type r) (rr_order_id r) (rr_upstream_url r)
    (default "" (rr_cert_fingerprint r)).

(** The rows of [SELECT ... FROM resource_map WHERE p], in the engine's order. *)
Definition select_resources `{RowOrder} (p : resource_row → bool) (s : Store) : list ResourceMap :=
  (λ '(id, r), scanResource id r)
    <$> row_order (filter (λ kv, p kv.2 = true) (map_to_list (resource_map s))).

Definition GetResource (gatewayID : string) (s : Store) : result (option ResourceMap) :=
  Ok (scanResource gatewayID <$> resource_map s !! gatewayID).

Definition GetResourceByUpstreamURL `{RowOrder} (url : string) (s : Store)
    : result (option ResourceMap) :=
  Ok (head (select_resources (λ r, rr_upstream_url r ==? url) s)).

Definition GetResourceByUpstreamURLAndOrder `{RowOrder} (url orderID : string) (s : Store)
    : result (option ResourceMap) :=
  Ok (head (select_resources (index_hit orderID url) s)).

Definition GetResourceByCertFingerprint `{RowOrder} (fp : string) (s : Store)
    : result (option ResourceMap) :=
  Ok (head (select_resources (λ r, bool_decide (rr_cert_fingerprint r = Some fp)) s)).

Definition GetAuthzResourcesByOrderID `{RowOrder} (orderID : string) (s : Store)
    : result (list ResourceMap) :=
  Ok (select_resources
        (λ r, (rr_order_id r ==? orderID) && (rr_type r ==? ResourceTypeAuthz)) s).

Definition UpdateResourceCertFingerprint (gatewayID fp : string) (s : Store)
    : result unit * Store :=
  (Ok tt, with_resources (alter (λ r, MkResourceRow (rr_type r) (rr_order_id r)
    (rr_upstream_url r) (Some fp)) gatewayID) s).

(** ** The operations as steps

    Every statement that writes, with the clock and the random bytes it
    reads as arguments; [run] is one committed transaction. *)
Inductive store_op :=
| OpIssueNonce (bytes : option string) (now : time)
| OpConsumeNonce (value : string) (now : time)
| OpPrune (now : time)
| OpSaveAccount (a : Account)
| OpSaveUpstreamAccount (ua : UpstreamAccount)
| OpSaveUpstreamAccountForAccount (ua : UpstreamAccount)
| OpSaveOrder (o : Order)
| OpUpdateOrderStatus (id status : string) (now : time)
| OpSaveResource (r : ResourceMap)
| OpUpdateFingerprint (gatewayID fp : string).

Definition unit_result (x : result unit * Store) : result string * Store :=
  (match x.1 with Ok _ => Ok "" | Err e => Err e end, x.2).

Definition run `{SQLDriver} (op : store_op) (s : Store) : result string * Store :=
  match op with
  | OpIssueNonce b now => IssueNonce b now s
  | OpConsumeNonce v now => unit_result (ConsumeNonce v now s)
  | OpPrune now => unit_result (PruneExpiredNonces now s)
  | OpSaveAccount a => unit_result (SaveAccount a s)
  | OpSaveUpstreamAccount ua => unit_result (SaveUpstreamAccount ua s)
  | OpSaveUpstreamAccountForAccount ua => unit_result (SaveUpstreamAccountForAccount ua s)
  | OpSaveOrder o => unit_result (SaveOrder o s)
  | OpUpdateOrderStatus id st now => unit_result (UpdateOrderStatus id st now s)
  | OpSaveResource r => unit_result (SaveResource r s)
  | OpUpdateFingerprint id fp => unit_result (UpdateResourceCertFingerprint id fp s)
  end.

Fixpoint run_all `{SQLDriver} (ops : list store_op) (s : Store) : Store :=
  match ops with
  | [] => s
  | op :: ops => run_all ops (run op s).2
  end.

(** The instants an operation writes. *)
Definition op_time_ok (op : store_op) : Prop :=
  match op with
  | OpIssueNonce _ now => representable (now + nonceTTL)%Z
  | OpPrune now => representable now
  | OpSaveAccount a => representable (acct_CreatedAt a)
  | OpSaveUpstreamAccount ua | OpSaveUpstreamAccountForAccount ua => representable (ua_CreatedAt ua)
  | OpSaveOrder o => representable (order_CreatedAt o) ∧ representable (order_UpdatedAt o)
  | OpUpdateOrderStatus _ _ now => representable now
  | _ => True
  end.

(** An instant as it is stored: cut to the second. *)
Definition to_second (t : time) : time := (unix_seconds t * second)%Z.

(** ** The schema's invariant *)
Definition stored_time (text : string) : Prop := ∃ t, representable t ∧ text = format_rfc3339 t.

Record store_wf (s : Store) : Prop := {
  wf_nonces : map_Forall (λ _ text, stored_time text) (nonces s);
  wf_account_times : map_Forall (λ _ r, stored_time (ar_created_at r)) (accounts s);
  wf_order_times :
    map_Forall (λ _ r, stored_time (or_created_at r) ∧ stored_time (or_updated_at r)) (orders s);
  wf_order_account :
    map_Forall (λ _ r, is_Some (accounts s !! or_account_id r)) (orders s);
  wf_resource_order :
    map_Forall (λ _ r, is_Some (orders s !! rr_order_id r)) (resource_map s);
  wf_resource_index : ∀ i j r q,
    resource_map s !! i = Some r → resource_map s !! j = Some q →
    rr_order_id r = rr_order_id q → rr_upstream_url r = rr_upstream_url q → i = j
}.

Lemma empty_store_wf : store_wf empty_store.
Proof. split; try apply map_Forall_empty. done. Qed.

Lemma stored_time_parse text : stored_time text → ∃ t, parse_rfc3339 text = Some t.
Proof. intros (t & Ht & ->). eexists. by apply parse_format_rfc3339. Qed.

Lemma stored_now t : representable t → stored_time (format_rfc3339 t).
Proof. by exists t. Qed.
#[export] Hint Resolve stored_now : gateway.

Lemma index_conflict_true oid url s :
  index_conflict oid url s = true ↔
  ∃ i r, resource_map s !! i = Some r ∧ rr_order_id r = oid ∧ rr_upstream_url r = url.
Proof.
  unfold index_conflict. rewrite existsb_elem. split.
  - intros ([i r] & Hin%elem_of_map_to_list & Hit). unfold index_hit in Hit. simp_bool.
    naive_solver.
  - intros (i & r & Hin & <- & <-). exists (i, r). rewrite elem_of_map_to_list.
    unfold index_hit. by rewrite !String.eqb_refl.
Qed.
Lemma index_conflict_false oid url s :
  index_conflict oid url s = false ↔
  ∀ i r, resource_map s !! i = Some r → rr_order_id r = oid → rr_upstream_url r = url → False.
Proof.
  rewrite <- not_true_iff_false, index_conflict_true. naive_solver.
Qed.

Lemma insert_keeps_key {K A} `{Countable K} (m : gmap K A) k a k' :
  is_Some (m !! k') → is_Some (<[k:=a]> m !! k').
Proof. destruct (decide (k = k')) as [->|]; [rewrite lookup_insert_eq|rewrite lookup_insert_ne]; eauto. Qed.
#[export] Hint Resolve insert_keeps_key : gateway.

(** Writes to one table leave the constraints of the others alone. *)
Lemma wf_with_nonces f s :
  store_wf s → map_Forall (λ _ text, stored_time text) (f (nonces s)) → store_wf (with_nonces f s).
Proof. by intros [] Hf; split. Qed.

Lemma wf_with_upstream_accounts f s : store_wf s → store_wf (with_upstream_accounts f s).
Proof. by intros []; split. Qed.
Lemma wf_with_by_account f s : store_wf s → store_wf (with_by_account f s).
Proof. by intros []; split. Qed.
#[export] Hint Resolve wf_with_upstream_accounts wf_with_by_account : gateway.

Lemma wf_save_account k r s :
  store_wf s → stored_time (ar_created_at r) → store_wf (with_accounts (<[k := r]>) s).
Proof.
  intros [] Hr. split; simpl; try done.
  - by apply map_Forall_insert_2.
  - eapply map_Forall_impl; [done|]. eauto with gateway.
Qed.

Lemma wf_save_order k r s :
  store_wf s → stored_time (or_created_at r) → stored_time (or_updated_at r) →
  is_Some (accounts s !! or_account_id r) → store_wf (with_orders (<[k := r]>) s).
Proof.
  intros [] Hc Hu Ha. split; simpl; try done.
  - by apply map_Forall_insert_2.
  - by apply map_Forall_insert_2.
  - eapply map_Forall_impl; [done|]. eauto with gateway.
Qed.

Lemma wf_insert_resource k r s :
  store_wf s → resource_map s !! k = None →
  index_conflict (rr_order_id r) (rr_upstream_url r) s = false →
  is_Some (orders s !! rr_order_id r) → store_wf (with_resources (<[k := r]>) s).
Proof.
  rewrite index_conflict_false. intros [] Hk Hc Ho. split; simpl; try done.
  - by apply map_Forall_insert_2.
  - intros i j q q' Hi Hj Hid Hurl.
    apply lookup_insert_Some in Hi, Hj. destruct Hi as [[<- <-]|[Hi1 Hi2]], Hj as [[<- <-]|[Hj1 Hj2]]; eauto.
    + exfalso. eauto.
    + exfalso. eauto.
Qed.

Lemma wf_fingerprint k fp s :
  store_wf s → store_wf (UpdateResourceCertFingerprint k fp s).2.
Proof.
  intros []. split; simpl; try done.
  - intros i q. rewrite lookup_alter_Some. naive_solver.
  - intros i j q q'. rewrite !lookup_alter_Some. intros Hi Hj.
    destruct Hi as [(<- & r1 & Hi & ->)|[_ Hi]], Hj as [(Hj0 & r2 & Hj & ->)|[_ Hj]]; simpl; eauto.
Qed.
#[export] Hint Resolve wf_with_nonces wf_save_account wf_save_order wf_insert_resource
  wf_fingerprint : gateway.

(** One operation keeps the schema's constraints, whether it succeeds or not. *)
Lemma run_wf `{SQLDriver} op s :
  store_wf s → op_time_ok op → store_wf (run op s).2.
Proof.
  intros Hs Ht. pose proof Hs as []. destruct op as [[b|] now|v now|now|a|ua|ua|o|id st now|r|id fp];
    simpl in *; unfold IssueNonce, ConsumeNonce, PruneExpiredNonces, SaveOrder,
      UpdateOrderStatus, SaveResource in *; repeat case_match; simpl in *;
    destruct_and?; eauto with gateway.
  - apply wf_with_nonces; [done|]. apply map_Forall_insert_2; eauto with gateway.
  - apply wf_with_nonces; [done|]. by apply map_Forall_delete.
  - apply wf_with_nonces; [done|]. by apply map_Forall_delete.
  - apply wf_with_nonces; [done|]. intros i x [Hi _]%map_lookup_filter_Some; eauto.
  - match goal with Hl : orders s !! id = Some _ |- _ =>
      pose proof (wf_order_times s Hs _ _ Hl) as []; pose proof (wf_order_account s Hs _ _ Hl) end.
    apply wf_save_order; simpl in *; auto using stored_now.
  - by apply (wf_fingerprint id fp).
Qed.

(** Every history of store operations, successful or not, keeps the schema's
    constraints: stored timestamps parse, orders refer to existing accounts and
    resources to existing orders, and no two resources share (order, URL). *)
Theorem run_all_store_wf `{SQLDriver} ops s :
  store_wf s → Forall op_time_ok ops → store_wf (run_all ops s).
Proof.
  intros Hs Hops. revert s Hs. induction Hops as [|op ops Hop _ IH]; intros s Hs; simpl; [done|].
  apply IH. by apply run_wf.
Qed.

(** ** Nonces *)

(** How often an operation with a given outcome occurs in a history. *)
Fixpoint count_runs `{SQLDriver} (p : store_op → result string → bool) (ops : list store_op)
    (s : Store) : nat :=
  match ops with
  | [] => 0
  | op :: ops => (if p op (run op s).1 then 1 else 0) + count_runs p ops (run op s).2
  end.

Definition issues (v : string) (op : store_op) (r : result string) : bool :=
  match op, r with OpIssueNonce _ _, Ok w => w ==? v | _, _ => false end.
Definition consumes (v : string) (op : store_op) (r : result string) : bool :=
  match op, r with OpConsumeNonce w _, Ok _ => w ==? v | _, _ => false end.
Definition live (v : string) (s : Store) : nat :=
  if decide (is_Some (nonces s !! v)) then 1 else 0.

Lemma live_some v s text : nonces s !! v = Some text → live v s = 1.
Proof. intros Hv. unfold live. rewrite decide_True; eauto. Qed.
Lemma live_none v s : nonces s !! v = None → live v s = 0.
Proof. intros Hv. unfold live. rewrite Hv. by rewrite decide_False by (by intros []). Qed.
Lemma live_le v s s' :
  (∀ text, nonces s' !! v = Some text → nonces s !! v = Some text) → live v s' ≤ live v s.
Proof.
  intros Hsub. destruct (nonces s' !! v) as [text|] eqn:Hv.
  - by rewrite (live_some _ _ _ Hv), (live_some _ _ _ (Hsub _ eq_refl)).
  - rewrite (live_none _ _ Hv). lia.
Qed.

Lemma consume_step v w now s :
  let '(r, s') := ConsumeNonce w now s in
  (if is_ok r && (w ==? v) then 1 else 0) + live v s' ≤ live v s.
Proof.
  unfold ConsumeNonce. destruct (nonces s !! w) as [text|] eqn:Hw; [|done].
  assert (live v (with_nonces (delete w) s) + (if w ==? v then 1 else 0) ≤ live v s).
  { destruct (String.eqb_spec w v) as [<-|Hne].
    - rewrite (live_some _ _ _ Hw), live_none; [done|]. apply lookup_delete_eq.
    - rewrite Nat.add_0_r. apply live_le. intros t. simpl. by rewrite lookup_delete_ne. }
  destruct (parse_rfc3339 text); [|simpl; lia].
  destruct (t <? now)%Z; cbn -[live with_nonces]; destruct (w ==? v); lia.
Qed.

Lemma run_counts `{SQLDriver} v op s :
  (if consumes v op (run op s).1 then 1 else 0) + live v (run op s).2 ≤
  (if issues v op (run op s).1 then 1 else 0) + live v s.
Proof.
  destruct op as [[b|] now|w now|now|a|ua|ua|o|id st now|r|id fp]; simpl; try done.
  - unfold IssueNonce. destruct (nonces s !! EncodeToString b) eqn:Hb; simpl; [done|].
    destruct (String.eqb_spec (EncodeToString b) v) as [<-|Hne].
    + rewrite (live_none _ _ Hb). unfold live. destruct (decide _); lia.
    + apply live_le. intros t. simpl. by rewrite lookup_insert_ne.
  - pose proof (consume_step v w now s) as Hc. destruct (ConsumeNonce w now s) as [[] s'];
      simpl in *; lia.
  - apply live_le. simpl. intros t Ht%map_lookup_filter_Some. naive_solver.
  - unfold SaveOrder; case_match; done.
  - unfold UpdateOrderStatus; case_match; done.
  - unfold SaveResource; repeat case_match; done.
Qed.

(** C7: a nonce is good for one request. In every history of store operations,
    whatever the clock does, a value is accepted at most as many times as it was
    issued (plus once if it was live at the start). *)
Theorem nonce_single_use `{SQLDriver} ops s v :
  count_runs (consumes v) ops s ≤ count_runs (issues v) ops s + live v s.
Proof.
  revert s. induction ops as [|op ops IH]; intros s; simpl; [lia|].
  pose proof (run_counts v op s). specialize (IH (run op s).2). lia.
Qed.

(** Pruning compares dates only: the texts differ at the byte after the date. *)
Lemma prune_test `{SQLDriverLaws} t now :
  representable t → representable now →
  text_le (format_rfc3339 t) (bind_time now) = (day_of t <? day_of now)%Z.
Proof.
  intros Ht Hnow. destruct (bind_time_date now Hnow) as [rest ->].
  unfold text_le, String.leb, format_rfc3339. rewrite compare_date_text by done.
  destruct (Z.compare_spec (day_of t) (day_of now)), (Z.ltb_spec (day_of t) (day_of now)); try lia; done.
Qed.

(** Pruning deletes a nonce exactly when its expiry falls on an earlier
    day than the clock's: no nonce that could still be accepted is lost, and one that
    expired today stays. *)
Theorem prune_exact `{SQLDriverLaws} s now v t :
  nonces s !! v = Some (format_rfc3339 t) → representable t → representable now →
  nonces (PruneExpiredNonces now s).2 !! v =
    (if (day_of t <? day_of now)%Z then None else nonces s !! v).
Proof.
  intros Hv Ht Hnow. simpl. rewrite Hv, <- (prune_test t now) by done.
  destruct (text_le (format_rfc3339 t) (bind_time now)) eqn:Hle.
  - apply map_lookup_filter_None. right. intros x Hx. simpl. congruence.
  - by apply map_lookup_filter_Some.
Qed.

(** An operation that leaves nonce [v], good until [deadline], alone. *)
Definition spares (v : string) (deadline : time) (op : store_op) : Prop :=
  match op with
  | OpConsumeNonce w _ => w ≠ v
  | OpPrune now => representable now ∧ (now ≤ deadline)%Z
  | _ => True
  end.

Lemma day_of_mono a b : (a ≤ b)%Z → (day_of a ≤ day_of b)%Z.
Proof.
  intros Hab. unfold day_of, unix_seconds. apply Z.div_le_mono; [done|]. by apply Z.div_le_mono.
Qed.

Lemma run_spares `{SQLDriverLaws} v t op s :
  representable t → spares v t op → nonces s !! v = Some (format_rfc3339 t) →
  nonces (run op s).2 !! v = Some (format_rfc3339 t).
Proof.
  intros Ht Hop Hv. destruct op as [[b|] now|w now|now|a|ua|ua|o|id st now|r|id fp]; simpl in *; try done.
  - unfold IssueNonce. case_match eqn:Hb; simpl; [done|]. rewrite lookup_insert_ne; [done|congruence].
  - unfold ConsumeNonce. repeat case_match; simpl; try done; by rewrite lookup_delete_ne.
  - destruct Hop as [Hnow Hle]. apply map_lookup_filter_Some. split; [done|]. simpl.
    rewrite prune_test by done. apply Z.ltb_ge. by apply day_of_mono.
  - unfold SaveOrder; case_match; done.
  - unfold UpdateOrderStatus; case_match; done.
  - unfold SaveResource; repeat case_match; done.
Qed.

(** An issued nonce is accepted, whatever else the store does meanwhile,
    up to its expiry (truncated to the second), refused as expired afterwards,
    and gone in both cases. *)
Theorem nonce_accepted `{SQLDriverLaws} b now s ops now' v s' :
  IssueNonce (Some b) now s = (Ok v, s') →
  representable (now + nonceTTL)%Z →
  Forall (spares v (now + nonceTTL)%Z) ops →
  let '(r, s'') := ConsumeNonce v now' (run_all ops s') in
  r = (if (to_second (now + nonceTTL) <? now')%Z
       then Errorf "nonce expired" else Ok tt) ∧
  nonces s'' !! v = None.
Proof.
  intros Hissue Ht Hops.
  assert (nonces s' !! v = Some (format_rfc3339 (now + nonceTTL)%Z)) as Hv.
  { unfold IssueNonce in Hissue. case_match; simplify_eq/=. apply lookup_insert_eq. }
  clear Hissue. revert s' Hv. induction Hops as [|op ops Hop _ IH]; intros s' Hv; simpl.
  - unfold ConsumeNonce. rewrite Hv, parse_format_rfc3339 by done. fold (to_second (now + nonceTTL)%Z).
    destruct (to_second _ <? now')%Z; (split; [done|]); apply lookup_delete_eq.
  - apply IH. by apply (run_spares _ (now + nonceTTL)%Z).
Qed.

(** ** Reading back what was saved *)

Lemma marshal_strings_back l : unmarshal_strings (marshal_strings l) = Some l.
Proof.
  unfold unmarshal_strings, marshal_strings. rewrite Unmarshal_Marshal.
  - assert (mapM (decode_string "") (JStr <$> l) = Some l) as Hl.
    { induction l as [|b l IH]; [done|]. change (match mapM (decode_string "") (JStr <$> l) with Some k => Some (b :: k) | None => None end = Some (b :: l)). by rewrite IH. }
    by destruct l.
  - destruct l; constructor. apply Forall_fmap, Forall_true. intros ?. constructor.
Qed.

Lemma parse_created_format t : representable t → parse_created (format_rfc3339 t) = to_second t.
Proof. intros Ht. unfold parse_created. by rewrite parse_format_rfc3339. Qed.

Lemma parse_format_default t :
  representable t → default zero_time (parse_rfc3339 (format_rfc3339 t)) = to_second t.
Proof. intros Ht. by rewrite parse_format_rfc3339. Qed.

(** An account is read back as saved, its contacts through JSON and its
    timestamp cut to the second; other accounts are unaffected. *)
Theorem save_get_account a s id :
  representable (acct_CreatedAt a) →
  GetAccount id (SaveAccount a s).2 =
    if decide (id = acct_ID a)
    then Ok (Some (MkAccount (acct_ID a) (acct_PublicKey a) (acct_KeyType a) (acct_Contact a)
                     (acct_Status a) (to_second (acct_CreatedAt a))))
    else GetAccount id s.
Proof.
  intros Ht. unfold GetAccount. simpl. case_decide; subst.
  - rewrite lookup_insert_eq. simpl. unfold scanAccount. simpl.
    by rewrite marshal_strings_back, parse_created_format.
  - by rewrite lookup_insert_ne.
Qed.

(** An order saved for a known account is read back as saved, up to the
    second; for an unknown account the foreign key refuses it. *)
Theorem save_get_order o s :
  representable (order_CreatedAt o) → representable (order_UpdatedAt o) →
  let '(r, s') := SaveOrder o s in
  match accounts s !! order_AccountID o with
  | None => is_ok r = false ∧ s' = s
  | Some _ =>
      r = Ok tt ∧
      GetOrder (order_ID o) s' =
        Ok (Some (MkOrder (order_ID o) (order_AccountID o) (order_UpstreamID o)
          (order_UpstreamSlot o) (order_UpstreamOrderURL o) (order_Status o) (order_Identifiers o)
          (order_Profile o) (order_RequireCSRKeyType o) (to_second (order_CreatedAt o))
          (to_second (order_UpdatedAt o)))) ∧
      (∀ id, id ≠ order_ID o → GetOrder id s' = GetOrder id s)
  end.
Proof.
  intros Hc Hu. unfold SaveOrder, GetOrder. destruct (accounts s !! _); [|done]. simpl.
  split_and!; [done| |].
  - rewrite lookup_insert_eq. simpl. unfold scanOrder. simpl. by rewrite !parse_format_default.
  - intros id Hid. by rewrite lookup_insert_ne.
Qed.

(** Updating an order's status changes its status and its update time and
    nothing else; an unknown order is an error that leaves the store alone. *)
Theorem update_order_status_spec id st now s :
  representable now →
  let '(r, s') := UpdateOrderStatus id st now s in
  match GetOrder id s with
  | Ok (Some o) =>
      r = Ok tt ∧
      GetOrder id s' =
        Ok (Some (MkOrder id (order_AccountID o) (order_UpstreamID o)
          (order_UpstreamSlot o) (order_UpstreamOrderURL o) st (order_Identifiers o)
          (order_Profile o) (order_RequireCSRKeyType o) (order_CreatedAt o) (to_second now))) ∧
      (∀ j, j ≠ id → GetOrder j s' = GetOrder j s)
  | _ => r = Errorf ("order " +:+ Quote id +:+ " not found") ∧ s' = s
  end.
Proof.
  intros Hn. unfold UpdateOrderStatus, GetOrder. destruct (orders s !! id) as [o|]; [|done]. simpl.
  split_and!; [done| |].
  - rewrite lookup_insert_eq. simpl. unfold scanOrder. simpl. by rewrite parse_format_default.
  - intros j Hj. by rewrite lookup_insert_ne.
Qed.

Lemma save_get_upstream_account ua s upstreamID slot :
  representable (ua_CreatedAt ua) →
  GetUpstreamAccountBySlot upstreamID slot (SaveUpstreamAccount ua s).2 =
    if decide ((upstreamID, slot) = (ua_UpstreamID ua, ua_Slot ua))
    then Ok (Some (MkUpstreamAccount upstreamID "" slot (ua_AccountURL ua) (ua_PrivateKey ua)
                     (to_second (ua_CreatedAt ua))))
    else GetUpstreamAccountBySlot upstreamID slot s.
Proof.
  intros Ht. unfold GetUpstreamAccountBySlot. simpl. case_decide as Hk.
  - rewrite Hk, lookup_insert_eq. simpl. unfold scanUpstreamAccount. simpl.
    by rewrite parse_created_format.
  - by rewrite lookup_insert_ne.
Qed.

(** ** Resource mappings *)

(** Some row a query returns first: one that satisfies its condition. *)
Lemma select_head_some `{RowOrder} p s m :
  head (select_resources p s) = Some m →
  ∃ i r, resource_map s !! i = Some r ∧ p r = true ∧ m = scanResource i r.
Proof.
  intros Hm. assert (m ∈ select_resources p s) as Hin.
  { destruct (select_resources p s); simplify_eq/=. left. }
  apply list_elem_of_fmap in Hin as ([i r] & -> & Hin).
  rewrite row_order_perm in Hin. apply list_elem_of_filter in Hin as [Hp Hin].
  apply elem_of_map_to_list in Hin. eauto.
Qed.

Lemma select_head_none `{RowOrder} p s :
  head (select_resources p s) = None ↔ ∀ i r, resource_map s !! i = Some r → p r = false.
Proof.
  rewrite head_None. unfold select_resources. split.
  - intros Hnil%fmap_nil_inv i r Hi. destruct (p r) eqn:Hp; [|done]. exfalso.
    assert ((i, r) ∈ row_order (filter (λ kv, p kv.2 = true) (map_to_list (resource_map s)))) as Hin.
    { rewrite row_order_perm. apply list_elem_of_filter. by rewrite elem_of_map_to_list. }
    rewrite Hnil in Hin. inversion Hin.
  - intros Hall. apply elem_of_nil_inv. intros m Hin.
    apply list_elem_of_fmap in Hin as ([i r] & -> & Hin). rewrite row_order_perm in Hin. apply list_elem_of_filter in Hin as [Hp Hin].
    apply elem_of_map_to_list in Hin. simpl in Hp. by rewrite (Hall i r) in Hp.
Qed.

(** A query whose condition picks one row returns it, in every row order. *)
Lemma select_head_unique `{RowOrder} p s i r :
  resource_map s !! i = Some r → p r = true →
  (∀ j q, resource_map s !! j = Some q → p q = true → j = i) →
  head (select_resources p s) = Some (scanResource i r).
Proof.
  intros Hi Hp Huniq. destruct (head (select_resources p s)) as [m|] eqn:Hm.
  - apply select_head_some in Hm as (j & q & Hj & Hq & ->).
    rewrite (Huniq j q Hj Hq) in Hj |- *. by simplify_eq.
  - rewrite select_head_none in Hm. by rewrite (Hm i r) in Hp.
Qed.

Lemma index_hit_true oid url r :
  index_hit oid url r = true ↔ rr_order_id r = oid ∧ rr_upstream_url r = url.
Proof. unfold index_hit. by simp_bool. Qed.

Lemma scoped_lookup `{RowOrder} s i r :
  store_wf s → resource_map s !! i = Some r →
  GetResourceByUpstreamURLAndOrder (rr_upstream_url r) (rr_order_id r) s =
    Ok (Some (scanResource i r)).
Proof.
  intros Hs Hi. unfold GetResourceByUpstreamURLAndOrder. f_equal.
  apply select_head_unique; [done|by apply index_hit_true|].
  intros j q Hj [Ho Hu]%index_hit_true. by apply (wf_resource_index s Hs j i q r).
Qed.

(** Mapping an upstream URL under an order is idempotent and the first
    mapping wins. After [SaveResource] with a fresh gateway ID for an existing order, the
    scoped lookup returns the mapping that was there before, or else the new one,
    whatever the order in which the engine returns rows. *)
Theorem save_resource_first_wins `{RowOrder} r s :
  store_wf s → GetResource (rm_GatewayID r) s = Ok None →
  is_Some (orders s !! rm_OrderID r) →
  let '(res, s') := SaveResource r s in
  res = Ok tt ∧
  GetResourceByUpstreamURLAndOrder (rm_UpstreamURL r) (rm_OrderID r) s' =
    match GetResourceByUpstreamURLAndOrder (rm_UpstreamURL r) (rm_OrderID r) s with
    | Ok (Some old) => Ok (Some old)
    | _ => Ok (Some (MkResourceMap (rm_GatewayID r) (rm_ResourceType r) (rm_OrderID r)
                       (rm_UpstreamURL r) ""))
    end.
Proof.
  intros Hs Hfresh [o Ho]. unfold SaveResource.
  destruct (resource_map s !! rm_GatewayID r) eqn:Hid; [unfold GetResource in Hfresh; by rewrite Hid in Hfresh|].
  destruct (index_conflict _ _ s) eqn:Hc.
  - apply index_conflict_true in Hc as (i & q & Hq & <- & <-).
    by rewrite (scoped_lookup s i q).
  - rewrite Ho. split; [done|].
    assert (GetResourceByUpstreamURLAndOrder (rm_UpstreamURL r) (rm_OrderID r) s = Ok None) as ->.
    { unfold GetResourceByUpstreamURLAndOrder. f_equal. apply select_head_none.
      intros i q Hq. apply not_true_iff_false. intros [Hoq Huq]%index_hit_true.
      rewrite index_conflict_false in Hc. eauto. }
    set (row := MkResourceRow (rm_ResourceType r) (rm_OrderID r) (rm_UpstreamURL r) None).
    apply (scoped_lookup (with_resources (<[rm_GatewayID r := row]>) s) (rm_GatewayID r) row).
    + apply wf_insert_resource; simpl; eauto.
    + apply lookup_insert_eq.
Qed.

(** The authorizations listed for an order are exactly its authz
    mappings, each once. *)
Theorem authz_resources_spec `{RowOrder} oid s :
  ∃ l, GetAuthzResourcesByOrderID oid s = Ok l ∧ NoDup (rm_GatewayID <$> l) ∧
  ∀ m, m ∈ l ↔ GetResource (rm_GatewayID m) s = Ok (Some m) ∧
               rm_OrderID m = oid ∧ rm_ResourceType m = ResourceTypeAuthz.
Proof.
  eexists. split; [done|]. split.
  - unfold select_resources. rewrite <- list_fmap_compose.
    rewrite (list_fmap_ext _ fst) by (by intros ? [] ?).
    rewrite row_order_perm. generalize (NoDup_fst_map_to_list (resource_map s)).
    generalize (map_to_list (resource_map s)). intros l. induction l as [|[i r] l IH]; simpl; [done|].
    rewrite NoDup_cons. intros [Hnin Hnd]. rewrite filter_cons. case_decide; [|by apply IH].
    simpl. apply NoDup_cons. split; [|by apply IH]. contradict Hnin.
    apply list_elem_of_fmap in Hnin as (kv & Heq & [_ Hin]%list_elem_of_filter).
    apply list_elem_of_fmap. eauto.
  - intros m. unfold select_resources, GetResource. rewrite list_elem_of_fmap. split.
    + intros ([i r] & -> & Hin). rewrite row_order_perm in Hin.
      apply list_elem_of_filter in Hin as [Hp Hin]. apply elem_of_map_to_list in Hin.
      simpl in *. simp_bool. rewrite Hin. naive_solver.
    + intros (Hg & Ho & Ht). destruct (resource_map s !! rm_GatewayID m) as [r|] eqn:Hr; [|done].
      injection Hg as Hg. exists (rm_GatewayID m, r). split; [done|].
      rewrite row_order_perm. apply list_elem_of_filter. rewrite elem_of_map_to_list. simpl.
      split; [|done]. rewrite <- Hg in Ho, Ht. simpl in Ho, Ht. rewrite Ho, Ht. simp_bool. done.
Qed.

(** ** The theorems at concrete inputs *)

(** [time.Time.String] of a UTC instant, without the fraction. *)
Definition go_time_string (t : time) : string :=
  date_text (day_of t) (String " " (clock_text (unix_seconds t mod 86400) " +0000 UTC")).
Definition go_driver : SQLDriver := {| bind_time := go_time_string |}.
Lemma go_driver_laws : @SQLDriverLaws go_driver.
Proof. split. intros t _. by eexists. Qed.
Definition table_order : RowOrder := {| row_order l := l; row_order_perm l := reflexivity l |}.

Definition ex_now : time := (1750000000 * second)%Z.
Definition ex_account : Account :=
  MkAccount "thumb1" "{}" KeyTypeECDSA ["mailto:a@b.c"; "x<y"] AccountStatusValid ex_now.
Definition ex_order : Order :=
  MkOrder "order1" "thumb1" "le" 0 "https://ca/order/1" OrderStatusPending "[]" "" "" ex_now ex_now.
Definition ex_resource (id : string) : ResourceMap :=
  MkResourceMap id ResourceTypeAuthz "order1" "https://ca/authz/9" "".
Definition ex_ops : list store_op := [OpSaveAccount ex_account; OpSaveOrder ex_order].
Definition ex_store : Store := run_all (H := go_driver) ex_ops empty_store.

Lemma ex_representable : representable ex_now.
Proof. split; vm_compute; congruence. Qed.
Lemma ex_expiry_representable : representable (ex_now + nonceTTL)%Z.
Proof. split; vm_compute; congruence. Qed.
#[export] Hint Resolve ex_representable ex_expiry_representable : gateway.

Lemma ex_store_wf : store_wf ex_store.
Proof.
  apply run_wf; [apply run_wf; [apply empty_store_wf|]|]; repeat constructor; apply ex_representable.
Qed.

Lemma run_all_store_wf_witness :
  store_wf (@run_all go_driver
    [OpSaveResource (ex_resource "r1"); OpSaveResource (ex_resource "r2")] ex_store).
Proof. apply (@run_all_store_wf go_driver); [apply ex_store_wf|repeat constructor]. Defined.

Lemma prune_exact_witness :
  let s := with_nonces (<["n1" := format_rfc3339 ex_now]>) empty_store in
  nonces (@PruneExpiredNonces go_driver (ex_now + 86400 * second)%Z s).2 !! "n1" = None.
Proof.
  intros s. rewrite (@prune_exact go_driver go_driver_laws s _ "n1" ex_now).
  - reflexivity.
  - reflexivity.
  - apply ex_representable.
  - split; vm_compute; congruence.
Defined.

Lemma nonce_accepted_witness :
  exists s', IssueNonce (Some "0123456789abcdef") ex_now ex_store = (Ok "MDEyMzQ1Njc4OWFiY2RlZg", s') ∧
  (ConsumeNonce "MDEyMzQ1Njc4OWFiY2RlZg" (ex_now + second)%Z
     (@run_all go_driver [OpConsumeNonce "other" ex_now; OpPrune ex_now] s')).1 = Ok tt.
Proof.
  eexists. split; [reflexivity|].
  pose proof (@nonce_accepted go_driver go_driver_laws "0123456789abcdef" ex_now ex_store
    [OpConsumeNonce "other" ex_now; OpPrune ex_now] (ex_now + second)%Z
    "MDEyMzQ1Njc4OWFiY2RlZg" _ eq_refl) as H.
  destruct (ConsumeNonce _ _ _) as [r s'']. destruct H as [-> _].
  - apply ex_expiry_representable.
  - constructor; [simpl; congruence|]. constructor; [|constructor].
    split; [apply ex_representable|vm_compute; congruence].
  - reflexivity.
Defined.

Lemma save_get_account_witness :
  GetAccount "thumb1" (SaveAccount ex_account empty_store).2 = Ok (Some ex_account).
Proof.
  rewrite (save_get_account ex_account empty_store "thumb1"); [reflexivity|apply ex_representable].
Defined.

Lemma save_get_order_witness :
  GetOrder "order1" (SaveOrder ex_order ex_store).2 = Ok (Some ex_order).
Proof.
  pose proof (save_get_order ex_order ex_store ex_representable ex_representable) as H.
  destruct (SaveOrder ex_order ex_store) as [r s']. destruct H as (_ & H & _). exact H.
Defined.

Lemma update_order_status_spec_witness :
  (UpdateOrderStatus "order1" OrderStatusValid ex_now ex_store).1 = Ok tt.
Proof.
  pose proof (update_order_status_spec "order1" OrderStatusValid ex_now ex_store ex_representable) as H.
  destruct (UpdateOrderStatus _ _ _ _) as [r s']. destruct H as [-> _]. reflexivity.
Defined.

Lemma save_resource_first_wins_witness :
  (SaveResource (ex_resource "r1") ex_store).1 = Ok tt.
Proof.
  pose proof (@save_resource_first_wins table_order (ex_resource "r1") ex_store ex_store_wf) as H.
  destruct (SaveResource _ _) as [r s']. destruct H as [-> _]; [reflexivity|by eexists|reflexivity].
Defined.

(** An expired nonce of the same day survives pruning. *)
Lemma expired_nonce_survives_pruning :
  let s := with_nonces (<["n1" := format_rfc3339 ex_now]>) empty_store in
  nonces (@PruneExpiredNonces go_driver (ex_now + 3600 * second)%Z s).2 !! "n1" =
    Some (format_rfc3339 ex_now).
Proof. vm_compute. reflexivity. Qed.
