(* ===== verification/Migration.v ===== *)
(** * Opening the database (internal/store/store.go, New and migrate)

    The file as the engine keeps it: tables that may be absent or of an earlier schema,
    with their indexes.  [migrate] runs the statements of the schema one by one, adds the
    columns later versions introduced (their errors are ignored), drops the index an
    earlier version made, and swaps [upstream_accounts] from one row per upstream to one
    row per (upstream, slot) in a transaction.  Every statement may fail.  [contents] is
    the [Store] such a file stands for.  [New] builds the DSN and runs the migrations. *)
From S2P Require Export Store.

(** ** The file *)

(** A table of upstream accounts; without the slot column every row counts
    as slot 0. *)
Record accounts_table := MkTable {
  has_slot : bool;
  table_rows : gmap (string * Z) upstream_account_row
}.
Record orders_table := MkOrdersTable {
  has_upstream_slot : bool;
  has_csr_key_type : bool;
  orders_rows : gmap string order_row
}.
(** [legacy_index] is the unique index on the URL alone that earlier versions made. *)
Record resources_table := MkResourcesTable {
  has_fingerprint : bool;
  legacy_index : bool;
  order_index : bool;
  lookup_index : bool;
  resources_rows : gmap string resource_row
}.
Record database := MkDB {
  db_accounts : option (gmap string account_row);
  db_upstream_accounts : option accounts_table;
  db_upstream_accounts_v1 : option accounts_table;
  db_by_account : option (gmap (string * string) upstream_account_row);
  db_orders : option orders_table;
  db_resource_map : option resources_table;
  db_nonces : option (gmap string string)
}.

Definition set_accounts t db := MkDB t (db_upstream_accounts db) (db_upstream_accounts_v1 db)
  (db_by_account db) (db_orders db) (db_resource_map db) (db_nonces db).
Definition set_upstream_accounts t v1 db := MkDB (db_accounts db) t v1
  (db_by_account db) (db_orders db) (db_resource_map db) (db_nonces db).
Definition set_by_account t db := MkDB (db_accounts db) (db_upstream_accounts db)
  (db_upstream_accounts_v1 db) t (db_orders db) (db_resource_map db) (db_nonces db).
Definition set_orders t db := MkDB (db_accounts db) (db_upstream_accounts db)
  (db_upstream_accounts_v1 db) (db_by_account db) t (db_resource_map db) (db_nonces db).
Definition set_resource_map t db := MkDB (db_accounts db) (db_upstream_accounts db)
  (db_upstream_accounts_v1 db) (db_by_account db) (db_orders db) t (db_nonces db).
Definition set_nonces t db := MkDB (db_accounts db) (db_upstream_accounts db)
  (db_upstream_accounts_v1 db) (db_by_account db) (db_orders db) (db_resource_map db) t.

(** A statement: [None] when the engine rejects it. *)
Definition statement : Type := database → option database.

(** The statements of [migrate], which the engine may also fail to run. *)
Inductive migration_step :=
  | StSchema (n : nat) | StFingerprint | StSlot | StKeyType | StDropIndex
  | StProbe | StBegin | StRename | StCreate | StCopy | StDrop | StCommit.

(** ** The schema *)

(** [CREATE TABLE IF NOT EXISTS] *)
Definition or_new {T} (new : T) (t : option T) : option T := Some (default new t).

Definition create_accounts : statement := λ db,
  Some (set_accounts (or_new ∅ (db_accounts db)) db).
Definition create_upstream_accounts : statement := λ db,
  Some (set_upstream_accounts (or_new (MkTable true ∅) (db_upstream_accounts db))
    (db_upstream_accounts_v1 db) db).
Definition create_by_account : statement := λ db,
  Some (set_by_account (or_new ∅ (db_by_account db)) db).
Definition create_orders : statement := λ db,
  Some (set_orders (or_new (MkOrdersTable true true ∅) (db_orders db)) db).
Definition create_resource_map : statement := λ db,
  Some (set_resource_map (or_new (MkResourcesTable true false false false ∅) (db_resource_map db)) db).
Definition create_nonces : statement := λ db,
  Some (set_nonces (or_new ∅ (db_nonces db)) db).

(** Two rows the composite index would not allow. *)
Definition duplicates (rows : gmap string resource_row) : bool :=
  existsb (λ '(i, r), existsb (λ '(j, q), (i !=? j) &&
      (rr_order_id r ==? rr_order_id q) && (rr_upstream_url r ==? rr_upstream_url q))
    (map_to_list rows)) (map_to_list rows).

(** [CREATE UNIQUE INDEX IF NOT EXISTS ... ON resource_map(order_id, upstream_url)] *)
Definition create_order_index : statement := λ db,
  t ← db_resource_map db;
  if order_index t then Some db
  else if duplicates (resources_rows t) then None
  else Some (set_resource_map (Some (MkResourcesTable (has_fingerprint t) (legacy_index t) true
    (lookup_index t) (resources_rows t))) db).
Definition create_lookup_index : statement := λ db,
  t ← db_resource_map db;
  Some (set_resource_map (Some (MkResourcesTable (has_fingerprint t) (legacy_index t) (order_index t)
    true (resources_rows t))) db).

Definition schema : list statement :=
  [create_accounts; create_upstream_accounts; create_by_account; create_orders; create_resource_map;
   create_order_index; create_lookup_index; create_nonces].

(** [ExecContext] of several statements: each commits by itself, the first failure ends it. *)
Fixpoint exec_all (fault : migration_step → bool) (n : nat) (l : list statement) (db : database)
    : result unit * database :=
  match l with
  | [] => (Ok tt, db)
  | f :: l =>
      if fault (StSchema n) then (Errorf "engine failure", db)
      else match f db with
           | None => (Errorf "statement failed", db)
           | Some db => exec_all fault (S n) l db
           end
  end.

(** ** Columns and indexes of earlier versions *)
Definition set_cert_fingerprint fp (r : resource_row) : resource_row :=
  MkResourceRow (rr_type r) (rr_order_id r) (rr_upstream_url r) fp.
Definition set_upstream_slot z (r : order_row) : order_row :=
  MkOrderRow (or_account_id r) (or_upstream_id r) z (or_upstream_order_url r) (or_status r)
    (or_identifiers r) (or_profile r) (or_require_csr_key_type r) (or_created_at r) (or_updated_at r).
Definition set_csr_key_type s (r : order_row) : order_row :=
  MkOrderRow (or_account_id r) (or_upstream_id r) (or_upstream_slot r) (or_upstream_order_url r)
    (or_status r) (or_identifiers r) (or_profile r) s (or_created_at r) (or_updated_at r).

(** [ALTER TABLE ... ADD COLUMN]: rejected when the column exists; otherwise every row
    gets the default. *)
Definition add_cert_fingerprint : statement := λ db,
  t ← db_resource_map db;
  if has_fingerprint t then None
  else Some (set_resource_map (Some (MkResourcesTable true (legacy_index t) (order_index t) (lookup_index t)
    (set_cert_fingerprint None <$> resources_rows t))) db).
Definition add_upstream_slot : statement := λ db,
  t ← db_orders db;
  if has_upstream_slot t then None
  else Some (set_orders (Some (MkOrdersTable true (has_csr_key_type t)
    (set_upstream_slot 0 <$> orders_rows t))) db).
Definition add_csr_key_type : statement := λ db,
  t ← db_orders db;
  if has_csr_key_type t then None
  else Some (set_orders (Some (MkOrdersTable (has_upstream_slot t) true
    (set_csr_key_type "" <$> orders_rows t))) db).
(** [DROP INDEX IF EXISTS resource_map_upstream_url] *)
Definition drop_legacy_index : statement := λ db,
  Some (set_resource_map ((λ t, MkResourcesTable (has_fingerprint t) false (order_index t) (lookup_index t)
    (resources_rows t)) <$> db_resource_map db) db).

(** The result is not looked at. *)
Definition exec_ignored (fault : migration_step → bool) (st : migration_step) (f : statement)
    (db : database) : database :=
  if fault st then db else default db (f db).

(** ** The swap of upstream_accounts *)

(** [SELECT COUNT ... WHERE name='slot']: the error is ignored and leaves
    the count 0. *)
Definition slotExists (fault : migration_step → bool) (db : database) : Z :=
  if fault StProbe then 0
  else match db_upstream_accounts db with
       | Some t => if has_slot t then 1 else 0
       | None => 0
       end.

Definition rename_step : statement := λ db,
  match db_upstream_accounts db, db_upstream_accounts_v1 db with
  | Some t, None => Some (set_upstream_accounts None (Some t) db)
  | _, _ => None
  end.
Definition create_step : statement := λ db,
  match db_upstream_accounts db with
  | None => Some (set_upstream_accounts (Some (MkTable true ∅)) (db_upstream_accounts_v1 db) db)
  | Some _ => None
  end.

(** [INSERT OR IGNORE ... SELECT upstream_id,0,...]: the first row of an
    upstream, in the engine's order, is kept. *)
Definition copy_rows (src : list (string * Z * upstream_account_row))
    (dst : gmap (string * Z) upstream_account_row) : gmap (string * Z) upstream_account_row :=
  foldl (λ m '(k, r), match m !! (k.1, 0%Z) with Some _ => m | None => <[(k.1, 0%Z) := r]> m end)
    dst src.
Definition copy_step : statement := λ db,
  match db_upstream_accounts db, db_upstream_accounts_v1 db with
  | Some t, Some old =>
      Some (set_upstream_accounts (Some (MkTable (has_slot t)
        (copy_rows (map_to_list (table_rows old)) (table_rows t)))) (Some old) db)
  | _, _ => None
  end.
Definition drop_step : statement := λ db,
  match db_upstream_accounts_v1 db with
  | Some _ => Some (set_upstream_accounts (db_upstream_accounts db) None db)
  | None => None
  end.

(** One statement of the transaction. *)
Definition tx_step (fault : migration_step → bool) (st : migration_step)
    (f : statement) (msg : string) (db : database) : result database :=
  if fault st then Errorf (msg +:+ ": engine failure")
  else match f db with Some db' => Ok db' | None => Errorf (msg +:+ ": statement failed") end.

(** The body of the transaction, up to and including the commit. *)
Definition swap_tables (fault : migration_step → bool) (db : database) : result database :=
  let? db := tx_step fault StRename rename_step "renaming upstream_accounts" db in
  let? db := tx_step fault StCreate create_step "creating upstream_accounts" db in
  let? db := tx_step fault StCopy copy_step "copying upstream_accounts data" db in
  let? db := tx_step fault StDrop drop_step "dropping upstream_accounts_v1" db in
  tx_step fault StCommit Some "committing upstream_accounts migration" db.

Definition migrate (fault : migration_step → bool) (db : database) : result unit * database :=
  match exec_all fault 0 schema db with
  | (Err e, db) => (Err e, db)
  | (Ok _, db) =>
      let db := exec_ignored fault StFingerprint add_cert_fingerprint db in
      let db := exec_ignored fault StSlot add_upstream_slot db in
      let db := exec_ignored fault StKeyType add_csr_key_type db in
      let db := exec_ignored fault StDropIndex drop_legacy_index db in
      if (slotExists fault db =? 0)%Z then
        if fault StBegin then (Errorf "beginning upstream_accounts migration", db)
        else match swap_tables fault db with
             | Ok db' => (Ok tt, db')
             | Err e => (Err e, db)
             end
      else (Ok tt, db)
  end.

(** ** New *)
Definition sqliteBusyTimeoutMS : Z := 5000.

(** net/url's [shouldEscape] for paths: everything but letters, digits and the bytes
    [-_.~$&+,/:;=@]. *)
Definition is_alnum (c : ascii) : bool :=
  let n := N_of_ascii c in
  ((48 <=? n) && (n <=? 57) || (65 <=? n) && (n <=? 90) || (97 <=? n) && (n <=? 122))%N.
Definition path_byte (c : ascii) : bool :=
  is_alnum c || existsb (Ascii.eqb c) (String.list_ascii_of_string "-_.~$&+,/:;=@").
Definition upper_hex (n : N) : ascii := ascii_of_N (if (n <? 10)%N then 48 + n else 55 + n)%N.
Fixpoint escape_path (s : string) : string :=
  match s with
  | "" => ""
  | String c s =>
      if path_byte c then String c (escape_path s)
      else String "%" (String (upper_hex (N_of_ascii c / 16)) (String (upper_hex (N_of_ascii c mod 16))
        (escape_path s)))
  end.
(** [URL.EscapedPath] of a URL that has only a path. *)
Definition EscapedPath (path : string) : string := if path ==? "*" then "*" else escape_path path.

Definition dsn (path : string) : string :=
  "file:" +:+ EscapedPath path +:+ "?_pragma=busy_timeout(" +:+ pretty sqliteBusyTimeoutMS
    +:+ ")&_pragma=journal_mode(WAL)&_pragma=foreign_keys(ON)".

(** [sql.Open] of the DSN (a parameter) finds the file or fails. *)
Definition New (Open : string → result database) (fault : migration_step → bool) (path : string)
    : result database * option database :=
  match Open (dsn path) with
  | Err e => (Wrapf "opening db: " e, None)
  | Ok db =>
      match migrate fault db with
      | (Err e, db) => (Wrapf "running migrations: " e, Some db)
      | (Ok _, db) => (Ok db, Some db)
      end
  end.

(** ** The store a file stands for

    A column a table does not have yet reads as its default. *)
Definition stored_order (t : orders_table) (r : order_row) : order_row :=
  let r := if has_upstream_slot t then r else set_upstream_slot 0 r in
  if has_csr_key_type t then r else set_csr_key_type "" r.
Definition stored_resource (t : resources_table) (r : resource_row) : resource_row :=
  if has_fingerprint t then r else set_cert_fingerprint None r.

Definition contents (db : database) : Store :=
  MkStore (default ∅ (db_accounts db))
    (from_option table_rows ∅ (db_upstream_accounts db))
    (default ∅ (db_by_account db))
    (from_option (λ t, stored_order t <$> orders_rows t) ∅ (db_orders db))
    (from_option (λ t, stored_resource t <$> resources_rows t) ∅ (db_resource_map db))
    (default ∅ (db_nonces db)).

(** A table of upstream accounts of the legacy schema has one row per upstream. *)
Definition table_ok (t : accounts_table) : Prop :=
  has_slot t = false → map_Forall (λ k _, k.2 = 0%Z) (table_rows t).

(** The constraints the engine enforces between the rows: the foreign keys and the unique
    index, on the URL alone in earlier versions, which is stronger. *)
Record enforced (s : Store) : Prop := {
  en_order_account : map_Forall (λ _ r, is_Some (accounts s !! or_account_id r)) (orders s);
  en_resource_order : map_Forall (λ _ r, is_Some (orders s !! rr_order_id r)) (resource_map s);
  en_resource_index i j r q :
    resource_map s !! i = Some r → resource_map s !! j = Some q →
    rr_order_id r = rr_order_id q → rr_upstream_url r = rr_upstream_url q → i = j
}.
Lemma store_wf_enforced s : store_wf s → enforced s.
Proof. by intros []. Qed.

(** What the constraints make of any file a gateway, current or earlier, wrote. *)
Record db_ok (db : database) : Prop := {
  ok_accounts t : db_upstream_accounts db = Some t → table_ok t;
  ok_no_v1 : db_upstream_accounts_v1 db = None;
  ok_contents : enforced (contents db)
}.

(** The tables and the index the schema makes, without which [migrate] fails. *)
Record has_tables (db : database) : Prop := {
  tab_accounts : is_Some (db_accounts db);
  tab_upstream_accounts : is_Some (db_upstream_accounts db);
  tab_by_account : is_Some (db_by_account db);
  tab_orders : is_Some (db_orders db);
  tab_resources : is_Some (db_resource_map db);
  tab_nonces : is_Some (db_nonces db);
  tab_index t : db_resource_map db = Some t → order_index t = true ∧ lookup_index t = true
}.
Definition has_slots (db : database) : Prop :=
  ∀ t, db_upstream_accounts db = Some t → has_slot t = true.
(** The schema of this version. *)
Record current (db : database) : Prop := {
  cur_tables : has_tables db;
  cur_slots : has_slots db;
  cur_orders t : db_orders db = Some t → has_upstream_slot t = true ∧ has_csr_key_type t = true;
  cur_resources t : db_resource_map db = Some t → has_fingerprint t = true ∧ legacy_index t = false
}.

(** The statements [migrate] runs outside the transaction keep the contents. *)
Record keeps (db db' : database) : Prop := {
  kp_contents : contents db' = contents db;
  kp_upstream t : db_upstream_accounts db' = Some t → table_ok t ∨ db_upstream_accounts db = Some t;
  kp_v1 : db_upstream_accounts_v1 db' = db_upstream_accounts_v1 db
}.
#[local] Instance keeps_preorder : PreOrder keeps.
Proof.
  split; [split; auto|]. intros x y z [H1 H2 H3] [H4 H5 H6]. split; [congruence| |congruence].
  intros t [|Ht]%H5; auto.
Qed.
Lemma keeps_ok db db' : keeps db db' → db_ok db → db_ok db'.
Proof.
  intros [Hc Hu Hv] [Ha H1 Hw]. split; [|congruence|by rewrite Hc]. intros t [|]%Hu; auto.
Qed.

Lemma stored_order_current rows : stored_order (MkOrdersTable true true rows) <$> rows = rows.
Proof. apply map_fmap_id. Qed.
Lemma stored_resource_current l o k rows :
  stored_resource (MkResourcesTable true l o k rows) <$> rows = rows.
Proof. apply map_fmap_id. Qed.

(** Statements change what a file looks like, not what it holds. *)
Definition kept_by (f : statement) : Prop := ∀ db db', f db = Some db' → keeps db db'.

Ltac solve_kept :=
  intros [a u v b o r n] db' [= <-]; split; cbn; try done; try naive_solver;
  unfold contents; cbn; f_equal; try done.

Lemma schema_kept : Forall kept_by schema.
Proof.
  repeat apply Forall_cons_2; [..|apply Forall_nil_2].
  - solve_kept.
  - solve_kept; destruct u; cbn; try done; intros t [= <-]; [by right|by left].
  - solve_kept.
  - solve_kept. destruct o; [done|apply fmap_empty].
  - solve_kept. destruct r; [done|apply fmap_empty].
  - intros [a u v b o [r|] n] db'; cbn; [|done]. destruct (order_index r); [by intros [= <-]|].
    destruct (duplicates _); [done|]. intros [= <-]. split; cbn; [done|naive_solver|done].
  - intros [a u v b o [r|] n] db'; [|done]. intros [= <-]. split; cbn; [done|naive_solver|done].
  - solve_kept.
Qed.
Lemma columns_kept :
  Forall kept_by [add_cert_fingerprint; add_upstream_slot; add_csr_key_type; drop_legacy_index].
Proof.
  repeat apply Forall_cons_2; [..|apply Forall_nil_2]; intros [a u v b o r n] db'; cbn.
  - destruct r as [[[] l i k rows]|]; [done| |done]. intros [= <-].
    split; cbn; [|naive_solver|done]. unfold contents; cbn. by rewrite stored_resource_current.
  - destruct o as [[[] k rows]|]; [done| |done]. intros [= <-].
    split; cbn; [|naive_solver|done]. unfold contents; cbn. by rewrite <- map_fmap_compose.
  - destruct o as [[s [] rows]|]; [done| |done]. intros [= <-].
    split; cbn; [|naive_solver|done]. unfold contents; cbn. rewrite <- map_fmap_compose.
    f_equal. apply map_fmap_ext. by intros ? [] _; destruct s.
  - intros [= <-]. split; cbn; [|naive_solver|done]. by destruct r as [[]|].
Qed.

Lemma exec_all_kept fault l n db : Forall kept_by l → keeps db (exec_all fault n l db).2.
Proof.
  revert n db. induction l as [|f l IH]; intros n db; cbn; [by intros|].
  intros [Hf Hl]%Forall_cons. destruct (fault _); [done|]. destruct (f db) as [db'|] eqn:Hdb; [|done].
  etrans; [by apply Hf|]. by apply IH.
Qed.
Lemma exec_ignored_kept fault st f db : kept_by f → keeps db (exec_ignored fault st f db).
Proof.
  intros Hf. unfold exec_ignored. destruct (fault st); [done|].
  destruct (f db) eqn:Hdb; [by apply Hf|done].
Qed.

(** The index of the contents is the index of the rows. *)
Lemma no_duplicates db t :
  enforced (contents db) → db_resource_map db = Some t → duplicates (resources_rows t) = false.
Proof.
  intros Hw Ht. apply not_true_is_false. unfold duplicates. rewrite existsb_elem.
  intros ([i r] & Hi%elem_of_map_to_list & Hd). apply existsb_elem in Hd as ([j q] & Hj%elem_of_map_to_list & Hd).
  simp_bool. destruct Hd as [[Hne Hid] Hurl]. apply Hne.
  apply (en_resource_index _ Hw i j (stored_resource t r) (stored_resource t q));
    unfold contents; cbn; rewrite ?Ht; cbn; rewrite ?lookup_fmap, ?Hi, ?Hj; try done;
    unfold stored_resource; by destruct (has_fingerprint t).
Qed.

Ltac next_fault :=
  lazymatch goal with |- context [if ?fault (StSchema ?n) then _ else _] =>
    destruct (fault (StSchema n)) eqn:?; [right; split; [done|by eexists]|cbn]
  end.
(** The schema makes every table, unless the engine fails. *)
Lemma schema_makes fault db :
  enforced (contents db) →
  (exec_all fault 0 schema db).1 = Ok tt ∧ has_tables (exec_all fault 0 schema db).2 ∨
  is_ok (exec_all fault 0 schema db).1 = false ∧ ∃ st, fault st = true.
Proof.
  intros Hw. pose proof (λ t, no_duplicates db t Hw) as Hd. unfold schema. cbn [exec_all].
  destruct db as [a u v b o r n]. cbn in Hd.
  do 6 next_fault.
  unfold or_new. destruct (order_index (default _ r)) eqn:Hi; cbn;
    [|replace (duplicates _) with false by (destruct r; cbn; [by rewrite (Hd _ eq_refl)|done]); cbn].
  all: do 2 next_fault; left;
    (split; [done|split; cbn; try done; intros t [= <-]; done]).
Qed.

(** What the statements of a later version add to the tables. *)
Lemma columns_tables f db db' :
  f ∈ [add_cert_fingerprint; add_upstream_slot; add_csr_key_type; drop_legacy_index] →
  f db = Some db' → has_tables db → has_tables db'.
Proof.
  intros Hf Hdb [Ha Hu Hb Ho Hr Hn Hi]. destruct db as [a u v b o r n].
  rewrite !elem_of_cons, elem_of_nil in Hf. destruct Hf as [->|[->|[->|[->|[]]]]]; cbn in *;
    destruct r as [t|], o as [q|]; try by destruct Hr, Ho.
  - destruct t as [[] ? ? ? ?]; simplify_eq/=; split; cbn; eauto; try by eexists.
    intros ? [= <-]. by apply (Hi _ eq_refl).
  - destruct q as [[] ? ?]; simplify_eq/=; split; cbn; eauto; by eexists.
  - destruct q as [? [] ?]; simplify_eq/=; split; cbn; eauto; by eexists.
  - injection Hdb as <-; split; cbn; eauto; try by eexists. intros ? [= <-]. by apply (Hi _ eq_refl).
Qed.

(** What each of the four establishes, when it is run at all. *)
Lemma exec_ignored_cases fault st f db :
  (fault st = true ∨ f db = None) ∧ exec_ignored fault st f db = db ∨
  fault st = false ∧ f db = Some (exec_ignored fault st f db).
Proof. unfold exec_ignored. destruct (fault st), (f db); cbn; eauto. Qed.
Definition ignored (fault : migration_step → bool) (db : database) : database :=
  exec_ignored fault StDropIndex drop_legacy_index
    (exec_ignored fault StKeyType add_csr_key_type
      (exec_ignored fault StSlot add_upstream_slot
        (exec_ignored fault StFingerprint add_cert_fingerprint db))).
Lemma ignored_kept fault db : keeps db (ignored fault db).
Proof.
  pose proof columns_kept as Hk. rewrite !Forall_cons in Hk. destruct Hk as (H1 & H2 & H3 & H4 & _).
  unfold ignored. etrans; [|by apply exec_ignored_kept]. etrans; [|by apply exec_ignored_kept].
  etrans; [|by apply exec_ignored_kept]. by apply exec_ignored_kept.
Qed.
Lemma ignored_tables fault db : has_tables db → has_tables (ignored fault db).
Proof.
  assert (∀ st f db, f ∈ [add_cert_fingerprint; add_upstream_slot; add_csr_key_type; drop_legacy_index] →
    has_tables db → has_tables (exec_ignored fault st f db)) as Hone.
  { intros st f d Hf Hd. destruct (exec_ignored_cases fault st f d) as [[_ ->]|[_ Hs]]; [done|].
    by apply (columns_tables f d). }
  intros Hd. unfold ignored. repeat (apply Hone; [set_solver|]). done.
Qed.

Definition no_ignored_fault (fault : migration_step → bool) : Prop :=
  fault StFingerprint = false ∧ fault StSlot = false ∧ fault StKeyType = false ∧ fault StDropIndex = false.
Definition columns_ok (db : database) : Prop :=
  (∀ t, db_orders db = Some t → has_upstream_slot t = true ∧ has_csr_key_type t = true) ∧
  (∀ t, db_resource_map db = Some t → has_fingerprint t = true ∧ legacy_index t = false).
Lemma ignored_columns fault db : no_ignored_fault fault → columns_ok (ignored fault db).
Proof.
  intros (H1 & H2 & H3 & H4). unfold ignored, exec_ignored. rewrite H1, H2, H3, H4. destruct db as [a u v b o r n].
  destruct o as [[[] [] ?]|], r as [[[] ? ? ? ?]|]; split; intros t; by intros [= <-].
Qed.

(** On a file of this version no statement outside the transaction changes anything. *)
Lemma current_fixed f db :
  current db →
  f ∈ schema ++ [add_cert_fingerprint; add_upstream_slot; add_csr_key_type; drop_legacy_index] →
  f db = None ∨ f db = Some db.
Proof.
  destruct db as [a u v b o r n]. intros [[Ha Hu Hb Ho Hr Hn Hi] _ Hco Hcr] Hf. cbn in *.
  destruct a, u, b, n; [|by destruct Ha, Hu, Hb, Hn..].
  destruct o as [[s k q]|]; [|by destruct Ho]. destruct r as [[fp l i j q']|]; [|by destruct Hr].
  destruct (Hi _ eq_refl) as [Hi1 Hi2], (Hco _ eq_refl) as [Hs Hk], (Hcr _ eq_refl) as [Hg Hl].
  cbn in *. subst. rewrite !elem_of_cons, elem_of_nil in Hf.
  repeat (destruct Hf as [->|Hf]; [auto|]). done.
Qed.
Lemma exec_all_current fault l n db :
  (∀ f, f ∈ l → f db = None ∨ f db = Some db) → (exec_all fault n l db).2 = db.
Proof.
  revert n. induction l as [|f l IH]; intros n Hl; cbn; [done|]. destruct (fault _); [done|].
  destruct (Hl f) as [-> | ->]; [by left|done|]. apply IH. intros g Hg. apply Hl. by right.
Qed.
Lemma ignored_current fault db : current db → ignored fault db = db.
Proof.
  intros Hc. assert (∀ st f, f ∈ [add_cert_fingerprint; add_upstream_slot; add_csr_key_type; drop_legacy_index] →
    exec_ignored fault st f db = db) as Hone.
  { intros st f Hf. unfold exec_ignored. destruct (fault st); [done|].
    destruct (current_fixed f db Hc) as [-> | ->]; [set_solver|done..]. }
  unfold ignored. by rewrite !Hone by set_solver.
Qed.

(** *** The swap *)
Lemma copy_rows_fresh l dst :
  NoDup l.*1 → (∀ kv, kv ∈ l → kv.1.2 = 0%Z ∧ dst !! kv.1 = None) →
  copy_rows l dst = list_to_map l ∪ dst.
Proof.
  revert dst. induction l as [|[[u z] r] l IH]; intros dst Hnd Hl; simpl.
  { by rewrite (left_id_L ∅ (∪)). }
  apply NoDup_cons in Hnd as [Hnin Hnd].
  destruct (Hl (u, z, r)) as [Hz Hfresh]; [left|]. simpl in Hz, Hfresh. subst z.
  rewrite Hfresh. rewrite IH; [|done|].
  - rewrite <- insert_union_r, insert_union_l; [done|]. by apply not_elem_of_list_to_map_1.
  - intros kv Hin. destruct (Hl kv) as [Hz0 Hf]; [by right|]. split; [done|].
    rewrite lookup_insert_ne; [done|]. intros Heq. apply Hnin. rewrite Heq.
    apply list_elem_of_fmap. exists kv. by rewrite <- Heq.
Qed.

Lemma copy_all t :
  table_ok t → has_slot t = false → copy_rows (map_to_list (table_rows t)) ∅ = table_rows t.
Proof.
  intros Hok Hs. rewrite copy_rows_fresh.
  - by rewrite list_to_map_to_list, (right_id_L ∅ (∪)).
  - apply NoDup_fst_map_to_list.
  - intros [k r] Hin%elem_of_map_to_list. split; [|done]. exact (Hok Hs k r Hin).
Qed.

Lemma swap_tables_spec fault db t :
  db_upstream_accounts db = Some t → db_upstream_accounts_v1 db = None →
  swap_tables fault db =
    Ok (set_upstream_accounts (Some (MkTable true (copy_rows (map_to_list (table_rows t)) ∅))) None db) ∨
  is_ok (swap_tables fault db) = false ∧ ∃ st, fault st = true.
Proof.
  destruct db as [a u v b o r n]. cbn. intros -> ->. unfold swap_tables, tx_step.
  do 4 (match goal with |- context [if fault ?st then _ else _] =>
    destruct (fault st) eqn:?; [right; split; [done|by eexists]|cbn] end).
  destruct (fault StCommit) eqn:?; [right; split; [done|by eexists]|by left].
Qed.

(** What the swap makes of the rows of a table that has its slots: one of the rows of
    each upstream is kept, as its slot 0. *)
Definition slots_lost (old new : gmap (string * Z) upstream_account_row) : Prop :=
  (∀ u z r, new !! (u, z) = Some r → z = 0%Z ∧ ∃ z', old !! (u, z') = Some r) ∧
  (∀ u z, is_Some (old !! (u, z)) → is_Some (new !! (u, 0%Z))).
Lemma copy_rows_grow src dst k : is_Some (dst !! k) → is_Some (copy_rows src dst !! k).
Proof.
  revert dst. induction src as [|[[u z] r] src IH]; intros dst Hk; [done|]. cbn. apply IH.
  destruct (dst !! (u, 0%Z)) eqn:Hu; [done|]. by apply lookup_insert_is_Some'; right.
Qed.
Lemma copy_rows_lost src dst :
  (∀ u z r, copy_rows src dst !! (u, z) = Some r →
     dst !! (u, z) = Some r ∨ z = 0%Z ∧ ∃ z', ((u, z'), r) ∈ src) ∧
  (∀ u z r, ((u, z), r) ∈ src → is_Some (copy_rows src dst !! (u, 0%Z))).
Proof.
  revert dst. induction src as [|[[u0 z0] r0] src IH]; intros dst.
  { split; [by left|]. by intros u z r Hin%elem_of_nil. }
  cbn. set (dst' := match dst !! (u0, 0%Z) with Some _ => dst | None => _ end).
  assert (is_Some (dst' !! (u0, 0%Z))) as Hsome.
  { unfold dst'. destruct (dst !! (u0, 0%Z)) eqn:Hu; [by rewrite Hu|]. by rewrite lookup_insert_eq. }
  destruct (IH dst') as [H1 H2]. split.
  - intros u z r Hr. destruct (H1 u z r Hr) as [Hd|(-> & z' & Hz')].
    + unfold dst' in Hd. destruct (dst !! (u0, 0%Z)); [by left|].
      apply lookup_insert_Some in Hd as [[[= <- <-] <-]|[_ Hd]]; [right|by left].
      split; [done|]. exists z0. by left.
    + right. split; [done|]. exists z'. by right.
  - intros u z r [[= -> -> ->]|Hin]%elem_of_cons; [by apply copy_rows_grow|by eapply H2].
Qed.
Lemma swap_slots_lost rows : slots_lost rows (copy_rows (map_to_list rows) ∅).
Proof.
  destruct (copy_rows_lost (map_to_list rows) ∅) as [H1 H2]. split.
  - intros u z r Hr. destruct (H1 u z r Hr) as [Hr0|(-> & z' & Hz'%elem_of_map_to_list)]; [done|eauto].
  - intros u z [r Hr%elem_of_map_to_list]. by eapply H2.
Qed.

(** The swap brings the slots, and changes no other table. *)
Lemma swapped db t rows :
  db_ok db → db_upstream_accounts db = Some t →
  let db' := set_upstream_accounts (Some (MkTable true rows)) None db in
  contents db' = with_upstream_accounts (λ _, rows) (contents db) ∧ db_ok db' ∧ has_slots db' ∧
  (has_tables db → has_tables db') ∧ (columns_ok db → columns_ok db').
Proof.
  intros Hok Ht db'. unfold db'. split; [done|]. split_and!.
  - split; [by intros ? [= <-]|done|]. by destruct (ok_contents db Hok).
  - by intros ? [= <-].
  - intros []. by split; eauto.
  - done.
Qed.

(** All that was there is there; or the probe failed, and the accounts at the upstreams
    lost the slots behind the one that was kept. *)
Definition contents_kept (fault : migration_step → bool) (db db' : database) : Prop :=
  contents db' = contents db ∨
  fault StProbe = true ∧ ∃ rows, slots_lost (upstream_accounts (contents db)) rows ∧
    contents db' = with_upstream_accounts (λ _, rows) (contents db).

Lemma schema_current fault db : current db → (exec_all fault 0 schema db).2 = db.
Proof.
  intros Hc. apply exec_all_current. intros f Hf. apply current_fixed; [done|]. apply elem_of_app. by left.
Qed.
Lemma current_slots db t : current db → db_upstream_accounts db = Some t → has_slot t = true.
Proof. intros Hc. apply (cur_slots db Hc). Qed.

(** The last part of [migrate], from a database whose tables are there. *)
Lemma migrate_swap fault db db2 :
  db_ok db → (current db → db2 = db) → keeps db db2 → has_tables db2 →
  (no_ignored_fault fault → columns_ok db2) →
  let '(r, db') :=
    if (slotExists fault db2 =? 0)%Z then
      if fault StBegin then (Errorf "beginning upstream_accounts migration", db2)
      else match swap_tables fault db2 with
           | Ok db' => (Ok tt, db')
           | Err e => (Err e, db2)
           end
    else (Ok tt, db2) in
  contents_kept fault db db' ∧ db_ok db' ∧
  (is_ok r = true → has_tables db' ∧ has_slots db' ∧ (no_ignored_fault fault → current db')) ∧
  (is_ok r = false → contents db' = contents db ∧ ∃ st, fault st = true) ∧
  (fault StProbe = false → current db → db' = db).
Proof.
  intros Hok Hcur2 Hk2 Htab Hcol. pose proof (keeps_ok _ _ Hk2 Hok) as Hok2. destruct Hk2 as [Hc2 _ _].
  destruct (tab_upstream_accounts db2 Htab) as [t Ht].
  assert (upstream_accounts (contents db) = table_rows t) as Hrows by (rewrite <- Hc2; cbn; by rewrite Ht).
  destruct (slotExists fault db2 =? 0)%Z eqn:Hz; unfold slotExists in Hz; rewrite Ht in Hz; cycle 1.
  { destruct (fault StProbe); [done|]. destruct (has_slot t) eqn:Hs; [|done].
    split_and!; [by left|done| |done|auto]. intros _. split_and!; [done|intros t' Ht'; congruence|].
    intros Hn. destruct (Hcol Hn). split; [done|intros t' Ht'; congruence|done|done]. }
  assert (fault StProbe = false → has_slot t = false) as Hs
    by (intros Hp; rewrite Hp in Hz; by destruct (has_slot t)).
  assert (fault StProbe = false → ¬ current db) as Hnc.
  { intros Hp Hc. specialize (Hs Hp). rewrite (Hcur2 Hc) in Ht. by rewrite (current_slots db t Hc Ht) in Hs. }
  destruct (fault StBegin) eqn:Hb.
  { split_and!; [by left|done|done|eauto|]. intros Hp Hc. by destruct (Hnc Hp). }
  destruct (swap_tables_spec fault db2 t Ht (ok_no_v1 db2 Hok2)) as [->|[Hf Hst]]; cycle 1.
  { destruct (swap_tables fault db2); [done|]. split_and!; [by left|done|done|auto|].
    intros Hp Hc. by destruct (Hnc Hp). }
  destruct (swapped db2 t (copy_rows (map_to_list (table_rows t)) ∅) Hok2 Ht) as (Hc3 & Hok3 & Hsl & Htab3 & Hcol3).
  split_and!; [|done| |done|].
  - destruct (fault StProbe) eqn:Hp.
    + right. split; [done|]. eexists. split; [rewrite Hrows; apply swap_slots_lost|]. by rewrite Hc3, Hc2.
    + left. rewrite Hc3, copy_all by (auto; by apply (ok_accounts db2 Hok2)). rewrite <- Hrows, <- Hc2.
      by destruct (contents db2).
  - intros _. split_and!; [auto|done|]. intros Hn. destruct (Hcol3 (Hcol Hn)). split; auto.
  - intros Hp Hc. by destruct (Hnc Hp).
Qed.

(** Migrating a file a gateway wrote, of this or an earlier version, keeps every account,
    order, resource and nonce in it, columns that are new reading as their defaults, whichever
    statements fail, but when the probe of the schema fails, the slots of an upstream behind
    one.  Success means that the tables, their unique index and the slots are there, and, if
    no statement whose error is ignored failed, the whole schema of this version; failure
    means that some statement failed and that all is kept. A file of this version is left as
    it is, if the probe succeeds. *)
Lemma migrate_keeps_contents fault db :
  db_ok db →
  let '(r, db') := migrate fault db in
  contents_kept fault db db' ∧ db_ok db' ∧
  (is_ok r = true → has_tables db' ∧ has_slots db' ∧ (no_ignored_fault fault → current db')) ∧
  (is_ok r = false → contents db' = contents db ∧ ∃ st, fault st = true) ∧
  (fault StProbe = false → current db → db' = db).
Proof.
  intros Hok. unfold migrate.
  pose proof (exec_all_kept fault schema 0 db schema_kept) as Hk.
  pose proof (schema_makes fault db (ok_contents db Hok)) as Hm.
  pose proof (schema_current fault db) as Hcur.
  destruct (exec_all fault 0 schema db) as [[[]|e] db1]; cbn in Hk, Hm, Hcur.
  2: { pose proof (kp_contents _ _ Hk). split_and!; [by left|by apply (keeps_ok db)|done| |auto].
       intros _. split; [done|]. by destruct Hm as [[? _]|[_ ?]]. }
  destruct Hm as [[_ Htab]|[? _]]; [|done].
  change (exec_ignored fault StDropIndex drop_legacy_index _) with (ignored fault db1).
  assert (current db → ignored fault db1 = db) as Hcur2.
  { intros Hc. rewrite Hcur by done. by apply ignored_current. }
  assert (keeps db (ignored fault db1)) as Hk2 by (etrans; [done|apply ignored_kept]).
  apply ignored_tables with (fault := fault) in Htab.
  pose proof (ignored_columns fault db1) as Hcol. revert Hcur2 Hk2 Htab Hcol.
  generalize (ignored fault db1). clear db1 Hk Hcur. intros db2 Hcur2 Hk2 Htab Hcol.
  by apply migrate_swap.
Qed.

(** The probe's error is ignored: on a database of this version a failing probe makes
    [migrate] swap the tables again and keep only one slot of each upstream. *)
Definition probe_fails (st : migration_step) : bool :=
  match st with StProbe => true | _ => false end.
Definition two_slots : database :=
  MkDB (Some ∅) (Some (MkTable true
    (<[("le", 0%Z) := MkUpstreamAccountRow "https://ca/a/0" "k0" "t"]>
     {[("le", 1%Z) := MkUpstreamAccountRow "https://ca/a/1" "k1" "t"]}))) None (Some ∅)
    (Some (MkOrdersTable true true ∅)) (Some (MkResourcesTable true false true true ∅)) (Some ∅).

Lemma failed_probe_loses_slots :
  let '(r, db') := migrate probe_fails two_slots in
  r = Ok tt ∧ size (upstream_accounts (contents two_slots)) = 2 ∧
  size (upstream_accounts (contents db')) = 1.
Proof. split_and!; vm_compute; reflexivity. Qed.

(** A column whose [ALTER TABLE] fails is not reported: the gateway starts without it. *)
Lemma failed_column_unreported :
  let db := MkDB (Some ∅) None None None (Some (MkOrdersTable false false ∅)) None None in
  let '(r, db') := migrate (λ st, match st with StKeyType => true | _ => false end) db in
  r = Ok tt ∧ option_map has_csr_key_type (db_orders db') = Some false.
Proof. split; vm_compute; reflexivity. Qed.

(** A file of the first version, with an account, two orders and a resource. *)
Definition ex_legacy : database :=
  let at_ := format_rfc3339 ex_now in
  let o := MkOrderRow "a1" "le" 0 "https://ca/o/1" "valid" "[]" "" "" at_ at_ in
  MkDB (Some {["a1" := MkAccountRow "k" "EC" "[]" "valid" at_]})
    (Some (MkTable false {[("le", 0%Z) := MkUpstreamAccountRow "https://ca/a/0" "k0" at_]})) None None
    (Some (MkOrdersTable false false (<["o1" := o]> {["o2" := o]})))
    (Some (MkResourcesTable false true false false
      {["r1" := MkResourceRow "authz" "o1" "https://ca/z/1" None]})) None.

Lemma ex_legacy_ok : db_ok ex_legacy.
Proof.
  split; [|done|].
  - intros t [= <-] _. apply map_Forall_singleton. reflexivity.
  - split; cbn -[format_rfc3339 ex_now].
    + rewrite fmap_insert, map_fmap_singleton. apply map_Forall_insert_2; [by eexists|].
      apply map_Forall_singleton. by eexists.
    + rewrite map_fmap_singleton. apply map_Forall_singleton. by eexists.
    + rewrite map_fmap_singleton. intros i j r q Hi Hj _ _.
      apply lookup_singleton_Some in Hi as [<- _], Hj as [<- _]. done.
Qed.

Lemma ex_legacy_upgrades :
  let db' := (migrate (λ _, false) ex_legacy).2 in
  (migrate (λ _, false) ex_legacy).1 = Ok tt ∧ contents db' = contents ex_legacy ∧
  option_map (λ t, (has_upstream_slot t, has_csr_key_type t)) (db_orders db') = Some (true, true) ∧
  option_map (λ t, (has_fingerprint t, legacy_index t, order_index t)) (db_resource_map db') =
    Some (true, false, true).
Proof. split_and!; vm_compute; reflexivity. Qed.

(** *** The name in the DSN *)

(** Percent-decoding (RFC 3986, section 2.1). *)
Fixpoint percent_decode (s : string) : option string :=
  match s with
  | "" => Some ""
  | String "%" (String a (String b s)) =>
      x ← hex_val a; y ← hex_val b; String (ascii_of_N (x * 16 + y)) <$> percent_decode s
  | String "%" _ => None
  | String c s => String c <$> percent_decode s
  end.
(** Bytes that would end or change the path part of a URI. *)
Definition plain_byte (c : ascii) : bool :=
  negb (existsb (Ascii.eqb c) (String.list_ascii_of_string "?# ")).
Definition plain (s : string) : bool := forallb plain_byte (String.list_ascii_of_string s).

Lemma decode_plain c s :
  c ≠ "%"%char → percent_decode (String c s) = String c <$> percent_decode s.
Proof. intros Hc. destruct c as [[] [] [] [] [] [] [] []]; by try done. Qed.
Lemma path_byte_plain c : path_byte c = true → c ≠ "%"%char ∧ plain_byte c = true.
Proof. by destruct c as [[] [] [] [] [] [] [] []]; vm_compute. Qed.
Lemma escaped_byte c s :
  percent_decode (String "%" (String (upper_hex (N_of_ascii c / 16))
    (String (upper_hex (N_of_ascii c mod 16)) s))) = String c <$> percent_decode s.
Proof. by destruct c as [[] [] [] [] [] [] [] []]. Qed.
Lemma hex_byte_plain c :
  plain_byte (upper_hex (N_of_ascii c / 16)) && plain_byte (upper_hex (N_of_ascii c mod 16)) = true.
Proof. by destruct c as [[] [] [] [] [] [] [] []]. Qed.

Lemma escape_path_decodes path :
  percent_decode (escape_path path) = Some path ∧ plain (escape_path path) = true.
Proof.
  induction path as [|c path [IH Hp]]; [done|]. cbn [escape_path]. destruct (path_byte c) eqn:Hc.
  - apply path_byte_plain in Hc as [Hc Hcp]. rewrite decode_plain, IH by done. split; [done|].
    unfold plain. cbn [String.list_ascii_of_string forallb]. by rewrite Hcp.
  - rewrite escaped_byte, IH. split; [done|]. unfold plain. cbn [String.list_ascii_of_string forallb].
    pose proof (hex_byte_plain c) as [-> ->]%andb_true_iff. done.
Qed.

(** Whatever bytes the configured path holds, the DSN is that path, encoded so that none of
    them ends it early, followed by the gateway's pragmas alone. *)
Theorem dsn_names_path path :
  ∃ e, dsn path = "file:" +:+ e +:+
      "?_pragma=busy_timeout(5000)&_pragma=journal_mode(WAL)&_pragma=foreign_keys(ON)" ∧
    percent_decode e = Some path ∧ plain e = true.
Proof.
  exists (EscapedPath path). split; [done|]. unfold EscapedPath.
  destruct (String.eqb_spec path "*") as [->|]; [done|]. apply escape_path_decodes.
Qed.

(** ** Opening *)

(** The last statement of the swap fails. *)
Definition drop_fails (st : migration_step) : bool :=
  match st with StDrop => true | _ => false end.

(** C37: opening a file that a gateway of this or an earlier version wrote. Whichever
    statements fail, every account, order, resource and nonce in it is kept, columns that are
    new reading as their defaults; except that, when the probe of the schema fails and
    [New] still succeeds, of the accounts at an upstream one is kept, as its slot 0.
    When [New] returns a store, the tables, the unique index and the slots are there and,
    unless a statement whose error is ignored failed, the whole schema of this version,
    and a gateway restarted on it leaves it as it is, its probe succeeding.  When [New] fails
    on a file that opens, a statement failed and nothing is lost. *)
Theorem New_opens Open fault path :
  (∀ db, Open (dsn path) = Ok db → db_ok db) →
  match New Open fault path with
  | (Ok st, file) => file = Some st ∧ db_ok st ∧ has_tables st ∧ has_slots st ∧
      (∃ db, Open (dsn path) = Ok db ∧
        (contents st = contents db ∨
         fault StProbe = true ∧ ∃ rows, slots_lost (upstream_accounts (contents db)) rows ∧
           contents st = with_upstream_accounts (λ _, rows) (contents db))) ∧
      (no_ignored_fault fault → current st ∧
        ∀ fault', fault' StProbe = false → (migrate fault' st).2 = st)
  | (Err _, file) => ∀ db, Open (dsn path) = Ok db →
      ∃ db' st, file = Some db' ∧ contents db' = contents db ∧ db_ok db' ∧ fault st = true
  end.
Proof.
  intros Hok. unfold New. destruct (Open (dsn path)) as [db|e]; [|done]. specialize (Hok db eq_refl).
  pose proof (migrate_keeps_contents fault db Hok) as Hm.
  destruct (migrate fault db) as [[[]|e] db'] eqn:Hr; destruct Hm as (Hc & Hok' & Ht & Hf & _).
  - destruct (Ht eq_refl) as (Htab & Hs & Hcur). split_and!; [done..|by exists db|].
    intros Hn. split; [by apply Hcur|]. intros fault' Hp'.
    pose proof (migrate_keeps_contents fault' db' Hok') as Hm'.
    destruct (migrate fault' db') as [r db'']. destruct Hm' as (_ & _ & _ & _ & Hid). by apply Hid, Hcur.
  - intros ? [= <-]. destruct (Hf eq_refl) as [Hc' [st Hst]]. by exists db', st.
Qed.

Lemma New_opens_witness :
  ∃ db' st, (New (λ _, Ok ex_legacy) drop_fails "/var/lib/acme gateway/state.db").2 = Some db' ∧
    contents db' = contents ex_legacy ∧ db_ok db' ∧ drop_fails st = true.
Proof.
  pose proof (New_opens (λ _, Ok ex_legacy) drop_fails "/var/lib/acme gateway/state.db") as Hn.
  destruct (New (λ _, Ok ex_legacy) drop_fails "/var/lib/acme gateway/state.db") as [[st|e] file] eqn:Hr.
  - assert (is_ok (New (λ _, Ok ex_legacy) drop_fails "/var/lib/acme gateway/state.db").1 = false) as Hf
      by (vm_compute; reflexivity). by rewrite Hr in Hf.
  - destruct (Hn ltac:(intros db [= <-]; apply ex_legacy_ok) ex_legacy eq_refl) as (db' & st & Hd).
    exists db', st. exact Hd.
Defined.
