(* ===== verification/LinkHeader.v ===== *)
(** * Link headers of certificate responses (internal/upstream/order.go)

    The splitting of a [Link] header into link-values, the recognition of
    [rel="alternate"] and the resolution of the targets against the
    certificate's URL.  URL syntax itself ([net/url]) is an interface: the
    theorems hold for every implementation of it. *)
From S2P Require Export Model.

(** What the code uses of [net/url] (and of [http.NewRequest]'s URL check). *)
Class NetURL := {
  URL : Type;
  url_Parse : string → option URL;
  url_Scheme : URL → string;
  url_Host : URL → string;
  ResolveReference : URL → URL → URL;
  url_String : URL → string
}.

(** ** Splitting *)

(** The two flags of the scanning loop. *)
Record quote_state := MkQuote { inQuote : bool; escaped : bool }.

(** The effect of one byte on the flags. *)
Definition scan_byte (st : quote_state) (c : ascii) : quote_state :=
  if Ascii.eqb c backslash then
    if inQuote st then MkQuote true (negb (escaped st)) else MkQuote false false
  else if Ascii.eqb c dquote then
    MkQuote (if escaped st then inQuote st else negb (inQuote st)) false
  else MkQuote (inQuote st) false.

(** The loop: [cur] is [v[start:i]], the bytes since the last cut. *)
Fixpoint split_loop (v cur : string) (st : quote_state) : list string :=
  match v with
  | "" => [TrimSpace cur]
  | String c v =>
      if Ascii.eqb c "," && negb (inQuote st)
      then TrimSpace cur :: split_loop v "" (scan_byte st c)
      else split_loop v (cur +:+ String c "") (scan_byte st c)
  end.

Definition splitLinkHeaderValues (v : string) : list string :=
  split_loop v "" (MkQuote false false).

(** ** One link-value *)
Definition param_is_alternate (p : string) : bool :=
  let p := TrimSpace p in
  if p ==? "" then false
  else match SplitN2 p "=" with
       | [k; v] =>
           EqualFold (TrimSpace k) "rel" &&
           existsb (λ rel, EqualFold rel "alternate") (Fields (TrimByte dquote (TrimSpace v)))
       | _ => false
       end.

Definition parseAlternateLinkPart (part : string) : option string :=
  let part := TrimSpace part in
  if (part ==? "") || negb (HasPrefix part "<") then None
  else match IndexByte part ">" with
       | None => None
       | Some closeIdx =>
           if (closeIdx <=? 1)%nat then None
           else
             let target := str_take (closeIdx - 1) (str_drop 1 part) in
             if existsb param_is_alternate (Split (str_drop (S closeIdx) part) ";")
             then Some target else None
       end.

(** ** The whole header *)
Section links.
Context `{NetURL}.

Definition http_scheme (u : URL) : bool :=
  (url_Scheme u ==? "http") || (url_Scheme u ==? "https").

(** The URL text a link-value contributes, if it passes the tests. *)
Definition alternate_of (base : URL) (part : string) : option string :=
  target ← parseAlternateLinkPart part;
  u ← url_Parse target;
  let resolved := ResolveReference base u in
  if negb (http_scheme resolved) then None
  else if negb (EqualFold (url_Scheme resolved) (url_Scheme base))
       || negb (EqualFold (url_Host resolved) (url_Host base)) then None
  else Some (url_String resolved).

(** [seen] is the set of the texts already in [out]. *)
Fixpoint collect_parts (base : URL) (parts : list string) (out : list string) : list string :=
  match parts with
  | [] => out
  | part :: parts =>
      collect_parts base parts
        match alternate_of base part with
        | None => out
        | Some s => if existsb (String.eqb s) out then out else out ++ [s]
        end
  end.

Fixpoint collect_headers (base : URL) (headers : list string) (out : list string) : list string :=
  match headers with
  | [] => out
  | raw :: headers =>
      collect_headers base headers (collect_parts base (splitLinkHeaderValues raw) out)
  end.

Definition parseAlternateCertLinks (linkHeaders : list string) (baseURL : string) : list string :=
  match url_Parse baseURL with
  | None => []
  | Some base =>
      if negb (http_scheme base) then []
      else if url_Host base ==? "" then []
      else collect_headers base linkHeaders []
  end.

(** ** What is collected *)
Lemma existsb_eqb s l : existsb (String.eqb s) l = true ↔ s ∈ l.
Proof. rewrite existsb_elem. setoid_rewrite String.eqb_eq. naive_solver. Qed.

Lemma collect_parts_spec base parts out :
  NoDup out →
  NoDup (collect_parts base parts out) ∧
  ∀ s, s ∈ collect_parts base parts out ↔
       s ∈ out ∨ ∃ part, part ∈ parts ∧ alternate_of base part = Some s.
Proof.
  revert out. induction parts as [|part parts IH]; intros out Hnd; simpl.
  { split; [done|]. set_solver. }
  destruct (alternate_of base part) as [t|] eqn:Ht.
  - destruct (existsb (String.eqb t) out) eqn:Hin.
    + apply existsb_eqb in Hin. destruct (IH out Hnd) as [Hn Hs]. split; [done|].
      intros s. rewrite Hs. setoid_rewrite elem_of_cons. naive_solver.
    + assert (t ∉ out) as Hnin by (rewrite <- existsb_eqb, Hin; done).
      destruct (IH (out ++ [t])) as [Hn Hs].
      { apply NoDup_app. split_and!; [done|set_solver|apply NoDup_singleton]. }
      split; [done|]. intros s. rewrite Hs. setoid_rewrite elem_of_cons.
      rewrite elem_of_app, list_elem_of_singleton. naive_solver.
  - destruct (IH out Hnd) as [Hn Hs]. split; [done|]. intros s. rewrite Hs.
    setoid_rewrite elem_of_cons. naive_solver.
Qed.

Lemma collect_headers_spec base headers out :
  NoDup out →
  NoDup (collect_headers base headers out) ∧
  ∀ s, s ∈ collect_headers base headers out ↔
       s ∈ out ∨ ∃ raw part, raw ∈ headers ∧ part ∈ splitLinkHeaderValues raw ∧
                             alternate_of base part = Some s.
Proof.
  revert out. induction headers as [|raw headers IH]; intros out Hnd; simpl.
  { split; [done|]. set_solver. }
  destruct (collect_parts_spec base (splitLinkHeaderValues raw) out Hnd) as [Hn1 Hs1].
  destruct (IH _ Hn1) as [Hn Hs]. split; [done|]. intros s. rewrite Hs, Hs1.
  setoid_rewrite elem_of_cons. naive_solver.
Qed.

(** A link-value of some header names [s], on the origin of [base]. *)
Definition same_origin_alternate (base : URL) (headers : list string) (s : string) : Prop :=
  ∃ raw part target u,
    raw ∈ headers ∧ part ∈ splitLinkHeaderValues raw ∧
    parseAlternateLinkPart part = Some target ∧ url_Parse target = Some u ∧
    let resolved := ResolveReference base u in
    http_scheme resolved = true ∧
    EqualFold (url_Scheme resolved) (url_Scheme base) = true ∧
    EqualFold (url_Host resolved) (url_Host base) = true ∧
    url_String resolved = s.

Lemma alternate_of_some base part s :
  alternate_of base part = Some s ↔
  ∃ target u, parseAlternateLinkPart part = Some target ∧ url_Parse target = Some u ∧
    let resolved := ResolveReference base u in
    http_scheme resolved = true ∧
    EqualFold (url_Scheme resolved) (url_Scheme base) = true ∧
    EqualFold (url_Host resolved) (url_Host base) = true ∧
    url_String resolved = s.
Proof.
  unfold alternate_of. destruct (parseAlternateLinkPart part) as [target|]; simpl; [|naive_solver].
  destruct (url_Parse target) as [u|] eqn:Hu; simpl; [|naive_solver].
  destruct (http_scheme _) eqn:Hs; simpl; [|naive_solver congruence].
  destruct (EqualFold (url_Scheme _) _) eqn:He, (EqualFold (url_Host _) _) eqn:Hh; simpl;
    naive_solver congruence.
Qed.

(** C38: the alternate certificate URLs are exactly the targets of
    [rel="alternate"] link-values that resolve to the certificate's own origin over http(s),
    each listed once; a certificate URL without an http(s) origin yields none. *)
Theorem alternate_links_same_origin headers baseURL :
  NoDup (parseAlternateCertLinks headers baseURL) ∧
  ∀ s, s ∈ parseAlternateCertLinks headers baseURL ↔
    ∃ base, url_Parse baseURL = Some base ∧ http_scheme base = true ∧ url_Host base ≠ "" ∧
      same_origin_alternate base headers s.
Proof.
  unfold parseAlternateCertLinks. destruct (url_Parse baseURL) as [base|].
  2:{ split; [constructor|]. set_solver. }
  destruct (http_scheme base) eqn:Hsch; simpl.
  2:{ split; [constructor|]. intros s. split; [set_solver|]. intros (? & [= <-] & ? & _). congruence. }
  destruct (String.eqb_spec (url_Host base) "") as [Hh|Hh].
  { split; [constructor|]. intros s. split; [set_solver|]. by intros (? & [= <-] & _ & ? & _). }
  destruct (collect_headers_spec base headers []) as [Hnd Hs]; [constructor|].
  split; [done|]. intros s. rewrite Hs. unfold same_origin_alternate.
  setoid_rewrite alternate_of_some. split.
  - intros [Hn|(raw & part & ? & ? & target & u & ?)]; [by apply not_elem_of_nil in Hn|].
    exists base. naive_solver.
  - intros (? & [= <-] & _ & _ & raw & part & target & u & ?). right. naive_solver.
Qed.
End links.

(** ** Splitting undoes joining *)

(** The flags after a text, [None] when it has a comma outside quotes. *)
Fixpoint scan_text (st : quote_state) (s : string) : option quote_state :=
  match s with
  | "" => Some st
  | String c s =>
      if Ascii.eqb c "," && negb (inQuote st) then None else scan_text (scan_byte st c) s
  end.

(** A link-value: quotes closed at the end, no comma outside them. *)
Definition link_value (s : string) : Prop :=
  ∃ st, scan_text (MkQuote false false) s = Some st ∧ inQuote st = false.

Lemma split_loop_text s rest cur st st' :
  scan_text st s = Some st' →
  split_loop (s +:+ rest) cur st = split_loop rest (cur +:+ s) st'.
Proof.
  revert cur st. induction s as [|c s IH]; intros cur st; simpl.
  { intros [= ->]. by rewrite app_nil_r_str. }
  destruct (Ascii.eqb c "," && negb (inQuote st)) eqn:Hc; [done|]. intros Hs.
  rewrite IH by done. by rewrite <- app_assoc_str.
Qed.

Lemma unquoted_not_escaped s st :
  scan_text (MkQuote false false) s = Some st → inQuote st = false → escaped st = false.
Proof.
  assert (∀ st0, (inQuote st0 = false → escaped st0 = false) →
    scan_text st0 s = Some st → inQuote st = false → escaped st = false) as Hgen; [|by apply Hgen].
  induction s as [|c s IH]; intros st0 H0; simpl; [by intros [= <-]|].
  case_match; [done|]. apply IH. unfold scan_byte.
  destruct (Ascii.eqb c backslash); [by destruct (inQuote st0)|].
  by destruct (Ascii.eqb c dquote).
Qed.

(** Splitting a header made of link-values joined by commas gives back the
    link-values, trimmed: commas inside quoted strings, escaped quotes included, do
    not split. *)
Theorem split_join parts :
  parts ≠ [] → Forall link_value parts →
  splitLinkHeaderValues (Join parts ",") = TrimSpace <$> parts.
Proof.
  intros Hne Hall. unfold splitLinkHeaderValues.
  induction Hall as [|s parts (st & Hs & Hq) Hall IH]; [done|].
  pose proof (unquoted_not_escaped s st Hs Hq) as He.
  assert (st = MkQuote false false) as -> by (destruct st; simpl in *; by subst).
  destruct parts as [|t parts].
  - simpl. rewrite <- (app_nil_r_str s) at 1. by rewrite (split_loop_text _ _ _ _ _ Hs).
  - change (Join (s :: t :: parts) ",") with (s +:+ "," +:+ Join (t :: parts) ",").
    rewrite (split_loop_text _ _ _ _ _ Hs). simpl. f_equal. by apply IH.
Qed.

Lemma split_join_witness :
  splitLinkHeaderValues (Join ["<https://a/1>; title=" +:+ Quote "x,y"; " <https://a/2>"] ",") =
  ["<https://a/1>; title=" +:+ Quote "x,y"; "<https://a/2>"].
Proof.
  rewrite (split_join ["<https://a/1>; title=" +:+ Quote "x,y"; " <https://a/2>"]).
  - reflexivity.
  - discriminate.
  - repeat constructor; eexists; split; reflexivity.
Defined.

Lemma parse_part_examples :
  parseAlternateLinkPart ("<https://a/1>;rel=" +:+ Quote "up Alternate") = Some "https://a/1" ∧
  parseAlternateLinkPart "<https://a/1>; rel=index" = None ∧
  parseAlternateLinkPart "<>;rel=alternate" = None.
Proof. vm_compute. repeat split. Qed.
