(* ===== verification/World.v ===== *)
(** * The gateway process: its state, its environment and its effects

    One process state ([World]): the database, the upstream clients (a heap,
    because clients are shared by pointer), the pool's tables, the challenge
    records, the background jobs started, the requests sent, and the response
    being written.  What the outside answers (clock, randomness, database
    engine, network, hook scripts) is read from oracles indexed by a counter that
    every reading advances, so every sequence of answers is a possible one.
    Code runs in the state monad [M], whose outcome [None] is a Go panic. *)
From S2P Require Export Store LinkHeader.

(** ** Cryptography (crypto/ecdsa, crypto/x509, encoding/pem, go-jose)

    Keys are opaque; the functions are what the code calls. *)
Class Crypto := {
  ECKey : Type;
  MarshalECPrivateKey : ECKey → result string;
  ParseECPrivateKey : string → result ECKey;
  pem_EncodeECKey : string → string;
  (** The bytes of the first block of a PEM text. *)
  pem_Decode : string → option string;
  sha256 : string → string;
  (** RFC 7638 thumbprint of a client key's public half. *)
  ec_Thumbprint : ECKey → result string;
  (** The HS256 binding of [buildEAB]: HMAC key, key ID, URL and account key. *)
  jose_SignEAB : string → string → string → ECKey → result json
}.

(** ** Upstream clients *)
Record ACMEDirectory := MkDirectory {
  NewNonce : string; NewAccount : string; NewOrder : string;
  RevokeCert : string; KeyChange : string
}.

(** The nonce ring buffer of a client. *)
Record nonce_ring := MkRing {
  ring : list string; nonceHead : nat; nonceTail : nat; nonceCount : nat
}.

Record Client `{Crypto} := MkClient {
  directoryURL : string;
  key : ECKey;
  accountURL : string;
  directory : option ACMEDirectory;
  client_nonces : nonce_ring
}.

(** Clients are referred to by address. *)
Definition client_ref := nat.

(** ** Requests and answers *)

(** The protected header of a signed request: [kid] or the public key. *)
Inductive key_header := ByKeyID (kid : string) | ByJWK.
Inductive request_body `{Crypto} :=
| NoBody
| SignedBody (nonce url : string) (kh : key_header) (signer : ECKey) (payload : string).
Record http_request `{Crypto} := MkHTTP {
  rq_Method : string; rq_URL : string; rq_Accept : string; rq_Body : request_body
}.
(** [rs_ReadErr]: reading the body fails after [rs_Body]; [rs_URL] is the
    URL of the last request, after redirects. *)
Record http_response := MkResponse {
  rs_StatusCode : Z; rs_Location : string; rs_ReplayNonce : string;
  rs_Link : list string; rs_Body : string; rs_ReadErr : option error; rs_URL : option string
}.

(** ** The oracles *)
Class Env `{Crypto} := {
  env_now : nat → time;
  env_rand : nat → option string;
  env_uuid : nat → string;
  env_db : nat → option error;
  env_http : nat → http_request → result http_response;
  env_genkey : nat → result ECKey;
  env_sign : nat → option error;
  env_cacert : nat → string → option error;
  env_ctx : nat → option error;
  (** Waiting for a duration: [Some] when the context ends first. *)
  env_sleep : nat → Z → option error;
  env_LookupCNAME : nat → string → result string;
  env_LookupNS : nat → string → result (list string);
  env_LookupTXT : nat → string → string → result (list string);
  (** Addresses in order, with whether [To4] succeeds. *)
  env_LookupIP : nat → string → result (list (string * bool));
  (** [os.Stat]: whether it is a directory, and whether any execute bit is set. *)
  env_stat : nat → string → result (bool * bool);
  (** A script run with added environment variables: combined output and error. *)
  env_exec : nat → string → list (string * string) → string * option error;
  (** A file operation refused by the system. *)
  env_file : nat → option error;
  (** How far a write gets before it fails. *)
  env_partial : nat → nat;
  (** The random names [os.CreateTemp] tries, in order. *)
  env_tmp : nat → list string;
  (** [x509.CreateCertificateRequest] for a key and a domain, as the only name. *)
  env_csr : nat → ECKey → string → result string;
  (** [http.NewRequest]'s check of a URL. *)
  request_url_error : string → option error
}.

(** ** Process state *)
Record Pool := MkPool {
  clients : gmap string (list client_ref);
  accountClients : gmap string (gmap string client_ref);
  nextSlot : gmap string Z
}.

Record challengeProgress := MkProgress {
  cp_createdAt : time; cp_status : string; cp_errType : string; cp_errMsg : string
}.

(** What is done to files. *)
Inductive file_op :=
| FCreate (p : string)
| FAppend (p : string) (c : ascii)
| FChmod (p : string) (mode : Z)
| FRename (src dst : string)
| FRemove (p : string).

Inductive event `{Crypto} :=
| EvHTTP (rq : http_request)
| EvHook (script : string) (env : list (string * string))
| EvFile (op : file_op).

(** Where a DNS-01 record goes. *)
Record dnsChallengeTarget := MkTarget {
  SourceDomain : string; SourceFQDN : string; EffectiveDomain : string; EffectiveFQDN : string
}.

(** A background goroutine at the point where it continues.  A progress record is
    referred to by pointer: by its challenge and its time of creation here, which differ
    between two records of a challenge. *)
Inductive job :=
| ProcessJob (client : client_ref) (o : Order) (url chalID : string) (created : time)
| TriggerJob (client : client_ref) (url chalID : string) (created : time)
| CleanupJob (client : client_ref) (authzURL dnsValue token script : string)
    (target : dnsChallengeTarget).

Inductive body_value := BodyJSON (j : json) | BodyBytes (s : string).

(** The [http.ResponseWriter]: headers, and what [WriteHeader] and [Write]
    were called with, in order. *)
Record response := MkResp {
  rp_headers : list (string * list string);
  rp_status : list Z;
  rp_body : list body_value
}.
Definition empty_response : response := MkResp [] [] [].

Record World `{Crypto} := MkWorld {
  w_tick : nat;
  w_store : Store;
  w_heap : gmap client_ref Client;
  w_next : client_ref;
  w_pool : Pool;
  w_proc : gmap string challengeProgress;
  w_jobs : list job;
  w_trace : list event;
  w_resp : response
}.

Section world.
Context `{Crypto}.

Definition set_tick n w := MkWorld _ n (w_store w) (w_heap w) (w_next w) (w_pool w) (w_proc w)
  (w_jobs w) (w_trace w) (w_resp w).
Definition set_store s w := MkWorld _ (w_tick w) s (w_heap w) (w_next w) (w_pool w) (w_proc w)
  (w_jobs w) (w_trace w) (w_resp w).
Definition set_heap h w := MkWorld _ (w_tick w) (w_store w) h (w_next w) (w_pool w) (w_proc w)
  (w_jobs w) (w_trace w) (w_resp w).
Definition set_next n w := MkWorld _ (w_tick w) (w_store w) (w_heap w) n (w_pool w) (w_proc w)
  (w_jobs w) (w_trace w) (w_resp w).
Definition set_pool p w := MkWorld _ (w_tick w) (w_store w) (w_heap w) (w_next w) p (w_proc w)
  (w_jobs w) (w_trace w) (w_resp w).
Definition set_proc p w := MkWorld _ (w_tick w) (w_store w) (w_heap w) (w_next w) (w_pool w) p
  (w_jobs w) (w_trace w) (w_resp w).
Definition set_jobs j w := MkWorld _ (w_tick w) (w_store w) (w_heap w) (w_next w) (w_pool w)
  (w_proc w) j (w_trace w) (w_resp w).
Definition set_trace t w := MkWorld _ (w_tick w) (w_store w) (w_heap w) (w_next w) (w_pool w)
  (w_proc w) (w_jobs w) t (w_resp w).
Definition set_resp r w := MkWorld _ (w_tick w) (w_store w) (w_heap w) (w_next w) (w_pool w)
  (w_proc w) (w_jobs w) (w_trace w) r.
End world.

(** ** The monad *)
Section monad.
Context `{Env}.

Definition M (A : Type) : Type := World → option A * World.

Definition ret {A} (a : A) : M A := λ w, (Some a, w).
Definition bind {A B} (m : M A) (k : A → M B) : M B := λ w,
  match m w with
  | (Some a, w') => k a w'
  | (None, w') => (None, w')
  end.
Definition panic {A} : M A := λ w, (None, w).
Definition gets {A} (f : World → A) : M A := λ w, (Some (f w), w).
Definition modify (f : World → World) : M unit := λ w, (Some tt, f w).

(** One reading of an oracle. *)
Definition ask {A} (f : nat → A) : M A := λ w,
  (Some (f (w_tick w)), set_tick (S (w_tick w)) w).

(** One database statement or transaction: refused by the engine, or run. *)
Definition db {A} (f : Store → result A * Store) : M (result A) :=
  bind (ask env_db) (λ e,
  match e with
  | Some e => ret (Err e)
  | None => λ w, let '(r, s) := f (w_store w) in (Some r, set_store s w)
  end).
Definition db_read {A} (f : Store → result A) : M (result A) := db (λ s, (f s, s)).

(** An effect visible outside: recorded, then answered. *)
Definition emit (ev : event) : M unit := modify (λ w, set_trace (w_trace w ++ [ev]) w).
Definition http_Do (rq : http_request) : M (result http_response) :=
  bind (emit (EvHTTP rq)) (λ _, ask (λ n, env_http n rq)).

Definition deref (c : client_ref) : M Client := λ w,
  (w_heap w !! c, w).
Definition update_client (c : client_ref) (f : Client → Client) : M unit :=
  modify (λ w, set_heap (alter f c (w_heap w)) w).
Definition new_client (cl : Client) : M client_ref := λ w,
  (Some (w_next w), set_next (S (w_next w)) (set_heap (<[w_next w := cl]> (w_heap w)) w)).

Definition update_proc (f : gmap string challengeProgress → gmap string challengeProgress) : M unit :=
  modify (λ w, set_proc (f (w_proc w)) w).
Definition update_jobs (f : list job → list job) : M unit :=
  modify (λ w, set_jobs (f (w_jobs w)) w).

(** [if err != nil { return err }], and with the error wrapped. *)
Definition bind_ok {A B} (m : M (result A)) (k : A → M (result B)) : M (result B) :=
  bind m (λ r, match r with Ok a => k a | Err e => ret (Err e) end).
Definition wrap {A} (pre : string) (m : M (result A)) : M (result A) :=
  bind m (λ r, ret (match r with Ok a => Ok a | Err e => Wrapf pre e end)).

(** ** The response writer *)
Fixpoint header_set (k : string) (vs : list string) (l : list (string * list string)) :=
  match l with
  | [] => [(k, vs)]
  | (k', vs') :: l => if k' ==? k then (k, vs) :: l else (k', vs') :: header_set k vs l
  end.
Definition header_get (k : string) (l : list (string * list string)) : list string :=
  default [] (snd <$> List.find (λ kv, kv.1 ==? k) l).

(** Headers set after [WriteHeader] are not sent. *)
Definition on_headers (f : list (string * list string) → list (string * list string)) : M unit :=
  modify (λ w, match rp_status (w_resp w) with
               | [] => set_resp (MkResp (f (rp_headers (w_resp w))) [] (rp_body (w_resp w))) w
               | _ => w
               end).
Definition Header_Set (k v : string) : M unit := on_headers (header_set k [v]).
Definition Header_Add (k v : string) : M unit :=
  on_headers (λ l, header_set k (header_get k l ++ [v]) l).
Definition WriteHeader (status : Z) : M unit :=
  modify (λ w, set_resp (MkResp (rp_headers (w_resp w)) (rp_status (w_resp w) ++ [status])
                           (rp_body (w_resp w))) w).
Definition Write (b : body_value) : M unit :=
  modify (λ w, set_resp (MkResp (rp_headers (w_resp w)) (rp_status (w_resp w))
                           (rp_body (w_resp w) ++ [b])) w).
End monad.

Notation "'let!' x := m 'in' k" := (bind m (fun x => k))
  (at level 10, x pattern, m at level 200, k at level 200,
   format "'[v' 'let!'  x  :=  m  'in'  '/' k ']'") : gateway_scope.
Notation "'let!?' x := m 'in' k" := (bind_ok m (fun x => k))
  (at level 10, x pattern, m at level 200, k at level 200,
   format "'[v' 'let!?'  x  :=  m  'in'  '/' k ']'") : gateway_scope.
Notation "'do!' m 'in' k" := (bind m (fun _ => k))
  (at level 10, m at level 200, k at level 200,
   format "'[v' 'do!'  m  'in'  '/' k ']'") : gateway_scope.
(** [x, err := m; if err != nil { h }], [h] ending the function. *)
Notation "'let!' x := m 'else' h 'in' k" :=
  (bind m (fun r => match r with Ok x => k | Err e => h e end))
  (at level 10, x pattern, m at level 200, h at level 200, k at level 200) : gateway_scope.

(** ** Reasoning: relations kept by every step *)
Section keeps.
Context `{Env}.

(** [m] moves the process along [R], panics included. *)
Definition keeps {A} (R : World → World → Prop) (m : M A) : Prop := ∀ w, R w (m w).2.

Lemma keeps_ret {A} R `{!Reflexive R} (a : A) : keeps R (ret a).
Proof. intros w. reflexivity. Qed.
Lemma keeps_panic {A} R `{!Reflexive R} : keeps R (panic (A := A)).
Proof. intros w. reflexivity. Qed.
Lemma keeps_gets {A} R `{!Reflexive R} (f : World → A) : keeps R (gets f).
Proof. intros w. reflexivity. Qed.
Lemma keeps_deref R `{!Reflexive R} c : keeps R (deref c).
Proof. intros w. reflexivity. Qed.
Lemma keeps_bind {A B} R `{!Transitive R} (m : M A) (k : A → M B) :
  keeps R m → (∀ a, keeps R (k a)) → keeps R (bind m k).
Proof.
  intros Hm Hk w. unfold bind. specialize (Hm w). destruct (m w) as [[a|] w']; simpl in *; [|done].
  etrans; [done|]. apply Hk.
Qed.
Lemma keeps_bind_ok {A B} R `{!PreOrder R} (m : M (result A)) (k : A → M (result B)) :
  keeps R m → (∀ a, keeps R (k a)) → keeps R (bind_ok m k).
Proof. intros Hm Hk. apply keeps_bind; [apply _|done|]. intros []; [done|by apply keeps_ret, _]. Qed.
Lemma keeps_wrap {A} R `{!PreOrder R} pre (m : M (result A)) : keeps R m → keeps R (wrap pre m).
Proof. intros Hm. apply keeps_bind; [apply _|done|]. intros r. by apply keeps_ret, _. Qed.

(** [after m w Q]: the outcome of [m] from [w] satisfies [Q]; [None] is a panic. *)
Definition after {A} (m : M A) (w : World) (Q : option A → World → Prop) : Prop :=
  Q (m w).1 (m w).2.

Lemma after_let {A} (m : M A) w (Q : option A → World → Prop) :
  after m w Q → let '(r, w') := m w in Q r w'.
Proof. unfold after. by destruct (m w). Qed.
Lemma after_ret {A} (a : A) w (Q : option A → World → Prop) : Q (Some a) w → after (ret a) w Q.
Proof. done. Qed.
Lemma after_mono {A} (m : M A) w (P Q : option A → World → Prop) :
  after m w P → (∀ r w', P r w' → Q r w') → after m w Q.
Proof. intros HP HPQ. by apply HPQ. Qed.
Lemma after_keeps {A} R (m : M A) w (Q : option A → World → Prop) :
  keeps R m → (∀ r w', m w = (r, w') → R w w' → Q r w') → after m w Q.
Proof. intros Hm HQ. apply HQ; [apply surjective_pairing|apply Hm]. Qed.
Lemma after_run {A} (m : M A) w (Q : option A → World → Prop) :
  (∀ r w', m w = (r, w') → Q r w') → after m w Q.
Proof. intros HQ. apply HQ, surjective_pairing. Qed.

Lemma after_bind {A B} (m : M A) (k : A → M B) w (Q : option B → World → Prop) :
  after m w (λ r w', match r with Some a => after (k a) w' Q | None => Q None w' end) →
  after (bind m k) w Q.
Proof. unfold after, bind. by destruct (m w) as [[a|] w']. Qed.
Lemma after_bind_ok {A B} (m : M (result A)) (k : A → M (result B)) w
    (Q : option (result B) → World → Prop) :
  after m w (λ r w', match r with
                     | Some (Ok a) => after (k a) w' Q
                     | Some (Err e) => Q (Some (Err e)) w'
                     | None => Q None w'
                     end) →
  after (bind_ok m k) w Q.
Proof. unfold after, bind_ok, bind. by destruct (m w) as [[[a|e]|] w']. Qed.
Lemma after_wrap {A} pre (m : M (result A)) w (Q : option (result A) → World → Prop) :
  after m w (λ r w', Q (match r with
                        | Some (Err e) => Some (Wrapf pre e)
                        | r => r
                        end) w') →
  after (wrap pre m) w Q.
Proof. unfold after, wrap, bind. by destruct (m w) as [[[a|e]|] w']. Qed.
Lemma after_ask {A} (f : nat → A) w (Q : option A → World → Prop) :
  Q (Some (f (w_tick w))) (set_tick (S (w_tick w)) w) → after (ask f) w Q.
Proof. done. Qed.
Lemma after_http rq w (Q : option (result http_response) → World → Prop) :
  Q (Some (env_http (w_tick w) rq))
    (set_tick (S (w_tick w)) (set_trace (w_trace w ++ [EvHTTP rq]) w)) →
  after (http_Do rq) w Q.
Proof. done. Qed.
Lemma after_db {A} (f : Store → result A * Store) w (Q : option (result A) → World → Prop) :
  (∀ e, env_db (w_tick w) = Some e → Q (Some (Err e)) (set_tick (S (w_tick w)) w)) →
  (env_db (w_tick w) = None →
   Q (Some (f (w_store w)).1) (set_store (f (w_store w)).2 (set_tick (S (w_tick w)) w))) →
  after (db f) w Q.
Proof.
  intros He Hok. unfold db. apply after_bind, after_ask.
  destruct (env_db (w_tick w)) as [e|]; [by apply after_ret, He|].
  unfold after. simpl. specialize (Hok eq_refl). by destruct (f (w_store w)).
Qed.
Lemma after_db_read {A} (f : Store → result A) w (Q : option (result A) → World → Prop) :
  (∀ e, env_db (w_tick w) = Some e → Q (Some (Err e)) (set_tick (S (w_tick w)) w)) →
  (env_db (w_tick w) = None → Q (Some (f (w_store w))) (set_tick (S (w_tick w)) w)) →
  after (db_read f) w Q.
Proof. intros He Hok. by apply after_db. Qed.
Lemma after_gets {A} (f : World → A) w (Q : option A → World → Prop) :
  Q (Some (f w)) w → after (gets f) w Q.
Proof. done. Qed.
Lemma after_modify f w (Q : option unit → World → Prop) :
  Q (Some tt) (f w) → after (modify f) w Q.
Proof. done. Qed.
Lemma after_deref c w (Q : option Client → World → Prop) :
  Q (w_heap w !! c) w → after (deref c) w Q.
Proof. done. Qed.

(** Programs as functions of the world. *)
Lemma bind_run {A B} (m : M A) (k : A → M B) w :
  bind m k w = match m w with (Some a, w') => k a w' | (None, w') => (None, w') end.
Proof. reflexivity. Qed.
Lemma bind_ok_run {A B} (m : M (result A)) (k : A → M (result B)) w :
  bind_ok m k w = match m w with
                  | (Some (Ok a), w') => k a w'
                  | (Some (Err e), w') => (Some (Err e), w')
                  | (None, w') => (None, w')
                  end.
Proof. unfold bind_ok, bind. by destruct (m w) as [[[]|] w']. Qed.
Lemma wrap_run {A} pre (m : M (result A)) w :
  wrap pre m w = match m w with
                 | (Some (Err e), w') => (Some (Wrapf pre e), w')
                 | o => o
                 end.
Proof. unfold wrap, bind, ret. by destruct (m w) as [[[]|] w']. Qed.
End keeps.

(** A program keeps a relation when each of its steps does. *)
Create HintDb keeps discriminated.
#[export] Hint Constants Opaque : keeps.
#[export] Hint Resolve keeps_ret keeps_panic keeps_gets keeps_deref : keeps.

(** [keeps_step]: one rule of the program's syntax; [keeps_auto]: all of them,
    calls by the hints. *)
Ltac keeps_step :=
  match goal with
  | |- keeps _ (bind _ _) => apply keeps_bind; [typeclasses eauto| |intros]
  | |- keeps _ (bind_ok _ _) => apply keeps_bind_ok; [typeclasses eauto| |intros]
  | |- keeps _ (wrap _ _) => apply keeps_wrap; [typeclasses eauto|]
  | |- keeps _ (ret _) => apply keeps_ret; typeclasses eauto
  | |- keeps _ panic => apply keeps_panic; typeclasses eauto
  | |- keeps _ (gets _) => apply keeps_gets; typeclasses eauto
  | |- keeps _ (deref _) => apply keeps_deref; typeclasses eauto
  | |- keeps _ (let _ := ?e in _) => cbv zeta
  | |- keeps _ (let '(_, _) := ?e in _) => destruct e
  | |- keeps _ (match ?e with _ => _ end) => destruct e
  end.
Ltac keeps_auto := repeat (keeps_step || (progress eauto 2 with keeps nocore)).
