(* ===== verification/Client.v ===== *)
(** * The upstream ACME client (internal/upstream/client.go, order.go, account.go)

    The nonce ring and its refinement of a bounded queue, the decoding of the
    upstream's JSON, the directory cache, the signed POST with its badNonce
    retries, and the operations built on it. *)
From S2P Require Export World Config.

(** ** The nonce ring *)
Definition noncePoolSize : nat := 8.
#[local] Arguments noncePoolSize : simpl never.
#[local] Arguments Nat.modulo : simpl never.
Definition empty_ring : nonce_ring := MkRing (replicate noncePoolSize "") 0 0 0.

(** The first half of [getNonce], under the client's lock. *)
Definition pop_nonce (r : nonce_ring) : option (string * nonce_ring) :=
  if (0 <? nonceCount r)%nat then
    let n := default "" (ring r !! nonceHead r) in
    Some (n, MkRing (<[nonceHead r := ""]> (ring r)) ((nonceHead r + 1) mod noncePoolSize)
               (nonceTail r) (nonceCount r - 1))
  else None.

Definition push_nonce (n : string) (r : nonce_ring) : nonce_ring :=
  if n ==? "" then r
  else if (nonceCount r <? noncePoolSize)%nat then
    MkRing (<[nonceTail r := n]> (ring r)) (nonceHead r)
      ((nonceTail r + 1) mod noncePoolSize) (nonceCount r + 1)
  else r.

Record ring_ok (r : nonce_ring) : Prop := {
  ring_size : length (ring r) = noncePoolSize;
  ring_head : nonceHead r < noncePoolSize;
  ring_count : nonceCount r ≤ noncePoolSize;
  ring_tail : nonceTail r = (nonceHead r + nonceCount r) mod noncePoolSize
}.

(** The queue a ring stands for: oldest first. *)
Definition ring_queue (r : nonce_ring) : list string :=
  (λ i, default "" (ring r !! ((nonceHead r + i) mod noncePoolSize))) <$> seq 0 (nonceCount r).

Lemma empty_ring_ok : ring_ok empty_ring.
Proof. split; vm_compute; lia. Qed.

Lemma length_ring_queue r : length (ring_queue r) = nonceCount r.
Proof. unfold ring_queue. by rewrite length_fmap, length_seq. Qed.

Lemma ring_index_inj h i j :
  i < noncePoolSize → j < noncePoolSize →
  (h + i) mod noncePoolSize = (h + j) mod noncePoolSize → i = j.
Proof.
  unfold noncePoolSize. intros Hi Hj Heq.
  pose proof (Nat.div_mod_eq (h + i) 8). pose proof (Nat.div_mod_eq (h + j) 8).
  assert ((h + i) / 8 = (h + j) / 8 ∨ (h + i) / 8 < (h + j) / 8 ∨ (h + j) / 8 < (h + i) / 8) by lia.
  lia.
Qed.

Lemma pop_nonce_queue r :
  ring_ok r →
  match pop_nonce r with
  | None => ring_queue r = []
  | Some (n, r') => ring_ok r' ∧ ring_queue r = n :: ring_queue r'
  end.
Proof.
  intros [Hs Hh Hc Ht]. unfold pop_nonce. destruct (Nat.ltb_spec 0 (nonceCount r)) as [Hpos|Hz].
  2:{ apply nil_length_inv. rewrite length_ring_queue. lia. }
  destruct r as [l h t c]; simpl in *. split.
  - split; simpl; [by rewrite length_insert|apply Nat.mod_upper_bound; done|lia|].
    rewrite Ht, Nat.Div0.add_mod_idemp_l. f_equal. lia.
  - unfold ring_queue. simpl. destruct c as [|c]; [lia|]. simpl. rewrite Nat.sub_0_r.
    f_equal.
    + by rewrite Nat.add_0_r, Nat.mod_small by done.
    + rewrite <- fmap_S_seq, <- list_fmap_compose. apply list_fmap_ext. intros i x Hi.
      apply lookup_seq in Hi as [-> Hi]. simpl.
      rewrite Nat.Div0.add_mod_idemp_l. replace (h + 1 + i) with (h + S i) by lia.
      rewrite list_lookup_insert_ne; [done|]. intros Heq.
      assert (0 = S i); [|lia]. apply (ring_index_inj h); [unfold noncePoolSize; lia|lia|].
      by rewrite <- Heq, Nat.add_0_r, Nat.mod_small.
Qed.

Lemma push_nonce_queue n r :
  ring_ok r →
  ring_ok (push_nonce n r) ∧
  ring_queue (push_nonce n r) =
    ring_queue r ++ (if (n !=? "") && (length (ring_queue r) <? noncePoolSize)%nat then [n] else []).
Proof.
  intros [Hs Hh Hc Ht]. unfold push_nonce. rewrite length_ring_queue.
  destruct (n ==? ""); simpl; [split; [done|by rewrite app_nil_r]|].
  destruct (Nat.ltb_spec (nonceCount r) noncePoolSize) as [Hlt|Hge].
  2:{ split; [done|by rewrite app_nil_r]. }
  destruct r as [l h t c]; simpl in *. split.
  - split; simpl; [by rewrite length_insert|done|lia|].
    rewrite Ht, Nat.Div0.add_mod_idemp_l. f_equal. lia.
  - unfold ring_queue. simpl. rewrite Nat.add_1_r, seq_S, fmap_app. simpl. f_equal.
    + apply list_fmap_ext. intros i x Hi. apply lookup_seq in Hi as [-> Hi]. simpl.
      rewrite list_lookup_insert_ne; [done|]. intros Heq. subst t.
      assert (c = i); [|lia]. by apply (ring_index_inj h); [lia|lia|].
    + rewrite <- Ht, list_lookup_insert_eq; [done|]. rewrite Hs, Ht.
      apply Nat.mod_upper_bound; done.
Qed.

(** The eight-slot ring is a bounded first-in first-out queue: taking a
    nonce returns the oldest and never twice, saving appends unless the nonce is empty
    or the queue is full, and the indices stay in range. *)
Theorem ring_refines_queue r n :
  ring_ok r →
  (match pop_nonce r with
   | None => ring_queue r = []
   | Some (m, r') => ring_ok r' ∧ ring_queue r = m :: ring_queue r'
   end) ∧
  ring_ok (push_nonce n r) ∧
  ring_queue (push_nonce n r) =
    ring_queue r ++ (if (n !=? "") && (length (ring_queue r) <? noncePoolSize)%nat then [n] else []).
Proof. intros Hr. split; [by apply pop_nonce_queue|by apply push_nonce_queue]. Qed.

Lemma ring_refines_queue_witness :
  ring_queue (push_nonce "n1" empty_ring) = ["n1"].
Proof.
  destruct (ring_refines_queue empty_ring "n1" empty_ring_ok) as (_ & _ & ->). reflexivity.
Defined.

(** ** The upstream's JSON *)
Record Challenge := MkChallenge {
  ch_Type : string; ch_URL : string; ch_Token : string; ch_Status : string;
  ch_Error : option ACMEError
}.
Record ACMEAuthorization := MkAuthorization {
  az_Identifier : Identifier; az_Status : string; az_Expires : string;
  az_Challenges : list Challenge; az_Wildcard : bool
}.
Record ACMEOrder := MkACMEOrder {
  ao_Status : string; ao_Expires : string; ao_Identifiers : list Identifier;
  ao_Authorizations : list string; ao_Finalize : string; ao_Certificate : string;
  ao_Error : option ACMEError
}.

Definition zero_acme_error : ACMEError := MkACMEError "" "" 0 "".
Definition zero_identifier : Identifier := MkIdentifier "" "".
Definition zero_challenge : Challenge := MkChallenge "" "" "" "" None.
Definition zero_authorization : ACMEAuthorization := MkAuthorization zero_identifier "" "" [] false.
Definition zero_order : ACMEOrder := MkACMEOrder "" "" [] [] "" "" None.
Definition zero_directory : ACMEDirectory := MkDirectory "" "" "" "" "".

(** A field of pointer type: [null] sets nil. *)
Definition decode_ptr {A} (dec : json → option A) (j : json) : option (option A) :=
  match j with JNull => Some None | _ => Some <$> dec j end.

(** [Subproblems] keeps the member's JSON, compacted. *)
Definition set_acme_error (k : string) (v : json) (e : ACMEError) : option ACMEError :=
  if k ==? "type" then t ← decode_string (ae_Type e) v;
    Some (MkACMEError t (ae_Detail e) (ae_Status e) (ae_Subproblems e))
  else if k ==? "detail" then d ← decode_string (ae_Detail e) v;
    Some (MkACMEError (ae_Type e) d (ae_Status e) (ae_Subproblems e))
  else if k ==? "status" then n ← decode_int (ae_Status e) v;
    Some (MkACMEError (ae_Type e) (ae_Detail e) n (ae_Subproblems e))
  else if k ==? "subproblems" then
    Some (MkACMEError (ae_Type e) (ae_Detail e) (ae_Status e) (Marshal v))
  else Some e.
Definition decode_acme_error : json → option ACMEError := decode_struct set_acme_error zero_acme_error.

Definition set_identifier (k : string) (v : json) (i : Identifier) : option Identifier :=
  if k ==? "type" then t ← decode_string (id_Type i) v; Some (MkIdentifier t (id_Value i))
  else if k ==? "value" then x ← decode_string (id_Value i) v; Some (MkIdentifier (id_Type i) x)
  else Some i.
Definition decode_identifier (old : Identifier) : json → option Identifier :=
  decode_struct set_identifier old.

Definition set_challenge (k : string) (v : json) (c : Challenge) : option Challenge :=
  if k ==? "type" then x ← decode_string (ch_Type c) v;
    Some (MkChallenge x (ch_URL c) (ch_Token c) (ch_Status c) (ch_Error c))
  else if k ==? "url" then x ← decode_string (ch_URL c) v;
    Some (MkChallenge (ch_Type c) x (ch_Token c) (ch_Status c) (ch_Error c))
  else if k ==? "token" then x ← decode_string (ch_Token c) v;
    Some (MkChallenge (ch_Type c) (ch_URL c) x (ch_Status c) (ch_Error c))
  else if k ==? "status" then x ← decode_string (ch_Status c) v;
    Some (MkChallenge (ch_Type c) (ch_URL c) (ch_Token c) x (ch_Error c))
  else if k ==? "error" then x ← decode_ptr decode_acme_error v;
    Some (MkChallenge (ch_Type c) (ch_URL c) (ch_Token c) (ch_Status c) x)
  else Some c.
Definition decode_challenge (old : Challenge) : json → option Challenge :=
  decode_struct set_challenge old.

Definition set_authorization (k : string) (v : json) (a : ACMEAuthorization)
    : option ACMEAuthorization :=
  if k ==? "identifier" then x ← decode_identifier (az_Identifier a) v;
    Some (MkAuthorization x (az_Status a) (az_Expires a) (az_Challenges a) (az_Wildcard a))
  else if k ==? "status" then x ← decode_string (az_Status a) v;
    Some (MkAuthorization (az_Identifier a) x (az_Expires a) (az_Challenges a) (az_Wildcard a))
  else if k ==? "expires" then x ← decode_string (az_Expires a) v;
    Some (MkAuthorization (az_Identifier a) (az_Status a) x (az_Challenges a) (az_Wildcard a))
  else if k ==? "challenges" then x ← decode_list zero_challenge decode_challenge v;
    Some (MkAuthorization (az_Identifier a) (az_Status a) (az_Expires a) x (az_Wildcard a))
  else if k ==? "wildcard" then x ← decode_bool (az_Wildcard a) v;
    Some (MkAuthorization (az_Identifier a) (az_Status a) (az_Expires a) (az_Challenges a) x)
  else Some a.
Definition decode_authorization : json → option ACMEAuthorization :=
  decode_struct set_authorization zero_authorization.

Definition set_order (k : string) (v : json) (o : ACMEOrder) : option ACMEOrder :=
  let '(MkACMEOrder st ex ids azs fin cert err) := o in
  if k ==? "status" then x ← decode_string st v; Some (MkACMEOrder x ex ids azs fin cert err)
  else if k ==? "expires" then x ← decode_string ex v; Some (MkACMEOrder st x ids azs fin cert err)
  else if k ==? "identifiers" then x ← decode_list zero_identifier decode_identifier v;
    Some (MkACMEOrder st ex x azs fin cert err)
  else if k ==? "authorizations" then x ← decode_list "" decode_string v;
    Some (MkACMEOrder st ex ids x fin cert err)
  else if k ==? "finalize" then x ← decode_string fin v; Some (MkACMEOrder st ex ids azs x cert err)
  else if k ==? "certificate" then x ← decode_string cert v;
    Some (MkACMEOrder st ex ids azs fin x err)
  else if k ==? "error" then x ← decode_ptr decode_acme_error v;
    Some (MkACMEOrder st ex ids azs fin cert x)
  else Some o.
Definition decode_order : json → option ACMEOrder := decode_struct set_order zero_order.

Definition set_directory (k : string) (v : json) (d : ACMEDirectory) : option ACMEDirectory :=
  let '(MkDirectory a b c r x) := d in
  if k ==? "newnonce" then s ← decode_string a v; Some (MkDirectory s b c r x)
  else if k ==? "newaccount" then s ← decode_string b v; Some (MkDirectory a s c r x)
  else if k ==? "neworder" then s ← decode_string c v; Some (MkDirectory a b s r x)
  else if k ==? "revokecert" then s ← decode_string r v; Some (MkDirectory a b c s x)
  else if k ==? "keychange" then s ← decode_string x v; Some (MkDirectory a b c r s)
  else Some d.
Definition decode_directory : json → option ACMEDirectory := decode_struct set_directory zero_directory.

(** [json.NewDecoder(resp.Body).Decode]: the first value of the stream; what
    follows it is not read. *)
Definition Decode (s : string) : option json :=
  fst <$> parse_value (S (2 * String.length s)) s.

(** Decoding a response body; a body cut short by a read error only decodes
    when its first value is complete. *)
Definition decode_body {A} (dec : json → option A) (what : string) (rs : http_response) : result A :=
  match (Decode (rs_Body rs) ≫= dec) with
  | Some a => Ok a
  | None => Wrapf what (default (EStr "invalid JSON") (rs_ReadErr rs))
  end.

(** [parseACMEError] *)
Definition parseACMEError (rs : http_response) : error :=
  match Unmarshal (rs_Body rs) ≫= decode_acme_error with
  | None => EStr ("upstream HTTP " +:+ pretty (rs_StatusCode rs) +:+ ": " +:+ rs_Body rs)
  | Some ae => EACME (MkACMEError (ae_Type ae) (ae_Detail ae) (rs_StatusCode rs) (ae_Subproblems ae))
  end.

(** ** The client's methods *)
Section client.
Context `{Env}.

Definition set_accountURL (u : string) (c : Client) : Client :=
  MkClient _ (directoryURL c) (key c) u (directory c) (client_nonces c).
Definition set_dir (d : ACMEDirectory) (c : Client) : Client :=
  MkClient _ (directoryURL c) (key c) (accountURL c) (Some d) (client_nonces c).
Definition set_nonces (r : nonce_ring) (c : Client) : Client :=
  MkClient _ (directoryURL c) (key c) (accountURL c) (directory c) r.

(** [New]: a client for a key; a missing key is generated. *)
Definition New (url : string) (k : option ECKey) : M (result Client) :=
  let mk k := MkClient _ url k "" None empty_ring in
  match k with
  | Some k => ret (Ok (mk k))
  | None =>
      let!? k := wrap "generating upstream key: " (ask env_genkey) in
      ret (Ok (mk k))
  end.

Definition SetAccountURL (c : client_ref) (u : string) : M unit :=
  update_client c (set_accountURL u).
Definition AccountURL (c : client_ref) : M string :=
  let! cl := deref c in ret (accountURL cl).

(** [KeyPEM] *)
Definition KeyPEM (c : client_ref) : M (result string) :=
  let! cl := deref c in
  ret (let? der := MarshalECPrivateKey (key cl) in Ok (pem_EncodeECKey der)).

Definition parseECPrivateKeyPEM (text : string) : result ECKey :=
  match pem_Decode text with
  | None => Errorf "no PEM block found"
  | Some block =>
      match ParseECPrivateKey block with
      | Ok k => Ok k
      | Err e => Wrapf "parsing EC private key: " e
      end
  end.

Definition PublicKeyThumbprint (c : client_ref) : M (result string) :=
  let! cl := deref c in
  ret (let? tp := ec_Thumbprint (key cl) in Ok (EncodeToString tp)).

Definition KeyAuthorization (c : client_ref) (token : string) : M (result string) :=
  let!? tp := PublicKeyThumbprint c in ret (Ok (token +:+ "." +:+ tp)).

(** [DNS01TXTFromToken]: the key authorization and the TXT value. *)
Definition DNS01TXTFromToken (c : client_ref) (token : string) : M (result (string * string)) :=
  if token ==? "" then ret (Errorf "empty dns-01 token")
  else
    let! cl := deref c in
    match ec_Thumbprint (key cl) with
    | Err e => ret (Wrapf "computing JWK thumbprint: " e)
    | Ok tp =>
        let keyAuth := token +:+ "." +:+ EncodeToString tp in
        ret (Ok (keyAuth, EncodeToString (sha256 keyAuth)))
    end.

Definition Directory (c : client_ref) : M (result ACMEDirectory) :=
  let! cl := deref c in
  match directory cl with
  | Some d => ret (Ok d)
  | None =>
      match request_url_error (directoryURL cl) with
      | Some e => ret (Wrapf "building directory request: " e)
      | None =>
          let!? rs := wrap "fetching directory: "
            (http_Do (MkHTTP _ "GET" (directoryURL cl) "" NoBody)) in
          if negb (rs_StatusCode rs =? 200)%Z then
            ret (Errorf ("upstream directory HTTP " +:+ pretty (rs_StatusCode rs) +:+ ": "
                         +:+ str_take 256 (rs_Body rs)))
          else
            match decode_body decode_directory "decoding directory: " rs with
            | Err e => ret (Err e)
            | Ok d => do! update_client c (set_dir d) in ret (Ok d)
            end
      end
  end.

(** The cached nonce, if any. *)
Definition take_cached_nonce (c : client_ref) : M (option string) :=
  let! cl := deref c in
  match pop_nonce (client_nonces cl) with
  | None => ret None
  | Some (n, r) => do! update_client c (set_nonces r) in ret (Some n)
  end.

Definition getNonce (c : client_ref) : M (result string) :=
  let! cached := take_cached_nonce c in
  match cached with
  | Some n => ret (Ok n)
  | None =>
      let!? d := Directory c in
      match request_url_error (NewNonce d) with
      | Some e => ret (Err e)
      | None =>
          let!? rs := wrap "fetching nonce: "
            (http_Do (MkHTTP _ "HEAD" (NewNonce d) "" NoBody)) in
          if rs_ReplayNonce rs ==? "" then ret (Errorf "upstream returned no Replay-Nonce")
          else ret (Ok (rs_ReplayNonce rs))
      end
  end.

Definition saveNonce (c : client_ref) (n : string) : M unit :=
  update_client c (λ cl, set_nonces (push_nonce n (client_nonces cl)) cl).

(** [buildJWS]: the account URL as [kid], or the public key before registration. *)
Definition buildJWS (c : client_ref) (nonce url : string) (payload : option json)
    : M (result request_body) :=
  let! cl := deref c in
  let kh := if accountURL cl !=? "" then ByKeyID (accountURL cl) else ByJWK in
  let text := match payload with None => "" | Some j => Marshal j end in
  let! e := ask env_sign in
  match e with
  | Some e => ret (Err e)
  | None => ret (Ok (SignedBody nonce url kh (key cl) text))
  end.

Definition badNonceType : string := "urn:ietf:params:acme:error:badNonce".

(** A 400 problem of type badNonce. *)
Definition is_bad_nonce (rs : http_response) : bool :=
  (rs_StatusCode rs =? 400)%Z &&
  match Unmarshal (rs_Body rs) ≫= decode_acme_error with
  | Some ae => ae_Type ae ==? badNonceType
  | None => false
  end.

Definition maxAttempts : nat := 3.

(** The body of a 400 response has been read and is put back. *)
Definition reread (rs : http_response) : http_response :=
  if (rs_StatusCode rs =? 400)%Z
  then MkResponse (rs_StatusCode rs) (rs_Location rs) (rs_ReplayNonce rs) (rs_Link rs)
         (rs_Body rs) None (rs_URL rs)
  else rs.

(** One attempt: [None] asks for another. *)
Definition post_attempt (c : client_ref) (url : string) (payload : option json) (accept : string)
    : M (result (option http_response)) :=
  let!? nonce := getNonce c in
  let!? body := buildJWS c nonce url payload in
  match request_url_error url with
  | Some e => ret (Err e)
  | None =>
      let!? rs := http_Do (MkHTTP _ "POST" url accept body) in
      do! saveNonce c (rs_ReplayNonce rs) in
      if is_bad_nonce rs then ret (Ok None) else ret (Ok (Some (reread rs)))
  end.

Fixpoint attempts (n : nat) (c : client_ref) (url : string) (payload : option json)
    (accept : string) : M (result http_response) :=
  match n with
  | 0 => ret (Errorf ("upstream rejected nonce after 3 attempts"))
  | S n =>
      let!? rs := post_attempt c url payload accept in
      match rs with
      | Some rs => ret (Ok rs)
      | None => attempts n c url payload accept
      end
  end.

Definition signedPostWithHeaders (c : client_ref) (url : string) (payload : option json)
    (accept : string) : M (result http_response) :=
  attempts maxAttempts c url payload accept.
Definition signedPost (c : client_ref) (url : string) (payload : option json)
    : M (result http_response) :=
  signedPostWithHeaders c url payload "".

(** ** Orders (order.go) *)

(** A POST whose answer must have one of the given statuses. *)
Definition expect_status (codes : list Z) (rs : http_response) : result unit :=
  if existsb (Z.eqb (rs_StatusCode rs)) codes then Ok tt else Err (parseACMEError rs).

Definition identifier_json (i : Identifier) : json :=
  JObj [("type", JStr (id_Type i)); ("value", JStr (id_Value i))].

(** Go prints the keys of a map in sorted order; a nil slice is [null]. *)
Definition SubmitOrder (c : client_ref) (identifiers : list Identifier) (upstreamProfile : string)
    : M (result (ACMEOrder * string)) :=
  let!? dir := Directory c in
  let payload := JObj (("identifiers", JArr (identifier_json <$> identifiers))
    :: (if upstreamProfile !=? "" then [("profile", JStr upstreamProfile)] else [])) in
  let!? rs := wrap "submitting order: " (signedPost c (NewOrder dir) (Some payload)) in
  ret (let? _ := expect_status [201%Z] rs in
       let? o := decode_body decode_order "decoding order response: " rs in
       Ok (o, rs_Location rs)).

Definition UpstreamGetOrder (c : client_ref) (url : string) : M (result ACMEOrder) :=
  let!? rs := wrap "getting order: " (signedPost c url None) in
  ret (let? _ := expect_status [200%Z] rs in decode_body decode_order "decoding order: " rs).

Definition GetAuthorization (c : client_ref) (url : string) : M (result ACMEAuthorization) :=
  let!? rs := wrap "getting authorization: " (signedPost c url None) in
  ret (let? _ := expect_status [200%Z] rs in
       decode_body decode_authorization "decoding authorization: " rs).

Definition TriggerChallenge (c : client_ref) (url : string) : M (result Challenge) :=
  let!? rs := wrap "triggering challenge: " (signedPost c url (Some (JObj []))) in
  ret (let? _ := expect_status [200%Z] rs in
       decode_body (decode_challenge zero_challenge) "decoding challenge: " rs).

Definition FinalizeOrder (c : client_ref) (url csrDER : string) : M (result ACMEOrder) :=
  let payload := JObj [("csr", JStr (EncodeToString csrDER))] in
  let!? rs := wrap "finalizing order: " (signedPost c url (Some payload)) in
  ret (let? _ := expect_status [200%Z] rs in
       decode_body decode_order "decoding finalize response: " rs).

Record CertificateFetchResult := MkFetched { Chain : string; AlternateCertURLs : list string }.

Definition FetchCertificateWithAlternates `{NetURL} (c : client_ref) (certURL : string)
    : M (result CertificateFetchResult) :=
  let!? rs := wrap "fetching certificate: "
    (signedPostWithHeaders c certURL None "application/pem-certificate-chain") in
  ret (let? _ := expect_status [200%Z] rs in
       match rs_ReadErr rs with
       | Some e => Err e
       | None => Ok (MkFetched (rs_Body rs)
                       (parseAlternateCertLinks (rs_Link rs) (default certURL (rs_URL rs))))
       end).

Definition FetchCertificate `{NetURL} (c : client_ref) (certURL : string) : M (result string) :=
  let!? r := FetchCertificateWithAlternates c certURL in ret (Ok (Chain r)).

Definition RevokeCertificate (c : client_ref) (certDER : string) (reason : Z) : M (result unit) :=
  let!? dir := Directory c in
  let payload := JObj (("certificate", JStr (EncodeToString certDER))
    :: (if (0 <=? reason)%Z then [("reason", JNum (pretty reason))] else [])) in
  let!? rs := wrap "revoking certificate: " (signedPost c (RevokeCert dir) (Some payload)) in
  ret (expect_status [200; 204]%Z rs).
End client.

(** ** Registration (account.go) *)
Section register.
Context `{Env}.

(** [base64.StdEncoding.DecodeString]: the padded alphabet with + and /. *)
Definition std_to_url (c : ascii) : ascii :=
  if Ascii.eqb c "+" then "-"%char else if Ascii.eqb c "/" then "_"%char
  else if Ascii.eqb c "-" || Ascii.eqb c "_" then "!"%char else c.
Fixpoint drop_newlines (s : string) : string :=
  match s with
  | "" => ""
  | String c s =>
      if Ascii.eqb c newline || Ascii.eqb c carriage_return then drop_newlines s
      else String c (drop_newlines s)
  end.
Definition StdDecodeString (s : string) : option string :=
  let s := drop_newlines s in
  if negb (String.length s mod 4 =? 0)%nat then None
  else DecodeString (str_map std_to_url (TrimSuffix (TrimSuffix s "=") "=")).

(** [buildEAB]: the HMAC key in either base64 form. *)
Definition buildEAB (c : client_ref) (newAccountURL : string) (eab : EABConfig) : M (result json) :=
  let! cl := deref c in
  ret (let? hmacKey :=
         match DecodeString (HMACKey eab) with
         | Some k => Ok k
         | None => match StdDecodeString (HMACKey eab) with
                   | Some k => Ok k
                   | None => Errorf "decoding EAB HMAC key: illegal base64 data"
                   end
         end in
       jose_SignEAB hmacKey (KeyID eab) newAccountURL (key cl)).

(** The account URL in the body's "id" member, when it is a string. *)
Definition body_id (body : string) : string :=
  match Decode body with
  | Some (JObj m) =>
      match last (filter (λ kv, kv.1 = "id") m) with
      | Some (_, JStr u) => u
      | _ => ""
      end
  | _ => ""
  end.

Definition account_payload (contactEmail : string) (eab : option json) : json :=
  JObj (("contact", JArr [JStr ("mailto:" +:+ contactEmail)])
    :: (match eab with Some j => [("externalAccountBinding", j)] | None => [] end
        ++ [("termsOfServiceAgreed", JBool true)])).

Definition registered_url (rs : http_response) : string :=
  if rs_Location rs ==? "" then body_id (rs_Body rs) else rs_Location rs.

Definition Register (c : client_ref) (contactEmail : string) (eabCfg : option EABConfig)
    : M (result string) :=
  let!? dir := Directory c in
  let!? eab := match eabCfg with
               | None => ret (Ok None)
               | Some e =>
                   let!? j := wrap "building EAB: " (buildEAB c (NewAccount dir) e) in
                   ret (Ok (Some j))
               end in
  let!? rs := wrap "posting new-account: "
    (signedPost c (NewAccount dir) (Some (account_payload contactEmail eab))) in
  match expect_status [201; 200]%Z rs with
  | Err e => ret (Err e)
  | Ok _ =>
      let u := registered_url rs in
      if u ==? "" then ret (Errorf "upstream did not return account URL")
      else do! SetAccountURL c u in ret (Ok u)
  end.
End register.
