(* ===== verification/ClientProps.v ===== *)
(** * What the upstream client guarantees

    The frame of its operations (which parts of the process they touch), the
    bound on the requests of a signed POST, and the single use of the upstream's
    nonces across clients, retries and failures. *)
From S2P Require Export Client.

(** ** The frame *)
Section frame.
Context `{Env}.

(** What stays the same in a client once its account is known. *)
Definition identity (cl : Client) : ECKey * string * string :=
  (key cl, directoryURL cl, accountURL cl).
Definition same_identity (f : Client → Client) : Prop := ∀ cl, identity (f cl) = identity cl.

(** A relation kept by unsigned requests and a client's own bookkeeping ... *)
Class FetchRel (R : World → World → Prop) := {
  cr_pre :: PreOrder R;
  cr_ask A (f : nat → A) : keeps R (ask f);
  cr_fetch meth url accept : keeps R (http_Do (MkHTTP _ meth url accept NoBody));
  cr_update c f : same_identity f → keeps R (update_client c f)
}.
(** ... and by everything an upstream client does. *)
Class ClientRel (R : World → World → Prop) := {
  cr_fetchrel :: FetchRel R;
  cr_http rq : keeps R (http_Do rq)
}.

Lemma same_identity_dir d : same_identity (set_dir d).
Proof. done. Qed.
Lemma same_identity_nonces r : same_identity (set_nonces r).
Proof. done. Qed.
Lemma same_identity_push n : same_identity (λ cl, set_nonces (push_nonce n (client_nonces cl)) cl).
Proof. done. Qed.
End frame.
#[export] Hint Resolve same_identity_dir same_identity_nonces
  same_identity_push cr_ask cr_fetch cr_http cr_update : keeps.
#[export] Hint Extern 1 (FetchRel _) => typeclasses eauto : keeps.
#[export] Hint Extern 1 (ClientRel _) => typeclasses eauto : keeps.

Section fetch_keeps.
Context `{Env} (R : World → World → Prop) `{!FetchRel R}.

Lemma keeps_Directory c : keeps R (Directory c).
Proof. unfold Directory. keeps_auto. Qed.
Lemma keeps_getNonce c : keeps R (getNonce c).
Proof using Type*. unfold getNonce, take_cached_nonce. pose proof (keeps_Directory c). keeps_auto. Qed.
Lemma keeps_buildJWS c nonce url payload : keeps R (buildJWS c nonce url payload).
Proof using Type*. unfold buildJWS. keeps_auto. Qed.
Lemma keeps_saveNonce c n : keeps R (saveNonce c n).
Proof using Type*. unfold saveNonce. keeps_auto. Qed.
End fetch_keeps.
#[export] Hint Resolve keeps_Directory keeps_getNonce keeps_buildJWS keeps_saveNonce : keeps.

Section client_keeps.
Context `{Env} (R : World → World → Prop) `{!ClientRel R}.

Lemma keeps_attempts n c url payload accept : keeps R (attempts n c url payload accept).
Proof using Type*.
  induction n as [|n IH]; simpl; [keeps_auto|].
  unfold post_attempt. keeps_auto.
Qed.
End client_keeps.

(** A relation kept by signed POSTs as a whole: what the operations below and
    their callers need. *)
Class PostRel `{Env} (R : World → World → Prop) := {
  pr_pre :: PreOrder R;
  pr_ask A (f : nat → A) : keeps R (ask f);
  pr_Directory c : keeps R (Directory c);
  pr_attempts n c url payload accept : keeps R (attempts n c url payload accept)
}.
#[export] Instance client_post `{Env} R `{!ClientRel R} : PostRel R.
Proof.
  split; [apply _|intros; by apply cr_ask|intros; by apply keeps_Directory, _
         |intros; by apply keeps_attempts, _].
Qed.
#[export] Hint Extern 1 (PostRel _) => typeclasses eauto : keeps.
#[export] Hint Resolve pr_ask pr_Directory pr_attempts : keeps.

Section operations_keep.
Context `{Env} (R : World → World → Prop) `{!PostRel R}.
Ltac solve_op := intros; keeps_auto.

Lemma keeps_signedPost c url payload : keeps R (signedPost c url payload).
Proof using Type*. apply pr_attempts. Qed.
#[local] Hint Resolve keeps_signedPost : keeps.

Lemma keeps_SubmitOrder c ids p : keeps R (SubmitOrder c ids p).
Proof using Type*. unfold SubmitOrder. solve_op. Qed.
Lemma keeps_UpstreamGetOrder c url : keeps R (UpstreamGetOrder c url).
Proof using Type*. unfold UpstreamGetOrder. solve_op. Qed.
Lemma keeps_GetAuthorization c url : keeps R (GetAuthorization c url).
Proof using Type*. unfold GetAuthorization. solve_op. Qed.
Lemma keeps_TriggerChallenge c url : keeps R (TriggerChallenge c url).
Proof using Type*. unfold TriggerChallenge. solve_op. Qed.
Lemma keeps_FinalizeOrder c url csr : keeps R (FinalizeOrder c url csr).
Proof using Type*. unfold FinalizeOrder. solve_op. Qed.
Lemma keeps_Fetch `{NetURL} c url : keeps R (FetchCertificateWithAlternates c url).
Proof using Type*.
  unfold FetchCertificateWithAlternates, signedPostWithHeaders. solve_op.
Qed.
Lemma keeps_RevokeCertificate c der reason : keeps R (RevokeCertificate c der reason).
Proof using Type*. unfold RevokeCertificate. solve_op. Qed.
Lemma keeps_buildEAB c url e : keeps R (buildEAB c url e).
Proof using Type*. unfold buildEAB. solve_op. Qed.
Lemma keeps_Register c contact eab :
  (∀ u, keeps R (SetAccountURL c u)) → keeps R (Register c contact eab).
Proof using Type*. unfold Register. pose proof keeps_buildEAB. solve_op. Qed.
Lemma keeps_AccountURL c : keeps R (AccountURL c).
Proof using Type*. unfold AccountURL. solve_op. Qed.
Lemma keeps_KeyPEM c : keeps R (KeyPEM c).
Proof using Type*. unfold KeyPEM. solve_op. Qed.
Lemma keeps_DNS01TXT c token : keeps R (DNS01TXTFromToken c token).
Proof using Type*. unfold DNS01TXTFromToken. solve_op. Qed.
End operations_keep.
#[export] Hint Resolve keeps_signedPost keeps_SubmitOrder keeps_UpstreamGetOrder keeps_GetAuthorization
  keeps_TriggerChallenge keeps_FinalizeOrder keeps_Fetch keeps_RevokeCertificate keeps_buildEAB
  keeps_Register keeps_AccountURL keeps_KeyPEM keeps_DNS01TXT : keeps.

(** ** The frame of a client operation

    Only the oracle's counter, the trace and the directory and nonce caches of
    clients change. *)
Section client_frame.
Context `{Env}.

Definition is_http (ev : event) : bool := match ev with EvHTTP _ => true | _ => false end.

Record client_frame (w w' : World) : Prop := {
  cf_tick : w_tick w ≤ w_tick w';
  cf_store : w_store w' = w_store w;
  cf_pool : w_pool w' = w_pool w;
  cf_next : w_next w' = w_next w;
  cf_proc : w_proc w' = w_proc w;
  cf_jobs : w_jobs w' = w_jobs w;
  cf_resp : w_resp w' = w_resp w;
  cf_trace : ∃ evs, w_trace w' = w_trace w ++ evs ∧ forallb is_http evs = true;
  cf_heap c : identity <$> w_heap w' !! c = identity <$> w_heap w !! c
}.

#[global] Instance client_frame_pre : PreOrder client_frame.
Proof.
  split.
  - intros w. split; try done. exists []. by rewrite app_nil_r.
  - intros w1 w2 w3 [] []. split; try congruence; [lia|].
    destruct cf_trace0 as (e1 & He1 & Hf1), cf_trace1 as (e2 & He2 & Hf2).
    exists (e1 ++ e2). rewrite forallb_app, Hf1, Hf2. by rewrite He2, He1, app_assoc.
Qed.

#[global] Instance client_frame_fetch : FetchRel client_frame.
Proof.
  split; [apply _| | |].
  - intros A f w. split; try done; [simpl; lia|]. exists []. by rewrite app_nil_r.
  - intros meth u a w. split; try done; [simpl; lia|]. by eexists [_].
  - intros c f Hf w. split; try done; [exists []; by rewrite app_nil_r|].
    intros d. simpl. destruct (decide (c = d)) as [->|Hne].
    + rewrite lookup_alter_eq. destruct (w_heap w !! d); simpl; [|done]. f_equal. apply Hf.
    + by rewrite lookup_alter_ne.
Qed.
#[global] Instance client_frame_client : ClientRel client_frame.
Proof.
  split; [apply _|]. intros rq w. split; try done; [simpl; lia|]. by eexists [_].
Qed.
End client_frame.

(** ** A signed POST *)
Section signed_post.
Context `{Env}.

Definition is_signed (ev : event) : bool :=
  match ev with
  | EvHTTP rq => match rq_Body rq with SignedBody _ _ _ _ _ => true | NoBody => false end
  | _ => false
  end.
Definition signed_events (evs : list event) : list event := List.filter is_signed evs.

Definition client_key (w : World) (c : client_ref) : option ECKey := key <$> w_heap w !! c.

(** The request a signed POST sends: to [url], the same URL under the
    signature, the payload's text, the client's own key. *)
Definition post_event (k : option ECKey) (url accept text : string) (ev : event) : Prop :=
  ∃ nonce kh k', k = Some k' ∧
    ev = EvHTTP (MkHTTP _ "POST" url accept (SignedBody nonce url kh k' text)).

(** At most [n] signed requests, each [post_event]. *)
Definition posts (c : client_ref) (url accept text : string) (n : nat) (w w' : World) : Prop :=
  client_key w' c = client_key w c ∧
  ∃ evs, w_trace w' = w_trace w ++ evs ∧ length (signed_events evs) ≤ n ∧
         Forall (post_event (client_key w c) url accept text) (signed_events evs).

Lemma posts_trans c url accept text n m w1 w2 w3 :
  posts c url accept text n w1 w2 → posts c url accept text m w2 w3 →
  posts c url accept text (n + m) w1 w3.
Proof.
  intros [Hk1 (e1 & Ht1 & Hn1 & Hf1)] [Hk2 (e2 & Ht2 & Hn2 & Hf2)].
  split; [congruence|]. exists (e1 ++ e2). unfold signed_events in *. rewrite List.filter_app.
  rewrite Ht2, Ht1, <- app_assoc, length_app. split_and!; [done|lia|].
  apply Forall_app. rewrite <- Hk1 at 2. done.
Qed.
Lemma posts_le c url accept text n m w w' :
  n ≤ m → posts c url accept text n w w' → posts c url accept text m w w'.
Proof. intros Hle [Hk (evs & ? & ? & ?)]. split; [done|]. exists evs. split_and!; [done|lia|done]. Qed.
Lemma posts_none c url accept text w w' :
  client_key w' c = client_key w c → w_trace w' = w_trace w → posts c url accept text 0 w w'.
Proof.
  intros Hk Ht. split; [done|]. exists []. rewrite app_nil_r.
  split_and!; [done|simpl; lia|constructor].
Qed.

#[global] Instance posts_fetch c url accept text : FetchRel (posts c url accept text 0).
Proof.
  split.
  - split; [intros w; by apply posts_none|intros w1 w2 w3 H1 H2; exact (posts_trans _ _ _ _ _ _ _ _ _ H1 H2)].
  - intros A f w. by apply posts_none.
  - intros meth u acc w. split; [done|]. exists [EvHTTP (MkHTTP _ meth u acc NoBody)].
    split_and!; [done|simpl; lia|constructor].
  - intros d f Hf w. apply posts_none; [|done].
    unfold client_key. simpl. destruct (decide (c = d)) as [->|Hne].
    + rewrite lookup_alter_eq. destruct (w_heap w !! d) as [cl|]; simpl; [|done]. f_equal. by injection (Hf cl).
    + by rewrite lookup_alter_ne.
Qed.

Definition payload_text (payload : option json) : string :=
  match payload with None => "" | Some j => Marshal j end.

(** What [buildJWS] returns; it changes nothing but the oracle's counter. *)
Lemma after_buildJWS c nonce url payload w (Q : option (result request_body) → World → Prop) :
  (∀ r n,
     (∀ body, r = Some (Ok body) → ∃ kh k, client_key w c = Some k ∧
        body = SignedBody nonce url kh k (payload_text payload)) →
     Q r (set_tick n w)) →
  after (buildJWS c nonce url payload) w Q.
Proof.
  intros HQ. unfold buildJWS. apply after_bind, after_deref.
  destruct (w_heap w !! c) as [cl|] eqn:Hc.
  - apply after_bind, after_ask. destruct (env_sign _); apply after_ret, HQ; [done|].
    intros body [= <-]. unfold client_key. rewrite Hc. simpl. eauto.
  - destruct w. by apply (HQ None w_tick).
Qed.

Lemma post_attempt_posts c url payload accept w :
  after (post_attempt c url payload accept) w
    (λ _ w', posts c url accept (payload_text payload) 1 w w').
Proof.
  set (text := payload_text payload).
  assert (∀ w', posts c url accept text 0 w w' → posts c url accept text 1 w w') as Hle
    by (intros w'; apply posts_le; lia).
  unfold post_attempt. apply after_bind_ok.
  apply (after_keeps (posts c url accept text 0)); [apply keeps_getNonce, _|].
  intros [[nonce|e]|] w1 _ H1; [|by apply Hle..].
  apply after_bind_ok, after_buildJWS. intros r n Hr.
  assert (posts c url accept text 0 w (set_tick n w1)) as H2 by exact H1.
  destruct r as [[body|e]|]; [|by apply Hle..].
  destruct (Hr body eq_refl) as (kh & k & Hk & ->).
  destruct (request_url_error url); [by apply Hle|].
  apply after_bind_ok, after_http.
  match goal with |- context [set_tick (S _) ?w3] => assert (posts c url accept text 1 w w3) as H3 end.
  { apply (posts_trans c url accept text 0 1 w (set_tick n w1)); [done|].
    split; [done|]. eexists [_]. split_and!; [done|simpl; lia|]. constructor; [|constructor].
    exists nonce, kh, k. done. }
  destruct (env_http _ _) as [rs|e]; [|exact H3].
  apply after_bind. unfold saveNonce.
  apply (after_keeps (posts c url accept text 0)); [apply keeps_saveNonce, _|].
  intros r w4 _ H4.
  assert (posts c url accept text 1 w w4) as H5 by exact (posts_trans _ _ _ _ 1 0 _ _ _ H3 H4).
  destruct r as [[]|]; [|done]. by destruct (is_bad_nonce rs).
Qed.

Lemma attempts_posts n c url payload accept w :
  after (attempts n c url payload accept) w
    (λ _ w', posts c url accept (payload_text payload) n w w').
Proof.
  revert w. induction n as [|n IH]; intros w; simpl; [by apply after_ret, posts_none|].
  apply after_bind_ok. eapply after_mono; [apply post_attempt_posts|].
  intros r w1 H1. destruct r as [[[rs|]|e]|]; [| |eapply posts_le; [|exact H1]; lia..].
  - apply after_ret. eapply posts_le; [|exact H1]. lia.
  - eapply after_mono; [apply IH|]. intros r w2 H2. exact (posts_trans _ _ _ _ 1 n _ _ _ H1 H2).
Qed.

(** An answer that was handed to the caller is not a badNonce problem. *)
Lemma reread_not_bad rs : is_bad_nonce rs = false → is_bad_nonce (reread rs) = false.
Proof. unfold is_bad_nonce, reread. by destruct (rs_StatusCode rs =? 400)%Z eqn:E; simpl; rewrite ?E. Qed.

Lemma post_attempt_not_bad c url payload accept w :
  after (post_attempt c url payload accept) w
    (λ r _, ∀ rs, r = Some (Ok (Some rs)) → is_bad_nonce rs = false).
Proof.
  unfold post_attempt. apply after_bind_ok, after_run. intros [[nonce|e]|] w1 _; [|done..].
  apply after_bind_ok, after_run. intros [[body|e]|] w2 _; [|done..].
  destruct (request_url_error url); [done|]. apply after_bind_ok, after_http.
  destruct (env_http _ _) as [rs|e]; [|done]. apply after_bind, after_run.
  intros [[]|] w3 _; [|done]. destruct (is_bad_nonce rs) eqn:Hb; apply after_ret; [done|].
  intros rs' [= <-]. by apply reread_not_bad.
Qed.

Lemma attempts_not_bad n c url payload accept w :
  after (attempts n c url payload accept) w
    (λ r _, ∀ rs, r = Some (Ok rs) → is_bad_nonce rs = false).
Proof.
  revert w. induction n as [|n IH]; intros w; simpl; [done|].
  apply after_bind_ok. eapply after_mono; [apply post_attempt_not_bad|].
  intros r w1 H1. destruct r as [[[rs|]|e]|]; [|apply IH|done..].
  apply after_ret. intros rs' [= <-]. by apply H1.
Qed.

(** The answer a signed POST hands to its caller is the network's, to a request
    on the trace. *)
Definition answered (url accept text : string) (w' : World) (rs : http_response) : Prop :=
  ∃ nonce kh k i rs0,
    let rq := MkHTTP _ "POST" url accept (SignedBody nonce url kh k text) in
    EvHTTP rq ∈ w_trace w' ∧ env_http i rq = Ok rs0 ∧ rs = reread rs0.

Lemma post_attempt_answered c url payload accept w :
  after (post_attempt c url payload accept) w
    (λ r w', ∀ rs, r = Some (Ok (Some rs)) → answered url accept (payload_text payload) w' rs).
Proof.
  unfold post_attempt. apply after_bind_ok, after_run. intros [[nonce|e]|] w1 _; [|done..].
  apply after_bind_ok, after_buildJWS. intros r n Hr. destruct r as [[body|e]|]; [|done..].
  destruct (Hr body eq_refl) as (kh & k & _ & ->).
  destruct (request_url_error url); [done|]. apply after_bind_ok, after_http.
  destruct (env_http _ _) as [rs|e] eqn:Hrs; [|done]. apply after_bind.
  unfold saveNonce, update_client. apply after_modify.
  destruct (is_bad_nonce rs); apply after_ret; [done|]. intros rs' [= <-].
  exists nonce, kh, k, (w_tick (set_tick n w1)), rs. split_and!; [|done..].
  simpl. apply elem_of_app. right. by apply list_elem_of_singleton.
Qed.
Lemma attempts_answered n c url payload accept w :
  after (attempts n c url payload accept) w
    (λ r w', ∀ rs, r = Some (Ok rs) → answered url accept (payload_text payload) w' rs).
Proof.
  revert w. induction n as [|n IH]; intros w; simpl; [done|].
  apply after_bind_ok. eapply after_mono; [apply post_attempt_answered|].
  intros r w1 H1. destruct r as [[[rs|]|e]|]; [|apply IH|done..].
  apply after_ret. intros rs' [= <-]. by apply H1.
Qed.
Lemma answered_ok url accept text w' rs :
  answered url accept text w' rs → rs_StatusCode rs = 200%Z →
  ∃ nonce kh k i, let rq := MkHTTP _ "POST" url accept (SignedBody nonce url kh k text) in
    EvHTTP rq ∈ w_trace w' ∧ env_http i rq = Ok rs.
Proof.
  intros (nonce & kh & k & i & rs0 & Hin & Hrs & ->) Hs. exists nonce, kh, k, i. split; [done|].
  unfold reread in *. destruct (Z.eqb_spec (rs_StatusCode rs0) 400); [simpl in Hs; lia|exact Hrs].
Qed.

(** C36: a signed POST sends at most three signed requests, all of them to the
    given URL with that URL and the payload under the signature of the client's
    own key; whatever it returns to the caller is not a badNonce rejection. *)
Theorem signed_post_bounded c url payload accept w :
  let '(r, w') := signedPostWithHeaders c url payload accept w in
  client_key w' c = client_key w c ∧
  (∃ evs, w_trace w' = w_trace w ++ evs ∧ length (signed_events evs) ≤ 3 ∧
     Forall (post_event (client_key w c) url accept (payload_text payload)) (signed_events evs)) ∧
  (∀ rs, r = Some (Ok rs) → is_bad_nonce rs = false).
Proof.
  pose proof (attempts_posts maxAttempts c url payload accept w) as [Hk Hp].
  pose proof (attempts_not_bad maxAttempts c url payload accept w) as Hb.
  unfold signedPostWithHeaders, after in *.
  destruct (attempts maxAttempts c url payload accept w) as [r w']. done.
Qed.
End signed_post.

(** ** Code that does not panic *)

(** Code that follows no pointer. *)
Section answers.
Context `{Env}.
Definition answers {A} (m : M A) : Prop := ∀ w, is_Some (m w).1.

Lemma answers_ret {A} (a : A) : answers (ret a).
Proof. by intros w; eexists. Qed.
Lemma answers_ask {A} (f : nat → A) : answers (ask f).
Proof. by intros w; eexists. Qed.
Lemma answers_gets {A} (f : World → A) : answers (gets f).
Proof. by intros w; eexists. Qed.
Lemma answers_modify f : answers (modify f).
Proof. by intros w; eexists. Qed.
Lemma answers_new cl : answers (new_client cl).
Proof. by intros w; eexists. Qed.
Lemma answers_bind {A B} (m : M A) (k : A → M B) : answers m → (∀ a, answers (k a)) → answers (bind m k).
Proof.
  intros Hm Hk w. unfold bind. destruct (Hm w) as [a Ha]. destruct (m w) as [r w'].
  simpl in Ha. subst. apply Hk.
Qed.
Lemma answers_bind_ok {A B} (m : M (result A)) (k : A → M (result B)) :
  answers m → (∀ a, answers (k a)) → answers (bind_ok m k).
Proof. intros Hm Hk. apply answers_bind; [done|]. intros []; [done|apply answers_ret]. Qed.
Lemma answers_wrap {A} pre (m : M (result A)) : answers m → answers (wrap pre m).
Proof. intros Hm. apply answers_bind; [done|]. intros r. apply answers_ret. Qed.
Lemma answers_db {A} (f : Store → result A * Store) : answers (db f).
Proof.
  apply answers_bind; [apply answers_ask|]. intros [e|]; [apply answers_ret|].
  intros w. destruct (f (w_store w)). by eexists.
Qed.
End answers.
Create HintDb answers discriminated.
#[export] Hint Constants Opaque : answers.
#[export] Hint Resolve answers_ret answers_ask answers_gets answers_modify answers_new answers_db : answers.
Ltac answers_step :=
  match goal with
  | |- answers (bind _ _) => apply answers_bind; [|intros]
  | |- answers (bind_ok _ _) => apply answers_bind_ok; [|intros]
  | |- answers (wrap _ _) => apply answers_wrap
  | |- answers (db_read _) => apply answers_db
  | |- answers (emit _) => apply answers_modify
  | |- answers (let _ := ?e in _) => cbv zeta
  | |- answers (let '(_, _) := ?e in _) => destruct e
  | |- answers (match ?e with _ => _ end) => destruct e
  end.
Ltac answers_auto := repeat (answers_step || (progress eauto 2 with answers nocore)).

(** Run with a client that exists, [m] ends, and the client still exists. *)
Section no_panic.
Context `{Env} (c : client_ref).

Definition has_client (w : World) : Prop := is_Some (w_heap w !! c).
Definition no_panic {A} (m : M A) : Prop :=
  ∀ w, has_client w → after m w (λ r w', is_Some r ∧ has_client w').

Lemma total_ret {A} (a : A) : no_panic (ret a).
Proof. intros w Hc. apply after_ret. eauto. Qed.
Lemma total_ask {A} (f : nat → A) : no_panic (ask f).
Proof. intros w Hc. apply after_ask. eauto. Qed.
Lemma total_gets {A} (f : World → A) : no_panic (gets f).
Proof. intros w Hc. apply after_gets. eauto. Qed.
Lemma total_deref : no_panic (deref c).
Proof. intros w Hc. by apply after_deref. Qed.
Lemma total_emit ev : no_panic (emit ev).
Proof. intros w Hc. apply after_modify. eauto. Qed.
Lemma total_http rq : no_panic (http_Do rq).
Proof. intros w Hc. apply after_http. eauto. Qed.
Lemma total_update_client f : no_panic (update_client c f).
Proof.
  intros w Hc. apply after_modify. split; [done|]. unfold has_client. simpl.
  by rewrite lookup_alter_eq, fmap_is_Some.
Qed.
Lemma total_bind {A B} (m : M A) (k : A → M B) : no_panic m → (∀ a, no_panic (k a)) → no_panic (bind m k).
Proof.
  intros Hm Hk w Hc. apply after_bind. eapply after_mono; [by apply Hm|].
  intros r w' [[a ->] Hc']. by apply Hk.
Qed.
Lemma total_bind_ok {A B} (m : M (result A)) (k : A → M (result B)) :
  no_panic m → (∀ a, no_panic (k a)) → no_panic (bind_ok m k).
Proof. intros Hm Hk. apply total_bind; [done|]. intros []; [done|apply total_ret]. Qed.
Lemma total_wrap {A} pre (m : M (result A)) : no_panic m → no_panic (wrap pre m).
Proof. intros Hm. apply total_bind; [done|]. intros r. apply total_ret. Qed.
Lemma total_db {A} (f : Store → result A * Store) : no_panic (db f).
Proof. intros w Hc. apply after_db; intros; split; eauto. Qed.
Lemma total_db_read {A} (f : Store → result A) : no_panic (db_read f).
Proof. apply total_db. Qed.
Lemma total_update_proc f : no_panic (update_proc f).
Proof. intros w Hc. apply after_modify. eauto. Qed.
Lemma total_update_jobs f : no_panic (update_jobs f).
Proof. intros w Hc. apply after_modify. eauto. Qed.

(** A loop with a bound on its rounds: [m] returns within it. *)
Definition settles {A} (m : M (option A)) : Prop :=
  ∀ w, has_client w → after m w (λ r w', (∃ a, r = Some (Some a)) ∧ has_client w').

Lemma settles_ret {A} (a : A) : settles (ret (Some a)).
Proof. intros w Hc. apply after_ret. eauto. Qed.
Lemma settles_bind {A B} (m : M A) (k : A → M (option B)) :
  no_panic m → (∀ a, settles (k a)) → settles (bind m k).
Proof.
  intros Hm Hk w Hc. apply after_bind. eapply after_mono; [by apply Hm|].
  intros r w' [[a ->] Hc']. by apply Hk.
Qed.
Lemma settles_poll {A B} (m : M (option A)) (k : option A → M (option B)) :
  settles m → (∀ a, settles (k (Some a))) → settles (bind m k).
Proof.
  intros Hm Hk w Hc. apply after_bind. eapply after_mono; [by apply Hm|].
  intros r w' [[res ->] Hc']. by apply Hk.
Qed.
End no_panic.

Create HintDb no_panic discriminated.
#[export] Hint Constants Opaque : no_panic.
#[export] Hint Resolve total_ret total_ask total_gets total_deref total_emit total_http
  total_update_client total_db total_db_read total_update_proc total_update_jobs : no_panic.
Ltac total_step :=
  match goal with
  | |- no_panic _ (bind _ _) => apply total_bind; [|intros]
  | |- no_panic _ (bind_ok _ _) => apply total_bind_ok; [|intros]
  | |- no_panic _ (wrap _ _) => apply total_wrap
  | |- no_panic _ (let _ := ?e in _) => cbv zeta
  | |- no_panic _ (let '(_, _) := ?e in _) => destruct e
  | |- no_panic _ (match ?e with _ => _ end) => destruct e
  end.
Ltac total_auto := repeat (total_step || (progress eauto 2 with no_panic nocore)).

Section total_client.
Context `{Env} (c : client_ref).

Lemma total_Directory : no_panic c (Directory c).
Proof. unfold Directory. total_auto. Qed.
#[local] Hint Resolve total_Directory : no_panic.
Lemma total_attempts n url payload accept : no_panic c (attempts n c url payload accept).
Proof.
  induction n as [|n IH]; simpl; [total_auto|].
  unfold post_attempt, getNonce, take_cached_nonce, buildJWS, saveNonce. total_auto.
Qed.
Lemma total_signedPost url payload : no_panic c (signedPost c url payload).
Proof. apply total_attempts. Qed.
Lemma total_signedPostWithHeaders url payload accept :
  no_panic c (signedPostWithHeaders c url payload accept).
Proof. apply total_attempts. Qed.
#[local] Hint Resolve total_signedPost total_signedPostWithHeaders : no_panic.
Lemma total_SubmitOrder ids p : no_panic c (SubmitOrder c ids p).
Proof. unfold SubmitOrder. total_auto. Qed.
Lemma total_UpstreamGetOrder url : no_panic c (UpstreamGetOrder c url).
Proof. unfold UpstreamGetOrder. total_auto. Qed.
Lemma total_GetAuthorization url : no_panic c (GetAuthorization c url).
Proof. unfold GetAuthorization. total_auto. Qed.
Lemma total_TriggerChallenge url : no_panic c (TriggerChallenge c url).
Proof. unfold TriggerChallenge. total_auto. Qed.
Lemma total_FinalizeOrder url csr : no_panic c (FinalizeOrder c url csr).
Proof. unfold FinalizeOrder. total_auto. Qed.
Lemma total_FetchCertificate `{NetURL} url : no_panic c (FetchCertificate c url).
Proof. unfold FetchCertificate, FetchCertificateWithAlternates. total_auto. Qed.
Lemma total_KeyAuthorization token : no_panic c (KeyAuthorization c token).
Proof. unfold KeyAuthorization, PublicKeyThumbprint. total_auto. Qed.
Lemma total_SetAccountURL u : no_panic c (SetAccountURL c u).
Proof. apply total_update_client. Qed.
#[local] Hint Resolve total_SetAccountURL : no_panic.
Lemma total_Register contact eab : no_panic c (Register c contact eab).
Proof. unfold Register, buildEAB. total_auto. Qed.
End total_client.
#[export] Hint Resolve total_SubmitOrder total_UpstreamGetOrder total_GetAuthorization
  total_TriggerChallenge total_FinalizeOrder total_FetchCertificate total_KeyAuthorization
  total_SetAccountURL total_Register : no_panic.

(** ** One attempt of a signed request *)
Section one_attempt.
Context `{Env} (c : client_ref) (url : string) (payload : option json) (accept : string).

(** The request [buildJWS] and [signedPost] make with a nonce. *)
Definition signed_request (cl : Client) (nonce : string) : http_request :=
  MkHTTP _ "POST" url accept
    (SignedBody nonce url (if accountURL cl !=? "" then ByKeyID (accountURL cl) else ByJWK)
       (key cl) (payload_text payload)).
Definition push_fresh (n : string) (q : list string) : list string := q ++ (if n !=? "" then [n] else []).
(** After [w]: the client with nonces [q], and the requests [evs] more. *)
Definition spent (cl : Client) (q : list string) (evs : list event) (w w' : World) : Prop :=
  w_trace w' = w_trace w ++ evs ∧
  ∃ r', w_heap w' = <[c := set_nonces r' cl]> (w_heap w) ∧ ring_ok r' ∧ ring_queue r' = q.

(** C11: an attempt of a signed request spends the oldest cached nonce and refills the
    cache.  With a nonce [n] at the head of the client's ring and [q] behind it, no other
    request is made for one: when signing or the URL fails, nothing is sent and [n] is lost;
    otherwise exactly one request goes out, the POST to the URL, signed by the client's key
    over [n], the payload and the account (or the key, before registration).  When the
    transport fails, its error is returned and [q] is left; when an answer comes, its nonce, unless
    empty, is put behind [q], whatever its status, and the attempt asks for another one exactly when the answer is
    a badNonce problem. *)
Theorem post_spends_and_refills cl n q w :
  w_heap w !! c = Some cl → ring_ok (client_nonces cl) → ring_queue (client_nonces cl) = n :: q →
  let rq := signed_request cl n in
  let '(r, w') := post_attempt c url payload accept w in
  match env_sign (w_tick w), request_url_error url with
  | Some e, _ | None, Some e => r = Some (Err e) ∧ spent cl q [] w w'
  | None, None =>
      match env_http (S (w_tick w)) rq with
      | Err e => r = Some (Err e) ∧ spent cl q [EvHTTP rq] w w'
      | Ok rs => r = Some (Ok (if is_bad_nonce rs then None else Some (reread rs))) ∧
                 spent cl (push_fresh (rs_ReplayNonce rs) q) [EvHTTP rq] w w'
      end
  end.
Proof.
  intros Hc Hok Hq rq. pose proof (pop_nonce_queue _ Hok) as Hpop.
  destruct (pop_nonce (client_nonces cl)) as [[n' r']|] eqn:Hp; [|congruence].
  destruct Hpop as [Hok' Hq']. assert (n' = n ∧ ring_queue r' = q) as [-> Hr'] by (split; congruence).
  assert (length q < noncePoolSize) as Hroom.
  { destruct Hok as [_ _ Hcap _]. rewrite <- length_ring_queue, Hq in Hcap. simpl in Hcap. lia. }
  set (w1 := set_heap (<[c := set_nonces r' cl]> (w_heap w)) w).
  assert (getNonce c w = (Some (Ok n), w1)) as Hget.
  { unfold getNonce, take_cached_nonce. rewrite !bind_run. unfold deref. rewrite Hc. cbn beta iota.
    rewrite Hp, bind_run. unfold update_client, modify, ret. by rewrite alter_alt, Hc. }
  unfold post_attempt. rewrite bind_ok_run, Hget, bind_ok_run. unfold buildJWS. rewrite bind_run.
  unfold deref. cbn [w_heap w1 set_heap]. rewrite lookup_insert_eq, bind_run. cbn [ask accountURL key set_nonces].
  change (w_tick w1) with (w_tick w). unfold ret.
  destruct (env_sign (w_tick w)) as [e|].
  { split; [done|]. split; [by rewrite app_nil_r|]. exists r'. done. }
  destruct (request_url_error url) as [e|].
  { split; [done|]. split; [by rewrite app_nil_r|]. exists r'. done. }
  unfold http_Do, emit, modify, ask. rewrite bind_ok_run, bind_run. cbn beta iota. cbn [w_tick set_trace set_tick].
  change (MkHTTP _ _ _ _ _) with rq. change (w_tick w1) with (w_tick w).
  destruct (env_http (S (w_tick w)) rq) as [rs|e].
  2:{ split; [done|]. split; [done|]. exists r'. done. }
  rewrite bind_run. unfold saveNonce, update_client, modify.
  pose proof (push_nonce_queue (rs_ReplayNonce rs) r' Hok') as [Hok2 Hq2].
  rewrite length_ring_queue, <- (length_ring_queue r'), Hr', (proj2 (Nat.ltb_lt _ _) Hroom), andb_true_r in Hq2.
  destruct (is_bad_nonce rs); (split; [done|]; split; [done|]);
    exists (push_nonce (rs_ReplayNonce rs) r'); (split; [|done]);
    cbn [w_heap set_heap set_tick set_trace w1]; by rewrite alter_insert_eq.
Qed.
End one_attempt.
