(* ===== verification/NonceUse.v ===== *)
(** * Upstream nonces are sent once

    Where a nonce of an upstream can be: in the hands of a goroutine, on its way to a
    request or from an answer, in a client's ring, or in a request already sent.  As long as the upstreams do not repeat
    nonces, no nonce is at two places, so none is sent twice, by whatever client, retry or
    failing call. *)
From S2P Require Export ClientProps.

(** RFC 8555 section 6.5: the nonces servers hand out are unique. *)
Class FreshNonces `{Env} := {
  nonces_distinct i j rq rq' r r' :
    env_http i rq = Ok r → env_http j rq' = Ok r' →
    rs_ReplayNonce r = rs_ReplayNonce r' → rs_ReplayNonce r ≠ "" → i = j
}.

(** What each goroutine holds; the one that runs alone is number 0. *)
Abbreviation holding := (gmap nat string).

Section nonce_use.
Context `{Env}.

Definition event_nonce (ev : event) : option string :=
  match ev with
  | EvHTTP rq => match rq_Body rq with SignedBody n _ _ _ _ => Some n | NoBody => None end
  | _ => None
  end.
(** The nonces of the signed requests, in the order they were sent. *)
Definition sent_nonces (w : World) : list string := omap event_nonce (w_trace w).

Inductive place := InHand (i : nat) | Sent (k : nat) | Cached (c : client_ref) (k : nat).

Definition in_hand (n : string) : holding := {[0 := n]}.

Definition at_place (hand : holding) (w : World) (p : place) (n : string) : Prop :=
  match p with
  | InHand i => hand !! i = Some n
  | Sent k => sent_nonces w !! k = Some n
  | Cached c k => ∃ cl, w_heap w !! c = Some cl ∧ ring_queue (client_nonces cl) !! k = Some n
  end.

(** [n] was in an answer read before the oracle's counter reached [t]. *)
Definition received (t : nat) (n : string) : Prop :=
  n ≠ "" ∧ ∃ i rq r, i < t ∧ env_http i rq = Ok r ∧ rs_ReplayNonce r = n.

Record nonce_inv (hand : holding) (w : World) : Prop := {
  ni_next : ∀ c, is_Some (w_heap w !! c) → c < w_next w;
  ni_rings : ∀ c cl, w_heap w !! c = Some cl → ring_ok (client_nonces cl);
  ni_received : ∀ p n, at_place hand w p n → received (w_tick w) n;
  ni_unique : ∀ p q n, at_place hand w p n → at_place hand w q n → p = q
}.

(** Not at any place. *)
Definition unplaced (hand : holding) (w : World) (n : string) : Prop :=
  ∀ p, ¬ at_place hand w p n.

Lemma received_le t t' n : t ≤ t' → received t n → received t' n.
Proof. intros Hle [Hn (i & rq & r & Hi & ?)]. split; [done|]. exists i, rq, r. split; [lia|done]. Qed.

(** A process that has just started, and what the invariant says of the requests sent. *)
Lemma nonce_inv_start w : w_heap w = ∅ → w_trace w = [] → nonce_inv ∅ w.
Proof.
  intros Hh Ht. assert (∀ p n, ¬ at_place ∅ w p n) as Hno.
  { intros [i|k|c k] n; simpl; [done|by unfold sent_nonces; rewrite Ht|].
    intros (cl & Hc & _). by rewrite Hh in Hc. }
  split; [intros c; rewrite Hh; by intros []|intros c cl; by rewrite Hh| |]; by intros p ? ? ?%Hno || by intros p n ?%Hno.
Qed.
Lemma nonce_inv_sent hand w : nonce_inv hand w → NoDup (sent_nonces w).
Proof.
  intros Hi. apply NoDup_alt. intros i j n Hn Hm.
  pose proof (ni_unique _ _ Hi (Sent i) (Sent j) n Hn Hm). congruence.
Qed.

(** Changes that only move nonces out of places keep the invariant. *)
Lemma nonce_inv_sub hand w hand' w' :
  nonce_inv hand w → w_tick w ≤ w_tick w' →
  (∀ c, is_Some (w_heap w' !! c) → c < w_next w') →
  (∀ c cl, w_heap w' !! c = Some cl → ring_ok (client_nonces cl)) →
  (∀ p n, at_place hand' w' p n → at_place hand w p n) →
  nonce_inv hand' w'.
Proof.
  intros [Hx Hr Hk Hu] Ht Hx' Hr' Hsub. split; [done|done| |].
  - intros p n Hp. eapply received_le; eauto.
  - eauto.
Qed.

(** A goroutine drops what it holds. *)
Lemma nonce_inv_drop i hand w : nonce_inv hand w → nonce_inv (delete i hand) w.
Proof.
  intros Hi. eapply nonce_inv_sub; eauto using ni_rings, ni_next.
  intros [j|k|c k] n; simpl; [|done..]. by intros [_ ?]%lookup_delete_Some.
Qed.
Lemma drop_hand n w : nonce_inv (in_hand n) w → nonce_inv ∅ w.
Proof. intros Hi%(nonce_inv_drop 0). unfold in_hand in Hi. by rewrite delete_singleton_eq in Hi. Qed.
(** What it holds is nowhere else. *)
Lemma nonce_inv_give i n hand w :
  hand !! i = Some n → nonce_inv hand w →
  nonce_inv (delete i hand) w ∧ unplaced (delete i hand) w n ∧ received (w_tick w) n.
Proof.
  intros Hn Hi. split; [by apply nonce_inv_drop|]. split; [|by apply (ni_received _ _ Hi (InHand i))].
  intros p Hp. assert (at_place hand w p n ∧ p ≠ InHand i) as [Hp' Hne].
  { destruct p as [j|k|c k]; simpl in *; [|done..].
    apply lookup_delete_Some in Hp as [Hne ?]. split; [done|congruence]. }
  by apply Hne, (ni_unique _ _ Hi p (InHand i) n).
Qed.

Lemma nonce_inv_tick hand w n : w_tick w ≤ n → nonce_inv hand w → nonce_inv hand (set_tick n w).
Proof. intros Hle Hi. apply (nonce_inv_sub hand w); [done|done|apply Hi|apply Hi|by intros []]. Qed.

(** The invariant for a world that differs elsewhere. *)
Lemma nonce_inv_same hand w w' :
  w_tick w ≤ w_tick w' → w_heap w' = w_heap w → w_next w' = w_next w → w_trace w' = w_trace w →
  nonce_inv hand w → nonce_inv hand w'.
Proof.
  intros Ht Hh Hx He Hi. eapply nonce_inv_sub; [done|done|rewrite Hh, Hx; apply Hi|rewrite Hh; apply Hi|].
  intros p n. unfold at_place, sent_nonces. by rewrite Hh, He.
Qed.

(** A client whose cached nonces stay as they are. *)
Lemma nonce_inv_update hand w c f :
  (∀ cl, client_nonces (f cl) = client_nonces cl) →
  nonce_inv hand w → nonce_inv hand (set_heap (alter f c (w_heap w)) w).
Proof.
  intros Hf Hi. eapply nonce_inv_sub; [done|done| | |].
  - intros d. simpl. rewrite lookup_alter_is_Some. apply Hi.
  - intros d cl. simpl. rewrite lookup_alter_Some. intros [(-> & cl0 & Hc & ->)|[_ Hc]];
      rewrite ?Hf; by eapply ni_rings.
  - intros [|k|d k] n; simpl; [done..|]. intros (cl & Hc & Hq).
    apply lookup_alter_Some in Hc as [(-> & cl0 & Hc & ->)|[_ Hc]]; [rewrite Hf in Hq|]; eauto.
Qed.

Lemma nonce_inv_new hand w cl :
  ring_ok (client_nonces cl) → ring_queue (client_nonces cl) = [] →
  nonce_inv hand w →
  nonce_inv hand (set_next (S (w_next w)) (set_heap (<[w_next w := cl]> (w_heap w)) w)).
Proof.
  intros Hok Hq Hi. eapply nonce_inv_sub; [done|done| | |].
  - intros d. simpl. destruct (decide (w_next w = d)) as [<-|Hne]; [lia|].
    rewrite lookup_insert_ne by done. intros Hd%(ni_next _ _ Hi). lia.
  - intros d cl'. simpl. rewrite lookup_insert_Some. intros [[_ <-]|[_ ?]]; [done|]. by eapply ni_rings.
  - intros [|k|d k] n; simpl; [done..|]. intros (cl' & Hc & Hk).
    apply lookup_insert_Some in Hc as [[_ <-]|[_ ?]]; [|eauto]. by rewrite Hq in Hk.
Qed.

(** Taking the oldest nonce of a ring. *)
Lemma nonce_inv_pop i hand w c cl n r :
  hand !! i = None → nonce_inv hand w → w_heap w !! c = Some cl → pop_nonce (client_nonces cl) = Some (n, r) →
  nonce_inv (<[i := n]> hand) (set_heap (alter (set_nonces r) c (w_heap w)) w).
Proof.
  intros Hfree Hi Hc Hp. pose proof (pop_nonce_queue _ (ni_rings _ _ Hi c cl Hc)) as Hq.
  rewrite Hp in Hq. destruct Hq as [Hok Hq].
  (* where a place of the new world was before *)
  set (old p := match p with
                | InHand j => if decide (j = i) then Cached c 0 else p
                | Cached d k => if decide (d = c) then Cached c (S k) else p
                | Sent _ => p
                end).
  assert (∀ p m, at_place (<[i := n]> hand) (set_heap (alter (set_nonces r) c (w_heap w)) w) p m →
                 at_place hand w (old p) m) as Hold.
  { intros [j|k|d k] m; simpl.
    - intros [[-> ->]|[Hne Hj]]%lookup_insert_Some.
      + rewrite decide_True by done. exists cl. by rewrite Hq.
      + by rewrite decide_False by done.
    - done.
    - intros (cl' & Hd & Hk). case_decide as Hdc.
      + subst d. rewrite lookup_alter_eq, Hc in Hd. simpl in Hd. injection Hd as <-.
        exists cl. split; [done|]. by rewrite Hq.
      + rewrite lookup_alter_ne in Hd by done. by exists cl'. }
  destruct Hi as [Hx Hr Hk Hu]. split.
  - intros d. simpl. rewrite lookup_alter_is_Some. apply Hx.
  - intros d cl'. simpl. rewrite lookup_alter_Some. intros [(-> & cl0 & _ & ->)|[_ ?]]; [done|eauto].
  - intros p m Hm. by apply (Hk (old p)), Hold.
  - intros p q m Hpm Hqm. apply Hold in Hpm, Hqm. pose proof (Hu _ _ _ Hpm Hqm) as Heq.
    destruct p as [j|k|d k], q as [j'|k'|d' k']; simpl in Heq; repeat case_decide; by simplify_eq.
Qed.

(** Saving a nonce that is nowhere. *)
Lemma nonce_inv_push hand w c n :
  nonce_inv hand w → (n ≠ "" → unplaced hand w n ∧ received (w_tick w) n) →
  nonce_inv hand (set_heap (alter (λ cl, set_nonces (push_nonce n (client_nonces cl)) cl) c (w_heap w)) w).
Proof.
  intros Hi Hn. set (w' := set_heap _ w).
  assert (∀ p m, at_place hand w' p m → at_place hand w p m ∨
    (m = n ∧ n ≠ "" ∧ ∃ cl, w_heap w !! c = Some cl ∧
     p = Cached c (length (ring_queue (client_nonces cl))))) as Hold.
  { intros [|k|d k] m; simpl; [by left..|]. intros (cl' & Hd & Hk).
    apply lookup_alter_Some in Hd as [(<- & cl & Hc & ->)|[_ Hd]]; [|eauto].
    pose proof (push_nonce_queue n _ (ni_rings _ _ Hi c cl Hc)) as [_ Hq]. simpl in Hk.
    rewrite Hq, lookup_app_Some in Hk. destruct Hk as [Hk|[Hge Hk]]; [eauto|]. right.
    destruct ((n !=? "") && _) eqn:Hb; [|done]. apply andb_true_iff in Hb as [Hne%neqb_true _].
    apply list_lookup_singleton_Some in Hk as [Hz <-]. split_and!; [done..|].
    exists cl. split; [done|]. f_equal. lia. }
  pose proof Hi as [Hx Hr Hk Hu]. split.
  - intros d. simpl. rewrite lookup_alter_is_Some. apply Hx.
  - intros d cl'. simpl. rewrite lookup_alter_Some. intros [(<- & cl & Hc & ->)|[_ ?]]; [|eauto].
    by apply push_nonce_queue, (Hr c).
  - intros p m [Hm|(-> & Hne & _)]%Hold; [by apply (Hk p)|by apply Hn].
  - intros p q m Hp Hq. apply Hold in Hp, Hq.
    destruct Hp as [Hp|(-> & Hne & cl & Hc & ->)], Hq as [Hq|(Hm & Hne' & cl' & Hc' & ->)].
    + by eapply Hu.
    + subst m. by destruct (Hn Hne') as [Hun _]; apply Hun in Hp.
    + by destruct (Hn Hne) as [Hun _]; apply Hun in Hq.
    + by simplify_eq.
Qed.

Definition do_http_world (rq : http_request) (w : World) : World :=
  set_tick (S (w_tick w)) (set_trace (w_trace w ++ [EvHTTP rq]) w).

Lemma sent_app w rq :
  sent_nonces (do_http_world rq w) = sent_nonces w ++ option_list (event_nonce (EvHTTP rq)).
Proof.
  unfold sent_nonces, do_http_world. cbn [w_trace set_tick set_trace]. rewrite omap_app. cbn [omap list_omap event_nonce].
  destruct rq as [? ? ? []]; done.
Qed.

(** Sending a request: an unsigned one moves no nonce, a signed one what its sender holds. *)
Lemma nonce_inv_http i hand w rq :
  nonce_inv hand w → event_nonce (EvHTTP rq) = hand !! i →
  nonce_inv (delete i hand) (do_http_world rq w).
Proof.
  intros Hi Hrq.
  set (old p := match p with
                | Sent k => if decide (k = length (sent_nonces w)) then InHand i else p
                | _ => p
                end).
  assert (∀ p m, at_place (delete i hand) (do_http_world rq w) p m →
    at_place hand w (old p) m ∧ p ≠ InHand i) as Hold.
  { intros [j|k|d k] m; simpl; [intros [? ?]%lookup_delete_Some; split; congruence| |done].
    rewrite sent_app, lookup_app_Some, Hrq. intros [Hk|[Hge Hk]]; (split; [|done]).
    - case_decide as Hkl; [|done]. apply lookup_lt_Some in Hk. lia.
    - destruct (hand !! i) as [h|] eqn:Hh; [|done]. simpl in Hk.
      apply list_lookup_singleton_Some in Hk as [Hz <-]. by rewrite decide_True by lia. }
  destruct Hi as [Hx Hr Hk Hu]. split; [done|done| |].
  - intros p m [Hm _]%Hold. simpl. eapply received_le; [|by apply (Hk (old p))]. lia.
  - intros p q m [Hp Hpi]%Hold [Hq Hqi]%Hold. pose proof (Hu _ _ _ Hp Hq) as Heq.
    destruct p as [j|k|d k], q as [j'|k'|d' k']; simpl in Heq; repeat case_decide; by simplify_eq.
Qed.

Context `{!FreshNonces}.

(** The nonce of the answer is new. *)
Lemma http_nonce_unplaced i hand w rq r :
  nonce_inv hand w → event_nonce (EvHTTP rq) = hand !! i → env_http (w_tick w) rq = Ok r →
  rs_ReplayNonce r ≠ "" →
  unplaced (delete i hand) (do_http_world rq w) (rs_ReplayNonce r) ∧
  received (w_tick (do_http_world rq w)) (rs_ReplayNonce r).
Proof.
  intros Hi Hrq Hr Hne. split.
  - intros p Hp. assert (∃ q, at_place hand w q (rs_ReplayNonce r)) as [q Hq].
    { destruct p as [j|k|d k]; [|simpl in Hp|by exists (Cached d k)].
      { exists (InHand j). by apply lookup_delete_Some in Hp as [_ Hp]. }
      rewrite sent_app, lookup_app_Some, Hrq in Hp. destruct Hp as [Hp|[_ Hp]]; [by exists (Sent k)|].
      destruct (hand !! i) as [h|] eqn:Hh; [|done]. exists (InHand i). simpl in *.
      apply list_lookup_singleton_Some in Hp as [_ <-]. done. }
    destruct (ni_received _ _ Hi q _ Hq) as [_ (t & rq' & r' & Hlt & Hr' & Heq)].
    assert (t = w_tick w); [|lia]. apply (nonces_distinct t (w_tick w) rq' rq r' r); congruence.
  - split; [done|]. exists (w_tick w), rq, r. split; [simpl; lia|done].
Qed.

(** A goroutine gets hold of it. *)
Lemma nonce_inv_hand i hand w n :
  nonce_inv hand w → hand !! i = None → unplaced hand w n → received (w_tick w) n →
  nonce_inv (<[i := n]> hand) w.
Proof.
  intros Hi Hfree Hun Hrec.
  assert (∀ p m, at_place (<[i := n]> hand) w p m → at_place hand w p m ∨ p = InHand i ∧ m = n) as Hold.
  { intros [j|k|c k] m; simpl; [|by left..]. intros [[-> ->]|[_ ?]]%lookup_insert_Some; auto. }
  destruct Hi as [Hx Hr Hk Hu]. split; [done|done| |].
  - intros p m [Hm|[_ ->]]%Hold; eauto.
  - intros p q m Hp Hq. apply Hold in Hp, Hq.
    destruct Hp as [Hp|[-> ->]], Hq as [Hq|[-> Hm]]; [by eapply Hu| | |done].
    + subst m. by apply Hun in Hp.
    + by apply Hun in Hq.
Qed.

(** ** The client's operations *)

(** Steps that neither take, send nor save a nonce. *)
Definition keeps_nonces (w w' : World) : Prop := ∀ hand, nonce_inv hand w → nonce_inv hand w'.
Definition keeps_all (w w' : World) : Prop := nonce_inv ∅ w → nonce_inv ∅ w'.

#[global] Instance keeps_nonces_pre : PreOrder keeps_nonces.
Proof. split; [by intros w hand|]. intros w1 w2 w3 Hk1 Hk2 hand Hi. by apply Hk2, Hk1. Qed.
#[global] Instance keeps_all_pre : PreOrder keeps_all.
Proof. split; [by intros w Hi|]. intros w1 w2 w3 Hk1 Hk2 Hi. by apply Hk2, Hk1. Qed.

Lemma ask_keeps_nonces {A} (f : nat → A) : keeps keeps_nonces (ask f).
Proof. intros w hand. apply nonce_inv_tick. simpl. lia. Qed.
Lemma setter_keeps_nonces c f :
  (∀ cl, client_nonces (f cl) = client_nonces cl) → keeps keeps_nonces (update_client c f).
Proof. intros Hf w hand. by apply nonce_inv_update. Qed.

Lemma after_unsigned i hand meth url accept w (Q : option (result http_response) → World → Prop) :
  hand !! i = None → nonce_inv hand w →
  (∀ r w', nonce_inv hand w' →
     (∀ rs, r = Some (Ok rs) → rs_ReplayNonce rs ≠ "" →
        unplaced hand w' (rs_ReplayNonce rs) ∧ received (w_tick w') (rs_ReplayNonce rs)) →
     Q r w') →
  after (http_Do (MkHTTP _ meth url accept NoBody)) w Q.
Proof.
  intros Hfree Hi HQ. apply after_http. rewrite <- (delete_id hand i Hfree) in HQ. apply HQ.
  - by apply nonce_inv_http.
  - intros rs [= Hrs] Hne. by apply (http_nonce_unplaced i hand w _ rs).
Qed.

Lemma Directory_nonces c w :
  nonce_inv ∅ w → after (Directory c) w (λ _ w', nonce_inv ∅ w').
Proof.
  intros Hi. unfold Directory. apply after_bind, after_deref.
  destruct (w_heap w !! c) as [cl|]; [|done].
  destruct (directory cl); [done|]. destruct (request_url_error _); [done|].
  apply after_bind_ok, after_wrap, (after_unsigned 0 ∅); [done|done|].
  intros r w1 Hi1 _. destruct r as [[rs|e]|]; [|done..].
  destruct (negb _); [done|]. destruct (decode_body _ _ _); [|done].
  by apply after_bind, (nonce_inv_update ∅).
Qed.

Lemma getNonce_nonces c w :
  nonce_inv ∅ w →
  after (getNonce c) w (λ r w', match r with
    | Some (Ok n) => nonce_inv (in_hand n) w'
    | _ => nonce_inv ∅ w'
    end).
Proof.
  intros Hi. unfold getNonce, take_cached_nonce. apply after_bind, after_bind, after_deref.
  destruct (w_heap w !! c) as [cl|] eqn:Hc; [|done].
  destruct (pop_nonce (client_nonces cl)) as [[n r]|] eqn:Hp.
  { apply after_bind. by apply (nonce_inv_pop 0 ∅ w c cl). }
  apply after_ret, after_bind_ok. eapply after_mono; [by apply Directory_nonces|].
  intros [[d|e]|] w1 Hi1; [|done..]. destruct (request_url_error _); [done|].
  apply after_bind_ok, after_wrap, (after_unsigned 0 ∅); [done|done|].
  intros r w2 Hi2 Hn. destruct r as [[rs|e]|]; [|done..].
  destruct (String.eqb_spec (rs_ReplayNonce rs) "") as [Hz|Hz]; [done|].
  destruct (Hn rs eq_refl Hz). by apply (nonce_inv_hand 0 ∅).
Qed.

Lemma post_attempt_nonces c url payload accept w :
  nonce_inv ∅ w → after (post_attempt c url payload accept) w (λ _ w', nonce_inv ∅ w').
Proof.
  intros Hi. unfold post_attempt. apply after_bind_ok.
  eapply after_mono; [by apply getNonce_nonces|]. intros [[n|e]|] w1 Hi1; [|done..].
  apply after_bind_ok, after_run. intros r w2 Hw2.
  assert (nonce_inv (in_hand n) w2) as Hi2.
  { assert (keeps keeps_nonces (buildJWS c n url payload)) as Hb.
    { unfold buildJWS. repeat (keeps_step || apply ask_keeps_nonces). }
    specialize (Hb w1 (in_hand n) Hi1). by rewrite Hw2 in Hb. }
  destruct r as [[body|e]|]; [|by eapply drop_hand..].
  destruct (request_url_error url); [by eapply drop_hand|].
  assert (event_nonce (EvHTTP (MkHTTP _ "POST" url accept body)) = in_hand n !! 0) as Hev.
  { unfold buildJWS, bind, deref, ask, ret in Hw2. destruct (w_heap w1 !! c); [|done].
    destruct (env_sign _); by simplify_eq. }
  apply after_bind_ok, after_http. fold (do_http_world (MkHTTP _ "POST" url accept body) w2).
  pose proof (nonce_inv_http 0 (in_hand n) w2 _ Hi2 Hev) as Hi3.
  unfold in_hand in Hi3. rewrite delete_singleton_eq in Hi3.
  destruct (env_http _ _) as [rs|e] eqn:Hrs; [|done].
  apply after_bind. unfold saveNonce, update_client, modify, after. simpl.
  assert (nonce_inv ∅
    (set_heap (alter (λ cl, set_nonces (push_nonce (rs_ReplayNonce rs) (client_nonces cl)) cl) c
       (w_heap w2)) (do_http_world (MkHTTP _ "POST" url accept body) w2))) as Hi4.
  { apply (nonce_inv_push ∅ (do_http_world _ w2)); [done|].
    intros Hne. rewrite <- (delete_singleton_eq 0 n). by apply (http_nonce_unplaced 0 (in_hand n) w2 _ rs). }
  by destruct (is_bad_nonce rs).
Qed.

Lemma attempts_nonces n c url payload accept : keeps keeps_all (attempts n c url payload accept).
Proof.
  intros w Hi. fold (after (attempts n c url payload accept) w (λ _ w', nonce_inv ∅ w')).
  revert w Hi. induction n as [|n IH]; intros w Hi; [done|].
  apply after_bind_ok. eapply after_mono; [by apply post_attempt_nonces|].
  intros [[[rs|]|e]|] w1 Hi1; [done|by apply IH|done..].
Qed.

#[export] Instance keeps_all_post : PostRel keeps_all.
Proof.
  split; [apply _| | |intros; by apply attempts_nonces].
  - intros A f w. exact (ask_keeps_nonces f w ∅).
  - intros c w. exact (Directory_nonces c w).
Qed.
Lemma keeps_all_SetAccountURL c u : keeps keeps_all (SetAccountURL c u).
Proof. intros w. exact (setter_keeps_nonces c (set_accountURL u) (λ _, eq_refl) w ∅). Qed.
End nonce_use.
#[export] Hint Resolve keeps_all_SetAccountURL : keeps.
