(* ===== verification/ClientThreads.v ===== *)
(** * Concurrent signed requests (internal/upstream/client.go)

    [signedPostWithHeaders] as several goroutines run it, on the same or different clients,
    cut where another may run: the client's mutex is held for single steps (a look at the
    cached directory, taking or saving a nonce, reading the account URL), and requests are
    made without it.  No nonce is sent twice in any interleaving; a goroutine that runs alone
    computes the function of [Client]; each call returns within a fixed number of its own
    steps, whatever the others do. *)
From S2P Require Export NonceUse.

(** The arguments of a call. *)
Record post_call := MkCall {
  pc_client : client_ref; pc_url : string; pc_payload : option json; pc_accept : string
}.

Section threads.
Context `{Env}.

(** A call at the point where it goes on; [more] is the number of attempts it may still make
    after this one. *)
Inductive post_thread :=
| PTake (more : nat)
| PLook (more : nat)
| PFetch (more : nat) (directoryURL : string)
| PStore (more : nat) (d : ACMEDirectory)
| PHead (more : nat) (d : ACMEDirectory)
| PBuild (more : nat) (nonce : string)
| PSend (more : nat) (body : request_body)
| PSave (more : nat) (rs : http_response)
| PReturn (r : result http_response).

Definition attempt (n : nat) : post_thread :=
  match n with
  | 0 => PReturn (Errorf "upstream rejected nonce after 3 attempts")
  | S more => PTake more
  end.
Definition post_start : post_thread := attempt maxAttempts.
Definition post_returned (t : post_thread) : bool :=
  match t with PReturn _ => true | _ => false end.

(** On with the value, or back with the error. *)
Definition or_return {A} (r : result A) (k : A → post_thread) : post_thread :=
  match r with Ok a => k a | Err e => PReturn (Err e) end.

(** *** One step *)
Definition post_advance (pc : post_call) (t : post_thread) : M post_thread :=
  let c := pc_client pc in
  match t with
  | PTake more =>
      let! cached := take_cached_nonce c in
      ret (match cached with Some n => PBuild more n | None => PLook more end)
  | PLook more =>
      let! cl := deref c in
      ret (match directory cl with
           | Some d => PHead more d
           | None => match request_url_error (directoryURL cl) with
                     | Some e => PReturn (Wrapf "building directory request: " e)
                     | None => PFetch more (directoryURL cl)
                     end
           end)
  | PFetch more url =>
      let! r := wrap "fetching directory: " (http_Do (MkHTTP _ "GET" url "" NoBody)) in
      ret (or_return r (λ rs,
        if negb (rs_StatusCode rs =? 200)%Z then
          PReturn (Errorf ("upstream directory HTTP " +:+ pretty (rs_StatusCode rs) +:+ ": "
                           +:+ str_take 256 (rs_Body rs)))
        else or_return (decode_body decode_directory "decoding directory: " rs) (PStore more)))
  | PStore more d => do! update_client c (set_dir d) in ret (PHead more d)
  | PHead more d =>
      match request_url_error (NewNonce d) with
      | Some e => ret (PReturn (Err e))
      | None =>
          let! r := wrap "fetching nonce: " (http_Do (MkHTTP _ "HEAD" (NewNonce d) "" NoBody)) in
          ret (or_return r (λ rs,
            if rs_ReplayNonce rs ==? "" then PReturn (Errorf "upstream returned no Replay-Nonce")
            else PBuild more (rs_ReplayNonce rs)))
      end
  | PBuild more nonce =>
      let! r := buildJWS c nonce (pc_url pc) (pc_payload pc) in
      ret (or_return r (λ body,
        match request_url_error (pc_url pc) with
        | Some e => PReturn (Err e)
        | None => PSend more body
        end))
  | PSend more body =>
      let! r := http_Do (MkHTTP _ "POST" (pc_url pc) (pc_accept pc) body) in
      ret (or_return r (PSave more))
  | PSave more rs =>
      do! saveNonce c (rs_ReplayNonce rs) in
      ret (if is_bad_nonce rs then attempt more else PReturn (Ok (reread rs)))
  | PReturn _ => ret t
  end.

(** *** The machine *)
Record posting := MkPosting { p_world : World; p_calls : gmap nat (post_call * post_thread) }.

(** What the rest of the process does meanwhile: everything but signed requests, and it
    takes no nonce from a client and gives it none. *)
Record elsewhere (w w' : World) : Prop := {
  ew_tick : w_tick w ≤ w_tick w';
  ew_sent : sent_nonces w' = sent_nonces w;
  ew_next (c : client_ref) : is_Some (w_heap w' !! c) → c < w_next w';
  ew_kept (c : client_ref) : is_Some (w_heap w !! c) → is_Some (w_heap w' !! c);
  ew_rings (c : client_ref) cl' : w_heap w' !! c = Some cl' →
    client_nonces cl' = empty_ring ∨
    ∃ cl, w_heap w !! c = Some cl ∧ client_nonces cl' = client_nonces cl
}.

Inductive posting_step : posting → posting → Prop :=
| post_step_call i pc s :
    p_calls s !! i = None → is_Some (w_heap (p_world s) !! pc_client pc) →
    posting_step s (MkPosting (p_world s) (<[i := (pc, post_start)]> (p_calls s)))
| post_step_thread i pc t t' w' s :
    p_calls s !! i = Some (pc, t) → post_advance pc t (p_world s) = (Some t', w') →
    posting_step s (MkPosting w' (<[i := (pc, t')]> (p_calls s)))
| post_step_elsewhere w' s :
    elsewhere (p_world s) w' → posting_step s (MkPosting w' (p_calls s)).
Definition posting_reaches : posting → posting → Prop := rtc posting_step.

(** The steps of goroutines [sched], one after the other. *)
Fixpoint post_schedule (sched : list nat) (s : posting) : option posting :=
  match sched with
  | [] => Some s
  | i :: sched =>
      '(pc, t) ← p_calls s !! i;
      match post_advance pc t (p_world s) with
      | (Some t', w') => post_schedule sched (MkPosting w' (<[i := (pc, t')]> (p_calls s)))
      | (None, _) => None
      end
  end.

Lemma post_schedule_reaches sched s s' : post_schedule sched s = Some s' → posting_reaches s s'.
Proof.
  revert s. induction sched as [|i sched IH]; intros s; cbn; [intros [= ->]; reflexivity|].
  destruct (p_calls s !! i) as [[pc t]|] eqn:Hi; cbn; [|done].
  destruct (post_advance pc t (p_world s)) as [[t'|] w'] eqn:Ht; [|done]. intros Hs.
  eapply rtc_l; [by eapply post_step_thread|by apply IH].
Qed.

(** Steps of one goroutine until it has returned. *)
Fixpoint run_post (fuel : nat) (pc : post_call) (t : post_thread) : M (option (result http_response)) :=
  match fuel with
  | 0 => ret None
  | S fuel => match t with
              | PReturn r => ret (Some r)
              | _ => let! t' := post_advance pc t in run_post fuel pc t'
              end
  end.

(** ** Who holds which nonce *)
Definition body_nonce (body : request_body) : option string :=
  match body with SignedBody n _ _ _ _ => Some n | NoBody => None end.
Definition hand_of (t : post_thread) : option string :=
  match t with
  | PBuild _ n => Some n
  | PSend _ body => body_nonce body
  | PSave _ rs => if rs_ReplayNonce rs ==? "" then None else Some (rs_ReplayNonce rs)
  | _ => None
  end.
Definition hands (calls : gmap nat (post_call * post_thread)) : holding :=
  omap (λ x, hand_of x.2) calls.

(** What goroutine [i] holds, beside what the others hold. *)
Definition set_hand (i : nat) (o : option string) (h : holding) : holding :=
  match o with Some n => <[i := n]> h | None => h end.

Lemma hands_lookup calls i pc t : calls !! i = Some (pc, t) → hands calls !! i = hand_of t.
Proof. intros Hi. unfold hands. by rewrite lookup_omap, Hi. Qed.
Lemma hands_insert calls i pc t :
  hands (<[i := (pc, t)]> calls) = set_hand i (hand_of t) (delete i (hands calls)).
Proof.
  unfold hands, set_hand. apply map_eq. intros j. rewrite lookup_omap.
  destruct (decide (i = j)) as [<-|Hne].
  - rewrite lookup_insert_eq. cbn [mbind option_bind snd].
    destruct (hand_of t); [by rewrite lookup_insert_eq|by rewrite lookup_delete_eq].
  - rewrite lookup_insert_ne by done. destruct (hand_of t);
      rewrite ?lookup_insert_ne, ?lookup_delete_ne, ?lookup_omap by done; done.
Qed.
Lemma hands_same calls i pc t :
  calls !! i = Some (pc, t) → hands calls = set_hand i (hand_of t) (delete i (hands calls)).
Proof. intros Hi. rewrite <- (hands_insert calls i pc t), insert_id by done. done. Qed.
Lemma delete_set_hand i o h : h !! i = None → delete i (set_hand i o h) = h.
Proof. intros Hh. destruct o; simpl; [by apply delete_insert_id|by apply delete_id]. Qed.
Lemma set_hand_lookup i o h : h !! i = None → set_hand i o h !! i = o.
Proof. intros Hh. destruct o; simpl; [apply lookup_insert_eq|done]. Qed.

(** ** The invariant *)
Context `{!FreshNonces}.

Lemma buildJWS_signs c n url payload w :
  after (buildJWS c n url payload) w (λ r _, ∀ body, r = Some (Ok body) → body_nonce body = Some n).
Proof.
  unfold buildJWS. apply after_bind, after_deref. destruct (w_heap w !! c); [|done].
  apply after_bind, after_ask. destruct (env_sign _); apply after_ret; [done|by intros ? [= <-]].
Qed.
Lemma buildJWS_keeps c n url payload : keeps keeps_nonces (buildJWS c n url payload).
Proof. unfold buildJWS. repeat (keeps_step || apply ask_keeps_nonces). Qed.

Lemma attempt_holds n : hand_of (attempt n) = None.
Proof. by destruct n. Qed.

(** One step moves the nonce of its goroutine at most. *)
Definition step_moves (i : nat) (h : holding) (pc : post_call) (t : post_thread) : Prop :=
  ∀ w, h !! i = None → nonce_inv (set_hand i (hand_of t) h) w →
  after (post_advance pc t) w (λ r w', ∀ t', r = Some t' → nonce_inv (set_hand i (hand_of t') h) w').

Lemma take_moves i h pc more : step_moves i h pc (PTake more).
Proof.
  intros w Hfree Hi. cbn [hand_of set_hand post_advance] in *. unfold take_cached_nonce.
  apply after_bind, after_bind, after_deref.
  destruct (w_heap w !! pc_client pc) as [cl|] eqn:Hc; [|done].
  destruct (pop_nonce (client_nonces cl)) as [[n r]|] eqn:Hp; [|by apply after_ret, after_ret; intros ? [= <-]].
  apply after_bind. unfold update_client, modify, after. cbn. intros ? [= <-].
  by apply (nonce_inv_pop i h w (pc_client pc) cl).
Qed.
(** A step that asks for a nonce, or for the directory. *)
Lemma unsigned_moves i h meth url pre (k : result http_response → post_thread) w :
  (∀ r, hand_of (k r) = None ∨
     ∃ rs, r = Ok rs ∧ rs_ReplayNonce rs ≠ "" ∧ hand_of (k r) = Some (rs_ReplayNonce rs)) →
  h !! i = None → nonce_inv h w →
  after (let! r := wrap pre (http_Do (MkHTTP _ meth url "" NoBody)) in ret (k r)) w
    (λ r w', ∀ t', r = Some t' → nonce_inv (set_hand i (hand_of t') h) w').
Proof.
  intros Hk Hfree Hi. apply after_bind, after_wrap, (after_unsigned i h); [done..|]. intros r w1 Hi1 Hn.
  destruct r as [[rs|e]|]; [| |done]; apply after_ret; intros ? [= <-].
  - destruct (Hk (Ok rs)) as [->|(? & [= <-] & Hne & ->)]; [done|].
    destruct (Hn rs eq_refl Hne). by apply nonce_inv_hand.
  - destruct (Hk (Wrapf pre e)) as [->|(? & ? & _)]; [done|discriminate].
Qed.
Lemma build_moves i h pc more n : step_moves i h pc (PBuild more n).
Proof.
  intros w Hfree Hi. cbn [hand_of set_hand post_advance] in *. apply after_bind.
  pose proof (buildJWS_signs (pc_client pc) n (pc_url pc) (pc_payload pc) w) as Hs.
  pose proof (buildJWS_keeps (pc_client pc) n (pc_url pc) (pc_payload pc) w _ Hi) as Hi1.
  pose proof (nonce_inv_drop i _ _ Hi1) as Hi2. rewrite delete_insert_id in Hi2 by done.
  unfold after in Hs |- * at 1. destruct (buildJWS _ _ _ _ w) as [[[body|e]|] w1]; [| |done];
    apply after_ret; intros ? [= <-]; cbn; [|done].
  destruct (request_url_error _); cbn; [done|]. by rewrite (Hs body eq_refl).
Qed.
Lemma send_moves i h pc more body : step_moves i h pc (PSend more body).
Proof.
  intros w Hfree Hi. cbn [hand_of post_advance] in *.
  apply after_bind, after_http. set (rq := MkHTTP _ _ _ _ body). fold (do_http_world rq w).
  assert (event_nonce (EvHTTP rq) = set_hand i (body_nonce body) h !! i) as Hev
    by (rewrite set_hand_lookup by done; by destruct body).
  pose proof (nonce_inv_http i _ w rq Hi Hev) as Hi1. rewrite delete_set_hand in Hi1 by done.
  destruct (env_http (w_tick w) rq) as [rs|e] eqn:Hrs; apply after_ret; intros ? [= <-]; [|done]. cbn.
  destruct (String.eqb_spec (rs_ReplayNonce rs) "") as [|Hne]; [done|].
  destruct (http_nonce_unplaced i _ w rq rs Hi Hev Hrs Hne) as [Hun Hrec].
  rewrite delete_set_hand in Hun by done. by apply nonce_inv_hand.
Qed.
Lemma save_moves i h pc more rs : step_moves i h pc (PSave more rs).
Proof.
  intros w Hfree Hi. cbn [hand_of post_advance] in *.
  apply after_bind. unfold saveNonce, update_client, modify, after. cbn. intros ? [= <-].
  assert (nonce_inv h (set_heap (alter (λ cl, set_nonces (push_nonce (rs_ReplayNonce rs) (client_nonces cl)) cl)
    (pc_client pc) (w_heap w)) w)) as Hi1.
  { apply nonce_inv_push.
    - apply (nonce_inv_drop i) in Hi. by rewrite delete_set_hand in Hi.
    - intros Hne. apply String.eqb_neq in Hne. rewrite Hne in Hi.
      apply (nonce_inv_give i (rs_ReplayNonce rs)) in Hi as (_ & Hun & Hrec); [|apply lookup_insert_eq].
      cbn in Hun. by rewrite delete_insert_id in Hun. }
  destruct (is_bad_nonce rs); [by rewrite attempt_holds|done].
Qed.

Lemma post_advance_ok i h pc t : step_moves i h pc t.
Proof.
  destruct t as [more|more|more url|more d|more d|more n|more body|more rs|r];
    [apply take_moves| | | | |apply build_moves|apply send_moves|apply save_moves|];
    intros w Hfree Hi; cbn [hand_of set_hand post_advance] in *.
  - apply after_bind, after_deref. destruct (w_heap w !! pc_client pc) as [cl|]; [|done].
    apply after_ret. intros ? [= <-]. destruct (directory cl); [done|]. by destruct (request_url_error _).
  - apply unsigned_moves; [|done..]. intros [rs|e]; [|by left]. left. cbn.
    destruct (negb _); [done|]. by destruct (decode_body _ _ _).
  - apply after_bind. unfold update_client, modify, after. cbn. intros ? [= <-]. by apply nonce_inv_update.
  - destruct (request_url_error (NewNonce d)); [by apply after_ret; intros ? [= <-]|].
    apply unsigned_moves; [|done..]. intros [rs|e]; [|by left]. cbn.
    destruct (String.eqb_spec (rs_ReplayNonce rs) "") as [|Hne]; [by left|right]. by exists rs.
  - apply after_ret. by intros ? [= <-].
Qed.

Lemma empty_ring_queue : ring_queue empty_ring = [].
Proof. reflexivity. Qed.
Lemma elsewhere_ok h w w' : elsewhere w w' → nonce_inv h w → nonce_inv h w'.
Proof.
  intros [Ht Hs Hn _ Hr] Hi. apply (nonce_inv_sub h w); [done..| |].
  - intros c cl' Hc. destruct (Hr c cl' Hc) as [->|(cl & Hc0 & ->)]; [apply empty_ring_ok|].
    by apply (ni_rings _ _ Hi c).
  - intros [i|k|c k] n; simpl; [done|by rewrite Hs|]. intros (cl' & Hc & Hk).
    destruct (Hr c cl' Hc) as [He|(cl & Hc0 & He)]; rewrite He in Hk; [by rewrite empty_ring_queue in Hk|eauto].
Qed.

Definition posting_ok (s : posting) : Prop := nonce_inv (hands (p_calls s)) (p_world s).
Lemma posting_step_ok s s' : posting_step s s' → posting_ok s → posting_ok s'.
Proof.
  unfold posting_ok. intros [i pc s0 Hi Hc|i pc t t' w' s0 Hi Ht|w' s0 He] Hok; cbn [p_calls p_world].
  - rewrite hands_insert. cbn. rewrite delete_id; [done|]. unfold hands. by rewrite lookup_omap, Hi.
  - rewrite hands_insert. rewrite (hands_same _ i pc t Hi) in Hok.
    pose proof (post_advance_ok i (delete i (hands (p_calls s0))) pc t _ (lookup_delete_eq _ _) Hok) as Ha.
    unfold after in Ha. rewrite Ht in Ha. by apply Ha.
  - by apply (elsewhere_ok _ (p_world s0)).
Qed.
Lemma posting_reaches_ok s s' : posting_reaches s s' → posting_ok s → posting_ok s'.
Proof. induction 1; eauto using posting_step_ok. Qed.
End threads.

(** A process that has just started. *)
Definition just_started `{Env} (s : posting) : Prop :=
  w_heap (p_world s) = ∅ ∧ w_trace (p_world s) = [] ∧ p_calls s = ∅.

(** C9: no upstream nonce is sent twice, in whatever order the goroutines that make
    signed requests take their steps, on the same client or on others, retries, failures and
    the rest of the process included, provided the upstreams do not repeat theirs. *)
Theorem nonces_sent_once_concurrently `{Env} `{!FreshNonces} s s' :
  just_started s → posting_reaches s s' → NoDup (sent_nonces (p_world s')).
Proof.
  intros (Hh & Ht & Hc) Hr. eapply nonce_inv_sent, (posting_reaches_ok s s' Hr).
  unfold posting_ok. rewrite Hc. by apply nonce_inv_start.
Qed.

(** ** Calls return *)
Section returning.
Context `{Env}.

(** Steps a call still has at most: eight per attempt. *)
Definition steps_left (t : post_thread) : nat :=
  match t with
  | PTake more => 8 * more + 8
  | PLook more => 8 * more + 7
  | PFetch more _ => 8 * more + 6
  | PStore more _ => 8 * more + 5
  | PHead more _ => 8 * more + 4
  | PBuild more _ => 8 * more + 3
  | PSend more _ => 8 * more + 2
  | PSave more _ => 8 * more + 1
  | PReturn _ => 0
  end.
Lemma steps_attempt n : steps_left (attempt n) = 8 * n.
Proof. destruct n; simpl; lia. Qed.
Lemma steps_zero t : steps_left t = 0 → post_returned t = true.
Proof. destruct t; simpl; lia || done. Qed.

Lemma post_advance_total pc t : no_panic (pc_client pc) (post_advance pc t).
Proof.
  destruct t; simpl; unfold take_cached_nonce, buildJWS, saveNonce; total_auto.
Qed.
Lemma keeps_post_advance (R : World → World → Prop) `{!ClientRel R} pc t : keeps R (post_advance pc t).
Proof. destruct t; simpl; unfold take_cached_nonce; keeps_auto. Qed.

Lemma or_return_left {A} (r : result A) k n :
  0 < n → (∀ a, steps_left (k a) < n) → steps_left (or_return r k) < n.
Proof. intros Hn Hk. destruct r; simpl; auto. Qed.
(** A step that reads something and goes on. *)
Lemma closer_bind {A} (m : M A) (k : A → post_thread) w n :
  (∀ a, steps_left (k a) < n) →
  after (let! a := m in ret (k a)) w (λ r _, ∀ t', r = Some t' → steps_left t' < n).
Proof.
  intros Hk. apply after_bind, after_run. intros [a|] w' _; [|done]. apply after_ret. by intros ? [= <-].
Qed.

Lemma post_advance_closer pc t w :
  post_returned t = false →
  after (post_advance pc t) w (λ r _, ∀ t', r = Some t' → steps_left t' < steps_left t).
Proof.
  intros Ht. destruct t as [more|more|more url|more d|more d|more n|more body|more rs|r]; [..|done];
    cbn [post_advance steps_left]; [| | | |destruct (request_url_error (NewNonce d))| | |];
    try (apply after_ret; intros ? [= <-]; simpl; lia); apply closer_bind; intros x;
    try (apply or_return_left; [lia|intros y]).
  - destruct x; simpl; lia.
  - destruct (directory x); [simpl; lia|]. destruct (request_url_error _); simpl; lia.
  - destruct (negb _); [simpl; lia|]. apply or_return_left; [lia|]. intros z. simpl. lia.
  - simpl. lia.
  - destruct (_ ==? _); simpl; lia.
  - destruct (request_url_error _); simpl; lia.
  - simpl. lia.
  - destruct (is_bad_nonce rs); rewrite ?steps_attempt; simpl; lia.
Qed.

(** Every call's client exists. *)
Definition calls_ok (s : posting) : Prop :=
  ∀ i pc t, p_calls s !! i = Some (pc, t) → has_client (pc_client pc) (p_world s) ∧ steps_left t ≤ 8 * maxAttempts.
Lemma has_client_frame c w w' : client_frame w w' → has_client c w → has_client c w'.
Proof.
  intros Hf. unfold has_client. rewrite <- (fmap_is_Some identity (w_heap w' !! c)).
  by rewrite (cf_heap w w' Hf), fmap_is_Some.
Qed.
Lemma posting_step_calls s s' : posting_step s s' → calls_ok s → calls_ok s'.
Proof.
  intros [i pc s0 Hi Hc|i pc t t' w' s0 Hi Ht|w' s0 He] Hok j pc' u; cbn [p_calls p_world].
  - intros [[_ [= <- <-]]|[_ Hj]]%lookup_insert_Some; [|by apply (Hok j)]. split; [done|]. by vm_compute.
  - pose proof (keeps_post_advance client_frame pc t (p_world s0)) as Hf. rewrite Ht in Hf. simpl in Hf.
    intros [[_ [= <- <-]]|[_ Hj]]%lookup_insert_Some.
    + destruct (Hok i pc t Hi) as [Hc Hle]. split; [by apply (has_client_frame _ (p_world s0))|].
      destruct (post_returned t) eqn:Hr; [destruct t; try done; by injection Ht as <- _|].
      pose proof (post_advance_closer pc t (p_world s0) Hr) as Ha. unfold after in Ha. rewrite Ht in Ha.
      specialize (Ha t' eq_refl). lia.
    + destruct (Hok j pc' u Hj) as [Hc Hle]. split; [by apply (has_client_frame _ (p_world s0))|done].
  - intros Hj. destruct (Hok j pc' u Hj) as [Hc Hle]. split; [by apply (ew_kept _ _ He)|done].
Qed.
Lemma posting_reaches_calls s s' : posting_reaches s s' → calls_ok s → calls_ok s'.
Proof. induction 1; eauto using posting_step_calls. Qed.

(** C10: a signed request always ends: in every reachable state of the interleaved calls,
    whatever the others do, a call that has not returned can take its next step, does not
    panic, and is nearer to its end than before; it never has more than twenty-four steps
    left. *)
Theorem post_calls_return s s' i pc t :
  p_calls s = ∅ → posting_reaches s s' → p_calls s' !! i = Some (pc, t) → post_returned t = false →
  steps_left t ≤ 24 ∧
  ∃ t' w', post_advance pc t (p_world s') = (Some t', w') ∧ steps_left t' < steps_left t ∧
    posting_step s' (MkPosting w' (<[i := (pc, t')]> (p_calls s'))).
Proof.
  intros Hnone Hr Hi Ht. assert (calls_ok s) as Hok by (intros j ??; by rewrite Hnone, lookup_empty).
  destruct (posting_reaches_calls s s' Hr Hok i pc t Hi) as [Hc Hle]. split; [done|].
  pose proof (post_advance_total pc t (p_world s') Hc) as Hp.
  pose proof (post_advance_closer pc t (p_world s') Ht) as Ha. unfold after in Hp, Ha.
  destruct (post_advance pc t (p_world s')) as [r w'] eqn:Hadv. cbn in Hp, Ha.
  destruct Hp as [[t' ->] _].
  exists t', w'. split_and!; [done|by apply Ha|]. by eapply post_step_thread.
Qed.
End returning.

(** ** A goroutine that runs alone *)
Section alone_post.
Context `{Env} (pc : post_call).

(** An outcome in time. *)
Definition in_time {A} (o : option A * World) : option (option A) * World := (Some <$> o.1, o.2).

Lemma run_post_step f t w :
  post_returned t = false →
  run_post (S f) pc t w =
  match post_advance pc t w with (Some t', w') => run_post f pc t' w' | (None, w') => (None, w') end.
Proof. by destruct t. Qed.
Lemma run_post_return f r w : run_post (S f) pc (PReturn r) w = in_time (ret r w).
Proof. reflexivity. Qed.

(** What [attempts] does once it has a nonce, and before. *)
Definition with_nonce (n : nat) (nonce : string) : M (result http_response) :=
  let c := pc_client pc in
  let!? rs :=
    (let!? body := buildJWS c nonce (pc_url pc) (pc_payload pc) in
     match request_url_error (pc_url pc) with
     | Some e => ret (Err e)
     | None =>
         let!? rs := http_Do (MkHTTP _ "POST" (pc_url pc) (pc_accept pc) body) in
         do! saveNonce c (rs_ReplayNonce rs) in
         if is_bad_nonce rs then ret (Ok None) else ret (Ok (Some (reread rs)))
     end) in
  match rs with
  | Some rs => ret (Ok rs)
  | None => attempts n c (pc_url pc) (pc_payload pc) (pc_accept pc)
  end.
Lemma attempts_with_nonce n w :
  attempts (S n) (pc_client pc) (pc_url pc) (pc_payload pc) (pc_accept pc) w =
  (let!? nonce := getNonce (pc_client pc) in with_nonce n nonce) w.
Proof.
  cbn [attempts]. unfold post_attempt, with_nonce. rewrite !bind_ok_run.
  destruct (getNonce (pc_client pc) w) as [[[nonce|]|] w1]; [|reflexivity..]. by rewrite !bind_ok_run.
Qed.

Section one_attempt.
Context (n f : nat) (IH : ∀ g w, f ≤ g → run_post (S g) pc (attempt n) w =
  in_time (attempts n (pc_client pc) (pc_url pc) (pc_payload pc) (pc_accept pc) w)).

Lemma alone_build g nonce w :
  f ≤ g → run_post (S (S (S (S g)))) pc (PBuild n nonce) w = in_time (with_nonce n nonce w).
Proof using IH.
  intros Hg. unfold with_nonce. rewrite run_post_step by done. cbn [post_advance]. rewrite bind_run, !bind_ok_run.
  destruct (buildJWS _ _ _ _ w) as [[[body|e]|] w1]; [|reflexivity..]. cbn [or_return]. unfold ret at 1.
  destruct (request_url_error _); [reflexivity|].
  rewrite run_post_step by done. cbn [post_advance]. rewrite bind_run, !bind_ok_run.
  destruct (http_Do _ w1) as [[[rs|e]|] w2]; [|reflexivity..]. cbn [or_return]. unfold ret at 1.
  rewrite run_post_step by done. cbn [post_advance]. rewrite !bind_run.
  destruct (saveNonce _ _ w2) as [[[]|] w3]; [|reflexivity]. unfold ret at 1.
  destruct (is_bad_nonce rs); [by apply IH|reflexivity].
Qed.
Lemma alone_head g d w :
  f ≤ g → run_post (S (S (S (S (S g))))) pc (PHead n d) w =
  in_time ((let!? nonce := match request_url_error (NewNonce d) with
      | Some e => ret (Err e)
      | None =>
          let!? rs := wrap "fetching nonce: " (http_Do (MkHTTP _ "HEAD" (NewNonce d) "" NoBody)) in
          if rs_ReplayNonce rs ==? "" then ret (Errorf "upstream returned no Replay-Nonce")
          else ret (Ok (rs_ReplayNonce rs))
      end in with_nonce n nonce) w).
Proof using IH.
  intros Hg. rewrite run_post_step by done. cbn [post_advance]. rewrite bind_ok_run.
  destruct (request_url_error _); [reflexivity|]. rewrite bind_run, bind_ok_run.
  destruct (wrap _ _ w) as [[[rs|e]|] w1]; [|reflexivity..]. cbn [or_return]. unfold ret at 1.
  destruct (_ ==? _); [reflexivity|]. unfold ret at 1. by apply alone_build.
Qed.
Lemma alone_take g w :
  f ≤ g → run_post (S (S (S (S (S (S (S (S (S g))))))))) pc (PTake n) w =
  in_time ((let!? nonce := getNonce (pc_client pc) in with_nonce n nonce) w).
Proof using IH.
  intros Hg. rewrite run_post_step by done. cbn [post_advance]. unfold getNonce. rewrite bind_run, bind_ok_run, bind_run.
  destruct (take_cached_nonce _ w) as [[[nonce|]|] w1]; [| |reflexivity]; unfold ret at 1.
  { unfold ret. apply alone_build. lia. }
  rewrite run_post_step by done. cbn [post_advance]. rewrite bind_run, bind_ok_run. unfold Directory. rewrite bind_run.
  destruct (deref _ w1) as [[cl|] w2]; [|reflexivity]. unfold ret at 1.
  destruct (directory cl) as [d|].
  { unfold ret at 1. rewrite alone_head by lia. by rewrite bind_ok_run. }
  destruct (request_url_error _); [reflexivity|].
  rewrite run_post_step by done. cbn [post_advance]. rewrite bind_run, bind_ok_run.
  destruct (wrap _ _ w2) as [[[rs|e]|] w3]; [|reflexivity..]. cbn [or_return]. unfold ret at 1.
  destruct (negb _); [reflexivity|]. destruct (decode_body _ _ _) as [d|e]; [|reflexivity]. cbn [or_return].
  rewrite run_post_step by done. cbn [post_advance]. rewrite !bind_run.
  destruct (update_client _ _ w3) as [[[]|] w4]; [|reflexivity]. unfold ret at 1 2.
  rewrite alone_head by lia. by rewrite bind_ok_run.
Qed.
End one_attempt.

Lemma alone_attempts n g w :
  8 * n ≤ g →
  run_post (S g) pc (attempt n) w =
  in_time (attempts n (pc_client pc) (pc_url pc) (pc_payload pc) (pc_accept pc) w).
Proof.
  revert g w. induction n as [|n IH]; intros g w Hg; [reflexivity|].
  rewrite attempts_with_nonce. destruct g as [|[|[|[|[|[|[|[|g]]]]]]]]; try lia.
  apply (alone_take n (8 * n)); [|lia]. intros g' w' Hg'. by apply IH.
Qed.

(** The cut into steps changes nothing for a goroutine that runs alone: in twenty-five
    steps it computes what [signedPostWithHeaders] computes, in the same final state. *)
Theorem post_alone_is_sequential w :
  run_post 25 pc post_start w =
  in_time (signedPostWithHeaders (pc_client pc) (pc_url pc) (pc_payload pc) (pc_accept pc) w).
Proof. apply (alone_attempts maxAttempts 24). done. Qed.
End alone_post.
