(* ===== verification/Pool.v ===== *)
(** * The pool of upstream clients (internal/upstream/pool.go)

    Clients per upstream and slot, or per upstream and gateway account, created
    on first use from the stored account or a new key.  The mutexes order the
    calls; one call is one sequence of steps here. *)
From S2P Require Export ClientProps.

Section pool.
Context `{Env} (cfg : Config).

Definition set_clients f (p : Pool) := MkPool (f (clients p)) (accountClients p) (nextSlot p).
Definition set_accountClients f (p : Pool) := MkPool (clients p) (f (accountClients p)) (nextSlot p).
Definition set_nextSlot f (p : Pool) := MkPool (clients p) (accountClients p) (f (nextSlot p)).
Definition update_pool (f : Pool → Pool) : M unit := modify (λ w, set_pool (f (w_pool w)) w).

Definition quoted (pre s post : string) : string := pre +:+ Quote s +:+ post.

(** [newClientForUpstream] *)
Definition newClientForUpstream (upstreamID : string) (upCfg : UpstreamConfig) (k : ECKey)
    : M (result client_ref) :=
  let! e := if CACertPath upCfg !=? "" then ask (λ n, env_cacert n (CACertPath upCfg))
            else ret None in
  match e with
  | Some e => ret (Wrapf (quoted "loading CA cert for upstream " upstreamID ": ") e)
  | None =>
      let!? cl := New (DirectoryURL upCfg) (Some k) in
      let! c := new_client cl in
      ret (Ok c)
  end.

(** The key of a stored account, or a new one. *)
Definition account_key (what : string) (ua : option UpstreamAccount) : M (result ECKey) :=
  match ua with
  | Some ua =>
      ret (match parseECPrivateKeyPEM (ua_PrivateKey ua) with
           | Ok k => Ok k
           | Err e => Wrapf ("parsing upstream key for " +:+ what +:+ ": ") e
           end)
  | None => wrap "generating upstream key: " (ask env_genkey)
  end.

Definition slot_name (upstreamID : string) (slot : Z) : string :=
  Quote upstreamID +:+ " slot " +:+ pretty slot.

(** One turn of the loop of [getOrCreateAll]. *)
Definition create_slot (upstreamID : string) (upCfg : UpstreamConfig) (slot : Z)
    : M (result client_ref) :=
  let!? ua := wrap ("loading upstream account " +:+ slot_name upstreamID slot +:+ ": ")
    (db_read (GetUpstreamAccountBySlot upstreamID slot)) in
  let!? k := account_key (slot_name upstreamID slot) ua in
  let!? c := newClientForUpstream upstreamID upCfg k in
  do! match ua with Some ua => SetAccountURL c (ua_AccountURL ua) | None => ret tt end in
  ret (Ok c).

Fixpoint create_slots (upstreamID : string) (upCfg : UpstreamConfig) (slots : list nat)
    : M (result (list client_ref)) :=
  match slots with
  | [] => ret (Ok [])
  | slot :: slots =>
      let!? c := create_slot upstreamID upCfg (Z.of_nat slot) in
      let!? cs := create_slots upstreamID upCfg slots in
      ret (Ok (c :: cs))
  end.

Definition slot_count (upCfg : UpstreamConfig) : nat :=
  Z.to_nat (if (AccountCount upCfg <? 1)%Z then 1 else AccountCount upCfg).

Definition not_in_config (upstreamID : string) : error :=
  EStr (quoted "upstream " upstreamID " not in config").

Definition getOrCreateAll (upstreamID : string) : M (result (list client_ref)) :=
  let! p := gets w_pool in
  match clients p !! upstreamID with
  | Some cs => ret (Ok cs)
  | None =>
      match Upstreams cfg !! upstreamID with
      | None => ret (Err (not_in_config upstreamID))
      | Some upCfg =>
          let!? cs := create_slots upstreamID upCfg (seq 0 (slot_count upCfg)) in
          do! update_pool (set_clients (<[upstreamID := cs]>)) in
          ret (Ok cs)
      end
  end.

(** [ensureSlotRegistered]; a missing map entry is the zero configuration. *)
Definition ensureSlotRegistered (upstreamID : string) (slot : Z) (c : client_ref)
    : M (result unit) :=
  let! u := AccountURL c in
  if u !=? "" then ret (Ok tt)
  else
    let! u := AccountURL c in
    if u !=? "" then ret (Ok tt)
    else
      let upCfg := default zero_UpstreamConfig (Upstreams cfg !! upstreamID) in
      let!? accountURL := wrap ("registering with " +:+ slot_name upstreamID slot +:+ ": ")
        (Register c (up_ContactEmail upCfg) (EAB upCfg)) in
      let!? keyPEM := KeyPEM c in
      let! now := ask env_now in
      wrap ("persisting upstream account " +:+ slot_name upstreamID slot +:+ ": ")
        (db (SaveUpstreamAccount (MkUpstreamAccount upstreamID "" slot accountURL keyPEM now))).

(** An index out of range is a panic. *)
Definition index_client (cs : list client_ref) (slot : Z) : M client_ref :=
  if (slot <? 0)%Z then panic
  else match cs !! Z.to_nat slot with Some c => ret c | None => panic end.

Definition NextClient (upstreamID : string) : M (result (client_ref * Z)) :=
  let!? cs := getOrCreateAll upstreamID in
  let n := Z.of_nat (length cs) in
  let! p := gets w_pool in
  let slot := (default 0 (nextSlot p !! upstreamID) `rem` n)%Z in
  do! update_pool (set_nextSlot (<[upstreamID := ((slot + 1) `rem` n)%Z]>)) in
  let! c := index_client cs slot in
  let!? _ := ensureSlotRegistered upstreamID slot c in
  ret (Ok (c, slot)).

Definition GetSlot (upstreamID : string) (slot : Z) : M (result client_ref) :=
  let!? cs := getOrCreateAll upstreamID in
  let slot := if (slot <? 0)%Z || (Z.of_nat (length cs) <=? slot)%Z then 0%Z else slot in
  let! c := index_client cs slot in
  ret (Ok c).

Definition Get (upstreamID : string) : M (result client_ref) := GetSlot upstreamID 0.

Definition lookup_account (upstreamID accountID : string) (p : Pool) : option client_ref :=
  accountClients p !! upstreamID ≫= (λ byAccount, byAccount !! accountID).

Definition account_name (upstreamID accountID : string) : string :=
  Quote upstreamID +:+ " for account " +:+ Quote accountID.
Definition account_label (upstreamID accountID : string) : string :=
  Quote upstreamID +:+ " account " +:+ Quote accountID.

(** The registration of a new client and the persistence of its account. *)
Definition register_account (upstreamID accountID : string) (upCfg : UpstreamConfig)
    (c : client_ref) : M (result unit) :=
  let!? accountURL := wrap ("registering with " +:+ account_name upstreamID accountID +:+ ": ")
    (Register c (up_ContactEmail upCfg) (EAB upCfg)) in
  let!? keyPEM := KeyPEM c in
  let! now := ask env_now in
  wrap ("persisting upstream account " +:+ account_name upstreamID accountID +:+ ": ")
    (db (SaveUpstreamAccountForAccount
           (MkUpstreamAccount upstreamID accountID 0 accountURL keyPEM now))).

Definition store_account_client (upstreamID accountID : string) (c : client_ref) (p : Pool) : Pool :=
  set_accountClients
    (<[upstreamID := <[accountID := c]> (default ∅ (accountClients p !! upstreamID))]>) p.

Definition GetClientForAccount (upstreamID accountID : string) : M (result client_ref) :=
  let! p := gets w_pool in
  match lookup_account upstreamID accountID p with
  | Some c => ret (Ok c)
  | None =>
      let! p := gets w_pool in
      match lookup_account upstreamID accountID p with
      | Some c => ret (Ok c)
      | None =>
          match Upstreams cfg !! upstreamID with
          | None => ret (Err (not_in_config upstreamID))
          | Some upCfg =>
              let!? ua := wrap ("loading upstream account " +:+ account_name upstreamID accountID +:+ ": ")
                (db_read (GetUpstreamAccountForAccount upstreamID accountID)) in
              let!? k := account_key (account_label upstreamID accountID) ua in
              let!? c := newClientForUpstream upstreamID upCfg k in
              let!? _ := match ua with
                         | Some ua => do! SetAccountURL c (ua_AccountURL ua) in ret (Ok tt)
                         | None => register_account upstreamID accountID upCfg c
                         end in
              do! update_pool (store_account_client upstreamID accountID c) in
              ret (Ok c)
          end
      end
  end.
End pool.
