(* ===== verification/PoolProps.v ===== *)
(** * What the pool guarantees

    The relations its operations keep, the coherence of its account clients with
    the database, recovery after a restart, and slot selection. *)
From S2P Require Export Pool NonceUse.

(** Encoding an EC key and parsing it back ([x509], [pem]). *)
Class CryptoLaws `{Crypto} := {
  pem_roundtrip k der :
    MarshalECPrivateKey k = Ok der → parseECPrivateKeyPEM (pem_EncodeECKey der) = Ok k
}.

(** ** Relations kept by pool operations *)
Class PoolRel `{Env} (R : World → World → Prop) := {
  pl_post :: PostRel R;
  pl_new cl : client_nonces cl = empty_ring → keeps R (new_client cl);
  pl_SetAccountURL c u : keeps R (SetAccountURL c u);
  pl_pool f : keeps R (update_pool f);
  pl_read A (f : Store → result A) : keeps R (db_read f);
  pl_save ua : keeps R (db (SaveUpstreamAccount ua));
  pl_save_for ua : keeps R (db (SaveUpstreamAccountForAccount ua))
}.
#[export] Hint Extern 1 (PoolRel _) => typeclasses eauto : keeps.
#[export] Hint Resolve pl_new pl_SetAccountURL pl_pool pl_read pl_save pl_save_for : keeps.

Section pool_keeps.
Context `{Env} (cfg : Config) (R : World → World → Prop) `{!PoolRel R}.

Lemma keeps_newClient u up k : keeps R (newClientForUpstream u up k).
Proof using Type*.
  unfold newClientForUpstream, New. keeps_step; [keeps_auto|]. destruct a; [keeps_auto|].
  change (keeps R (bind (new_client (MkClient _ (DirectoryURL up) k "" None empty_ring))
    (λ c, ret (Ok c : result client_ref)))).
  keeps_step; [by apply pl_new|keeps_auto].
Qed.
Lemma keeps_account_key what ua : keeps R (account_key what ua).
Proof using Type*. unfold account_key. keeps_auto. Qed.
#[local] Hint Resolve keeps_newClient keeps_account_key : keeps.

Lemma keeps_create_slots u up slots : keeps R (create_slots u up slots).
Proof using Type*.
  induction slots as [|slot slots IH]; simpl; [keeps_auto|]. unfold create_slot. keeps_auto.
Qed.
#[local] Hint Resolve keeps_create_slots : keeps.
Lemma keeps_getOrCreateAll u : keeps R (getOrCreateAll cfg u).
Proof using Type*. unfold getOrCreateAll. keeps_auto. Qed.
#[local] Hint Resolve keeps_getOrCreateAll : keeps.

Lemma keeps_ensureSlotRegistered u slot c : keeps R (ensureSlotRegistered cfg u slot c).
Proof using Type*.
  unfold ensureSlotRegistered.
  pose proof (keeps_Register R c (up_ContactEmail (default zero_UpstreamConfig (Upstreams cfg !! u)))
    (EAB (default zero_UpstreamConfig (Upstreams cfg !! u))) (pl_SetAccountURL c)).
  keeps_auto.
Qed.
#[local] Hint Resolve keeps_ensureSlotRegistered : keeps.
Lemma keeps_index_client cs slot : keeps R (index_client cs slot).
Proof using Type*. unfold index_client. keeps_auto. Qed.
#[local] Hint Resolve keeps_index_client : keeps.

Lemma keeps_NextClient u : keeps R (NextClient cfg u).
Proof using Type*. unfold NextClient. keeps_auto. Qed.
Lemma keeps_GetSlot u slot : keeps R (GetSlot cfg u slot).
Proof using Type*. unfold GetSlot. keeps_auto. Qed.
Lemma keeps_GetClientForAccount u a : keeps R (GetClientForAccount cfg u a).
Proof using Type*.
  unfold GetClientForAccount, register_account. keeps_auto.
  by apply keeps_Register; [apply _|intros; apply pl_SetAccountURL].
Qed.
End pool_keeps.
#[export] Hint Resolve keeps_NextClient keeps_GetSlot keeps_GetClientForAccount : keeps.

#[export] Instance keeps_all_pool `{FreshNonces} : PoolRel keeps_all.
Proof.
  split; [apply _| | | | | |].
  - intros cl Hcl w Hi. apply (nonce_inv_new ∅); [..|done]; rewrite Hcl; [apply empty_ring_ok|done].
  - intros c u. apply keeps_all_SetAccountURL.
  - intros f w Hi. by apply (nonce_inv_same ∅ w).
  - intros A f w. unfold db_read, db, bind, ask, keeps_all. simpl.
    destruct (env_db _); intros Hi; by apply (nonce_inv_same ∅ w); [simpl; lia|..].
  - intros ua w. unfold db, bind, ask, keeps_all. simpl.
    destruct (env_db _); intros Hi; by apply (nonce_inv_same ∅ w); [simpl; lia|..].
  - intros ua w. unfold db, bind, ask, keeps_all. simpl.
    destruct (env_db _); intros Hi; by apply (nonce_inv_same ∅ w); [simpl; lia|..].
Qed.

(** ** Account clients agree with the database *)
Section coherence.
Context `{Env} `{!CryptoLaws} (cfg : Config).

(** The stored account of (upstream, gateway account) is the client's: the URL
    it signs with and a text that parses to its key. *)
Definition persisted (w : World) (u a : string) (cl : Client) : Prop :=
  ∃ row, upstream_accounts_by_account (w_store w) !! (u, a) = Some row ∧
         ur_account_url row = accountURL cl ∧
         parseECPrivateKeyPEM (ur_private_key row) = Ok (key cl).

Record pool_ok (w : World) : Prop := {
  po_next c : is_Some (w_heap w !! c) → c < w_next w;
  po_slots u cs : clients (w_pool w) !! u = Some cs →
    cs ≠ [] ∧ ∀ c, c ∈ cs → is_Some (w_heap w !! c);
  po_account u a c : lookup_account u a (w_pool w) = Some c →
    ∃ cl, w_heap w !! c = Some cl ∧ persisted w u a cl;
  po_disjoint u a c v cs : lookup_account u a (w_pool w) = Some c →
    clients (w_pool w) !! v = Some cs → c ∉ cs
}.

(** Everything but one client's account URL is framed. *)
Record frame_but (c : client_ref) (w w' : World) : Prop := {
  fb_store : w_store w' = w_store w;
  fb_pool : w_pool w' = w_pool w;
  fb_next : w_next w' = w_next w;
  fb_heap d : d ≠ c → identity <$> w_heap w' !! d = identity <$> w_heap w !! d;
  fb_key : key <$> w_heap w' !! c = key <$> w_heap w !! c
}.

#[global] Instance frame_but_pre c : PreOrder (frame_but c).
Proof.
  split; [done|]. intros w1 w2 w3 [] []. split; try congruence.
  intros d Hd. by rewrite fb_heap1, fb_heap0.
Qed.

Lemma client_frame_but c w w' : client_frame w w' → frame_but c w w'.
Proof.
  intros Hf. split; [apply Hf..|intros d _; apply Hf|].
  pose proof (cf_heap w w' Hf c) as Hc.
  destruct (w_heap w' !! c), (w_heap w !! c); simpl in *; try done. by injection Hc as ->.
Qed.
Lemma keeps_weaken {A} (R S : World → World → Prop) (m : M A) :
  (∀ w w', R w w' → S w w') → keeps R m → keeps S m.
Proof. intros HRS Hm w. by apply HRS. Qed.

#[global] Instance frame_but_post c : PostRel (frame_but c).
Proof.
  split; [apply _| | |]; intros; apply (keeps_weaken client_frame); try apply client_frame_but.
  - apply cr_ask.
  - by apply keeps_Directory, _.
  - by apply keeps_attempts, _.
Qed.

Lemma heap_some_frame c w w' d :
  frame_but c w w' → is_Some (w_heap w' !! d) ↔ is_Some (w_heap w !! d).
Proof.
  intros []. destruct (decide (d = c)) as [->|Hd].
  - destruct (w_heap w' !! c), (w_heap w !! c); simpl in *; naive_solver.
  - specialize (fb_heap0 d Hd). destruct (w_heap w' !! d), (w_heap w !! d); simpl in *; naive_solver.
Qed.

Lemma SetAccountURL_frame c u w :
  let w' := (SetAccountURL c u w).2 in
  frame_but c w w' ∧ accountURL <$> w_heap w' !! c = (λ _, u) <$> w_heap w !! c.
Proof.
  simpl. split; [split; try done; simpl|].
  - intros d Hd. by rewrite lookup_alter_ne.
  - rewrite lookup_alter_eq. by destruct (w_heap w !! c).
  - rewrite lookup_alter_eq. by destruct (w_heap w !! c).
Qed.

(** A registration that fails leaves the client as it was; one that succeeds ends by
    noting the account URL, which is not empty. *)
Lemma after_Register_cases c contact eab w :
  after (Register c contact eab) w (λ r w',
    (client_frame w w' ∧ ∀ u, r ≠ Some (Ok u)) ∨
    ∃ u w1, r = Some (Ok u) ∧ u ≠ "" ∧ client_frame w w1 ∧ w' = (SetAccountURL c u w1).2).
Proof.
  unfold Register. apply after_bind_ok.
  apply (after_keeps client_frame); [apply pr_Directory|]. intros [[d|e]|] w1 _ Hf1; [|by left..].
  apply after_bind_ok, (after_keeps client_frame).
  { destruct eab; keeps_auto. }
  intros [[j|e]|] w2 _ Hf2; [|left; split; [by etrans|done]..].
  apply after_bind_ok, (after_keeps client_frame); [keeps_auto|].
  intros [[rs|e]|] w3 _ Hf3; [|left; split; [by etrans; [|etrans]|done]..].
  assert (client_frame w w3) as Hf by (by etrans; [|etrans]).
  destruct (expect_status _ rs); [|by left].
  destruct (String.eqb_spec (registered_url rs) "") as [|Hne]; [by left|].
  apply after_bind, after_modify, after_ret. right. by exists (registered_url rs), w3.
Qed.

(** A successful registration leaves the returned URL, not empty, in the client. *)
Lemma after_Register c contact eab w :
  after (Register c contact eab) w (λ r w', frame_but c w w' ∧
    ∀ u, r = Some (Ok u) → accountURL <$> w_heap w' !! c = (λ _, u) <$> w_heap w' !! c ∧ u ≠ "").
Proof.
  eapply after_mono; [apply after_Register_cases|].
  intros r w' [[Hf Hr]|(u & w1 & -> & Hne & Hf & ->)].
  - split; [by apply client_frame_but|]. intros u Hu. by destruct (Hr u).
  - destruct (SetAccountURL_frame c u w1) as [Hf1 _].
    split; [etrans; [by apply client_frame_but|done]|]. intros u' [= <-]. split; [|done].
    simpl. rewrite lookup_alter_eq. by destruct (w_heap w1 !! c).
Qed.

(** ** The invariant under the steps of the pool *)
Lemma pool_ok_frame c w w' :
  pool_ok w → (∀ u a, lookup_account u a (w_pool w) ≠ Some c) → frame_but c w w' → pool_ok w'.
Proof.
  intros [] Hc Hf. pose proof Hf as []. split; rewrite ?fb_pool0, ?fb_next0.
  - intros d Hd. by apply po_next0, (heap_some_frame c w w' d).
  - intros u cs Hcs. destruct (po_slots0 u cs Hcs) as [Hne Hall]. split; [done|].
    intros d Hd. by apply (heap_some_frame c w w' d Hf), Hall.
  - intros u a d Hd. destruct (po_account0 u a d Hd) as (cl & Hcl & row & Hrow & Hurl & Hkey).
    assert (d ≠ c) as Hne by (intros ->; by eapply Hc).
    specialize (fb_heap0 d Hne). rewrite Hcl in fb_heap0. simpl in fb_heap0.
    destruct (w_heap w' !! d) as [cl'|] eqn:Hcl'; [|done]. simpl in fb_heap0. injection fb_heap0 as Hk _ Hu.
    exists cl'. split; [done|]. exists row. rewrite fb_store0, Hu, Hk. done.
  - done.
Qed.

Lemma pool_ok_client_frame w w' : pool_ok w → client_frame w w' → pool_ok w'.
Proof.
  intros Hp Hf. apply (pool_ok_frame (w_next w) w w'); [done| |by apply client_frame_but].
  intros u a Ha. destruct (po_account w Hp u a _ Ha) as (cl & Hcl & _).
  assert (w_next w < w_next w); [|lia]. apply (po_next w Hp). by exists cl.
Qed.

(** Steps outside the heap, the pool and the account table. *)
Lemma pool_ok_same w w' :
  pool_ok w → w_heap w' = w_heap w → w_next w' = w_next w → w_pool w' = w_pool w →
  upstream_accounts_by_account (w_store w') = upstream_accounts_by_account (w_store w) → pool_ok w'.
Proof.
  intros [] Hh Hn Hp Hs. split; rewrite ?Hh, ?Hn, ?Hp; try done.
  intros u a c Hc. unfold persisted. rewrite Hs. by apply po_account0.
Qed.

(** An account is stored before a client is kept for it. *)
Lemma pool_ok_row u a row w :
  pool_ok w → lookup_account u a (w_pool w) = None →
  pool_ok (set_store (with_by_account (<[(u, a) := row]>) (w_store w)) w).
Proof.
  intros [] Hnone. split; simpl; try done.
  intros v b d Hd. destruct (po_account0 v b d Hd) as (cl' & Hcl' & row' & Hrow & Hx).
  exists cl'. split; [done|]. exists row'. split; [|done]. simpl.
  rewrite lookup_insert_ne; [done|]. intros [= <- <-]. congruence.
Qed.

Definition new_world (cl : Client) (w : World) : World :=
  set_next (S (w_next w)) (set_heap (<[w_next w := cl]> (w_heap w)) w).

Lemma pool_ok_new cl w : pool_ok w → pool_ok (new_world cl w).
Proof.
  intros []. split; simpl.
  - intros c. destruct (decide (w_next w = c)) as [<-|Hne]; [lia|].
    rewrite lookup_insert_ne by done. intros Hc%po_next0. lia.
  - intros u cs Hcs. destruct (po_slots0 u cs Hcs) as [Hne Hall]. split; [done|].
    intros c Hc. by apply insert_keeps_key, Hall.
  - intros u a c Hc. destruct (po_account0 u a c Hc) as (cl' & Hcl & Hpers). exists cl'.
    split; [|done]. rewrite lookup_insert_ne; [done|]. intros <-.
    assert (w_next w < w_next w); [|lia]. apply po_next0. by exists cl'.
  - done.
Qed.
Lemma new_not_account w u a : pool_ok w → lookup_account u a (w_pool w) ≠ Some (w_next w).
Proof.
  intros Hp Ha. destruct (po_account w Hp u a _ Ha) as (cl & Hcl & _).
  assert (w_next w < w_next w); [|lia]. apply (po_next w Hp). by exists cl.
Qed.

(** What [newClientForUpstream] does when it succeeds. *)
Lemma after_newClient u up k w (Q : option (result client_ref) → World → Prop) :
  (∀ e n, Q (Some (Err e)) (set_tick n w)) →
  (∀ n, Q (Some (Ok (w_next w)))
          (new_world (MkClient _ (DirectoryURL up) k "" None empty_ring) (set_tick n w))) →
  after (newClientForUpstream u up k) w Q.
Proof.
  intros He Hok. unfold newClientForUpstream. destruct (CACertPath up !=? "").
  - apply after_bind, after_ask. destruct (env_cacert _ _); [apply after_ret, He|].
    apply (Hok (S (w_tick w))).
  - specialize (Hok (w_tick w)). destruct w. exact Hok.
Qed.

(** A database call that leaves the account table alone. *)
Lemma pool_ok_db {A} (f : Store → result A * Store) w :
  pool_ok w →
  (∀ s, upstream_accounts_by_account (f s).2 = upstream_accounts_by_account s) →
  after (db f) w (λ _ w', pool_ok w' ∧ w_pool w' = w_pool w ∧ w_next w' = w_next w ∧ w_heap w' = w_heap w).
Proof.
  intros Hp Hf. unfold db. apply after_bind, after_ask.
  destruct (env_db (w_tick w)); [by split; [apply (pool_ok_same w)|]|].
  unfold after. simpl. destruct (f (w_store w)) as [r s] eqn:Hs. simpl.
  split; [|done]. apply (pool_ok_same w); try done. simpl. by rewrite <- (Hf (w_store w)), Hs.
Qed.

(** The client [c] belongs to no account yet and [lookup] is what it was. *)
Definition unclaimed (w0 w : World) (c : client_ref) : Prop :=
  pool_ok w ∧ w_pool w = w_pool w0 ∧ is_Some (w_heap w !! c) ∧
  ∀ u a, lookup_account u a (w_pool w) ≠ Some c.

Lemma unclaimed_frame w0 w w' c : unclaimed w0 w c → frame_but c w w' → unclaimed w0 w' c.
Proof.
  intros (Hp & Hl & Hc & Hn) Hf. split_and!.
  - by eapply pool_ok_frame.
  - by rewrite (fb_pool c w w' Hf).
  - by apply (heap_some_frame c w w' c Hf).
  - by rewrite (fb_pool c w w' Hf).
Qed.

(** Registering [c] and saving its account: what the database then says. *)
Lemma after_register_account u a up c w0 w :
  unclaimed w0 w c → lookup_account u a (w_pool w0) = None →
  after (register_account u a up c) w (λ r w', unclaimed w0 w' c ∧
    (r = Some (Ok tt) → ∃ cl, w_heap w' !! c = Some cl ∧ persisted w' u a cl)).
Proof.
  intros Hu0 Hnone. unfold register_account. apply after_bind_ok, after_wrap.
  eapply after_mono; [apply after_Register|]. intros r w1 [Hf1 Hr1].
  pose proof (unclaimed_frame _ _ _ _ Hu0 Hf1) as Hu1.
  destruct r as [[url|e]|]; [|done..]. destruct (Hr1 url eq_refl) as [Hurl _].
  apply after_bind_ok, after_bind, after_deref.
  destruct (w_heap w1 !! c) as [cl|] eqn:Hcl; [|done].
  apply after_ret. destruct (MarshalECPrivateKey (key cl)) as [der|e] eqn:Hder; [|done].
  apply after_bind, after_ask, after_wrap. unfold db. apply after_bind, after_ask.
  destruct (env_db _) as [e|]; [split; [|done]; destruct Hu1 as (?&?&?&?); split_and!; try done;
    by apply (pool_ok_same w1)|].
  destruct Hu1 as (Hp & Hl & Hc & Hn). unfold after. simpl. split.
  - split_and!; try done. apply (pool_ok_row u a _ (set_tick (S (S (w_tick w1))) w1)).
    + by apply (pool_ok_same w1).
    + simpl. congruence.
  - intros _. exists cl. split; [done|]. eexists. simpl. rewrite lookup_insert_eq. split; [done|].
    injection Hurl as Hurl. simpl. rewrite Hurl. split; [done|]. by apply pem_roundtrip.
Qed.

(** Publishing a client whose account is stored. *)
Lemma pool_ok_publish u a c cl w :
  pool_ok w → w_heap w !! c = Some cl → persisted w u a cl →
  (∀ v cs, clients (w_pool w) !! v = Some cs → c ∉ cs) →
  let w' := set_pool (store_account_client u a c (w_pool w)) w in
  pool_ok w' ∧ lookup_account u a (w_pool w') = Some c.
Proof.
  intros Hp Hcl Hpers Hdis. simpl.
  assert (∀ v b d, lookup_account v b (store_account_client u a c (w_pool w)) = Some d →
            (v = u ∧ b = a ∧ d = c) ∨ lookup_account v b (w_pool w) = Some d) as Hold.
  { intros v b d. unfold lookup_account, store_account_client. simpl.
    destruct (decide (u = v)) as [<-|Huv].
    - rewrite lookup_insert_eq. simpl. destruct (decide (a = b)) as [<-|Hab].
      + rewrite lookup_insert_eq. naive_solver.
      + rewrite lookup_insert_ne by done. destruct (accountClients (w_pool w) !! u); simpl; [by right|].
        by rewrite lookup_empty.
    - rewrite lookup_insert_ne by done. by right. }
  split.
  - destruct Hp. split; simpl; try done.
    + intros v b d [(-> & -> & ->)|Hd]%Hold; [by exists cl|]. by apply po_account0.
    + intros v b d v' cs [(-> & -> & ->)|Hd]%Hold; [by apply Hdis|]. by eapply po_disjoint0.
  - unfold lookup_account, store_account_client. simpl. by rewrite lookup_insert_eq; simpl; rewrite lookup_insert_eq.
Qed.

Lemma account_key_after what ua w :
  after (account_key what ua) w (λ r w', client_frame w w' ∧ ∀ k, r = Some (Ok k) →
    match ua with Some ua => parseECPrivateKeyPEM (ua_PrivateKey ua) = Ok k | None => True end).
Proof.
  unfold account_key. destruct ua as [ua|].
  - apply after_ret. split; [done|]. destruct (parseECPrivateKeyPEM _); naive_solver.
  - apply after_wrap, after_ask. split; [exact (cr_ask (R := client_frame) _ env_genkey w)|].
    by destruct (env_genkey _).
Qed.


(** Adopting a stored account. *)
Lemma after_adopt u a ua row c cl w0 w :
  unclaimed w0 w c → w_heap w !! c = Some cl →
  upstream_accounts_by_account (w_store w) !! (u, a) = Some row →
  ua_AccountURL ua = ur_account_url row → ua_PrivateKey ua = ur_private_key row →
  parseECPrivateKeyPEM (ua_PrivateKey ua) = Ok (key cl) →
  after (do! SetAccountURL c (ua_AccountURL ua) in ret (Ok tt)) w (λ r w', unclaimed w0 w' c ∧
    (r = Some (Ok tt : result unit) → ∃ cl, w_heap w' !! c = Some cl ∧ persisted w' u a cl)).
Proof.
  intros Hu Hcl Hrow Hurl Hkey Hparse. apply after_bind.
  destruct (SetAccountURL_frame c (ua_AccountURL ua) w) as [Hf _].
  unfold after. simpl. split; [by apply (unclaimed_frame w0 w)|]. intros _.
  rewrite lookup_alter_eq, Hcl. eexists. split; [done|]. exists row.
  split; [done|]. simpl. split; [done|]. congruence.
Qed.

Lemma GetClientForAccount_ok u a w :
  pool_ok w →
  after (GetClientForAccount cfg u a) w (λ r w', pool_ok w' ∧
    ∀ c, r = Some (Ok c) → lookup_account u a (w_pool w') = Some c).
Proof.
  intros Hp. unfold GetClientForAccount. apply after_bind, after_gets.
  destruct (lookup_account u a (w_pool w)) as [c|] eqn:Hl; [by split; [|intros ? [= <-]]|].
  apply after_bind, after_gets. rewrite Hl.
  destruct (Upstreams cfg !! u) as [up|]; [|done].
  apply after_bind_ok, after_wrap, after_db_read.
  { intros e _. split; [by apply (pool_ok_same w)|done]. }
  intros _. set (w1 := set_tick _ w). unfold GetUpstreamAccountForAccount. cbn beta iota.
  match goal with |- context [account_key _ ?x] => set (ua := x) end.
  assert (pool_ok w1) as Hp1 by by apply (pool_ok_same w).
  apply after_bind_ok. eapply after_mono; [apply account_key_after|]. intros r w2 [Hf2 Hk2].
  assert (pool_ok w2) as Hp2 by by eapply pool_ok_client_frame.
  assert (w_pool w2 = w_pool w) as Hl2 by (rewrite (cf_pool _ _ Hf2); done).
  destruct r as [[k|e]|]; [|done..]. apply after_bind_ok, after_newClient.
  { intros e n. split; [by apply (pool_ok_same w2)|done]. }
  intros n. set (cl := MkClient _ _ k _ _ _). set (w3 := new_world cl (set_tick n w2)).
  set (c := w_next (set_tick n w2)).
  assert (pool_ok w3) as Hp3 by by apply pool_ok_new, (pool_ok_same w2).
  assert (w_heap w3 !! c = Some cl) as Hcl by apply lookup_insert_eq.
  assert (unclaimed w w3 c) as Hc3.
  { split_and!; [done..|by exists cl|]. intros v b. by apply (new_not_account w2). }
  apply after_bind_ok.
  apply (after_mono _ _ (λ r w4, unclaimed w w4 c ∧
    (r = Some (Ok tt) → ∃ cl, w_heap w4 !! c = Some cl ∧ persisted w4 u a cl))).
  - destruct (upstream_accounts_by_account (w_store w) !! (u, a)) as [row|] eqn:Hrow; subst ua; simpl.
    + apply (after_adopt u a (MkUpstreamAccount u a 0 (ur_account_url row) (ur_private_key row)
        (parse_created (ur_created_at row))) row c cl w w3); try done; [|by apply Hk2].
      simpl. by rewrite (cf_store _ _ Hf2).
    + by apply after_register_account.
  - intros r w4 [(Hp4 & Hl4 & _ & Hn4) Hpers]. destruct r as [[[]|e]|]; [|done..].
    destruct (Hpers eq_refl) as (cl4 & Hcl4 & Hst4). apply after_bind, after_modify.
    destruct (pool_ok_publish u a c cl4 w4) as [Hp5 Hl5]; try done.
    { intros v cs Hcs Hin. rewrite Hl4, <- Hl2 in Hcs.
      destruct (po_slots w2 Hp2 v cs Hcs) as [_ Hall]. specialize (po_next w2 Hp2 c (Hall c Hin)).
      subst c. simpl. lia. }
    split; [done|]. by intros ? [= <-].
Qed.

(** A client handed out for a gateway account is in the pool and its key
    and account URL are the ones in the database; asking again gives the same client
    without touching anything. The pool stays coherent on every path. *)
Theorem account_client_persisted u a w :
  pool_ok w →
  let '(r, w') := GetClientForAccount cfg u a w in
  pool_ok w' ∧
  ∀ c, r = Some (Ok c) →
    (∃ cl, w_heap w' !! c = Some cl ∧ persisted w' u a cl) ∧
    GetClientForAccount cfg u a w' = (Some (Ok c), w').
Proof.
  intros Hp. pose proof (GetClientForAccount_ok u a w Hp) as [Hp' Hl]. unfold after in *.
  destruct (GetClientForAccount cfg u a w) as [r w']. simpl in *. split; [done|].
  intros c Hr. specialize (Hl c Hr). split; [by apply (po_account w' Hp')|].
  unfold GetClientForAccount, bind, gets, ret. cbn beta iota. rewrite Hl. done.
Qed.

(** C23: a restart loses no account. From the same database, a process whose
    pool does not know the account yet builds a client with the same key and URL, and sends
    no request to do so, when the upstream has no ca_cert_path, whose file would be read, and
    the row can be read. *)
Theorem account_survives_restart u a w c cl w0 up :
  pool_ok w → lookup_account u a (w_pool w) = Some c → w_heap w !! c = Some cl →
  w_store w0 = w_store w → lookup_account u a (w_pool w0) = None →
  Upstreams cfg !! u = Some up → CACertPath up = "" → env_db (w_tick w0) = None →
  let '(r, w') := GetClientForAccount cfg u a w0 in
  w_trace w' = w_trace w0 ∧ w_store w' = w_store w0 ∧
  ∃ c' cl', r = Some (Ok c') ∧ w_heap w' !! c' = Some cl' ∧
            key cl' = key cl ∧ accountURL cl' = accountURL cl.
Proof.
  intros Hp Hl Hc Hs Hl0 Hup Hca Hdb.
  destruct (po_account w Hp u a c Hl) as (cl' & Hc' & row & Hrow & Hurl & Hkey). simplify_eq.
  refine (after_let _ _ (λ r w', _ ∧ _ ∧ _) _).
  unfold GetClientForAccount. apply after_bind, after_gets. rewrite Hl0.
  apply after_bind, after_gets. rewrite Hl0, Hup. apply after_bind_ok, after_wrap, after_db_read.
  { intros e He. congruence. }
  intros _. unfold GetUpstreamAccountForAccount. rewrite Hs, Hrow. cbn.
  apply after_bind_ok. unfold account_key. cbn. rewrite Hkey.
  unfold newClientForUpstream, bind_ok, bind, ret. rewrite Hca. cbn. split; [done|]. split; [done|].
  eexists _, _. split; [done|]. simpl. by rewrite lookup_alter_eq, lookup_insert_eq.
Qed.

(** ** Slots *)

(** Existing clients keep their identity. *)
Definition same_clients (w w' : World) : Prop :=
  ∀ d, is_Some (w_heap w !! d) → identity <$> w_heap w' !! d = identity <$> w_heap w !! d.
Lemma same_clients_some w w' d : same_clients w w' → is_Some (w_heap w !! d) → is_Some (w_heap w' !! d).
Proof.
  intros Hs Hd. specialize (Hs d Hd). destruct Hd as [cl Hcl]. rewrite Hcl in Hs.
  destruct (w_heap w' !! d); [by eexists|done].
Qed.
Lemma same_clients_frame w w' : client_frame w w' → same_clients w w'.
Proof. intros Hf d _. apply Hf. Qed.
Lemma same_clients_trans w1 w2 w3 : same_clients w1 w2 → same_clients w2 w3 → same_clients w1 w3.
Proof. intros Hs1 Hs2 d Hd. rewrite Hs2; [by apply Hs1|]. by eapply same_clients_some. Qed.

Definition only_new (w w' : World) : Prop := same_clients w w' ∧ w_store w' = w_store w.

(** The clients created for an upstream are new. *)
Lemma create_slot_ok u up slot w :
  pool_ok w →
  after (create_slot u up slot) w (λ r w', pool_ok w' ∧ w_pool w' = w_pool w ∧ w_next w ≤ w_next w' ∧
    only_new w w' ∧
    ∀ c, r = Some (Ok c) → w_next w ≤ c ∧ is_Some (w_heap w' !! c)).
Proof.
  intros Hp. unfold create_slot. apply after_bind_ok, after_wrap, after_db_read.
  { intros e _. split_and!; [by apply (pool_ok_same w)|done..]. }
  intros _. set (w1 := set_tick _ w). apply after_bind_ok.
  assert (pool_ok w1) as Hp1 by by apply (pool_ok_same w).
  eapply after_mono; [apply account_key_after|]. intros r w2 [Hf2 _].
  assert (pool_ok w2) as Hp2 by by eapply pool_ok_client_frame.
  assert (same_clients w w2) as Hd2 by (by apply (same_clients_frame w1)).
  assert (w_pool w2 = w_pool w ∧ w_next w2 = w_next w ∧ w_store w2 = w_store w) as (Hl2 & Hn2 & Hs2)
    by by destruct Hf2.
  destruct r as [[k|e]|]; [|split_and!; [done|done|lia|done|done]..].
  apply after_bind_ok, after_newClient.
  { intros e n. split_and!; [by apply (pool_ok_same w2)|done|simpl; lia|done|done]. }
  intros n. set (cl := MkClient _ _ k _ _ _). set (w3 := new_world cl (set_tick n w2)).
  set (c := w_next (set_tick n w2)). apply after_bind.
  assert (pool_ok w3) as Hp3 by by apply pool_ok_new, (pool_ok_same w2).
  apply (after_mono _ _ (λ r w4, frame_but c w3 w4)).
  { match goal with |- after (match ?x with Some _ => _ | None => _ end) _ _ => destruct x end;
      [apply SetAccountURL_frame|done]. }
  intros r w4 Hf4.
  assert (pool_ok w4) as Hp4.
  { apply (pool_ok_frame c w3); [done| |done]. intros v b. by apply (new_not_account w2). }
  assert (only_new w w4) as Hd.
  { split; [|by rewrite (fb_store _ _ _ Hf4)]. intros d Hd.
    assert (d ≠ c) as Hne by (pose proof (po_next w Hp d Hd); subst c; simpl; lia).
    rewrite (fb_heap _ _ _ Hf4 d Hne). simpl. rewrite lookup_insert_ne by done. by apply Hd2. }
  assert (w_pool w4 = w_pool w) as Hl4 by (rewrite (fb_pool _ _ _ Hf4); done).
  assert (w_next w ≤ w_next w4) as Hn4 by (rewrite (fb_next _ _ _ Hf4); simpl; lia).
  destruct r as [[]|]; [|by split_and!].
  apply after_ret. split_and!; try done. intros ? [= <-]. split; [subst c; simpl; lia|].
  apply (heap_some_frame c w3 w4 c Hf4). simpl. rewrite lookup_insert_eq. by eexists.
Qed.

Lemma create_slots_ok u up slots w :
  pool_ok w →
  after (create_slots u up slots) w (λ r w', pool_ok w' ∧ w_pool w' = w_pool w ∧ w_next w ≤ w_next w' ∧
    only_new w w' ∧
    ∀ cs, r = Some (Ok cs) → length cs = length slots ∧ NoDup cs ∧
      ∀ c, c ∈ cs → w_next w ≤ c ∧ is_Some (w_heap w' !! c)).
Proof.
  revert w. induction slots as [|slot slots IH]; intros w Hp; simpl.
  { apply after_ret. split_and!; [done..|]. intros cs [= <-]. split_and!; [done|constructor|].
    intros c Hc. by apply not_elem_of_nil in Hc. }
  apply after_bind_ok. eapply after_mono; [by apply create_slot_ok|].
  intros r w1 (Hp1 & Hl1 & Hn1 & [Hd1 Hs1] & Hr1). destruct r as [[c|e]|]; [|by split_and!..].
  destruct (Hr1 c eq_refl) as [Hc Hsome].
  apply after_bind_ok. eapply after_mono; [by apply IH|].
  intros r w2 (Hp2 & Hl2 & Hn2 & [Hd2 Hs2] & Hr2).
  assert (w_pool w2 = w_pool w) by congruence. assert (w_next w ≤ w_next w2) by lia.
  assert (only_new w w2) as Hd
    by (split; [by eapply same_clients_trans|congruence]).
  destruct r as [[cs|e]|]; [|by split_and!..].
  destruct (Hr2 cs eq_refl) as (Hlen & Hnd & Hcs).
  apply after_ret. split_and!; [done|done|done|done|]. intros ? [= <-].
  split_and!; [simpl; congruence| |].
  - apply NoDup_cons. split; [|done]. intros Hin. destruct (Hcs c Hin).
    pose proof (po_next w1 Hp1 c Hsome). lia.
  - intros d [->|Hd']%elem_of_cons; [split; [done|]; by eapply same_clients_some|].
    destruct (Hcs d Hd'). split; [lia|done].
Qed.

Lemma getOrCreateAll_ok u w :
  pool_ok w →
  after (getOrCreateAll cfg u) w (λ r w', pool_ok w' ∧
    ∀ cs, r = Some (Ok cs) → clients (w_pool w') !! u = Some cs ∧ cs ≠ []).
Proof.
  intros Hp. unfold getOrCreateAll. apply after_bind, after_gets.
  destruct (clients (w_pool w) !! u) as [cs|] eqn:Hcs.
  { split; [done|]. intros ? [= <-]. split; [done|]. by apply (po_slots w Hp u). }
  destruct (Upstreams cfg !! u) as [up|]; [|done].
  apply after_bind_ok. eapply after_mono; [by apply create_slots_ok|].
  intros r w1 (Hp1 & Hl1 & Hn1 & Hd1 & Hr1). destruct r as [[cs|e]|]; [|done..].
  destruct (Hr1 cs eq_refl) as (Hlen & _ & Hall).
  assert (cs ≠ []) as Hne.
  { intros ->. rewrite length_seq in Hlen. unfold slot_count in Hlen. simpl in Hlen.
    destruct (Z.ltb_spec (AccountCount up) 1); lia. }
  apply after_bind, after_modify. split.
  - destruct Hp1. split; simpl; try done.
    + intros v cs' [[<- <-]|[_ Hv]]%lookup_insert_Some; [|by apply (po_slots0 v)].
      split; [done|]. intros c Hc. by apply Hall.
    + intros v a c v' cs' Hl [[<- <-]|[_ Hv]]%lookup_insert_Some; [|by eapply po_disjoint0].
      intros Hin. destruct (Hall c Hin) as [Hge _].
      rewrite Hl1 in Hl. destruct (po_account w Hp v a c Hl) as (cl & Hcl & _).
      assert (c < w_next w); [|lia]. apply (po_next w Hp). by exists cl.
  - intros ? [= <-]. split; [|done]. simpl. apply lookup_insert_eq.
Qed.


(** The slot [GetSlot] uses among [n]. *)
Definition clamp_slot (slot : Z) (n : nat) : nat :=
  if (0 <=? slot)%Z && (slot <? Z.of_nat n)%Z then Z.to_nat slot else 0.

(** Once an upstream's clients exist, every slot of an order yields one of
    them, without any effect: the one at the slot, or the first when the slot is out of
    range (an order older than the configuration). *)
Theorem get_slot_clamped u slot w cs :
  pool_ok w → clients (w_pool w) !! u = Some cs →
  ∃ c, GetSlot cfg u slot w = (Some (Ok c), w) ∧ cs !! clamp_slot slot (length cs) = Some c.
Proof.
  intros Hp Hcs. destruct (po_slots w Hp u cs Hcs) as [Hne _].
  unfold GetSlot, getOrCreateAll, bind_ok, bind, gets. rewrite Hcs. cbn.
  unfold clamp_slot, index_client.
  destruct (decide (0 ≤ slot < Z.of_nat (length cs))%Z) as [Hin|Hout].
  - assert ((slot <? 0)%Z || (Z.of_nat (length cs) <=? slot)%Z = false) as -> by lia.
    assert ((0 <=? slot)%Z && (slot <? Z.of_nat (length cs))%Z = true) as -> by lia.
    rewrite (proj2 (Z.ltb_ge slot 0)) by lia.
    destruct (lookup_lt_is_Some_2 cs (Z.to_nat slot)) as [c Hc]; [lia|]. rewrite Hc. cbn. eauto.
  - assert ((slot <? 0)%Z || (Z.of_nat (length cs) <=? slot)%Z = true) as -> by lia.
    assert ((0 <=? slot)%Z && (slot <? Z.of_nat (length cs))%Z = false) as -> by lia.
    destruct cs as [|c cs']; [done|]. cbn. eauto.
Qed.

(** [k] successive calls of [NextClient] and the slots they return. *)
Fixpoint next_slots (u : string) (k : nat) (w : World) : option (list Z) :=
  match k with
  | 0 => Some []
  | S k =>
      match NextClient cfg u w with
      | (Some (Ok (_, slot)), w') => cons slot <$> next_slots u k w'
      | _ => None
      end
  end.

Definition registered (w : World) (cs : list client_ref) : Prop :=
  ∀ c, c ∈ cs → ∃ cl, w_heap w !! c = Some cl ∧ accountURL cl ≠ "".

(** Over registered accounts, successive orders take the slots in turn:
    k calls return s, s+1, ... modulo the number of accounts, so that any n of them use
    each of n accounts once. *)
Theorem next_client_round_robin u w cs k :
  clients (w_pool w) !! u = Some cs → cs ≠ [] → registered w cs →
  (0 ≤ default 0 (nextSlot (w_pool w) !! u))%Z →
  next_slots u k w = Some ((λ i, (default 0 (nextSlot (w_pool w) !! u) + Z.of_nat i)
                             mod Z.of_nat (length cs))%Z <$> seq 0 k).
Proof.
  revert w. induction k as [|k IH]; intros w Hcs Hne Hreg Hs; [done|].
  assert (0 < Z.of_nat (length cs))%Z as Hn by (destruct cs; [done|simpl; lia]).
  set (n := Z.of_nat (length cs)) in *. set (s := default 0%Z (nextSlot (w_pool w) !! u)) in *.
  pose proof (Z.mod_pos_bound s n Hn) as Hm.
  assert (∃ c, cs !! Z.to_nat (s mod n)%Z = Some c) as [c Hc].
  { apply lookup_lt_is_Some_2. lia. }
  destruct (Hreg c) as (cl & Hcl & Hurl); [by eapply list_elem_of_lookup_2|].
  set (w' := set_pool (set_nextSlot (<[u := ((s mod n + 1) mod n)%Z]>) (w_pool w)) w).
  assert (NextClient cfg u w = (Some (Ok (c, (s mod n)%Z)), w')) as Hnext.
  { unfold NextClient, getOrCreateAll, bind_ok, bind, gets. rewrite Hcs. cbn.
    fold n s. rewrite !Z.rem_mod_nonneg by lia. unfold index_client.
    rewrite (proj2 (Z.ltb_ge _ 0)) by lia. rewrite Hc. cbn.
    unfold ensureSlotRegistered, AccountURL, bind, deref. cbn. rewrite Hcl. cbn.
    by rewrite (proj2 (String.eqb_neq _ _) Hurl). }
  simpl. rewrite Hnext, (IH w') by (try done; simpl; rewrite lookup_insert_eq; simpl; apply Z.mod_pos_bound; lia).
  simpl. rewrite lookup_insert_eq. simpl. f_equal. f_equal; [f_equal; lia|].
  rewrite <- fmap_S_seq, <- list_fmap_compose. apply list_fmap_ext. intros i x _. cbn -[Z.of_nat].
  rewrite Z.add_mod_idemp_l, <- Z.add_assoc, Z.add_mod_idemp_l by lia. f_equal. lia.
Qed.

(** A slot whose client has an account URL is taken to be registered. *)
Lemma ensureSlotRegistered_known u slot c w :
  (∃ cl, w_heap w !! c = Some cl ∧ accountURL cl ≠ "") →
  ensureSlotRegistered cfg u slot c w = (Some (Ok tt), w).
Proof.
  intros (cl & Hcl & Hu). unfold ensureSlotRegistered, AccountURL, bind, deref, ret. rewrite Hcl.
  cbn. by rewrite (proj2 (String.eqb_neq _ _) Hu).
Qed.

(** The registration of a slot fails in one of two ways: the upstream
    refused it, and the next call tries again; or the account exists at the upstream but was
    not written to the database, and no later call of this process writes it: the next
    one reports success without a request or a write. *)
Theorem registration_failures u slot c w :
  let '(r, w') := ensureSlotRegistered cfg u slot c w in
  ∀ e, r = Some (Err e) →
    (∃ e', e = EWrap ("registering with " +:+ slot_name u slot +:+ ": ") e') ∨
    (w_store w' = w_store w ∧ ensureSlotRegistered cfg u slot c w' = (Some (Ok tt), w')).
Proof.
  refine (after_let _ _ (λ r w', ∀ e, _ → _ ∨ _) _). unfold ensureSlotRegistered at 1.
  apply after_bind, after_bind, after_deref. destruct (w_heap w !! c) as [cl|] eqn:Hcl; [|done].
  apply after_ret. destruct (accountURL cl !=? "") eqn:Hu; [done|].
  apply after_bind, after_bind, after_deref. rewrite Hcl. apply after_ret. rewrite Hu.
  apply after_bind_ok, after_wrap. eapply after_mono; [apply after_Register|].
  intros r w1 [Hf1 Hr1]. destruct r as [[url|e]|]; [| |done].
  2:{ intros ? [= <-]. left. eauto. }
  destruct (Hr1 url eq_refl) as [Hurl Hne]. apply after_bind_ok, after_bind, after_deref.
  destruct (w_heap w1 !! c) as [cl1|] eqn:Hcl1; [|done]. injection Hurl as Hurl.
  assert (∀ w2, w_store w2 = w_store w1 → w_heap w2 = w_heap w1 →
    w_store w2 = w_store w ∧ ensureSlotRegistered cfg u slot c w2 = (Some (Ok tt), w2)) as Hend.
  { intros w2 Hs Hh. split; [by rewrite Hs, (fb_store c w w1 Hf1)|].
    apply ensureSlotRegistered_known. exists cl1. rewrite Hh. split; [done|congruence]. }
  apply after_ret. destruct (MarshalECPrivateKey (key cl1)) as [der|e]; cbn [result_bind].
  2:{ intros ? [= <-]. right. by apply Hend. }
  apply after_bind, after_ask, after_wrap, after_db; [|done].
  intros e _ ? [= <-]. right. by apply Hend.
Qed.
End coherence.
