(* ===== verification/PoolThreads.v ===== *)
(** * Concurrent calls of the pool (internal/upstream/pool.go)

    The same calls as in [Pool], cut where another goroutine may run: at every
    acquisition of a mutex and between the database, the network and the tables.  The pool's
    own mutex is held for single steps only; the registration mutexes (one per slot and one
    per gateway account) are held over several, and are part of the state. *)
From S2P Require Export PoolProps.

(** ** Registration mutexes *)

(** The keys of [regMap]. *)
Definition slotRegLock (upstreamID : string) (slot : Z) : string := upstreamID +:+ ":" +:+ pretty slot.
Definition accountRegLock (upstreamID accountID : string) : string :=
  "acct:" +:+ upstreamID +:+ ":" +:+ accountID.

(** Who holds a mutex; one that is not in the map, as every one before its first
    use, is free. *)
Abbreviation regMap := (gmap string nat).

(** ** Goroutines

    A call at the point where it goes on.  [A]: [GetClientForAccount]; [N], [S]:
    [NextClient] and the [ensureSlotRegistered] it ends with; [G]: [GetSlot]. *)
Inductive thread :=
| AEnter (u a : string)
| AWait (u a : string)
| ARecheck (u a : string)
| ALoad (u a : string) (up : UpstreamConfig)
| ACreate (u a : string) (up : UpstreamConfig) (ua : option UpstreamAccount)
| ARegister (u a : string) (up : UpstreamConfig) (c : client_ref)
| ASave (u a : string) (c : client_ref) (accountURL : string)
| APublish (u a : string) (c : client_ref)
| AReturn (u a : string) (r : result client_ref)
| NEnter (u : string)
| SEnter (u : string) (slot : Z) (c : client_ref)
| SWait (u : string) (slot : Z) (c : client_ref)
| SRecheck (u : string) (slot : Z) (c : client_ref)
| SRegister (u : string) (slot : Z) (c : client_ref)
| SSave (u : string) (slot : Z) (c : client_ref) (accountURL : string)
| NReturn (u : string) (r : result (client_ref * Z))
| GEnter (u : string) (slot : Z)
| GReturn (r : result client_ref).

(** The mutex a goroutine holds, and the one it waits for. *)
Definition holds (t : thread) : option string :=
  match t with
  | ARecheck u a | ALoad u a _ | ACreate u a _ _ | ARegister u a _ _ | ASave u a _ _ | APublish u a _ =>
      Some (accountRegLock u a)
  | SRecheck u slot _ | SRegister u slot _ | SSave u slot _ _ => Some (slotRegLock u slot)
  | _ => None
  end.
Definition waits (t : thread) : option string :=
  match t with
  | AWait u a => Some (accountRegLock u a)
  | SWait u slot _ => Some (slotRegLock u slot)
  | _ => None
  end.
Definition returned (t : thread) : bool :=
  match t with AReturn _ _ _ | NReturn _ _ | GReturn _ => true | _ => false end.

Section threads.
Context `{Env} (cfg : Config).

(** The result of [NextClient] once the slot is registered, or not. *)
Definition slot_return (u : string) (slot : Z) (c : client_ref) (r : result unit) : thread :=
  NReturn u (match r with Ok _ => Ok (c, slot) | Err e => Err e end).

(** *** One step

    [AWait] and [SWait] go on as holders of the mutex. *)
Definition advance (t : thread) : M thread :=
  match t with
  | AEnter u a =>
      let! p := gets w_pool in
      ret (match lookup_account u a p with Some c => AReturn u a (Ok c) | None => AWait u a end)
  | AWait u a => ret (ARecheck u a)
  | ARecheck u a =>
      let! p := gets w_pool in
      ret (match lookup_account u a p with
           | Some c => AReturn u a (Ok c)
           | None => match Upstreams cfg !! u with
                     | None => AReturn u a (Err (not_in_config u))
                     | Some up => ALoad u a up
                     end
           end)
  | ALoad u a up =>
      let! r := wrap ("loading upstream account " +:+ account_name u a +:+ ": ")
                  (db_read (GetUpstreamAccountForAccount u a)) in
      ret (match r with Ok ua => ACreate u a up ua | Err e => AReturn u a (Err e) end)
  | ACreate u a up ua =>
      let! r := (let!? k := account_key (account_label u a) ua in
                 let!? c := newClientForUpstream u up k in
                 do! match ua with Some ua => SetAccountURL c (ua_AccountURL ua) | None => ret tt end in
                 ret (Ok c)) in
      ret (match r, ua with
           | Err e, _ => AReturn u a (Err e)
           | Ok c, Some _ => APublish u a c
           | Ok c, None => ARegister u a up c
           end)
  | ARegister u a up c =>
      let! r := wrap ("registering with " +:+ account_name u a +:+ ": ")
                  (Register c (up_ContactEmail up) (EAB up)) in
      ret (match r with Ok url => ASave u a c url | Err e => AReturn u a (Err e) end)
  | ASave u a c accountURL =>
      let! r := (let!? keyPEM := KeyPEM c in
                 let! now := ask env_now in
                 wrap ("persisting upstream account " +:+ account_name u a +:+ ": ")
                   (db (SaveUpstreamAccountForAccount (MkUpstreamAccount u a 0 accountURL keyPEM now)))) in
      ret (match r with Ok _ => APublish u a c | Err e => AReturn u a (Err e) end)
  | APublish u a c =>
      do! update_pool (store_account_client u a c) in ret (AReturn u a (Ok c))
  | NEnter u =>
      let! r := (let!? cs := getOrCreateAll cfg u in
                 let n := Z.of_nat (length cs) in
                 let! p := gets w_pool in
                 let slot := (default 0 (nextSlot p !! u) `rem` n)%Z in
                 do! update_pool (set_nextSlot (<[u := ((slot + 1) `rem` n)%Z]>)) in
                 let! c := index_client cs slot in
                 ret (Ok (c, slot))) in
      ret (match r with Ok (c, slot) => SEnter u slot c | Err e => NReturn u (Err e) end)
  | SEnter u slot c =>
      let! url := AccountURL c in
      ret (if url !=? "" then slot_return u slot c (Ok tt) else SWait u slot c)
  | SWait u slot c => ret (SRecheck u slot c)
  | SRecheck u slot c =>
      let! url := AccountURL c in
      ret (if url !=? "" then slot_return u slot c (Ok tt) else SRegister u slot c)
  | SRegister u slot c =>
      let up := default zero_UpstreamConfig (Upstreams cfg !! u) in
      let! r := wrap ("registering with " +:+ slot_name u slot +:+ ": ")
                  (Register c (up_ContactEmail up) (EAB up)) in
      ret (match r with Ok url => SSave u slot c url | Err e => slot_return u slot c (Err e) end)
  | SSave u slot c accountURL =>
      let! r := (let!? keyPEM := KeyPEM c in
                 let! now := ask env_now in
                 wrap ("persisting upstream account " +:+ slot_name u slot +:+ ": ")
                   (db (SaveUpstreamAccount (MkUpstreamAccount u "" slot accountURL keyPEM now)))) in
      ret (slot_return u slot c r)
  | GEnter u slot => let! r := GetSlot cfg u slot in ret (GReturn r)
  | AReturn _ _ _ | NReturn _ _ | GReturn _ => ret t
  end.

(** *** The machine *)
Record machine := MkMachine {
  m_world : World;
  m_locks : regMap;
  m_threads : gmap nat thread
}.

(** Locking and unlocking around a step of goroutine [i]: a mutex that is held blocks
    the goroutine that waits for it; what a goroutine no longer holds is free. *)
Definition can_go (t : thread) (locks : regMap) : bool :=
  match waits t with Some k => bool_decide (locks !! k = None) | None => negb (returned t) end.
Definition relock (i : nat) (t t' : thread) (locks : regMap) : regMap :=
  match holds t, holds t' with
  | None, Some k => <[k := i]> locks
  | Some k, None => delete k locks
  | _, _ => locks
  end.

(** What the rest of the process does meanwhile: it uses clients, makes new
    ones, and stores everything but upstream accounts. *)
Record outside (w w' : World) : Prop := {
  os_pool : w_pool w' = w_pool w;
  os_rows : upstream_accounts_by_account (w_store w') = upstream_accounts_by_account (w_store w);
  os_next : w_next w ≤ w_next w';
  os_heap (c : client_ref) : c < w_next w → identity <$> w_heap w' !! c = identity <$> w_heap w !! c;
  os_fresh (c : client_ref) : w_next w' ≤ c → w_heap w' !! c = None
}.

Inductive machine_step : machine → machine → Prop :=
| step_call i t s :
    m_threads s !! i = None → (∃ u a, t = AEnter u a) ∨ (∃ u, t = NEnter u) ∨ (∃ u n, t = GEnter u n) →
    machine_step s (MkMachine (m_world s) (m_locks s) (<[i := t]> (m_threads s)))
| step_thread i t t' w' s :
    m_threads s !! i = Some t → can_go t (m_locks s) = true →
    advance t (m_world s) = (Some t', w') →
    machine_step s (MkMachine w' (relock i t t' (m_locks s)) (<[i := t']> (m_threads s)))
| step_outside w' s :
    outside (m_world s) w' → machine_step s (MkMachine w' (m_locks s) (m_threads s)).

(** The step of goroutine [i], and a schedule of such steps. *)
Definition step_at (i : nat) (s : machine) : option machine :=
  t ← m_threads s !! i;
  if can_go t (m_locks s) then
    match advance t (m_world s) with
    | (Some t', w') => Some (MkMachine w' (relock i t t' (m_locks s)) (<[i := t']> (m_threads s)))
    | (None, _) => None
    end
  else None.
Fixpoint run_schedule (sched : list nat) (s : machine) : option machine :=
  match sched with
  | [] => Some s
  | i :: sched => s' ← step_at i s; run_schedule sched s'
  end.

(** Steps of one goroutine until it has returned. *)
Fixpoint run_thread (fuel : nat) (t : thread) : M (option thread) :=
  match fuel with
  | 0 => ret None
  | S fuel => if returned t then ret (Some t) else let! t' := advance t in run_thread fuel t'
  end.
End threads.
