(* ===== verification/PoolThreadsProps.v ===== *)
(** * What the pool guarantees to concurrent callers

    A goroutine that runs alone computes the function of [Pool]; in any interleaving a
    mutex has one holder, the pool agrees with the database, the callers for one account get
    one client, a client is registered once, and nobody waits for ever on a mutex that
    is free to be released. *)
From S2P Require Export PoolThreads.

Section alone.
Context `{Env} (cfg : Config).

(** ** A goroutine that runs alone *)
(** The outcome of a function as that of its goroutine. *)
Definition as_thread {A} (f : result A → thread) (o : option (result A) * World)
    : option (option thread) * World :=
  (match o.1 with Some r => Some (Some (f r)) | None => None end, o.2).

Lemma run_step n t w :
  run_thread cfg (S n) t w =
  if returned t then (Some (Some t), w)
  else match advance cfg t w with (Some t', w') => run_thread cfg n t' w' | (None, w') => (None, w') end.
Proof. cbn [run_thread]. by destruct (returned t). Qed.

(** On to the next step of the goroutine. *)
Ltac go_on := unfold ret at 1; cbn beta iota; rewrite run_step; cbn [returned advance].
(** A call on both sides, by its outcome. *)
Ltac by_outcome m w := destruct (m w) as [[[?|?]|] ?]; cbn beta iota; try reflexivity.

Lemma alone_publish n u a c w :
  run_thread cfg (S (S n)) (APublish u a c) w =
  as_thread (AReturn u a) ((do! update_pool (store_account_client u a c) in ret (Ok c)) w).
Proof. reflexivity. Qed.
Lemma alone_save n u a c url w :
  run_thread cfg (S (S (S n))) (ASave u a c url) w =
  as_thread (AReturn u a) ((let!? _ :=
      (let!? keyPEM := KeyPEM c in
       let! now := ask env_now in
       wrap ("persisting upstream account " +:+ account_name u a +:+ ": ")
         (db (SaveUpstreamAccountForAccount (MkUpstreamAccount u a 0 url keyPEM now)))) in
    do! update_pool (store_account_client u a c) in ret (Ok c)) w).
Proof.
  rewrite run_step. cbn [returned advance]. rewrite bind_run, (bind_ok_run (bind_ok _ _)).
  by_outcome (let!? keyPEM := KeyPEM c in
       let! now := ask env_now in
       wrap ("persisting upstream account " +:+ account_name u a +:+ ": ")
         (db (SaveUpstreamAccountForAccount (MkUpstreamAccount u a 0 url keyPEM now)))) w.
Qed.
Lemma alone_register n u a up c w :
  run_thread cfg (S (S (S (S n)))) (ARegister u a up c) w =
  as_thread (AReturn u a) ((let!? _ := register_account u a up c in
    do! update_pool (store_account_client u a c) in ret (Ok c)) w).
Proof.
  rewrite run_step. cbn [returned advance]. unfold register_account.
  rewrite bind_run, (bind_ok_run (bind_ok _ _)), (bind_ok_run (wrap _ _)).
  by_outcome (wrap ("registering with " +:+ account_name u a +:+ ": ")
    (Register c (up_ContactEmail up) (EAB up))) w.
  unfold ret at 1. cbn beta iota. rewrite alone_save. by rewrite bind_ok_run.
Qed.

(** Steps that are enough for either call. *)
Definition call_steps : nat := 9.

Lemma alone_account u a w :
  run_thread cfg call_steps (AEnter u a) w = as_thread (AReturn u a) (GetClientForAccount cfg u a w).
Proof.
  unfold call_steps, GetClientForAccount. rewrite run_step. cbn [returned advance].
  unfold gets at 1 2. rewrite !bind_run. cbn beta iota.
  destruct (lookup_account u a (w_pool w)) as [c|] eqn:Hl; [reflexivity|].
  do 2 go_on. unfold gets. rewrite !bind_run. cbn beta iota. rewrite Hl.
  destruct (Upstreams cfg !! u) as [up|]; [|reflexivity].
  go_on. rewrite bind_run, bind_ok_run.
  by_outcome (wrap ("loading upstream account " +:+ account_name u a +:+ ": ")
    (db_read (GetUpstreamAccountForAccount u a))) w.
  match goal with |- context [ACreate _ _ _ ?x] => rename x into ua end.
  go_on. rewrite !bind_run, !bind_ok_run.
  by_outcome (account_key (account_label u a) ua) w0.
  rewrite !bind_ok_run. by_outcome (newClientForUpstream u up a0) w1.
  destruct ua as [ua|].
  - reflexivity.
  - unfold ret at 1. rewrite bind_run. unfold ret at 1 2. cbn beta iota. by rewrite alone_register.
Qed.

Lemma AccountURL_run c w : AccountURL c w = (accountURL <$> w_heap w !! c, w).
Proof. unfold AccountURL, bind, deref, ret. by destruct (w_heap w !! c). Qed.
Lemma returned_slot u slot c r : returned (slot_return u slot c r) = true.
Proof. done. Qed.
Lemma alone_slot n u slot c w :
  run_thread cfg (S (S (S (S (S (S n)))))) (SEnter u slot c) w =
  as_thread (slot_return u slot c) (ensureSlotRegistered cfg u slot c w).
Proof.
  unfold ensureSlotRegistered. rewrite run_step. cbn [returned advance].
  rewrite !bind_run, !AccountURL_run.
  destruct (accountURL <$> w_heap w !! c) as [url|] eqn:Hc; [|reflexivity].
  destruct (url !=? "") eqn:Hu; [reflexivity|]. do 2 go_on.
  rewrite !bind_run, !AccountURL_run, Hc, Hu. go_on.
  rewrite bind_run, bind_ok_run.
  set (up := default zero_UpstreamConfig (Upstreams cfg !! u)).
  by_outcome (wrap ("registering with " +:+ slot_name u slot +:+ ": ")
    (Register c (up_ContactEmail up) (EAB up))) w.
  go_on. rewrite bind_run.
  by_outcome (let!? keyPEM := KeyPEM c in
     let! now := ask env_now in
     wrap ("persisting upstream account " +:+ slot_name u slot +:+ ": ")
       (db (SaveUpstreamAccount (MkUpstreamAccount u "" slot a keyPEM now)))) w0.
Qed.
Lemma alone_next u w :
  run_thread cfg call_steps (NEnter u) w = as_thread (NReturn u) (NextClient cfg u w).
Proof.
  unfold call_steps, NextClient. rewrite run_step. cbn [returned advance].
  rewrite !bind_run, !bind_ok_run. by_outcome (getOrCreateAll cfg u) w.
  unfold gets. rewrite !bind_run. cbn beta iota.
  set (slot := (default 0 (nextSlot (w_pool w0) !! u) `rem` Z.of_nat (length a))%Z).
  unfold update_pool, modify. cbn beta iota. set (w1 := set_pool _ w0).
  rewrite !bind_run. destruct (index_client a slot w1) as [[c|] w2]; [|reflexivity].
  unfold ret at 1 2. cbn beta iota. rewrite alone_slot, bind_ok_run.
  by destruct (ensureSlotRegistered cfg u slot c w2) as [[[]|] w3].
Qed.

(** The cut into steps changes nothing for a goroutine that runs alone: from
    the call to its return, [GetClientForAccount] and [NextClient] compute what their sequential
    definitions compute, in the same final state. *)
Theorem alone_is_sequential u a w :
  run_thread cfg call_steps (AEnter u a) w = as_thread (AReturn u a) (GetClientForAccount cfg u a w) ∧
  run_thread cfg call_steps (NEnter u) w = as_thread (NReturn u) (NextClient cfg u w).
Proof. split; [apply alone_account|apply alone_next]. Qed.
End alone.

(** ** Interference

    What a goroutine may find changed after a step of another one, which was
    working for the account [pair] and on the client [oc]. *)
Section interference.
Context `{Env} `{!CryptoLaws} (cfg : Config).

Abbreviation rows w := (upstream_accounts_by_account (w_store w)).
Definition url_of (w : World) (c : client_ref) : option string := accountURL <$> w_heap w !! c.

Record effect (pair : option (string * string)) (oc : option client_ref) (w w' : World) : Prop := {
  ef_next : w_next w ≤ w_next w';
  ef_some d : is_Some (w_heap w !! d) → is_Some (w_heap w' !! d);
  ef_heap d : is_Some (w_heap w !! d) → oc ≠ Some d → identity <$> w_heap w' !! d = identity <$> w_heap w !! d;
  ef_url d : is_Some (w_heap w !! d) → url_of w d ≠ Some "" → url_of w' d ≠ Some "";
  ef_lookup u a : pair ≠ Some (u, a) → lookup_account u a (w_pool w') = lookup_account u a (w_pool w);
  ef_lookup_some u a c : lookup_account u a (w_pool w) = Some c → lookup_account u a (w_pool w') = Some c;
  ef_lookup_new u a c : lookup_account u a (w_pool w') = Some c →
    lookup_account u a (w_pool w) = Some c ∨ oc = Some c;
  ef_row u a : pair ≠ Some (u, a) → rows w' !! (u, a) = rows w !! (u, a);
  ef_row_some u a : is_Some (rows w !! (u, a)) → is_Some (rows w' !! (u, a));
  ef_slots u cs : clients (w_pool w) !! u = Some cs → clients (w_pool w') !! u = Some cs;
  ef_slots_new u cs c : clients (w_pool w') !! u = Some cs → c ∈ cs →
    clients (w_pool w) !! u = Some cs ∨ w_next w ≤ c
}.

#[local] Instance effect_trans pair oc : Transitive (effect pair oc).
Proof.
  intros w1 w2 w3 E1 E2. split.
  - pose proof (ef_next _ _ _ _ E1). pose proof (ef_next _ _ _ _ E2). lia.
  - intros d Hd. by apply E2, E1.
  - intros d Hd Hne. rewrite (ef_heap _ _ _ _ E2 d); [by apply E1| |done]. by apply E1.
  - intros d Hd Hu. apply E2; [by apply E1|]. by apply E1.
  - intros u a Hne. rewrite (ef_lookup _ _ _ _ E2 u a Hne). by apply E1.
  - intros u a c Hc. by apply E2, E1.
  - intros u a c [Hc|Hc]%E2; [by apply E1|by right].
  - intros u a Hne. rewrite (ef_row _ _ _ _ E2 u a Hne). by apply E1.
  - intros u a Hr. by apply E2, E1.
  - intros u cs Hcs. by apply E2, E1.
  - intros u cs c Hcs Hin. destruct (ef_slots_new _ _ _ _ E2 u cs c Hcs Hin) as [Hcs2|Hn].
    + by apply (ef_slots_new _ _ _ _ E1 u cs c).
    + right. pose proof (ef_next _ _ _ _ E1). lia.
Qed.

Lemma effect_weaken pair oc w w' : effect None None w w' → effect pair oc w w'.
Proof.
  intros E. destruct E. split; try done.
  - intros d Hd _. by apply ef_heap0.
  - intros u a _. by apply ef_lookup0.
  - intros u a c [Hc|[=]]%ef_lookup_new0. by left.
  - intros u a _. by apply ef_row0.
Qed.

(** Steps that leave the tables alone and one client's identity at most. *)
Lemma effect_heap oc w w' :
  w_next w ≤ w_next w' → w_pool w' = w_pool w → rows w' = rows w →
  (∀ d, is_Some (w_heap w !! d) → is_Some (w_heap w' !! d)) →
  (∀ d, is_Some (w_heap w !! d) → oc ≠ Some d → identity <$> w_heap w' !! d = identity <$> w_heap w !! d) →
  (∀ d, oc = Some d → url_of w d ≠ Some "" → url_of w' d ≠ Some "") →
  effect None oc w w'.
Proof.
  intros Hn Hp Hr Hs Hh Hu. split; rewrite ?Hp, ?Hr; try done; try (by left).
  - intros d Hd Hne. destruct (decide (oc = Some d)) as [->|Hoc]; [by apply Hu|].
    specialize (Hh d Hd Hoc). unfold url_of in *.
    destruct (w_heap w' !! d), (w_heap w !! d); simpl in *; try done. injection Hh as _ _ Hurl. congruence.
Qed.
Lemma effect_same_clients w w' :
  w_next w ≤ w_next w' → w_pool w' = w_pool w → rows w' = rows w → same_clients w w' → effect None None w w'.
Proof.
  intros Hn Hp Hr Hs. apply effect_heap; try done.
  - intros d. by apply same_clients_some.
  - intros d Hd _. by apply Hs.
Qed.
Lemma effect_refl w : effect None None w w.
Proof. by apply effect_same_clients. Qed.
Lemma effect_quiet w w' :
  w_heap w' = w_heap w → w_next w' = w_next w → w_pool w' = w_pool w → rows w' = rows w → effect None None w w'.
Proof.
  intros Hh Hn Hp Hr. apply effect_same_clients; [lia|done..|]. intros d _. by rewrite Hh.
Qed.
Lemma effect_frame w w' : client_frame w w' → effect None None w w'.
Proof.
  intros Hf. apply effect_same_clients; [rewrite (cf_next _ _ Hf); lia|apply Hf|by rewrite (cf_store _ _ Hf)|].
  by apply same_clients_frame.
Qed.
Lemma effect_frame_but c w w' :
  frame_but c w w' → (url_of w c ≠ Some "" → url_of w' c ≠ Some "") → effect None (Some c) w w'.
Proof.
  intros Hf Hu. apply effect_heap.
  - rewrite (fb_next _ _ _ Hf). lia.
  - apply Hf.
  - by rewrite (fb_store _ _ _ Hf).
  - intros d. by apply (heap_some_frame c).
  - intros d _ Hd. apply Hf. congruence.
  - by intros d [= <-].
Qed.
Lemma effect_outside w w' : pool_ok w → outside w w' → effect None None w w'.
Proof.
  intros Hp Ho. apply effect_same_clients; [apply Ho..|]. intros d Hd. by apply Ho, (po_next w Hp).
Qed.

(** ** What is known at each point of a call *)

(** A client that only the goroutine that made it refers to. *)
Definition private (w : World) (c : client_ref) : Prop :=
  is_Some (w_heap w !! c) ∧ (∀ u a, lookup_account u a (w_pool w) ≠ Some c) ∧
  ∀ u cs, clients (w_pool w) !! u = Some cs → c ∉ cs.
Definition slot_client (w : World) (u : string) (slot : Z) (c : client_ref) : Prop :=
  ∃ cs, clients (w_pool w) !! u = Some cs ∧ (0 ≤ slot)%Z ∧ cs !! Z.to_nat slot = Some c.

Definition thread_ok (w : World) (t : thread) : Prop :=
  match t with
  | AEnter _ _ | AWait _ _ | ARecheck _ _ | NEnter _ | GEnter _ _ | GReturn _ => True
  | ALoad u a _ => lookup_account u a (w_pool w) = None
  | ACreate u a _ ua =>
      lookup_account u a (w_pool w) = None ∧ GetUpstreamAccountForAccount u a (w_store w) = Ok ua
  | ARegister u a _ c =>
      lookup_account u a (w_pool w) = None ∧ rows w !! (u, a) = None ∧ private w c
  | ASave u a c url =>
      lookup_account u a (w_pool w) = None ∧ rows w !! (u, a) = None ∧ private w c ∧ url_of w c = Some url
  | APublish u a c =>
      lookup_account u a (w_pool w) = None ∧ private w c ∧
      ∃ cl, w_heap w !! c = Some cl ∧ persisted w u a cl
  | AReturn u a (Ok c) => lookup_account u a (w_pool w) = Some c
  | SEnter u slot c | SWait u slot c | SRecheck u slot c => slot_client w u slot c
  | SRegister u slot c => slot_client w u slot c ∧ url_of w c = Some ""
  | SSave u slot c url => slot_client w u slot c ∧ url_of w c = Some url ∧ url ≠ ""
  | NReturn u (Ok (c, slot)) => slot_client w u slot c ∧ url_of w c ≠ Some ""
  | AReturn _ _ (Err _) | NReturn _ (Err _) => True
  end.

(** The account a goroutine works for, and the client it works on. *)
Definition working_for (t : thread) : option (string * string) :=
  match t with
  | ARecheck u a | ALoad u a _ | ACreate u a _ _ | ARegister u a _ _ | ASave u a _ _ | APublish u a _ =>
      Some (u, a)
  | _ => None
  end.
Definition busy_on (t : thread) : option client_ref :=
  match t with
  | ARegister _ _ _ c | ASave _ _ c _ | APublish _ _ c | SRegister _ _ c | SSave _ _ c _ => Some c
  | _ => None
  end.

Lemma working_holds t u a : working_for t = Some (u, a) → holds t = Some (accountRegLock u a).
Proof. destruct t; simpl; intros [=]; by subst. Qed.

Lemma private_effect pair oc w w' c :
  pool_ok w → private w c → effect pair oc w w' → oc ≠ Some c → private w' c.
Proof.
  intros Hp (Hc & Hl & Hs) E Hoc. split_and!.
  - by apply E.
  - intros u a [Hold|[=]]%(ef_lookup_new _ _ _ _ E); [by apply (Hl u a)|done].
  - intros u cs Hcs Hin. destruct (ef_slots_new _ _ _ _ E u cs c Hcs Hin) as [Hold|Hn].
    + by apply (Hs u cs).
    + pose proof (po_next w Hp c Hc). lia.
Qed.
Lemma slot_effect pair oc w w' u slot c :
  slot_client w u slot c → effect pair oc w w' → slot_client w' u slot c.
Proof. intros (cs & Hcs & Hge & Hc) E. exists cs. split; [by apply E|done]. Qed.
Lemma slot_some w u slot c : pool_ok w → slot_client w u slot c → is_Some (w_heap w !! c).
Proof.
  intros Hp (cs & Hcs & _ & Hc). apply (po_slots w Hp u cs Hcs). by eapply list_elem_of_lookup_2.
Qed.
Lemma url_effect pair oc w w' c :
  is_Some (w_heap w !! c) → effect pair oc w w' → oc ≠ Some c → url_of w' c = url_of w c.
Proof.
  intros Hc E Hoc. pose proof (ef_heap _ _ _ _ E c Hc Hoc) as Hh. unfold url_of.
  destruct (w_heap w' !! c), (w_heap w !! c); simpl in *; try done. by injection Hh as _ _ ->.
Qed.

(** What is known survives the steps of goroutines that work for other accounts, on
    other clients. *)
Lemma thread_ok_effect t pair oc w w' :
  pool_ok w → thread_ok w t → effect pair oc w w' →
  (∀ p, working_for t = Some p → pair ≠ Some p) → (∀ c, busy_on t = Some c → oc ≠ Some c) →
  thread_ok w' t.
Proof.
  intros Hp Ht E Hpair Hoc. destruct t; simpl in *; try done.
  - rewrite (ef_lookup _ _ _ _ E); auto.
  - destruct Ht as [Hl Hr]. rewrite (ef_lookup _ _ _ _ E) by auto. split; [done|].
    unfold GetUpstreamAccountForAccount in *. by rewrite (ef_row _ _ _ _ E) by auto.
  - destruct Ht as (Hl & Hr & Hc). rewrite (ef_lookup _ _ _ _ E), (ef_row _ _ _ _ E) by auto.
    split_and!; [done..|]. eapply private_effect; eauto.
  - destruct Ht as (Hl & Hr & Hc & Hu). rewrite (ef_lookup _ _ _ _ E), (ef_row _ _ _ _ E) by auto.
    split_and!; [done..| |].
    + eapply private_effect; eauto.
    + rewrite (url_effect _ _ _ _ c (proj1 Hc) E); auto.
  - destruct Ht as (Hl & Hc & cl & Hcl & row & Hrow & Hu & Hk). rewrite (ef_lookup _ _ _ _ E) by auto.
    split_and!; [done|eapply private_effect; eauto|].
    pose proof (ef_heap _ _ _ _ E c (proj1 Hc) (Hoc c eq_refl)) as Hh. rewrite Hcl in Hh.
    destruct (w_heap w' !! c) as [cl'|]; [|done]. simpl in Hh. injection Hh as Hk' _ Hu'.
    exists cl'. split; [done|]. exists row. rewrite (ef_row _ _ _ _ E) by auto. rewrite Hu', Hk'. done.
  - destruct r; [by apply E|done].
  - by eapply slot_effect.
  - by eapply slot_effect.
  - by eapply slot_effect.
  - destruct Ht as [Hs Hu]. split; [by eapply slot_effect|].
    rewrite (url_effect _ _ _ _ c (slot_some _ _ _ _ Hp Hs) E); auto.
  - destruct Ht as (Hs & Hu & Hne). split_and!; [by eapply slot_effect| |done].
    rewrite (url_effect _ _ _ _ c (slot_some _ _ _ _ Hp Hs) E); auto.
  - destruct r as [[c slot]|]; [|done]. destruct Ht as [Hs Hu]. split; [by eapply slot_effect|].
    apply E; [by eapply slot_some|done].
Qed.

(** ** One step of a goroutine *)

(** Every slot client has one place; the counters are not negative. *)
Record slots_ok (w : World) : Prop := {
  so_place u v cs ds n m c :
    clients (w_pool w) !! u = Some cs → clients (w_pool w) !! v = Some ds →
    cs !! n = Some c → ds !! m = Some c → u = v ∧ n = m;
  so_next u s : nextSlot (w_pool w) !! u = Some s → (0 ≤ s)%Z
}.
Lemma slots_ok_same w w' :
  clients (w_pool w') = clients (w_pool w) → nextSlot (w_pool w') = nextSlot (w_pool w) →
  slots_ok w → slots_ok w'.
Proof. intros Hc Hn []. split; rewrite ?Hc, ?Hn; done. Qed.

(** How a step moves between mutexes and clients. *)
Definition moves (w : World) (t t' : thread) : Prop :=
  match holds t with
  | Some k => holds t' = Some k ∨ holds t' = None
  | None => holds t' = waits t
  end ∧
  (∀ p, working_for t' = Some p → holds t = None ∨ working_for t = Some p) ∧
  (∀ c, busy_on t' = Some c → busy_on t = Some c ∨ w_next w ≤ c ∨ ∃ u slot, t' = SRegister u slot c).

Definition step_ok (t : thread) (w : World) (r : option thread) (w' : World) : Prop :=
  ∃ t', r = Some t' ∧ effect (working_for t) (busy_on t) w w' ∧ pool_ok w' ∧ slots_ok w' ∧
        thread_ok w' t' ∧ moves w t t'.

Lemma step_effect t t' w w' :
  effect None None w w' → pool_ok w' → slots_ok w' → thread_ok w' t' → moves w t t' → step_ok t w (Some t') w'.
Proof. intros E Hp Hs Ht Hm. exists t'. split_and!; [done|by apply effect_weaken|done..]. Qed.
Lemma step_quiet t t' w w' :
  w_heap w' = w_heap w → w_next w' = w_next w → w_pool w' = w_pool w → rows w' = rows w →
  pool_ok w → slots_ok w → thread_ok w' t' → moves w t t' → step_ok t w (Some t') w'.
Proof.
  intros Hh Hn Hp Hr Hpo Hs Ht Hm. apply step_effect; [by apply effect_quiet|by apply (pool_ok_same w)| |done..].
  by apply (slots_ok_same w); rewrite ?Hp.
Qed.

Ltac moves_auto := split_and!; [simpl; tauto|intros ? ?; simpl in *; by simplify_eq; auto|
  intros ? ?; simpl in *; by simplify_eq; eauto 6].

Lemma after_answers {A} (m : M A) w (Q : option A → World → Prop) :
  answers m → after m w (λ r w', is_Some r → Q r w') → after m w Q.
Proof. intros Hm HQ. apply HQ, Hm. Qed.

(** *** The account's client *)
Lemma new_client_ok cl w w' :
  pool_ok w → slots_ok w → frame_but (w_next w) (new_world cl w) w' →
  effect None None w w' ∧ pool_ok w' ∧ slots_ok w' ∧ private w' (w_next w).
Proof.
  intros Hp Hs Hf. set (c := w_next w) in *. pose proof (pool_ok_new cl w Hp) as Hp1.
  assert (w_pool w' = w_pool w) as Hpool by (rewrite (fb_pool _ _ _ Hf); done).
  split_and!.
  - apply effect_same_clients; [rewrite (fb_next _ _ _ Hf); simpl; lia|done|by rewrite (fb_store _ _ _ Hf)|].
    intros d Hd. pose proof (po_next w Hp d Hd). rewrite (fb_heap _ _ _ Hf) by lia. simpl.
    by rewrite lookup_insert_ne by lia.
  - apply (pool_ok_frame c (new_world cl w)); [done| |done].
    intros u a. exact (new_not_account w u a Hp).
  - by apply (slots_ok_same w); rewrite ?Hpool.
  - split_and!.
    + apply (heap_some_frame _ _ _ _ Hf). simpl. rewrite lookup_insert_eq. by eexists.
    + intros u a. rewrite Hpool. exact (new_not_account w u a Hp).
    + intros u cs. rewrite Hpool. intros Hcs Hin.
      pose proof (po_next w Hp c (proj2 (po_slots w Hp u cs Hcs) c Hin)). lia.
Qed.

Lemma create_ok u a up ua w :
  pool_ok w → slots_ok w → thread_ok w (ACreate u a up ua) →
  after (advance cfg (ACreate u a up ua)) w (step_ok (ACreate u a up ua) w).
Proof.
  intros Hp Hs [Hl Hr]. cbn [advance]. apply after_bind, after_bind_ok.
  apply after_answers; [destruct ua; unfold account_key; answers_auto|].
  eapply after_mono; [apply account_key_after|]. intros r w1 [Hf1 Hk] [rk ->].
  assert (∀ n, pool_ok (set_tick n w1) ∧ slots_ok (set_tick n w1)) as Hok1.
  { intros n. split; [by apply (pool_ok_same w1); [by eapply pool_ok_client_frame|..]|].
    apply (slots_ok_same w); simpl; by rewrite ?(cf_pool _ _ Hf1). }
  assert (∀ n, effect None None w (set_tick n w1)) as He1.
  { intros n. etrans; [by apply effect_frame|by apply effect_quiet]. }
  assert (∀ e n, step_ok (ACreate u a up ua) w (Some (AReturn u a (Err e))) (set_tick n w1)) as Herr.
  { intros e n. destruct (Hok1 n). apply step_effect; [done..|moves_auto]. }
  destruct rk as [k|e]; [|apply after_ret; specialize (Herr e (w_tick w1)); by destruct w1].
  apply after_bind_ok, after_newClient.
  { intros e n. apply after_ret, Herr. }
  intros n. set (cl := MkClient _ _ k _ _ _). set (w2 := set_tick n w1). set (c := w_next w1).
  destruct (Hok1 n) as [Hp2 Hs2]. apply after_bind.
  assert (∀ w3, frame_but c (new_world cl w2) w3 → match ua with
            | Some ua => url_of w3 c = Some (ua_AccountURL ua)
            | None => True
            end → step_ok (ACreate u a up ua) w
              (Some (match ua with Some _ => APublish u a c | None => ARegister u a up c end)) w3) as Hend.
  { intros w3 Hf3 Hu3. destruct (new_client_ok cl w2 w3 Hp2 Hs2 Hf3) as (He3 & Hp3 & Hs3 & Hc3).
    assert (effect None None w w3) as He by (etrans; [apply He1|exact He3]).
    assert (w_next w ≤ c) as Hge by (unfold c; by rewrite (cf_next _ _ Hf1)).
    assert (lookup_account u a (w_pool w3) = None) as Hl3 by (by rewrite (ef_lookup _ _ _ _ He)).
    assert (rows w3 !! (u, a) = rows w !! (u, a)) as Hrow by (by rewrite (ef_row _ _ _ _ He)).
    unfold GetUpstreamAccountForAccount in Hr. injection Hr as Hr. rewrite <- Hrow in Hr.
    apply step_effect; [done..| |destruct ua; moves_auto].
    - destruct ua as [ua|]; simpl; [|by destruct (rows w3 !! (u, a))].
      split_and!; [done..|]. destruct (rows w3 !! (u, a)) as [row|] eqn:Hrow3; [|done]. injection Hr as <-.
      pose proof (fb_key _ _ _ Hf3) as Hkey. simpl in Hkey. rewrite lookup_insert_eq in Hkey.
      unfold url_of in Hu3. destruct (w_heap w3 !! c) as [cl3|]; [|done]. simpl in *.
      exists cl3. split; [done|]. exists row. split_and!; [done|congruence|].
      injection Hkey as ->. exact (Hk k eq_refl). }
  destruct ua as [ua|].
  - apply (after_mono _ _ (λ r w3, r = Some tt ∧ w3 = (SetAccountURL c (ua_AccountURL ua) (new_world cl w2)).2)).
    { done. }
    intros r w3 [-> ->]. do 2 apply after_ret. apply Hend; [apply SetAccountURL_frame|].
    unfold url_of. rewrite (proj2 (SetAccountURL_frame _ _ _)). simpl. by rewrite lookup_insert_eq.
  - do 3 apply after_ret. by apply Hend.
Qed.

(** A registration, on a private client or on the client of a slot: never of
    another account. *)
Lemma slots_ok_frame c w w' : frame_but c w w' → slots_ok w → slots_ok w'.
Proof. intros Hf. by apply slots_ok_same; rewrite (fb_pool _ _ _ Hf). Qed.
Lemma register_ok c contact eab w (Q : option (result string) → World → Prop) :
  pool_ok w → slots_ok w → is_Some (w_heap w !! c) → (∀ u a, lookup_account u a (w_pool w) ≠ Some c) →
  (∀ e w', effect None None w w' → pool_ok w' → slots_ok w' → Q (Some (Err e)) w') →
  (∀ url w', url ≠ "" → effect None (Some c) w w' → pool_ok w' → slots_ok w' → w_pool w' = w_pool w →
     rows w' = rows w → is_Some (w_heap w' !! c) → url_of w' c = Some url → Q (Some (Ok url)) w') →
  after (Register c contact eab) w Q.
Proof.
  intros Hp Hs Hc Hl Herr Hok.
  assert (no_panic c (Register c contact eab)) as Hnp by apply total_Register.
  pose proof (Hnp w Hc) as [Hr _]. unfold after in Hr.
  pose proof (after_Register_cases c contact eab w) as Hcases. unfold after in *.
  destruct (Register c contact eab w) as [r w']. cbn [fst snd] in *. destruct Hr as [r' ->].
  destruct Hcases as [[Hf Hno]|(url & w1 & [= ->] & Hne & Hf1 & ->)].
  - destruct r' as [url|e]; [by destruct (Hno url)|]. apply Herr; [by apply effect_frame| |].
    + by eapply pool_ok_client_frame.
    + by apply (slots_ok_same w); rewrite ?(cf_pool _ _ Hf).
  - pose proof (SetAccountURL_frame c url w1) as [Hf2 Hurl]. set (w2 := (SetAccountURL c url w1).2) in *.
    assert (frame_but c w w2) as Hf by (etrans; [by apply client_frame_but|done]).
    assert (is_Some (w_heap w2 !! c)) as Hc2 by (by apply (heap_some_frame c w w2)).
    assert (url_of w2 c = Some url) as Hu2.
    { unfold url_of. rewrite Hurl. apply (heap_some_frame c w1 w2 c Hf2) in Hc2. by destruct Hc2 as [? ->]. }
    apply Hok; [done| |by eapply pool_ok_frame|by eapply slots_ok_frame|apply Hf| |done|done].
    + apply effect_frame_but; [done|]. rewrite Hu2. congruence.
    + by rewrite (fb_store _ _ _ Hf).
Qed.

Lemma account_register_ok u a up c w :
  pool_ok w → slots_ok w → thread_ok w (ARegister u a up c) →
  after (advance cfg (ARegister u a up c)) w (step_ok (ARegister u a up c) w).
Proof.
  intros Hp Hs (Hl & Hr & Hc). cbn [advance]. apply after_bind, after_wrap, register_ok; [done..|apply Hc|apply Hc| |].
  - intros e w' E Hp' Hs'. apply after_ret. apply step_effect; [done..|moves_auto].
  - intros url w' Hne E Hp' Hs' Hpool Hrows Hsome Hu. apply after_ret.
    eexists. split_and!; [done| |done|done| |moves_auto].
    + destruct E. split; try done; by auto.
    + simpl. rewrite Hpool, Hrows. split_and!; [done|done| |done].
      split; [done|]. rewrite Hpool. apply Hc.
Qed.

(** Writing an account down: refused, with nothing changed, or done. *)
Lemma after_persist c cl pre (f : string → time → Store → result unit * Store) w
    (Q : option (result unit) → World → Prop) :
  w_heap w !! c = Some cl →
  (∀ e n, Q (Some (Err e)) (set_tick n w)) →
  (∀ der now n, MarshalECPrivateKey (key cl) = Ok der →
     Q (Some (match (f (pem_EncodeECKey der) now (w_store w)).1 with Ok x => Ok x | Err e => Wrapf pre e end))
       (set_store (f (pem_EncodeECKey der) now (w_store w)).2 (set_tick n w))) →
  after (let!? keyPEM := KeyPEM c in let! now := ask env_now in wrap pre (db (f keyPEM now))) w Q.
Proof.
  intros Hcl Herr Hok. apply after_bind_ok. unfold KeyPEM. apply after_bind, after_deref. rewrite Hcl.
  apply after_ret. destruct (MarshalECPrivateKey (key cl)) as [der|e] eqn:Hder; simpl.
  2:{ specialize (Herr e (w_tick w)). by destruct w. }
  apply after_bind, after_ask, after_wrap, after_db.
  - intros e _. apply (Herr (EWrap pre e) (S (S (w_tick w)))).
  - intros _. specialize (Hok der (env_now (w_tick w)) (S (S (w_tick w))) eq_refl). simpl in *.
    destruct (f (pem_EncodeECKey der) (env_now (w_tick w)) (w_store w)) as [[x|e] s]; exact Hok.
Qed.

Lemma save_ok u a c url w :
  pool_ok w → slots_ok w → thread_ok w (ASave u a c url) →
  after (advance cfg (ASave u a c url)) w (step_ok (ASave u a c url) w).
Proof.
  intros Hp Hs (Hl & Hr & Hc & Hu). destruct (proj1 Hc) as [cl Hcl]. cbn [advance].
  apply after_bind, (after_persist c cl); [done| |].
  - intros e n. apply after_ret, step_quiet; try done. moves_auto.
  - intros der now n Hder. cbn [SaveUpstreamAccountForAccount fst snd]. set (w' := set_store _ _).
    apply after_ret. eexists. split_and!; [done| | | | |moves_auto].
    + split; simpl; try done; auto.
      * intros u' a' Hne. rewrite lookup_insert_ne; [done|]. congruence.
      * intros u' a' Hsome. by apply insert_keeps_key.
    + by apply (pool_ok_row u a _ (set_tick n w)), Hl; apply (pool_ok_same w).
    + by apply (slots_ok_same w).
    + simpl. split_and!; [done|exact Hc|]. exists cl. split; [done|]. eexists. simpl.
      rewrite lookup_insert_eq. split; [done|]. simpl. unfold url_of in Hu. rewrite Hcl in Hu.
      split; [by injection Hu|]. by apply pem_roundtrip.
Qed.

Lemma publish_ok u a c w :
  pool_ok w → slots_ok w → thread_ok w (APublish u a c) →
  after (advance cfg (APublish u a c)) w (step_ok (APublish u a c) w).
Proof.
  intros Hp Hs (Hl & Hc & cl & Hcl & Hpers). cbn [advance]. apply after_bind, after_modify, after_ret.
  destruct (pool_ok_publish u a c cl w) as [Hp' Hl']; [done..|apply Hc|].
  set (w' := set_pool _ w) in *.
  assert (∀ v b, (v, b) ≠ (u, a) → lookup_account v b (w_pool w') = lookup_account v b (w_pool w)) as Hother.
  { intros v b Hne. unfold lookup_account, store_account_client. simpl.
    destruct (decide (v = u)) as [->|Hv].
    - rewrite lookup_insert_eq. simpl. rewrite lookup_insert_ne by congruence.
      destruct (accountClients (w_pool w) !! u); [done|]. simpl. by rewrite lookup_empty.
    - by rewrite lookup_insert_ne. }
  eexists. split_and!; [done| |done|by apply (slots_ok_same w)|done|moves_auto].
  split; try done; auto.
  - intros v b Hne. apply Hother. simpl in Hne. congruence.
  - intros v b d Hd. rewrite Hother; [done|]. intros [= -> ->]. congruence.
  - intros v b d. destruct (decide ((v, b) = (u, a))) as [[= -> ->]|Hne].
    + rewrite Hl'. intros [= ->]. by right.
    + rewrite Hother by done. by left.
Qed.

Lemma slot_register_ok u slot c w :
  pool_ok w → slots_ok w → thread_ok w (SRegister u slot c) →
  after (advance cfg (SRegister u slot c)) w (step_ok (SRegister u slot c) w).
Proof.
  intros Hp Hs [Hsc Hu]. cbn [advance]. cbv zeta. pose proof (slot_some _ _ _ _ Hp Hsc) as Hc.
  apply after_bind, after_wrap, register_ok; [done..| | |].
  - intros v b Hl. destruct Hsc as (cs & Hcs & _ & Hin). apply (po_disjoint w Hp v b c u cs Hl Hcs).
    by eapply list_elem_of_lookup_2.
  - intros e w' E Hp' Hs'. apply after_ret, step_effect; [done..|moves_auto].
  - intros url w' Hne E Hp' Hs' Hpool Hrows Hsome Hurl. apply after_ret.
    eexists. split_and!; [done|exact E|done|done| |moves_auto].
    simpl. split_and!; [by eapply slot_effect|done|done].
Qed.

Lemma slot_save_ok u slot c url w :
  pool_ok w → slots_ok w → thread_ok w (SSave u slot c url) →
  after (advance cfg (SSave u slot c url)) w (step_ok (SSave u slot c url) w).
Proof.
  intros Hp Hs (Hsc & Hu & Hne). destruct (slot_some _ _ _ _ Hp Hsc) as [cl Hcl]. cbn [advance].
  apply after_bind, (after_persist c cl); [done| |].
  - intros e n. apply after_ret, step_quiet; try done. moves_auto.
  - intros der now n Hder. cbn [SaveUpstreamAccount fst snd]. set (w' := set_store _ _).
    apply after_ret, step_quiet; try done; [|moves_auto].
    simpl. split; [done|]. unfold url_of in *. simpl. congruence.
Qed.

(** *** The slots *)
Lemma create_slots_answers u up slots : answers (create_slots u up slots).
Proof.
  induction slots as [|slot slots IH]; cbn [create_slots]; [answers_auto|].
  assert (answers (create_slot u up (Z.of_nat slot))).
  { unfold create_slot, account_key, newClientForUpstream, New, SetAccountURL, update_client. answers_auto. }
  answers_auto.
Qed.

Lemma after_getOrCreateAll u w (Q : option (result (list client_ref)) → World → Prop) :
  pool_ok w → slots_ok w →
  (∀ e w', effect None None w w' → pool_ok w' → slots_ok w' → Q (Some (Err e)) w') →
  (∀ cs w', effect None None w w' → pool_ok w' → slots_ok w' →
     clients (w_pool w') !! u = Some cs → cs ≠ [] → Q (Some (Ok cs)) w') →
  after (getOrCreateAll cfg u) w Q.
Proof.
  intros Hp Hs Herr Hok. pose proof (getOrCreateAll_ok cfg u w Hp) as Hgo.
  unfold getOrCreateAll in *. apply after_bind, after_gets.
  destruct (clients (w_pool w) !! u) as [cs|] eqn:Hcs.
  { apply Hok; [apply effect_refl|done..|]. by apply (po_slots w Hp u). }
  destruct (Upstreams cfg !! u) as [up|] eqn:Hup; [|apply Herr; [apply effect_refl|done..]].
  apply after_bind_ok, after_answers; [apply create_slots_answers|].
  pose proof (create_slots_ok u up (seq 0 (slot_count up)) w Hp) as Hcreate. unfold after in *.
  unfold gets, bind_ok in Hgo. rewrite !bind_run in Hgo. cbn beta iota in Hgo. rewrite Hcs in Hgo.
  rewrite bind_run in Hgo.
  destruct (create_slots u up (seq 0 (slot_count up)) w) as [r w1]. cbn [fst snd] in *. intros [rc ->].
  destruct Hcreate as (Hp1 & Hl1 & Hn1 & [Hd1 Hst1] & Hr1).
  assert (effect None None w w1) as E1 by (apply effect_same_clients; [done..|by rewrite Hst1|done]).
  assert (slots_ok w1) as Hs1 by (by apply (slots_ok_same w); rewrite ?Hl1).
  destruct rc as [cs|e]; [|by apply Herr]. destruct (Hr1 cs eq_refl) as (_ & Hnd & Hall).
  cbn in Hgo. destruct Hgo as [Hp2 Hr2]. destruct (Hr2 cs eq_refl) as [_ Hne]. cbn.
  assert (∀ v ds, clients (w_pool w) !! v = Some ds → v ≠ u) as Hother by (intros v ds Hv ->; congruence).
  assert (∀ v ds c, clients (w_pool w) !! v = Some ds → c ∈ ds → c < w_next w) as Hold.
  { intros v ds c Hv Hin. by apply (po_next w Hp), (po_slots w Hp v ds Hv). }
  apply Hok; [|done| |apply lookup_insert_eq|done].
  - destruct E1. split; try done; simpl; rewrite ?Hl1.
    + intros v ds Hv. rewrite lookup_insert_ne; [done|]. intros <-. by apply (Hother _ _ Hv).
    + intros v ds c [[<- <-]|[_ Hv]]%lookup_insert_Some Hin; [|by left]. right. by apply Hall.
  - destruct Hs1 as [Hplace Hnext]. split; simpl; [|done].
    intros v v' ds ds' n m c [[<- <-]|[Hne1 Hv]]%lookup_insert_Some [[<- <-]|[Hne2 Hv']]%lookup_insert_Some Hn Hm.
    + split; [done|]. by eapply (NoDup_lookup cs).
    + apply list_elem_of_lookup_2 in Hn, Hm. rewrite Hl1 in Hv'. pose proof (Hold _ _ _ Hv' Hm).
      pose proof (proj1 (Hall c Hn)). lia.
    + apply list_elem_of_lookup_2 in Hn, Hm. rewrite Hl1 in Hv. pose proof (Hold _ _ _ Hv Hn).
      pose proof (proj1 (Hall c Hm)). lia.
    + by eapply Hplace.
Qed.

Lemma slot_in_range s (cs : list client_ref) :
  (0 ≤ s)%Z → cs ≠ [] →
  let slot := (s `rem` Z.of_nat (length cs))%Z in
  (0 ≤ slot)%Z ∧ ∃ c, cs !! Z.to_nat slot = Some c.
Proof.
  intros Hs Hne. assert (0 < Z.of_nat (length cs))%Z by (destruct cs; [done|simpl; lia]).
  pose proof (Z.rem_bound_pos s (Z.of_nat (length cs))). split; [lia|]. apply lookup_lt_is_Some_2. lia.
Qed.
Lemma index_client_run cs slot c w :
  (0 ≤ slot)%Z → cs !! Z.to_nat slot = Some c → index_client cs slot w = (Some c, w).
Proof. intros Hs Hc. unfold index_client. rewrite (proj2 (Z.ltb_ge _ _) Hs). by rewrite Hc. Qed.

Lemma next_ok u w :
  pool_ok w → slots_ok w → after (advance cfg (NEnter u)) w (step_ok (NEnter u) w).
Proof.
  intros Hp Hs. cbn [advance]. apply after_bind, after_bind_ok, after_getOrCreateAll; [done..| |].
  { intros e w' E Hp' Hs'. apply after_ret, step_effect; [done..|moves_auto]. }
  intros cs w1 E Hp1 Hs1 Hcs Hne. cbv zeta. apply after_bind, after_gets.
  set (s := default 0%Z (nextSlot (w_pool w1) !! u)).
  assert (0 ≤ s)%Z as Hs0.
  { subst s. destruct (nextSlot (w_pool w1) !! u) as [z|] eqn:Hz; [by apply (so_next w1 Hs1 u)|done]. }
  destruct (slot_in_range s cs Hs0 Hne) as (Hslot & c & Hc). set (slot := (s `rem` _)%Z) in *.
  apply after_bind, after_modify. set (w2 := set_pool _ w1).
  unfold after. rewrite bind_run, (index_client_run cs slot c w2 Hslot Hc). cbn [fst snd ret].
  assert (effect None None w w2) as E2.
  { destruct E. by split. }
  assert (slots_ok w2) as Hs2.
  { destruct Hs1 as [Hplace Hnext]. split; [exact Hplace|]. simpl.
    intros v z [[<- <-]|[_ Hz]]%lookup_insert_Some; [|by eapply Hnext].
    apply (Z.rem_bound_pos (slot + 1)); [lia|]. destruct cs; [done|simpl; lia]. }
  apply step_effect; [done| |done| |moves_auto].
  - destruct Hp1. by split.
  - simpl. exists cs. by split_and!.
Qed.

Lemma get_slot_ok u slot w :
  pool_ok w → slots_ok w → after (advance cfg (GEnter u slot)) w (step_ok (GEnter u slot) w).
Proof.
  intros Hp Hs. cbn [advance]. apply after_bind. unfold GetSlot.
  apply after_bind_ok, after_getOrCreateAll; [done..| |].
  { intros e w' E Hp' Hs'. apply after_ret, step_effect; [done..|moves_auto]. }
  intros cs w1 E Hp1 Hs1 Hcs Hne. cbv zeta.
  assert (∃ z c, (0 ≤ z)%Z ∧ cs !! Z.to_nat z = Some c ∧
    (if (slot <? 0)%Z || (Z.of_nat (length cs) <=? slot)%Z then 0%Z else slot) = z) as (z & c & Hz & Hc & ->).
  { destruct ((slot <? 0)%Z || (Z.of_nat (length cs) <=? slot)%Z) eqn:Hb.
    - destruct cs as [|c cs']; [done|]. by exists 0%Z, c.
    - destruct (lookup_lt_is_Some_2 cs (Z.to_nat slot)) as [c Hc]; [lia|]. exists slot, c. split; [lia|done]. }
  unfold after. rewrite bind_run, (index_client_run cs z c w1 Hz Hc). cbn [fst snd ret].
  apply step_effect; [done..|moves_auto].
Qed.

(** *** Every step *)
Lemma slot_look_ok u slot c t t1 w :
  pool_ok w → slots_ok w → slot_client w u slot c → busy_on t = None → working_for t = None →
  moves w t (slot_return u slot c (Ok tt)) → moves w t t1 →
  (url_of w c = Some "" → thread_ok w t1) →
  after (let! url := AccountURL c in ret (if url !=? "" then slot_return u slot c (Ok tt) else t1)) w (step_ok t w).
Proof.
  intros Hp Hs Hsc Hb Hw Hm0 Hm1 Ht1. destruct (slot_some _ _ _ _ Hp Hsc) as [cl Hcl].
  unfold after. rewrite bind_run, AccountURL_run, Hcl. cbn [fmap option_fmap option_map ret fst snd].
  assert (url_of w c = Some (accountURL cl)) as Hu by (unfold url_of; by rewrite Hcl).
  destruct (String.eqb_spec (accountURL cl) "") as [He|He]; cbn [negb].
  - apply step_quiet; try done. apply Ht1. by rewrite Hu, He.
  - apply step_quiet; try done. simpl. split; [done|]. rewrite Hu. congruence.
Qed.

Lemma advance_ok t w :
  pool_ok w → slots_ok w → thread_ok w t → returned t = false →
  after (advance cfg t) w (step_ok t w).
Proof.
  intros Hp Hs Ht Hret. destruct t; try discriminate Hret.
  - cbn [advance]. apply after_bind, after_gets, after_ret.
    destruct (lookup_account u a (w_pool w)) eqn:Hl; apply step_quiet; try done; moves_auto.
  - apply after_ret, step_quiet; try done; moves_auto.
  - cbn [advance]. apply after_bind, after_gets, after_ret.
    destruct (lookup_account u a (w_pool w)) eqn:Hl; [apply step_quiet; try done; moves_auto|].
    destruct (Upstreams cfg !! u); apply step_quiet; try done; moves_auto.
  - cbn [advance]. apply after_bind, after_wrap, after_db_read.
    + intros e _. apply after_ret, step_quiet; try done; moves_auto.
    + intros _. apply after_ret, step_quiet; try done; moves_auto.
  - by apply create_ok.
  - by apply account_register_ok.
  - by apply save_ok.
  - by apply publish_ok.
  - by apply next_ok.
  - by apply slot_look_ok; [done..|moves_auto|moves_auto|].
  - apply after_ret, step_quiet; try done; moves_auto.
  - by apply slot_look_ok; [done..|moves_auto|moves_auto|].
  - by apply slot_register_ok.
  - by apply slot_save_ok.
  - by apply get_slot_ok.
Qed.
End interference.

(** ** Every interleaving *)
Section machine.
Context `{Env} `{!CryptoLaws} (cfg : Config).

Abbreviation rows w := (upstream_accounts_by_account (w_store w)).
Abbreviation m_step := (machine_step cfg).
Definition m_reaches : machine → machine → Prop := rtc (machine_step cfg).

Lemma step_at_step i s s' : step_at cfg i s = Some s' → m_step s s'.
Proof.
  unfold step_at. destruct (m_threads s !! i) as [t|] eqn:Ht; simpl; [|done].
  destruct (can_go t (m_locks s)) eqn:Hgo; [|done].
  destruct (advance cfg t (m_world s)) as [[t'|] w'] eqn:Hrun; [|done]. intros [= <-].
  by apply (step_thread cfg i t t' w').
Qed.
Lemma run_schedule_reaches sched s s' : run_schedule cfg sched s = Some s' → m_reaches s s'.
Proof.
  revert s. induction sched as [|i sched IH]; intros s; simpl; [intros [= <-]; apply rtc_refl|].
  destruct (step_at cfg i s) as [s1|] eqn:Hs1; simpl; [|done]. intros Hr.
  eapply rtc_l; [by eapply step_at_step|by apply IH].
Qed.

(** *** The invariant *)
Record machine_ok (s : machine) : Prop := {
  mo_pool : pool_ok (m_world s);
  mo_slots : slots_ok (m_world s);
  mo_thread i t : m_threads s !! i = Some t → thread_ok (m_world s) t;
  mo_holds i t k : m_threads s !! i = Some t → holds t = Some k → m_locks s !! k = Some i;
  mo_locks k i : m_locks s !! k = Some i → ∃ t, m_threads s !! i = Some t ∧ holds t = Some k;
  mo_busy i j t t' c : m_threads s !! i = Some t → m_threads s !! j = Some t' →
    busy_on t = Some c → busy_on t' = Some c → i = j
}.

Lemma idle_ok w : pool_ok w → slots_ok w → machine_ok (MkMachine w ∅ ∅).
Proof. intros Hp Hs. split; simpl; try done; intros *; by rewrite lookup_empty. Qed.

Lemma pool_ok_outside w w' : pool_ok w → outside w w' → pool_ok w'.
Proof.
  intros Hp Ho. pose proof (effect_outside w w' Hp Ho) as E. destruct Ho as [Hpool Hrows Hnext Hheap Hfresh].
  split; rewrite ?Hpool.
  - intros c [cl Hc]. destruct (decide (c < w_next w')) as [|Hge]; [done|]. by rewrite Hfresh in Hc by lia.
  - intros u cs Hcs. destruct (po_slots w Hp u cs Hcs) as [Hne Hall]. split; [done|].
    intros c Hc. by apply E, Hall.
  - intros u a c Hc. destruct (po_account w Hp u a c Hc) as (cl & Hcl & row & Hrow & Hu & Hk).
    pose proof (Hheap c (po_next w Hp c ltac:(by eexists))) as Hh. rewrite Hcl in Hh.
    destruct (w_heap w' !! c) as [cl'|]; [|done]. simpl in Hh. injection Hh as Hk' _ Hu'.
    exists cl'. split; [done|]. exists row. rewrite Hrows, Hu', Hk'. done.
  - apply (po_disjoint w Hp).
Qed.

Lemma busy_some w t c : pool_ok w → thread_ok w t → busy_on t = Some c → is_Some (w_heap w !! c).
Proof.
  intros Hp Ht Hb. destruct t; simpl in *; simplify_eq.
  - apply Ht.
  - apply Ht.
  - apply Ht.
  - by eapply slot_some, Ht.
  - by eapply slot_some, Ht.
Qed.
Lemma busy_slot w t u slot c :
  slots_ok w → thread_ok w t → busy_on t = Some c → slot_client w u slot c →
  holds t = Some (slotRegLock u slot).
Proof.
  intros Hs Ht Hb (cs & Hcs & Hge & Hc).
  assert (∀ v z, slot_client w v z c → (v, z) = (u, slot)) as Hone.
  { intros v z (ds & Hds & Hge' & Hd). destruct (so_place w Hs _ _ _ _ _ _ _ Hcs Hds Hc Hd) as [<- Hn].
    f_equal. lia. }
  assert (private w c → False) as Hpriv.
  { intros (_ & _ & Hno). apply (Hno u cs Hcs). by eapply list_elem_of_lookup_2. }
  destruct t; simpl in *; simplify_eq; try (exfalso; apply Hpriv, Ht).
  - by injection (Hone _ _ (proj1 Ht)) as -> ->.
  - by injection (Hone _ _ (proj1 Ht)) as -> ->.
Qed.

Lemma relock_holds s i t t' j tj k :
  machine_ok s → m_threads s !! i = Some t → can_go t (m_locks s) = true → moves (m_world s) t t' →
  <[i := t']> (m_threads s) !! j = Some tj → holds tj = Some k →
  relock i t t' (m_locks s) !! k = Some j.
Proof.
  intros Hok Hi Hgo (Hm & _) Hj Hk. unfold relock, can_go in *.
  destruct (decide (j = i)) as [->|Hne].
  - rewrite lookup_insert_eq in Hj. injection Hj as <-. rewrite Hk in *.
    destruct (holds t) as [k0|] eqn:Ht; [|by rewrite lookup_insert_eq].
    destruct Hm as [[= <-]|[=]]. by apply (mo_holds s Hok i t).
  - rewrite lookup_insert_ne in Hj by done. pose proof (mo_holds s Hok j tj k Hj Hk) as Hl.
    destruct (holds t) as [k0|] eqn:Ht.
    + destruct (holds t'); [done|]. rewrite lookup_delete_ne; [done|]. intros ->.
      pose proof (mo_holds s Hok i t k Hi Ht). congruence.
    + rewrite Hm. destruct (waits t) as [k0|]; [|done]. apply bool_decide_eq_true in Hgo.
      rewrite lookup_insert_ne; [done|]. intros ->. congruence.
Qed.
Lemma relock_locks s i t t' k j :
  machine_ok s → m_threads s !! i = Some t → moves (m_world s) t t' →
  relock i t t' (m_locks s) !! k = Some j →
  ∃ tj, <[i := t']> (m_threads s) !! j = Some tj ∧ holds tj = Some k.
Proof.
  intros Hok Hi (Hm & _) Hl. unfold relock in Hl.
  assert (∀ k, m_locks s !! k = Some j → (i = j → holds t = Some k → holds t' = Some k) →
    ∃ tj, <[i := t']> (m_threads s) !! j = Some tj ∧ holds tj = Some k) as Hold.
  { intros k0 Hk0 Hsame. destruct (mo_locks s Hok k0 j Hk0) as (tj & Hj & Htj).
    destruct (decide (i = j)) as [->|Hne].
    - exists t'. rewrite lookup_insert_eq. split; [done|]. apply Hsame; congruence.
    - exists tj. by rewrite lookup_insert_ne. }
  destruct (holds t) as [k0|] eqn:Ht.
  - destruct (holds t') as [k1|] eqn:Ht'.
    + apply Hold; [done|]. intros _ [= <-]. by destruct Hm.
    + apply lookup_delete_Some in Hl as [Hne Hl]. apply Hold; [done|]. intros _ [= ->]. done.
  - destruct (holds t') as [k1|] eqn:Ht'.
    + apply lookup_insert_Some in Hl as [[<- <-]|[Hne Hl]].
      * exists t'. by rewrite lookup_insert_eq.
      * apply Hold; [done|]. by intros _ [=].
    + apply Hold; [done|]. by intros _ [=].
Qed.

Lemma machine_ok_call i t s :
  machine_ok s → m_threads s !! i = None →
  (∃ u a, t = AEnter u a) ∨ (∃ u, t = NEnter u) ∨ (∃ u n, t = GEnter u n) →
  machine_ok (MkMachine (m_world s) (m_locks s) (<[i := t]> (m_threads s))).
Proof.
  intros Hok Hi Hcall. assert (holds t = None ∧ busy_on t = None ∧ thread_ok (m_world s) t) as (Hh & Hb & Ht)
    by by destruct Hcall as [(u & a & ->)|[(u & ->)|(u & n & ->)]].
  destruct Hok as [Hp Hs Hth Hho Hlo Hbu]. split; simpl; try done.
  - intros j tj [[<- <-]|[_ Hj]]%lookup_insert_Some; [done|by apply (Hth j)].
  - intros j tj k [[<- <-]|[_ Hj]]%lookup_insert_Some Hk; [congruence|by apply (Hho j tj)].
  - intros k j Hl. destruct (Hlo k j Hl) as (tj & Hj & Hk). exists tj. split; [|done].
    rewrite lookup_insert_ne; [done|]. intros <-. congruence.
  - intros j1 j2 t1 t2 c [[<- <-]|[_ Hj1]]%lookup_insert_Some [[<- <-]|[_ Hj2]]%lookup_insert_Some Hb1 Hb2;
      [done|congruence|congruence|by eapply Hbu].
Qed.

Lemma machine_ok_outside w' s :
  machine_ok s → outside (m_world s) w' → machine_ok (MkMachine w' (m_locks s) (m_threads s)).
Proof.
  intros [Hp Hs Hth Hho Hlo Hbu] Ho. split; simpl; try done.
  - by eapply pool_ok_outside.
  - by apply (slots_ok_same (m_world s)); rewrite ?(os_pool _ _ Ho).
  - intros i t Hi. eapply (thread_ok_effect t None None); [exact Hp|by apply (Hth i)| |done|done].
    by apply effect_outside.
Qed.

(** Another goroutine works for other accounts and on other clients. *)
Lemma others_apart s i j t tj :
  machine_ok s → m_threads s !! i = Some t → m_threads s !! j = Some tj → i ≠ j →
  (∀ p, working_for tj = Some p → working_for t ≠ Some p) ∧
  (∀ c, busy_on tj = Some c → busy_on t ≠ Some c).
Proof.
  intros Hok Hi Hj Hne. split.
  - intros [u a] Hwj Hwi. apply Hne.
    pose proof (mo_holds s Hok i t _ Hi (working_holds t u a Hwi)) as H1'.
    pose proof (mo_holds s Hok j tj _ Hj (working_holds tj u a Hwj)) as H2'. congruence.
  - intros c Hbj Hbi. apply Hne. by apply (mo_busy s Hok i j t tj c).
Qed.

Lemma machine_ok_thread i t t' w' s :
  machine_ok s → m_threads s !! i = Some t → can_go t (m_locks s) = true → step_ok t (m_world s) (Some t') w' →
  machine_ok (MkMachine w' (relock i t t' (m_locks s)) (<[i := t']> (m_threads s))).
Proof.
  intros Hok Hi Hgo (t'' & [= <-] & E & Hp' & Hs' & Ht' & Hm).
  assert (∀ j tj, m_threads s !! j = Some tj → i ≠ j → thread_ok w' tj) as Hothers.
  { intros j tj Hj Hne. destruct (others_apart s i j t tj Hok Hi Hj Hne) as [Hw Hb].
    eapply thread_ok_effect; [apply (mo_pool s Hok)|by apply (mo_thread s Hok j)|exact E|done|done]. }
  assert (∀ j tj c, m_threads s !! j = Some tj → i ≠ j → busy_on tj = Some c → busy_on t' = Some c → False) as Hbusy.
  { intros j tj c Hj Hne Hbj Hbt. pose proof Hm as (_ & _ & Hb). destruct (Hb c Hbt) as [Hbi|[Hge|(u & slot & ->)]].
    - by destruct (others_apart s i j t tj Hok Hi Hj Hne) as [_ Hb']; apply (Hb' c).
    - pose proof (po_next _ (mo_pool s Hok) c
        (busy_some _ _ _ (mo_pool s Hok) (mo_thread s Hok j tj Hj) Hbj)). lia.
    - clear Hbt.
      pose proof (busy_slot w' tj u slot c Hs' (Hothers j tj Hj Hne) Hbj (proj1 Ht')) as Hh.
      pose proof (relock_holds s i t (SRegister u slot c) j tj _ Hok Hi Hgo Hm
        ltac:(by rewrite lookup_insert_ne) Hh) as Hl1.
      pose proof (relock_holds s i t (SRegister u slot c) i _ _ Hok Hi Hgo Hm
        (lookup_insert_eq _ _ _) eq_refl) as Hl2. congruence. }
  split; simpl; try done.
  - intros j tj [[<- <-]|[Hne Hj]]%lookup_insert_Some; [done|by apply (Hothers j)].
  - intros j tj k Hj Hk. by eapply relock_holds.
  - intros k j Hl. by eapply relock_locks.
  - intros j1 j2 t1 t2 c [[<- <-]|[Hn1 Hj1]]%lookup_insert_Some [[<- <-]|[Hn2 Hj2]]%lookup_insert_Some Hb1 Hb2.
    + done.
    + exfalso. by apply (Hbusy j2 t2 c).
    + exfalso. by apply (Hbusy j1 t1 c).
    + by apply (mo_busy s Hok j1 j2 t1 t2 c).
Qed.

Lemma can_go_runs t locks : can_go t locks = true → returned t = false.
Proof. by destruct t. Qed.
Lemma machine_ok_step s s' : machine_ok s → m_step s s' → machine_ok s'.
Proof.
  intros Hok Hstep. destruct Hstep as [i t s Hi Hcall|i t t' w' s Hi Hgo Hrun|w' s Ho].
  - by apply machine_ok_call.
  - apply machine_ok_thread; [done..|].
    pose proof (advance_ok cfg t (m_world s) (mo_pool s Hok) (mo_slots s Hok) (mo_thread s Hok i t Hi)
      (can_go_runs t _ Hgo)) as Hs. unfold after in Hs. by rewrite Hrun in Hs.
  - by apply machine_ok_outside.
Qed.
Lemma machine_ok_reaches s s' : m_reaches s s' → machine_ok s → machine_ok s'.
Proof. induction 1; [done|]. intros Hok. by eauto using machine_ok_step. Qed.

(** *** Facts that last *)
Lemma step_facts s s' :
  machine_ok s → m_step s s' →
  (∀ c, is_Some (w_heap (m_world s) !! c) → url_of (m_world s) c ≠ Some "" → url_of (m_world s') c ≠ Some "") ∧
  (∀ c, is_Some (w_heap (m_world s) !! c) → is_Some (w_heap (m_world s') !! c)) ∧
  (∀ u a, is_Some (rows (m_world s) !! (u, a)) → is_Some (rows (m_world s') !! (u, a))).
Proof.
  intros Hok Hstep. destruct Hstep as [i t s Hi Hcall|i t t' w' s Hi Hgo Hrun|w' s Ho]; [done| |].
  - pose proof (advance_ok cfg t (m_world s) (mo_pool s Hok) (mo_slots s Hok) (mo_thread s Hok i t Hi)
      (can_go_runs t _ Hgo)) as (t'' & Hr & E & _). rewrite Hrun in E. split_and!; apply E.
  - pose proof (effect_outside _ _ (mo_pool s Hok) Ho) as E. split_and!; apply E.
Qed.
Lemma reaches_facts s s' :
  m_reaches s s' → machine_ok s →
  (∀ c, is_Some (w_heap (m_world s) !! c) → url_of (m_world s) c ≠ Some "" → url_of (m_world s') c ≠ Some "") ∧
  (∀ u a, is_Some (rows (m_world s) !! (u, a)) → is_Some (rows (m_world s') !! (u, a))).
Proof.
  induction 1 as [s|s1 s2 s3 Hs _ IH]; intros Hok; [done|].
  destruct (step_facts s1 s2 Hok Hs) as (Hu & Hc & Hr).
  destruct (IH (machine_ok_step _ _ Hok Hs)) as [Hu2 Hr2]. split; auto.
Qed.

(** *** What follows *)

(** A machine without calls, over a database and pool that agree. *)
Definition idle (w : World) : machine := MkMachine w ∅ ∅.
Context (w0 : World) (Hp0 : pool_ok w0) (Hs0 : slots_ok w0).

Lemma reached_ok s : m_reaches (idle w0) s → machine_ok s.
Proof using Type*. intros Hr. by apply (machine_ok_reaches _ _ Hr), idle_ok. Qed.

(** C22: the pool under concurrent use. In every interleaving of its calls, with
    each other and with the rest of the process, a registration mutex has one holder at
    a time, and the clients kept for accounts agree with the stored accounts. *)
Theorem pool_coherent_concurrently s :
  m_reaches (idle w0) s →
  pool_ok (m_world s) ∧
  ∀ i j t t' k, m_threads s !! i = Some t → m_threads s !! j = Some t' →
    holds t = Some k → holds t' = Some k → i = j.
Proof using Type*.
  intros Hr%reached_ok. split; [apply Hr|]. intros i j t t' k Hi Hj Hk Hk'.
  pose proof (mo_holds s Hr i t k Hi Hk). pose proof (mo_holds s Hr j t' k Hj Hk'). congruence.
Qed.

(** C18: one upstream account per gateway account, whatever the interleaving: two
    calls for the same account that succeed return the same client, and its key and URL are
    the ones in the database. *)
Theorem one_client_per_account s i j u a c c' :
  m_reaches (idle w0) s →
  m_threads s !! i = Some (AReturn u a (Ok c)) → m_threads s !! j = Some (AReturn u a (Ok c')) →
  c = c' ∧ ∃ cl, w_heap (m_world s) !! c = Some cl ∧ persisted (m_world s) u a cl.
Proof using Type*.
  intros Hr%reached_ok Hi Hj. pose proof (mo_thread s Hr i _ Hi) as Hc. pose proof (mo_thread s Hr j _ Hj) as Hc'.
  simpl in *. split; [congruence|]. by apply (po_account _ (mo_pool s Hr)).
Qed.

(** A slot's client gets its account; an account's registration is written down. *)
Definition registers (c : client_ref) (s s' : machine) : Prop :=
  m_step s s' ∧ ∃ i u slot url,
    m_threads s !! i = Some (SRegister u slot c) ∧ m_threads s' !! i = Some (SSave u slot c url).
Definition persists (u a : string) (s s' : machine) : Prop :=
  m_step s s' ∧ ∃ i c url,
    m_threads s !! i = Some (ASave u a c url) ∧ m_threads s' !! i = Some (APublish u a c).

(** C19: accounts are registered once, however the calls interleave. After a slot's
    client has got its account, and after the account of a gateway account has
    been written down, no call, running or to come, registers it again. *)
Theorem registered_once s1 s2 s3 :
  m_reaches (idle w0) s1 → m_reaches s2 s3 →
  (∀ c, registers c s1 s2 → ∀ i u slot, m_threads s3 !! i ≠ Some (SRegister u slot c)) ∧
  (∀ u a, persists u a s1 s2 → ∀ i up c, m_threads s3 !! i ≠ Some (ARegister u a up c)).
Proof using Type*.
  intros Hr1%reached_ok Hr3. split.
  - intros c [Hs (j & v & z & url & _ & Hj)] i u slot Hi. pose proof (machine_ok_step _ _ Hr1 Hs) as Hok2.
    pose proof (machine_ok_reaches _ _ Hr3 Hok2) as Hok3.
    pose proof (mo_thread _ Hok2 j _ Hj) as (Hsc & Hu & Hne). pose proof (mo_thread _ Hok3 i _ Hi) as [_ Hu3].
    destruct (reaches_facts _ _ Hr3 Hok2) as [Hlast _]. apply (Hlast c); [|congruence|done].
    by eapply slot_some; [apply Hok2|].
  - intros u a [Hs (j & c & url & _ & Hj)] i up c' Hi. pose proof (machine_ok_step _ _ Hr1 Hs) as Hok2.
    pose proof (machine_ok_reaches _ _ Hr3 Hok2) as Hok3.
    pose proof (mo_thread _ Hok2 j _ Hj) as (_ & _ & cl & _ & row & Hrow & _).
    pose proof (mo_thread _ Hok3 i _ Hi) as (_ & Hnone & _).
    destruct (reaches_facts _ _ Hr3 Hok2) as [_ Hlast]. destruct (Hlast u a); [by eexists|]. congruence.
Qed.

(** *** Progress *)

(** How far a call is from its return. *)
Definition remaining (t : thread) : nat :=
  match t with
  | AEnter _ _ => 8 | AWait _ _ => 7 | ARecheck _ _ => 6 | ALoad _ _ _ => 5 | ACreate _ _ _ _ => 4
  | ARegister _ _ _ _ => 3 | ASave _ _ _ _ => 2 | APublish _ _ _ => 1
  | NEnter _ => 6 | SEnter _ _ _ => 5 | SWait _ _ _ => 4 | SRecheck _ _ _ => 3 | SRegister _ _ _ => 2
  | SSave _ _ _ _ => 1 | GEnter _ _ => 1
  | AReturn _ _ _ | NReturn _ _ | GReturn _ => 0
  end.
Definition total_remaining (ts : gmap nat thread) : nat := map_fold (λ _ t n, remaining t + n) 0 ts.

Lemma total_delete ts i t :
  ts !! i = Some t → total_remaining ts = remaining t + total_remaining (delete i ts).
Proof using Type.
  intros Hi. unfold total_remaining.
  apply (map_fold_delete_L (λ _ t n, remaining t + n) 0 i t ts); [intros; lia|done].
Qed.
Lemma total_insert ts i t t' :
  ts !! i = Some t → remaining t' < remaining t → total_remaining (<[i := t']> ts) < total_remaining ts.
Proof using Type.
  intros Hi Hlt. rewrite (total_delete ts i t Hi), (total_delete (<[i := t']> ts) i t') by apply lookup_insert_eq.
  rewrite delete_insert_eq. lia.
Qed.

Lemma after_map {A B} (m : M A) (f : A → B) w (P : B → Prop) :
  (∀ a, P (f a)) → after (let! a := m in ret (f a)) w (λ r _, ∀ b, r = Some b → P b).
Proof using Type. intros Hf. unfold after. rewrite bind_run. by destruct (m w) as [[a|] w']; [intros ? [= <-]|]. Qed.
Lemma advance_closer t w :
  returned t = false → after (advance cfg t) w (λ r _, ∀ t', r = Some t' → remaining t' < remaining t).
Proof using Type.
  intros Hret. destruct t; try discriminate Hret; cbn [advance]; cbv zeta;
    try (apply after_map; intros; repeat case_match; simpl; lia); by intros ? [= <-]; simpl; lia.
Qed.

Lemma some_call_goes s i t :
  machine_ok s → m_threads s !! i = Some t → returned t = false →
  ∃ j tj, m_threads s !! j = Some tj ∧ can_go tj (m_locks s) = true.
Proof using Type.
  intros Hok Hi Hret. destruct (can_go t (m_locks s)) eqn:Hgo; [by eauto|]. unfold can_go in Hgo.
  destruct (waits t) as [k|] eqn:Hw; [|by rewrite Hret in Hgo]. apply bool_decide_eq_false in Hgo.
  destruct (m_locks s !! k) as [j|] eqn:Hl; [|done]. destruct (mo_locks s Hok k j Hl) as (tj & Hj & Hk).
  exists j, tj. split; [done|]. by destruct tj.
Qed.

(** C20: no call is stuck. From every state that an interleaving reaches, the running
    calls can be brought to their returns one step at a time, without a panic: nobody waits
    for ever on a registration mutex. *)
Theorem calls_can_finish s :
  m_reaches (idle w0) s →
  ∃ s', m_reaches s s' ∧ ∀ i t, m_threads s' !! i = Some t → returned t = true.
Proof using Type*.
  intros Hok%reached_ok. remember (total_remaining (m_threads s)) as n eqn:Hn. revert s Hok Hn.
  induction (lt_wf n) as [n _ IH]. intros s Hok ->.
  destruct (decide (map_Forall (λ _ t, returned t = true) (m_threads s))) as [Hall|Hsome].
  { exists s. split; [apply rtc_refl|exact Hall]. }
  apply map_not_Forall in Hsome as (i & t & Hi & Hret); [|apply _]. apply not_true_is_false in Hret.
  destruct (some_call_goes s i t Hok Hi Hret) as (j & tj & Hj & Hgo).
  pose proof (can_go_runs _ _ Hgo) as Hretj.
  pose proof (advance_ok cfg tj (m_world s) (mo_pool s Hok) (mo_slots s Hok) (mo_thread s Hok j tj Hj) Hretj)
    as (tj' & Hr & _). pose proof (advance_closer tj (m_world s) Hretj tj' Hr) as Hcloser.
  destruct (advance cfg tj (m_world s)) as [r w'] eqn:Hrun. simpl in Hr. subst r.
  pose proof (step_thread cfg j tj tj' w' s Hj Hgo Hrun) as Hstep.
  destruct (IH _ (total_insert _ _ _ _ Hj Hcloser) _ (machine_ok_step _ _ Hok Hstep) eq_refl) as (s' & Hr' & Hdone).
  exists s'. split; [by eapply rtc_l|done].
Qed.
End machine.
