(* ===== verification/Probe.v ===== *)
(** * The probe command (cmd/acme-probe)

    The upstream flow of the gateway run once against an upstream, with a throwaway
    account; what it prints is left out, its exit code is the result. *)
From S2P Require Export NonceUse PoolProps.

(** The command line, after the defaults from the environment. *)
Record probe_flags := MkFlags {
  fl_dir : string; fl_kid : string; fl_hmac : string; fl_email : string; fl_domains : string;
  fl_profile : string; fl_finalize : bool; fl_csrKey : string
}.

(** A key of the given type and a CSR for the names, the first as common name: made
    by the standard library. *)
Class ProbeEnv := { probe_csr : nat → string → list string → result string }.

Section probe.
Context `{Env} `{!NetURL} `{!ProbeEnv}.

(** [must] and [fail]: exit 1. *)
Definition or_exit {A} (m : M (result A)) (k : A → M nat) : M nat :=
  let! r := m in match r with Ok a => k a | Err _ => ret 1 end.

(** The order polled after finalization; waiting between the polls has no effect. *)
Fixpoint poll_issued (polls : nat) (c : client_ref) (orderURL : string) : M nat :=
  match polls with
  | 0 => ret 1
  | S polls =>
      or_exit (UpstreamGetOrder c orderURL) (λ o,
        if ao_Status o ==? "valid" then ret 0
        else if ao_Status o ==? "invalid" then ret 1
        else poll_issued polls c orderURL)
  end.

Definition finalize (c : client_ref) (finalizeURL orderURL : string) (ids : list Identifier)
    (csrKey : string) : M nat :=
  let dnsNames := id_Value <$> ids in
  let keyType := ToLower csrKey in
  if (keyType ==? "ecdsa") || (keyType ==? "rsa") then
    match dnsNames with
    | [] => panic
    | _ =>
        or_exit (ask (λ n, probe_csr n keyType dnsNames)) (λ csrDER,
        or_exit (FinalizeOrder c finalizeURL csrDER) (λ _, poll_issued 8 c orderURL))
    end
  else ret 1.

(** The order polled until it is ready. *)
Fixpoint poll_ready (polls : nat) (c : client_ref) (orderURL : string) (ready : M nat) : M nat :=
  match polls with
  | 0 => ret 1
  | S polls =>
      or_exit (UpstreamGetOrder c orderURL) (λ o,
        if (ao_Status o ==? "ready") || (ao_Status o ==? "valid") then ready
        else if ao_Status o ==? "invalid" then ret 1
        else poll_ready polls c orderURL ready)
  end.

Fixpoint get_authzs (c : client_ref) (urls : list string) (k : M nat) : M nat :=
  match urls with
  | [] => k
  | u :: urls => or_exit (GetAuthorization c u) (λ _, get_authzs c urls k)
  end.

Definition domain_ids (domains : string) : list Identifier :=
  MkIdentifier "dns" <$> List.filter (λ d, d !=? "") (TrimSpace <$> Split domains ",").

Definition bad_flags (f : probe_flags) : bool :=
  (fl_dir f ==? "") || (fl_domains f ==? "") || (fl_email f ==? "")
  || negb (Bool.eqb (fl_kid f ==? "") (fl_hmac f ==? "")).

Definition probe (f : probe_flags) : M nat :=
  if bad_flags f then ret 2
  else
    or_exit (ask env_genkey) (λ k,
    or_exit (New (fl_dir f) (Some k)) (λ cl,
    let! c := new_client cl in
    let eab := if (fl_kid f !=? "") || (fl_hmac f !=? "") then Some (MkEABConfig (fl_kid f) (fl_hmac f))
               else None in
    or_exit (Register c (fl_email f) eab) (λ _,
    let ids := domain_ids (fl_domains f) in
    or_exit (SubmitOrder c ids (fl_profile f)) (λ '(order, orderURL),
    get_authzs c (ao_Authorizations order)
      (poll_ready 6 c orderURL
        (if fl_finalize f then finalize c (ao_Finalize order) orderURL ids (fl_csrKey f)
         else ret 0)))))).
End probe.

(** ** What the probe leaves alone *)
Section harmless.
Context `{Env} `{!NetURL} `{!ProbeEnv} (ok_text : string → Prop) (Hempty : ok_text "").

(** A request without a payload of its own, or with an allowed one. *)
Definition allowed (ev : event) : Prop :=
  match ev with
  | EvHTTP rq => match rq_Body rq with NoBody => True | SignedBody _ _ _ _ text => ok_text text end
  | _ => False
  end.

(** Only clients, the oracles and allowed requests. *)
Record only_requests (w w' : World) : Prop := {
  or_store : w_store w' = w_store w;
  or_pool : w_pool w' = w_pool w;
  or_proc : w_proc w' = w_proc w;
  or_jobs : w_jobs w' = w_jobs w;
  or_resp : w_resp w' = w_resp w;
  or_trace : ∃ evs, w_trace w' = w_trace w ++ evs ∧ Forall allowed evs
}.
#[export] Instance only_requests_pre : PreOrder only_requests.
Proof using Type.
  split.
  - intros w. split; try done. exists []. by rewrite app_nil_r.
  - intros w1 w2 w3 [] []. split; try congruence.
    destruct or_trace0 as (e1 & Ht1 & Hf1), or_trace1 as (e2 & Ht2 & Hf2). exists (e1 ++ e2).
    rewrite Ht2, Ht1, app_assoc. split; [done|by apply Forall_app].
Qed.
Lemma only_requests_quiet w w' :
  w_store w' = w_store w → w_pool w' = w_pool w → w_proc w' = w_proc w → w_jobs w' = w_jobs w →
  w_resp w' = w_resp w → w_trace w' = w_trace w → only_requests w w'.
Proof using Type. intros. split; try done. exists []. by rewrite app_nil_r. Qed.
#[export] Instance only_requests_fetch : FetchRel only_requests.
Proof using Type.
  split; [apply _| | |].
  - intros A f w. by apply only_requests_quiet.
  - intros meth u a w. split; try done. eexists [_]. split; [done|]. by repeat constructor.
  - intros c f _ w. by apply only_requests_quiet.
Qed.

Lemma keeps_signed c url payload accept :
  ok_text (payload_text payload) → keeps only_requests (signedPostWithHeaders c url payload accept).
Proof using Type.
  intros Hok w. unfold signedPostWithHeaders.
  pose proof (keeps_attempts client_frame maxAttempts c url payload accept w) as Hcf.
  pose proof (attempts_posts maxAttempts c url payload accept w) as [_ (evs & Ht & _ & Hf)].
  unfold after in *.
  destruct (attempts maxAttempts c url payload accept w) as [r w']. cbn [fst snd] in *.
  destruct (cf_trace _ _ Hcf) as (evs' & Ht' & Hhttp). assert (evs' = evs) as -> by (rewrite Ht' in Ht; by simplify_list_eq).
  split; [apply Hcf..|]. exists evs. split; [done|]. clear -Hhttp Hf Hok.
  induction evs as [|ev evs IH]; [constructor|]. simpl in Hhttp. apply andb_true_iff in Hhttp as [Hev Hhttp].
  unfold signed_events in *. destruct ev as [rq| |]; [|done..]. simpl in Hf.
  destruct (rq_Body rq) as [|nonce u kh k text] eqn:Hb.
  - constructor; [simpl; by rewrite Hb|by apply IH].
  - apply Forall_cons in Hf as [(n' & kh' & k' & _ & [= ->]) Hf]. constructor; [|by apply IH].
    simpl in *. by injection Hb as _ _ _ _ <-.
Qed.
Lemma keeps_signedPost_ok c url payload : ok_text (payload_text payload) → keeps only_requests (signedPost c url payload).
Proof using Type. apply keeps_signed. Qed.
#[local] Hint Resolve keeps_signedPost_ok : keeps.

Lemma keeps_or_exit {A} (m : M (result A)) (k : A → M nat) :
  keeps only_requests m → (∀ a, keeps only_requests (k a)) → keeps only_requests (or_exit m k).
Proof using Type. intros Hm Hk. unfold or_exit. apply keeps_bind; [apply _|done|]. intros []; [done|keeps_auto]. Qed.

Lemma keeps_get_order c u : keeps only_requests (UpstreamGetOrder c u).
Proof using Hempty. unfold UpstreamGetOrder. keeps_auto. Qed.
Lemma keeps_get_authz c u : keeps only_requests (GetAuthorization c u).
Proof using Hempty. unfold GetAuthorization. keeps_auto. Qed.
Lemma keeps_poll_issued n c u : keeps only_requests (poll_issued n c u).
Proof using Hempty.
  induction n; cbn [poll_issued]; [keeps_auto|]. apply keeps_or_exit; [apply keeps_get_order|]. intros o. keeps_auto.
Qed.
Lemma keeps_poll_ready n c u k : keeps only_requests k → keeps only_requests (poll_ready n c u k).
Proof using Hempty.
  intros Hk. induction n; cbn [poll_ready]; [keeps_auto|]. apply keeps_or_exit; [apply keeps_get_order|].
  intros o. keeps_auto.
Qed.
Lemma keeps_get_authzs c us k : keeps only_requests k → keeps only_requests (get_authzs c us k).
Proof using Hempty.
  intros Hk. induction us; cbn [get_authzs]; [done|]. apply keeps_or_exit; [apply keeps_get_authz|done].
Qed.
End harmless.

(** ** What it sends *)
Section sends.
Context `{Env} `{!NetURL} `{!ProbeEnv}.

Definition order_payload (ids : list Identifier) (profile : string) : json :=
  JObj (("identifiers", JArr (identifier_json <$> ids))
    :: (if profile !=? "" then [("profile", JStr profile)] else [])).

(** The payloads of the probe: of an account, of an order, of a download, and with
    [-finalize] a CSR. *)
Inductive probe_text (f : probe_flags) : string → Prop :=
| pt_get : probe_text f ""
| pt_account eab : probe_text f (Marshal (account_payload (fl_email f) eab))
| pt_order : probe_text f (Marshal (order_payload (domain_ids (fl_domains f)) (fl_profile f)))
| pt_csr csr : fl_finalize f = true → probe_text f (Marshal (JObj [("csr", JStr csr)])).

(** None of them answers a challenge. *)
Lemma probe_text_no_trigger f : ¬ probe_text f (Marshal (JObj [])).
Proof using Type. intros Ht. inversion Ht as [Hm|eab Hm|Hm|csr _ Hm]; vm_compute in Hm; discriminate Hm. Qed.

Lemma keeps_probe_command f : keeps (only_requests (probe_text f)) (probe f).
Proof using Type.
  set (R := only_requests (probe_text f)).
  assert (probe_text f "") as Hempty by constructor.
  unfold probe. destruct (bad_flags f); [keeps_auto|].
  apply keeps_or_exit; [apply cr_ask|]. intros k. apply keeps_or_exit; [unfold New; keeps_auto|]. intros cl.
  apply keeps_bind; [apply _|intros w; by apply only_requests_quiet|]. intros c. cbv zeta.
  apply keeps_or_exit.
  { unfold Register, buildEAB. keeps_auto; [apply keeps_signedPost_ok; constructor|].
    intros w. by apply only_requests_quiet. }
  intros _. apply keeps_or_exit.
  { unfold SubmitOrder. keeps_auto. apply keeps_signedPost_ok. constructor. }
  intros [order orderURL]. apply keeps_get_authzs; [done|]. apply keeps_poll_ready; [done|].
  destruct (fl_finalize f) eqn:Hfin; [|keeps_auto]. unfold finalize. cbv zeta.
  destruct (_ || _); [|keeps_auto]. destruct (id_Value <$> _); [keeps_auto|].
  apply keeps_or_exit; [keeps_auto|]. intros csr. apply keeps_or_exit.
  { unfold FinalizeOrder. keeps_auto. apply keeps_signedPost_ok. by constructor. }
  intros o. by apply keeps_poll_issued.
Qed.

(** The exit codes of a run. *)
Definition exits (m : M nat) : Prop := ∀ w, after m w (λ r _, ∀ code, r = Some code → code = 0 ∨ code = 1).
Lemma exits_ret n : n = 0 ∨ n = 1 → exits (ret n).
Proof using Type. by intros Hn w code [= <-]. Qed.
Lemma exits_or_exit {A} (m : M (result A)) (k : A → M nat) : (∀ a, exits (k a)) → exits (or_exit m k).
Proof using Type.
  intros Hk w. unfold or_exit. apply after_bind, after_run. intros [[a|e]|] w' _; [apply Hk| |done].
  apply exits_ret. auto.
Qed.
Lemma exits_poll_issued n c u : exits (poll_issued n c u).
Proof using Type.
  induction n; cbn [poll_issued]; [apply exits_ret; auto|]. apply exits_or_exit. intros o.
  destruct (_ ==? "valid"); [apply exits_ret; auto|]. destruct (_ ==? "invalid"); [apply exits_ret; auto|done].
Qed.
Lemma exits_poll_ready n c u k : exits k → exits (poll_ready n c u k).
Proof using Type.
  intros Hk. induction n; cbn [poll_ready]; [apply exits_ret; auto|]. apply exits_or_exit. intros o.
  destruct (_ || _); [done|]. destruct (_ ==? "invalid"); [apply exits_ret; auto|done].
Qed.
Lemma exits_get_authzs c us k : exits k → exits (get_authzs c us k).
Proof using Type. intros Hk. induction us; cbn [get_authzs]; [done|]. by apply exits_or_exit. Qed.
Lemma exits_finalize c fu u ids ck : exits (finalize c fu u ids ck).
Proof using Type.
  unfold finalize. cbv zeta. destruct (_ || _); [|apply exits_ret; auto]. destruct (id_Value <$> ids); [by intros w|].
  apply exits_or_exit. intros csr. apply exits_or_exit. intros o. apply exits_poll_issued.
Qed.
Lemma exits_probe f : bad_flags f = false → exits (probe f).
Proof using Type.
  intros Hf. unfold probe. rewrite Hf. apply exits_or_exit. intros k. apply exits_or_exit. intros cl w.
  apply after_bind, after_run. intros [c|] w1 _; [|done]. cbv zeta.
  apply exits_or_exit. intros _. apply exits_or_exit. intros [order u].
  apply exits_get_authzs, exits_poll_ready. destruct (fl_finalize f); [apply exits_finalize|apply exits_ret; auto].
Qed.

(** The probe is harmless, as its description says: it touches no state of the
    gateway, runs no script, and every signed request it sends registers its account,
    opens its order, downloads, or, with [-finalize] alone, submits a CSR; none answers a
    challenge. A wrong command line is refused before anything is done. *)
Theorem probe_harmless f w :
  let '(r, w') := probe f w in
  w_store w' = w_store w ∧ w_pool w' = w_pool w ∧ w_proc w' = w_proc w ∧ w_jobs w' = w_jobs w ∧
  (∃ evs, w_trace w' = w_trace w ++ evs ∧ Forall (allowed (probe_text f)) evs) ∧
  (bad_flags f = true → r = Some 2 ∧ w' = w) ∧
  (∀ code, r = Some code → code = 0 ∨ code = 1 ∨ code = 2 ∧ bad_flags f = true).
Proof using Type.
  pose proof (keeps_probe_command f w) as Hk. pose proof (λ Hf, exits_probe f Hf w) as He. unfold after in He.
  assert (bad_flags f = true → probe f w = (Some 2, w)) as Hbad by (intros Hf; unfold probe; by rewrite Hf).
  destruct (probe f w) as [r w']. cbn [fst snd] in *. split_and!; [apply Hk..| |].
  - intros Hf%Hbad. by simplify_eq.
  - intros code Hr. destruct (bad_flags f) eqn:Hf.
    + specialize (Hbad eq_refl). simplify_eq. auto.
    + destruct (He eq_refl code Hr); auto.
Qed.

(** A list of domains without a name reaches the upstream as an order for nothing, and
    with [-finalize] panics at the first name of the CSR. *)
Lemma finalize_without_names c fu u w : (finalize c fu u (domain_ids ",") "rsa" w).1 = None.
Proof using Type. reflexivity. Qed.
End sends.
