(* ===== verification/DNSPolicy.v ===== *)
(** * DNS policy of dns-01 challenges (internal/server/dns_policy.go)

    Names, the delegation (CNAME) policy, the quorum and the propagation wait. *)
From S2P Require Export ClientProps.
From Stdlib Require Import Floats.SpecFloat.

(** ** Names *)
Definition normalizeFQDN (s : string) : string := TrimSpace (ToLower (TrimSuffix s ".")).

Definition acme_prefix : string := "_acme-challenge.".
Definition trimACMEChallengePrefix (fqdn : string) : string :=
  TrimPrefix (normalizeFQDN fqdn) acme_prefix.

(** ** The allow-list of delegated zones *)

(** A configured suffix, with or without its leading dot. *)
Definition zone_suffix (suffix : string) : string :=
  TrimPrefix (normalizeFQDN (TrimSpace suffix)) ".".

Definition in_zone (name suffix : string) : bool :=
  let s := zone_suffix suffix in
  if s ==? "" then false else (name ==? s) || HasSuffix name ("." +:+ s).

Definition validateDelegatedTarget (effectiveFQDN : string) (allowedSuffixes : list string)
    : result unit :=
  match allowedSuffixes with
  | [] => Ok tt
  | _ =>
      if existsb (in_zone (normalizeFQDN effectiveFQDN)) allowedSuffixes then Ok tt
      else Errorf ("delegated dns-01 fqdn " +:+ Quote effectiveFQDN
                   +:+ " does not match any allowed_zone_suffixes")
  end.

(** C33: a delegated name passes exactly when there is no allow-list or it is
    an allowed zone or a name below one, at a label boundary. *)
Theorem validateDelegatedTarget_iff name allowed :
  validateDelegatedTarget name allowed = Ok tt ↔
  allowed = [] ∨
  ∃ suffix, suffix ∈ allowed ∧ zone_suffix suffix ≠ "" ∧
    (normalizeFQDN name = zone_suffix suffix ∨
     ∃ label, normalizeFQDN name = label +:+ "." +:+ zone_suffix suffix).
Proof.
  unfold validateDelegatedTarget. destruct allowed as [|a l]; [naive_solver|].
  assert (existsb (in_zone (normalizeFQDN name)) (a :: l) = true ↔
    ∃ suffix, suffix ∈ a :: l ∧ zone_suffix suffix ≠ "" ∧
      (normalizeFQDN name = zone_suffix suffix ∨
       ∃ label, normalizeFQDN name = label +:+ "." +:+ zone_suffix suffix)) as Hiff.
  { rewrite existsb_elem. f_equiv. intros suffix. unfold in_zone.
    destruct (String.eqb_spec (zone_suffix suffix) "") as [->|Hne]; [naive_solver|].
    rewrite orb_true_iff, String.eqb_eq, HasSuffix_spec. naive_solver. }
  rewrite <- Hiff. case_match; naive_solver.
Qed.

(** ** The quorum *)

(** IEEE 754 double precision, the type of the quotient. *)
Definition float64_of (z : Z) : spec_float := binary_normalize 53 1024 z 0 false.
Definition float64_mul : spec_float → spec_float → spec_float := SFmul 53 1024.
Definition float64_div : spec_float → spec_float → spec_float := SFdiv 53 1024.

(** [int(math.Ceil(f))] for a finite f ≥ 0. *)
Definition ceil_int (f : spec_float) : Z :=
  match f with
  | S754_finite false m e =>
      if (0 <=? e)%Z then Z.shiftl (Z.pos m) e
      else (- (- Z.pos m / 2 ^ (- e)))%Z
  | _ => 0%Z
  end.

Definition quorumRequirement (totalNS quorumPercent : Z) : Z :=
  if (totalNS <=? 0)%Z then 0
  else
    let p := if (quorumPercent <=? 0)%Z then 100%Z else quorumPercent in
    let p := if (100 <? p)%Z then 100%Z else p in
    ceil_int (float64_div (float64_mul (float64_of totalNS) (float64_of p)) (float64_of 100)).

(** The integer ceiling it stands for. *)
Definition quorum_ceil (totalNS quorumPercent : Z) : Z := (- (- (totalNS * quorumPercent) / 100))%Z.

Definition quorum_agrees (n : nat) (p : nat) : bool :=
  (quorumRequirement (Z.of_nat n) (Z.of_nat p) =? quorum_ceil (Z.of_nat n) (Z.of_nat p))%Z.

Lemma quorum_table :
  forallb (λ n, forallb (quorum_agrees n) (seq 1 100)) (seq 1 24) = true.
Proof. vm_compute. reflexivity. Qed.

(** C34: for up to 24 nameservers, the floating-point computation gives the
    exact ceiling of the percentage; out-of-range percentages mean all of them, and the
    requirement is between one and all nameservers. *)
Theorem quorumRequirement_ceil n p :
  (1 ≤ n ≤ 24)%Z →
  let pct := if (p <=? 0)%Z || (100 <? p)%Z then 100%Z else p in
  quorumRequirement n p = quorum_ceil n pct ∧ (1 ≤ quorumRequirement n p ≤ n)%Z.
Proof.
  intros Hn pct.
  assert (1 ≤ pct ≤ 100)%Z as Hpct by (subst pct; destruct ((p <=? 0)%Z || _) eqn:?; lia).
  assert (quorumRequirement n p = quorumRequirement n pct) as ->.
  { unfold quorumRequirement. subst pct.
    destruct (Z.leb_spec n 0); [lia|]. destruct (Z.leb_spec p 0); simpl; [done|].
    destruct (Z.ltb_spec 100 p); simpl; [done|].
    destruct (Z.leb_spec p 0); [lia|]. destruct (Z.ltb_spec 100 p); [lia|done]. }
  pose proof quorum_table as Ht. rewrite forallb_elem in Ht.
  specialize (Ht (Z.to_nat n)). rewrite forallb_elem in Ht.
  assert (quorum_agrees (Z.to_nat n) (Z.to_nat pct) = true) as Ha.
  { apply Ht; apply elem_of_seq; lia. }
  unfold quorum_agrees in Ha. rewrite !Z2Nat.id in Ha by lia. apply Z.eqb_eq in Ha.
  rewrite Ha. split; [done|]. unfold quorum_ceil.
  pose proof (Z.div_mod (- (n * pct)) 100). pose proof (Z.mod_pos_bound (- (n * pct)) 100). nia.
Qed.

Lemma quorumRequirement_ceil_witness : quorumRequirement 3 67 = 3%Z.
Proof. destruct (quorumRequirement_ceil 3 67) as [-> _]; [lia|reflexivity]. Defined.

(** ** Delegation *)
Section policy.
Context `{Env}.

Definition lookupCNAMEOnce (fqdn : string) : M (result string) :=
  let! r := ask (λ n, env_LookupCNAME n fqdn) in
  ret (match r with Ok cname => Ok (normalizeFQDN cname) | Err e => Err e end).

(** A resolver error that says the name does not exist. *)
Definition is_not_found (e : error) : bool :=
  match errors_As_DNS e with
  | Some (msg, nf) => nf || Contains (ToLower msg) "no such host"
  | None => false
  end.

(** The body of the loop at [depth]; [fuel] turns are left. *)
Fixpoint resolve_loop (fuel : nat) (depth : nat) (current : string) (seen : list string)
    : M (result (string * bool)) :=
  match fuel with
  | 0 => ret (Errorf "cname delegation exceeded max depth")
  | S fuel =>
      if existsb (String.eqb current) seen
      then ret (Errorf ("cname delegation loop detected at " +:+ Quote current))
      else
        let! r := lookupCNAMEOnce current in
        match r with
        | Err e =>
            if is_not_found e then ret (Ok (current, (0 <? depth)%nat))
            else ret (Wrapf ("lookup cname for " +:+ Quote current +:+ ": ") e)
        | Ok cname =>
            if (cname ==? "") || (normalizeFQDN cname ==? current)
            then ret (Ok (current, (0 <? depth)%nat))
            else resolve_loop fuel (S depth) (normalizeFQDN cname) (current :: seen)
        end
  end.

Definition resolveDelegatedFQDN (sourceFQDN : string) : M (result (string * bool)) :=
  let current := normalizeFQDN sourceFQDN in
  if current ==? "" then ret (Errorf "empty dns-01 source fqdn")
  else resolve_loop 10 0 current [].

Definition source_target (sourceDomain sourceFQDN : string) : dnsChallengeTarget :=
  MkTarget sourceDomain (normalizeFQDN sourceFQDN) sourceDomain (normalizeFQDN sourceFQDN).

Definition resolveDNSChallengeTarget (hook : DNSHook) (sourceDomain sourceFQDN : string)
    : M (result dnsChallengeTarget) :=
  let target := source_target sourceDomain sourceFQDN in
  if negb (deleg_EnabledOrDefault (Delegation hook)) then ret (Ok target)
  else
    let permissive := ModeOrDefault (Delegation hook) ==? "permissive" in
    let! r := resolveDelegatedFQDN (SourceFQDN target) in
    match r with
    | Err e => ret (if permissive then Ok target else Err e)
    | Ok (effectiveFQDN, delegated) =>
        if negb delegated then ret (Ok target)
        else match validateDelegatedTarget effectiveFQDN (AllowedZoneSuffixes (Delegation hook)) with
             | Err e => ret (if permissive then Ok target else Err e)
             | Ok _ =>
                 let eff := normalizeFQDN effectiveFQDN in
                 ret (Ok (MkTarget sourceDomain (normalizeFQDN sourceFQDN)
                            (trimACMEChallengePrefix eff) eff))
             end
    end.

(** *** What the resolution returns *)

(** [chain t l]: each name but the last was looked up at or after counter
    [t] and its answer, normalised, is the next name. *)
Inductive chain : nat → list string → Prop :=
| chain_one t name : chain t [name]
| chain_next t t' name cname l :
    t ≤ t' → env_LookupCNAME t' name = Ok cname →
    chain (S t') (normalizeFQDN (normalizeFQDN cname) :: l) →
    chain t (name :: normalizeFQDN (normalizeFQDN cname) :: l).

Lemma chain_le t t' l : t ≤ t' → chain t' l → chain t l.
Proof. intros Hle Hc. inversion Hc; subst; [constructor|]. econstructor; [|done..]. lia. Qed.

(** The names visited from [current] on. *)
Lemma resolve_loop_chain fuel depth current seen w :
  NoDup seen →
  after (resolve_loop fuel depth current seen) w (λ r w',
    w_tick w' ≤ w_tick w + fuel ∧
    ∀ name d, r = Some (Ok (name, d)) →
      ∃ l, chain (w_tick w) (current :: l) ∧ last (current :: l) = Some name ∧
           length l < fuel ∧ NoDup (current :: l) ∧ (∀ x, x ∈ current :: l → x ∉ seen) ∧
           d = (0 <? depth + length l)%nat).
Proof.
  revert depth current seen w. induction fuel as [|fuel IH]; intros depth current seen w Hnd; simpl.
  { apply after_ret. split; [lia|done]. }
  destruct (existsb (String.eqb current) seen) eqn:Hseen; [split; [simpl; lia|done]|].
  assert (current ∉ seen) as Hnin by (rewrite <- existsb_eqb, Hseen; done).
  assert (∀ name d, Some (Ok (current, (0 <? depth)%nat)) = Some (Ok (name, d) : result _) →
    ∃ l, chain (w_tick w) (current :: l) ∧ last (current :: l) = Some name ∧
           length l < S fuel ∧ NoDup (current :: l) ∧ (∀ x, x ∈ current :: l → x ∉ seen) ∧
           d = (0 <? depth + length l)%nat) as Hstop.
  { intros name d [= <- <-]. exists []. rewrite Nat.add_0_r.
    split_and!; [constructor|done|simpl; lia|apply NoDup_singleton| |done].
    intros x ->%list_elem_of_singleton. done. }
  apply after_bind, after_bind, after_ask.
  destruct (env_LookupCNAME (w_tick w) current) as [cname|e] eqn:Hc; apply after_ret; cbn.
  2:{ destruct (is_not_found e); apply after_ret; (split; [simpl; lia|done]). }
  destruct ((normalizeFQDN cname ==? "") || _) eqn:Hstop2; [split; [simpl; lia|done]|].
  assert (NoDup (current :: seen)) as Hnd' by by apply NoDup_cons.
  eapply after_mono; [by apply IH|]. cbn [w_tick set_tick]. intros r w' [Ht Hr].
  split; [lia|]. intros name d Hok.
  destruct (Hr name d Hok) as (l & Hch & Hlast & Hlen & Hnd2 & Hfresh & ->).
  eexists (_ :: l). split_and!; [| |simpl; lia| | |].
  - by eapply (chain_next _ (w_tick w)).
  - exact Hlast.
  - apply NoDup_cons. split; [|done]. intros Hin. apply (Hfresh _ Hin). left.
  - intros x [->|Hx]%elem_of_cons; [done|]. intros Hxs. apply (Hfresh x Hx). by right.
  - cbn [length]. by rewrite Nat.add_succ_r.
Qed.

(** The delegated name is the end of a chain of CNAME answers from the
    source name, without repetition and of at most ten names; it counts as delegated
    when it is not the source. At most ten lookups are made, whatever is answered. *)
Theorem resolveDelegatedFQDN_chain source w :
  let '(r, w') := resolveDelegatedFQDN source w in
  w_tick w' ≤ w_tick w + 10 ∧
  ∀ name d, r = Some (Ok (name, d)) →
    ∃ l, chain (w_tick w) (normalizeFQDN source :: l) ∧
         last (normalizeFQDN source :: l) = Some name ∧ NoDup (normalizeFQDN source :: l) ∧
         length l < 10 ∧ (d = true ↔ name ≠ normalizeFQDN source).
Proof.
  refine (after_let _ _ (λ r w', _ ∧ _) _). unfold resolveDelegatedFQDN.
  destruct (normalizeFQDN source ==? "") eqn:He; [by split; [simpl; lia|]|].
  eapply after_mono; [apply resolve_loop_chain, NoDup_nil_2|]. intros r w' [Ht Hr].
  split; [done|]. intros name d Hok. destruct (Hr name d Hok) as (l & Hc & Hl & Hlen & Hnd & _ & ->).
  exists l. split_and!; [done..|]. simpl. rewrite Nat.ltb_lt. destruct l as [|x l].
  - injection Hl as <-. simpl. split; [lia|done].
  - split; [|simpl; lia]. intros _ ->. apply NoDup_cons in Hnd as [Hnin _]. apply Hnin.
    apply list_elem_of_lookup_2 with (pred (length (x :: l))). by rewrite <- last_lookup.
Qed.

(** Where a record may be published: under the source name or, when delegation
    is on, under a name the allow-list accepts. *)
Definition target_allowed (hook : DNSHook) (domain fqdn : string) (t : dnsChallengeTarget) : Prop :=
  t = source_target domain fqdn ∨
  (deleg_EnabledOrDefault (Delegation hook) = true ∧
   EffectiveDomain t = trimACMEChallengePrefix (EffectiveFQDN t) ∧
   SourceFQDN t = normalizeFQDN fqdn ∧
   ∃ name, EffectiveFQDN t = normalizeFQDN name ∧
           validateDelegatedTarget name (AllowedZoneSuffixes (Delegation hook)) = Ok tt).

(** A failed or refused delegation is an error in strict mode and falls back
    to the source name in permissive mode. *)
Lemma challenge_target_allowed hook domain fqdn w :
  after (resolveDNSChallengeTarget hook domain fqdn) w (λ r _,
    ∀ t, r = Some (Ok t) → target_allowed hook domain fqdn t).
Proof.
  unfold resolveDNSChallengeTarget, target_allowed.
  destruct (deleg_EnabledOrDefault (Delegation hook)); simpl.
  2:{ apply after_ret. intros t [= <-]. by left. }
  apply after_bind, after_run. intros [[[name d]|e]|] w' _; [| |done].
  2:{ apply after_ret. intros t Ht. left. by destruct (_ ==? "permissive"); simplify_eq. }
  destruct d; simpl; [|apply after_ret; intros t [= <-]; by left].
  destruct (validateDelegatedTarget name _) as [[]|e] eqn:Hv; apply after_ret; intros t Ht.
  - simplify_eq. right. split_and!; try done. by exists name.
  - left. by destruct (_ ==? "permissive"); simplify_eq.
Qed.

Lemma keeps_resolve_loop R `{!PostRel R} fuel depth current seen :
  keeps R (resolve_loop fuel depth current seen).
Proof.
  revert depth current seen. induction fuel; intros; simpl; unfold lookupCNAMEOnce; keeps_auto.
Qed.
Lemma keeps_target R `{!PostRel R} hook domain fqdn :
  keeps R (resolveDNSChallengeTarget hook domain fqdn).
Proof.
  unfold resolveDNSChallengeTarget, resolveDelegatedFQDN.
  pose proof (keeps_resolve_loop R 10 0). keeps_auto.
Qed.
End policy.

(** ** Propagation *)

(** [slices.Compact] *)
Fixpoint compact (l : list string) : list string :=
  match l with
  | x :: (y :: _) as l' => if x ==? y then compact l' else x :: compact l'
  | _ => l
  end.

Lemma compact_cons x y l :
  compact (x :: y :: l) = if x ==? y then compact (y :: l) else x :: compact (y :: l).
Proof. done. Qed.

Lemma compact_subset l x : x ∈ compact l → x ∈ l.
Proof.
  induction l as [|y l IH]; [done|]. destruct l as [|z l]; [done|]. rewrite compact_cons.
  destruct (y ==? z); [intros Hx; right; by apply IH|].
  rewrite !elem_of_cons in *. naive_solver.
Qed.

Lemma compact_sorted_NoDup l : StronglySorted str_le l → NoDup (compact l).
Proof.
  induction 1 as [|x l Hl IH Hx]; [constructor|]. destruct l as [|y l]; [apply NoDup_singleton|].
  rewrite compact_cons. destruct (String.eqb_spec x y) as [|Hne]; [done|].
  apply NoDup_cons. split; [|done]. intros Hin%compact_subset. apply Hne.
  apply String.leb_antisym; [by inversion Hx|].
  apply elem_of_cons in Hin as [->|Hin]; [apply str_le_cases; by left|].
  inversion Hl as [|? ? _ Hy]; subst. by eapply Forall_forall in Hy.
Qed.

(** The per-nameserver counters and the number of stable ones after the
    answers of one round: [None] is a query that failed. *)
Definition round_answer := (string * option bool)%type.

Definition count_answer (minConsecutive : Z) (a : round_answer) (st : gmap string Z * Z)
    : gmap string Z * Z :=
  let '(ns, ans) := a in let '(successes, stable) := st in
  match ans with
  | None => (<[ns := 0%Z]> successes, stable)
  | Some ok =>
      let n := if ok then (default 0 (successes !! ns) + 1)%Z else 0%Z in
      (<[ns := n]> successes, if (minConsecutive <=? n)%Z then (stable + 1)%Z else stable)
  end.

Definition count_round (minConsecutive : Z) (answers : list round_answer)
    (successes : gmap string Z) : gmap string Z * Z :=
  foldl (λ st a, count_answer minConsecutive a st) (successes, 0%Z) answers.

Section propagation.
Context `{Env}.

(** The nameservers of the closest enclosing zone that has some; the last
    label alone is not tried. *)
Fixpoint nameservers_from (labels : list string) : M (result (list string)) :=
  match labels with
  | [] | [_] => ret (Errorf "no nameservers discovered")
  | _ :: rest =>
      let! r := ask (λ n, env_LookupNS n (Join labels ".")) in
      match r with
      | Err _ => nameservers_from rest
      | Ok nss =>
          let hosts := compact (sort_strings (filter (λ h, h ≠ "") (normalizeFQDN <$> nss))) in
          match hosts with
          | [] => nameservers_from rest
          | _ => ret (Ok hosts)
          end
      end
  end.

Definition authoritativeNameservers (fqdn : string) : M (result (list string)) :=
  let name := normalizeFQDN fqdn in
  if name ==? "" then ret (Errorf "empty fqdn") else nameservers_from (Split name ".").

Definition queryTXTFromNameserver (nameserverHost fqdn expectedTXT : string) : M (result bool) :=
  let! r := ask (λ n, env_LookupTXT n (TrimSuffix nameserverHost ".") (normalizeFQDN fqdn)) in
  ret (match r with
       | Err e => if is_not_found e then Ok false else Err e
       | Ok values => Ok (existsb (λ v, TrimSpace v ==? expectedTXT) values)
       end).

(** The first IPv4 address, or the first address. *)
Definition pick_address (ips : list (string * bool)) : string :=
  match List.find snd ips with
  | Some (ip, _) => ip
  | None => match ips with (ip, _) :: _ => ip | [] => "" end
  end.

Fixpoint resolveNameserverEndpoints (hosts : list string) : M (gmap string string) :=
  match hosts with
  | [] => ret ∅
  | host :: hosts =>
      let! r := ask (λ n, env_LookupIP n host) in
      let! rest := resolveNameserverEndpoints hosts in
      ret (match r with
           | Ok ((_ :: _) as ips) => <[host := pick_address ips]> rest
           | _ => rest
           end)
  end.

(** One round: every nameserver is asked, in order. *)
Fixpoint ask_round (endpoints : gmap string string) (nsHosts : list string)
    (fqdn expectedTXT : string) : M (list round_answer) :=
  match nsHosts with
  | [] => ret []
  | ns :: nsHosts =>
      let e := default "" (endpoints !! ns) in
      let! r := queryTXTFromNameserver (if e ==? "" then ns else e) fqdn expectedTXT in
      let! rest := ask_round endpoints nsHosts fqdn expectedTXT in
      ret ((ns, ok_opt r) :: rest)
  end.

Definition settleAfterQuorum (hook : DNSHook) : M (result unit) :=
  let settle := SettleDelayOrDefault (Propagation hook) in
  if (settle <=? 0)%Z then ret (Ok tt)
  else
    let! e := ask (λ n, env_sleep n settle) in
    ret (match e with
         | Some e => Wrapf "dns propagation settle canceled: " e
         | None => Ok tt
         end).

Record wait_params := MkWait {
  wp_hosts : list string; wp_endpoints : gmap string string; wp_fqdn : string;
  wp_expected : string; wp_required : Z; wp_min : Z; wp_poll : Z; wp_deadline : time
}.

(** The polling loop; [None] when the rounds given do not suffice. *)
Fixpoint wait_loop (rounds : nat) (p : wait_params) (hook : DNSHook) (successes : gmap string Z)
    : M (option (result unit)) :=
  match rounds with
  | 0 => ret None
  | S rounds =>
      let! now := ask env_now in
      if negb (now <? wp_deadline p)%Z
      then ret (Some (Errorf ("dns propagation timeout for " +:+ Quote (wp_fqdn p))))
      else
        let! answers := ask_round (wp_endpoints p) (wp_hosts p) (wp_fqdn p) (wp_expected p) in
        let '(successes, stable) := count_round (wp_min p) answers successes in
        if (wp_required p <=? stable)%Z
        then let! r := settleAfterQuorum hook in ret (Some r)
        else
          let! e := ask (λ n, env_sleep n (wp_poll p)) in
          match e with
          | Some e => ret (Some (Wrapf "dns propagation wait canceled: " e))
          | None => wait_loop rounds p hook successes
          end
  end.

Definition waitForDNSPropagation (rounds : nat) (hook : DNSHook) (fqdn expectedTXT : string)
    : M (option (result unit)) :=
  let pr := Propagation hook in
  if negb (prop_EnabledOrDefault pr) then ret (Some (Ok tt))
  else
    let! r := authoritativeNameservers fqdn in
    match r with
    | Err e => ret (Some (Wrapf ("resolving authoritative nameservers for " +:+ Quote fqdn +:+ ": ") e))
    | Ok [] => ret (Some (Errorf ("no authoritative nameservers discovered for " +:+ Quote fqdn)))
    | Ok nsHosts =>
        let! endpoints := resolveNameserverEndpoints nsHosts in
        let required := quorumRequirement (Z.of_nat (length nsHosts)) (QuorumPercentOrDefault pr) in
        let required := if (required <? 1)%Z then 1%Z else required in
        let! now := ask env_now in
        wait_loop rounds
          (MkWait nsHosts endpoints fqdn expectedTXT required (MinConsecutiveOrDefault pr)
             (PollOrDefault pr) (now + TimeoutOrDefault pr)%Z) hook ∅
    end.
End propagation.

(** ** What a quorum means *)

(** The length of the run of successes that ends a history of answers
    (latest first). *)
Fixpoint run_length (l : list (option bool)) : Z :=
  match l with
  | Some true :: l => (run_length l + 1)%Z
  | _ => 0%Z
  end.

Definition answers_of (ns : string) (history : list (list round_answer)) : list (option bool) :=
  omap (λ r, snd <$> List.find (λ a, a.1 ==? ns) r) history.

(** The counters after a history of rounds, latest first. *)
Fixpoint counters (minC : Z) (history : list (list round_answer)) : gmap string Z :=
  match history with
  | [] => ∅
  | r :: history => (count_round minC r (counters minC history)).1
  end.

Definition next_count (old : Z) (ans : option bool) : Z :=
  match ans with Some true => (old + 1)%Z | _ => 0%Z end.

Definition stable_answer (minC : Z) (old : gmap string Z) (a : round_answer) : bool :=
  match a.2 with
  | None => false
  | Some ok => (minC <=? next_count (default 0%Z (old !! a.1)) (Some ok))%Z
  end.

Lemma count_round_spec minC answers old :
  NoDup answers.*1 →
  (∀ ns, default 0%Z ((count_round minC answers old).1 !! ns) =
     match List.find (λ a, a.1 ==? ns) answers with
     | Some (_, ans) => next_count (default 0%Z (old !! ns)) ans
     | None => default 0%Z (old !! ns)
     end) ∧
  (count_round minC answers old).2 = Z.of_nat (length (List.filter (stable_answer minC old) answers)).
Proof.
  unfold count_round. set (step := λ st a, count_answer minC a st).
  assert (∀ answers succ stable, NoDup answers.*1 →
    (∀ a, a ∈ answers → succ !! a.1 = old !! a.1) →
    (∀ ns, default 0%Z ((foldl step (succ, stable) answers).1 !! ns) =
       match List.find (λ a, a.1 ==? ns) answers with
       | Some (_, ans) => next_count (default 0%Z (old !! ns)) ans
       | None => default 0%Z (succ !! ns)
       end) ∧
    (foldl step (succ, stable) answers).2 =
      (stable + Z.of_nat (length (List.filter (stable_answer minC old) answers)))%Z) as Hgen.
  { clear. intros answers. induction answers as [|[ns ans] l IH]; intros succ stable Hnd Hsucc.
    { split; [done|simpl; lia]. }
    cbn [foldl List.find List.filter].
    apply NoDup_cons in Hnd as [Hnin Hnd].
    assert (step (succ, stable) (ns, ans) =
      (<[ns := next_count (default 0%Z (old !! ns)) ans]> succ,
       if stable_answer minC old (ns, ans) then (stable + 1)%Z else stable)) as ->.
    { unfold step, count_answer, stable_answer, next_count. cbn [fst snd].
      pose proof (Hsucc (ns, ans) ltac:(left)) as Hs. cbn [fst] in Hs. rewrite Hs. by destruct ans as [[]|]. }
    destruct (IH (<[ns := next_count (default 0%Z (old !! ns)) ans]> succ)
      (if stable_answer minC old (ns, ans) then (stable + 1)%Z else stable)) as [H1 H2]; [done| |].
    { intros a Ha. rewrite lookup_insert_ne; [by apply Hsucc; right|]. intros Heq. apply Hnin.
      simpl. rewrite Heq. apply list_elem_of_fmap. eauto. }
    split.
    - intros n. rewrite H1. cbn [fst]. destruct (String.eqb_spec ns n) as [<-|Hne].
      + assert (List.find (λ a, a.1 ==? ns) l = None) as ->.
        { apply find_none_forall, Forall_forall. intros a Ha. apply String.eqb_neq. intros Heq.
          apply Hnin. simpl. rewrite <- Heq. apply list_elem_of_fmap. eauto. }
        by rewrite lookup_insert_eq.
      + destruct (List.find _ l); [done|]. by rewrite lookup_insert_ne.
    - rewrite H2. destruct (stable_answer minC old (ns, ans)); simpl; lia. }
  intros Hnd. destruct (Hgen answers old 0%Z Hnd) as [H1 H2]; [done|]. split; [|by rewrite H2].
  intros ns. rewrite H1. done.
Qed.

Lemma counters_run minC history ns :
  Forall (λ r, NoDup r.*1 ∧ ∃ ans, (ns, ans) ∈ r) history →
  default 0%Z (counters minC history !! ns) = run_length (answers_of ns history).
Proof.
  induction 1 as [|r history [Hnd [ans Hin]] _ IH]; [done|].
  simpl. destruct (count_round_spec minC r (counters minC history) Hnd) as [Hc _]. rewrite Hc.
  destruct (List.find (λ a, a.1 ==? ns) r) as [[ns' ans']|] eqn:Hf; simpl.
  - rewrite IH. by destruct ans' as [[]|].
  - rewrite find_none_forall, Forall_forall in Hf. specialize (Hf _ Hin). simpl in Hf.
    by rewrite String.eqb_refl in Hf.
Qed.

(** The loop's counters mean what the policy says. After any history of
    rounds over the same nameservers, a nameserver is counted stable in a round exactly when
    it answered (whatever the answer) and its run of consecutive successes, this round
    included, has reached the minimum; a failed query or a missing record restarts the run. *)
Lemma stable_count_spec minC history answers hosts :
  NoDup hosts → answers.*1 = hosts → Forall (λ r, r.*1 = hosts) history →
  (count_round minC answers (counters minC history)).2 =
  Z.of_nat (length (List.filter (λ a, match a.2 with
                                      | None => false
                                      | Some _ => (minC <=? run_length (a.2 :: answers_of a.1 history))%Z
                                      end) answers)).
Proof.
  intros Hnd Ha Hh. rewrite (proj2 (count_round_spec minC answers _ ltac:(by rewrite Ha))).
  do 2 f_equal. apply List.filter_ext_in. intros [ns ans] Hin%list_elem_of_In.
  unfold stable_answer. simpl. destruct ans as [ok|]; [|done]. f_equal.
  rewrite (counters_run minC history ns); [by destruct ok|].
  eapply Forall_impl; [done|]. intros r Hr. simpl in Hr. rewrite Hr. split; [done|].
  assert (ns ∈ r.*1) as ([ns' ans] & -> & Hr')%list_elem_of_fmap.
  { rewrite Hr, <- Ha. apply list_elem_of_fmap. by exists (ns, Some ok). }
  by exists ans.
Qed.

(** ** The wait *)
Section wait.
Context `{Env}.

Lemma keeps_ask_round R `{!FetchRel R} ep hosts fqdn txt : keeps R (ask_round ep hosts fqdn txt).
Proof.
  induction hosts as [|ns hosts IH]; simpl; unfold queryTXTFromNameserver; keeps_auto; done.
Qed.

Lemma ask_round_hosts ep hosts fqdn txt w :
  after (ask_round ep hosts fqdn txt) w (λ r w', w_tick w ≤ w_tick w' ∧
    ∃ answers, r = Some answers ∧ answers.*1 = hosts).
Proof.
  revert w. induction hosts as [|ns hosts IH]; intros w; simpl; [apply after_ret; eauto|].
  apply after_bind, after_bind, after_ask, after_ret, after_bind.
  eapply after_mono; [apply IH|]. cbn [w_tick set_tick]. intros r w' [Ht (l & -> & Hl)].
  apply after_ret. split; [lia|]. eexists. split; [done|]. simpl. by f_equal.
Qed.

(** *** What the nameservers answered

    Every query is a reading of the oracle, so a round is known from its hosts and the
    reading it starts at. *)
Section rounds.
Context (ep : gmap string string) (fqdn txt : string).

Definition endpoint_of (ns : string) : string :=
  let e := default "" (ep !! ns) in TrimSuffix (if e ==? "" then ns else e) ".".
(** The answer at reading [t]: the record is there. *)
Definition shows (ns : string) (t : nat) : Prop :=
  ∃ values v, env_LookupTXT t (endpoint_of ns) (normalizeFQDN fqdn) = Ok values ∧
    v ∈ values ∧ TrimSpace v = txt.
Definition reply (ns : string) (t : nat) : option bool :=
  match env_LookupTXT t (endpoint_of ns) (normalizeFQDN fqdn) with
  | Err e => if is_not_found e then Some false else None
  | Ok values => Some (existsb (λ v, TrimSpace v ==? txt) values)
  end.
Lemma reply_shows ns t : reply ns t = Some true → shows ns t.
Proof.
  unfold reply, shows. destruct (env_LookupTXT _ _ _) as [values|e]; [|by destruct (is_not_found e)].
  intros [= (v & Hv & Ht)%existsb_elem]. apply String.eqb_eq in Ht. eauto.
Qed.

Fixpoint round_at (hosts : list string) (t : nat) : list round_answer :=
  match hosts with [] => [] | ns :: hosts => (ns, reply ns t) :: round_at hosts (S t) end.
Lemma round_at_hosts hosts t : (round_at hosts t).*1 = hosts.
Proof. revert t. induction hosts; intros t; simpl; by f_equal. Qed.
Lemma round_at_lookup hosts t k ns : hosts !! k = Some ns → round_at hosts t !! k = Some (ns, reply ns (t + k)).
Proof.
  revert t k. induction hosts as [|h hosts IH]; intros t [|k]; simpl; [done..| |].
  - intros [= ->]. by rewrite Nat.add_0_r.
  - intros Hk. rewrite (IH _ _ Hk). by replace (S t + k) with (t + S k) by lia.
Qed.
Lemma round_at_elem hosts t a : a ∈ round_at hosts t → ∃ k, hosts !! k = Some a.1 ∧ a.2 = reply a.1 (t + k).
Proof.
  intros [k Hk]%list_elem_of_lookup. assert ((round_at hosts t).*1 !! k = Some a.1) as Hh
    by by rewrite list_lookup_fmap, Hk.
  rewrite round_at_hosts in Hh. exists k. split; [done|]. rewrite (round_at_lookup _ _ _ _ Hh) in Hk.
  by injection Hk as <-.
Qed.
Lemma round_at_find hosts t k ns :
  NoDup hosts → hosts !! k = Some ns →
  List.find (λ a : round_answer, a.1 ==? ns) (round_at hosts t) = Some (ns, reply ns (t + k)).
Proof.
  revert t k. induction hosts as [|h hosts IH]; intros t k; [done|]. intros [Hh Hnd]%NoDup_cons.
  destruct k as [|k]; simpl; [intros [= ->]; rewrite String.eqb_refl, Nat.add_0_r; done|].
  intros Hk. destruct (String.eqb_spec h ns) as [->|_]; [by apply list_elem_of_lookup_2 in Hk|].
  rewrite (IH _ _ Hnd Hk). by replace (S t + k) with (t + S k) by lia.
Qed.

Lemma ask_round_at hosts w :
  ask_round ep hosts fqdn txt w =
  (Some (round_at hosts (w_tick w)), set_tick (w_tick w + length hosts) w).
Proof.
  revert w. induction hosts as [|ns hosts IH]; intros w.
  { cbn. rewrite Nat.add_0_r. by destruct w. }
  cbn [ask_round round_at length]. unfold queryTXTFromNameserver. rewrite bind_run.
  unfold bind at 1, ask, ret. cbn beta iota. rewrite bind_run, IH. cbn [w_tick set_tick].
  unfold ret. f_equal; [|unfold set_tick; cbn; f_equal; lia].
  do 3 f_equal. unfold reply, endpoint_of. destruct (env_LookupTXT _ _ _) as [|e]; [done|]. by destruct (is_not_found e).
Qed.

(** Round [i] of a wait whose first round starts at [t0], one reading of the clock and
    one sleep between two rounds; the rounds before it, latest first. *)
Context (hosts : list string) (t0 : nat).
Definition round_start (i : nat) : nat := t0 + i * (length hosts + 2).
Definition rounds_before (m : nat) : list (list round_answer) :=
  (λ i, round_at hosts (round_start i)) <$> reverse (seq 0 m).
Lemma rounds_before_S m : rounds_before (S m) = round_at hosts (round_start m) :: rounds_before m.
Proof. unfold rounds_before. by rewrite seq_S, reverse_app. Qed.
Lemma rounds_before_hosts m : Forall (λ r : list round_answer, r.*1 = hosts) (rounds_before m).
Proof. apply Forall_fmap, Forall_true. intros i. apply round_at_hosts. Qed.

(** The [minC] rounds up to [m] all showed the record at [ns]. *)
Definition shown_for (minC : Z) (m : nat) (ns : string) : Prop :=
  (minC ≤ Z.of_nat m + 1)%Z ∧ ∃ k, hosts !! k = Some ns ∧
  ∀ i, i ≤ m → (Z.of_nat m < Z.of_nat i + minC)%Z → shows ns (round_start i + k).

Lemma answers_before k ns m :
  NoDup hosts → hosts !! k = Some ns →
  answers_of ns (rounds_before m) = (λ i, reply ns (round_start i + k)) <$> reverse (seq 0 m).
Proof.
  intros Hnd Hk. induction m as [|m IH]; [done|]. rewrite rounds_before_S, seq_S, reverse_app.
  unfold answers_of in *. cbn. rewrite (round_at_find _ _ _ _ Hnd Hk). cbn. by f_equal.
Qed.
Lemma run_length_true l n : (n ≤ run_length l)%Z → ∀ j, (Z.of_nat j < n)%Z → l !! j = Some (Some true).
Proof.
  revert n. induction l as [|[[]|] l IH]; intros n Hn j Hj; simpl in Hn; try lia.
  destruct j as [|j]; [done|]. apply (IH (n - 1)%Z); lia.
Qed.
Lemma run_length_le l : (run_length l ≤ Z.of_nat (length l))%Z.
Proof. induction l as [|[[]|] l IH]; simpl; lia. Qed.

Lemma stable_shown minC m a :
  NoDup hosts → a ∈ round_at hosts (round_start m) →
  (minC ≤ run_length (a.2 :: answers_of a.1 (rounds_before m)))%Z → shown_for minC m a.1.
Proof.
  intros Hnd Ha Hrun. destruct (round_at_elem _ _ _ Ha) as (k & Hk & Hr).
  assert (a.2 :: answers_of a.1 (rounds_before m) =
    (λ i, reply a.1 (round_start i + k)) <$> reverse (seq 0 (S m))) as Hall.
  { rewrite (answers_before k), seq_S, reverse_app by done. cbn. by rewrite Hr. }
  rewrite Hall in Hrun. pose proof (run_length_le ((λ i, reply a.1 (round_start i + k)) <$> reverse (seq 0 (S m)))) as Hle.
  rewrite length_fmap, length_reverse, length_seq in Hle. split; [lia|]. exists k. split; [done|].
  intros i Hi Hlt. apply reply_shows.
  pose proof (run_length_true _ _ Hrun (m - i) ltac:(lia)) as Hj. rewrite list_lookup_fmap in Hj.
  rewrite reverse_lookup in Hj by (rewrite length_seq; lia). rewrite length_seq in Hj.
  rewrite lookup_seq_lt in Hj by lia. cbn in Hj. injection Hj as Hj.
  by replace (m - (m - i)) with i in Hj by lia.
Qed.
End rounds.

(** Enough nameservers have shown the record for long enough when round [m] ends. *)
Definition quorum_at (p : wait_params) (t0 m : nat) : Prop :=
  ∃ stable, NoDup stable ∧ (wp_required p ≤ Z.of_nat (length stable))%Z ∧
    Forall (shown_for (wp_endpoints p) (wp_fqdn p) (wp_expected p) (wp_hosts p) t0 (wp_min p) m) stable.

Lemma list_filter_sublist {A} (f : A → bool) l : List.filter f l `sublist_of` l.
Proof. induction l as [|x l IH]; simpl; [done|]. destruct (f x); by constructor. Qed.

Lemma quorum_of_count p t0 m :
  NoDup (wp_hosts p) →
  (wp_required p ≤ (count_round (wp_min p)
     (round_at (wp_endpoints p) (wp_fqdn p) (wp_expected p) (wp_hosts p) (round_start (wp_hosts p) t0 m))
     (counters (wp_min p) (rounds_before (wp_endpoints p) (wp_fqdn p) (wp_expected p) (wp_hosts p) t0 m))).2)%Z →
  quorum_at p t0 m.
Proof.
  intros Hnd Hle. rewrite (stable_count_spec _ _ _ (wp_hosts p)) in Hle;
    [|done|apply round_at_hosts|apply rounds_before_hosts].
  match type of Hle with context [List.filter ?f ?l] => exists (fst <$> List.filter f l) end.
  split_and!; [|by rewrite length_fmap|].
  - rewrite <- (round_at_hosts (wp_endpoints p) (wp_fqdn p) (wp_expected p)
      (wp_hosts p) (round_start (wp_hosts p) t0 m)) in Hnd.
    eapply sublist_NoDup; [exact Hnd|]. apply fmap_sublist, list_filter_sublist.
  - apply Forall_fmap, Forall_forall. intros a Ha%list_elem_of_In%filter_In. destruct Ha as [Ha Hs].
    apply list_elem_of_In in Ha. eapply stable_shown; [done|exact Ha|].
    destruct (a.2); [by apply Z.leb_le|done].
Qed.

(** The loop, entered for round [i] with the counters of the rounds before it: a
    success ends a round, begun before the deadline, in which the quorum stood, and the
    settle delay was waited for. *)
Definition settled (hook : DNSHook) (t : nat) : Prop :=
  (SettleDelayOrDefault (Propagation hook) ≤ 0)%Z ∨
  env_sleep t (SettleDelayOrDefault (Propagation hook)) = None.
Definition loop_success (p : wait_params) (hook : DNSHook) (t0 : nat) (w' : World) : Prop :=
  ∃ m, quorum_at p t0 m ∧
    (env_now (pred (round_start (wp_hosts p) t0 m)) < wp_deadline p)%Z ∧
    settled hook (round_start (wp_hosts p) t0 m + length (wp_hosts p)) ∧
    round_start (wp_hosts p) t0 m + length (wp_hosts p) ≤ w_tick w'.

Lemma settle_ok hook w :
  after (settleAfterQuorum hook) w (λ r w', w_tick w ≤ w_tick w' ∧
    (r = Some (Ok tt) → settled hook (w_tick w))).
Proof.
  unfold settleAfterQuorum, settled. destruct (Z.leb_spec (SettleDelayOrDefault (Propagation hook)) 0) as [Hle|Hlt].
  - apply after_ret. split; [done|]. by left.
  - apply after_bind, after_ask. destruct (env_sleep _ _) eqn:Hs; apply after_ret; cbn [w_tick set_tick].
    + split; [lia|done].
    + split; [lia|]. by right.
Qed.

Lemma wait_loop_ok rounds p hook t0 i w :
  NoDup (wp_hosts p) → S (w_tick w) = round_start (wp_hosts p) t0 i →
  after (wait_loop rounds p hook
           (counters (wp_min p) (rounds_before (wp_endpoints p) (wp_fqdn p) (wp_expected p) (wp_hosts p) t0 i)))
    w (λ r w', r = Some (Some (Ok tt)) → loop_success p hook t0 w').
Proof.
  intros Hnd. revert i w. induction rounds as [|rounds IH]; intros i w Ht; [done|]. cbn [wait_loop].
  apply after_bind, after_ask. destruct (Z.ltb_spec (env_now (w_tick w)) (wp_deadline p)) as [Hlt|]; [|done].
  cbn [negb]. apply after_bind. unfold after at 1. rewrite ask_round_at.
  cbn [fst snd w_tick set_tick]. rewrite Ht.
  match goal with |- context [count_round ?c ?l ?o] =>
    pose proof (quorum_of_count p t0 i Hnd) as Hq; pose proof (eq_refl : counters c (l :: _) = (count_round c l o).1) as Hc;
    rewrite <- rounds_before_S in Hc;
    destruct (count_round c l o) as [succ stable] end.
  cbn [snd fst] in Hq, Hc. destruct (Z.leb_spec (wp_required p) stable) as [Hle|_].
  - apply after_bind. eapply after_mono; [apply settle_ok|]. cbn [w_tick set_tick].
    intros [r|] w' [Ht' Hs]; [|done]. apply after_ret. intros [= ->]. exists i.
    split_and!; [by apply Hq| |by apply Hs|done]. rewrite <- Ht. done.
  - apply after_bind, after_ask. destruct (env_sleep _ _); [done|]. rewrite <- Hc. apply IH.
    cbn [w_tick set_tick]. unfold round_start. lia.
Qed.

Lemma nameservers_from_NoDup labels w :
  after (nameservers_from labels) w (λ r _, ∀ hosts, r = Some (Ok hosts) → NoDup hosts ∧ hosts ≠ []).
Proof.
  revert w. induction labels as [|l labels IH]; intros w; [done|].
  destruct labels as [|l2 labels]; [done|]. cbn [nameservers_from]. apply after_bind, after_ask.
  destruct (env_LookupNS _ _) as [nss|]; [|apply IH].
  match goal with |- context [compact ?s] => pose proof (compact_sorted_NoDup s) as Hnd;
    destruct (compact s) as [|h hosts] eqn:Hc end; [apply IH|].
  apply after_ret. intros ? [= <-]. split; [|done]. apply Hnd.
  apply StronglySorted_merge_sort; apply _.
Qed.

Lemma authoritative_NoDup fqdn w hosts :
  (authoritativeNameservers fqdn w).1 = Some (Ok hosts) → NoDup hosts ∧ hosts ≠ [].
Proof.
  unfold authoritativeNameservers. destruct (_ ==? ""); [done|]. apply (nameservers_from_NoDup _ w).
Qed.

(** C31: the wait succeeds only on a quorum of answers.  When it returns without an
    error, the nameservers are the (distinct) ones [authoritativeNameservers] found for the
    name, and there is a round [m] of this very run, begun before the timeout, such that at
    least the required number of distinct nameservers (the configured percentage of them, and
    never none) answered each of the last [MinConsecutive] queries sent to their address for
    this name, up to round [m], with the expected text; then the settle delay was waited for.
    The queries of a round are the readings of the resolver from [round_start] on, in the
    order of the hosts. *)
Theorem wait_needs_quorum rounds hook fqdn txt w :
  let pr := Propagation hook in
  prop_EnabledOrDefault pr = true →
  let '(r, w') := waitForDNSPropagation rounds hook fqdn txt w in
  r = Some (Some (Ok tt)) →
  ∃ hosts ep w1 w2 m stable,
    authoritativeNameservers fqdn w = (Some (Ok hosts), w1) ∧ NoDup hosts ∧
    resolveNameserverEndpoints hosts w1 = (Some ep, w2) ∧
    let t0 := w_tick w2 + 2 in
    NoDup stable ∧
    (Z.max 1 (quorumRequirement (Z.of_nat (length hosts)) (QuorumPercentOrDefault pr))
       ≤ Z.of_nat (length stable))%Z ∧
    Forall (shown_for ep fqdn txt hosts t0 (MinConsecutiveOrDefault pr) m) stable ∧
    (env_now (pred (round_start hosts t0 m)) < env_now (w_tick w2) + TimeoutOrDefault pr)%Z ∧
    settled hook (round_start hosts t0 m + length hosts) ∧
    round_start hosts t0 m + length hosts ≤ w_tick w'.
Proof.
  intros pr Hen. refine (after_let _ _ (λ r w', r = _ → _) _).
  unfold waitForDNSPropagation. fold pr. rewrite Hen. cbn [negb]. apply after_bind.
  assert (Hr := authoritative_NoDup fqdn w). apply after_run. intros r w1 Ha. rewrite Ha in Hr. cbn [fst] in Hr.
  destruct r as [[hosts|e]|]; [|done..]. destruct (Hr hosts eq_refl) as [Hnd Hne].
  destruct hosts as [|h0 hosts0] eqn:Hh; [done|]. rewrite <- Hh in *. clear Hh.
  apply after_bind, after_run. intros [ep|] w2 He; [|done]. apply after_bind, after_ask.
  match goal with |- context [wait_loop _ ?p0 _ _] => set (p := p0) end.
  eapply after_mono; [apply (wait_loop_ok rounds p hook (w_tick w2 + 2) 0); [done|]|].
  { cbn [w_tick set_tick wp_hosts p]. unfold round_start. lia. }
  intros r w3 Hq Hok. destruct (Hq Hok) as (m & (stable & Hsd & Hle & Hall) & Hlt & Hset & Htick).
  exists hosts, ep, w1, w2, m, stable. split_and!; try done. etrans; [|exact Hle].
  subst p. cbn [wp_required]. case_match eqn:Hq1; [apply Z.ltb_lt in Hq1|apply Z.ltb_ge in Hq1]; lia.
Qed.

(** *** Termination *)
Lemma wait_loop_returns rounds p hook successes w :
  (0 < wp_poll p)%Z →
  (∀ k i j, env_sleep k (wp_poll p) = None → i < k → k < j → (env_now i + wp_poll p ≤ env_now j)%Z) →
  (wp_deadline p ≤ env_now (w_tick w) + Z.of_nat rounds * wp_poll p)%Z →
  after (wait_loop (S rounds) p hook successes) w (λ r _, ∃ res, r = Some (Some res)).
Proof.
  intros Hpoll Hsleep. revert successes w. induction rounds as [|rounds IH]; intros successes w Hd.
  { cbn [wait_loop]. apply after_bind, after_ask.
    rewrite (proj2 (Z.ltb_ge _ _)) by lia. apply after_ret. eauto. }
  cbn [wait_loop]. apply after_bind, after_ask. destruct (negb _); [apply after_ret; eauto|].
  apply after_bind. eapply after_mono; [apply ask_round_hosts|].
  intros r w1 [Ht (answers & -> & _)]. cbn [w_tick set_tick] in Ht.
  destruct (count_round _ _ _) as [succ stable]. destruct (wp_required p <=? stable)%Z.
  - apply after_bind. unfold settleAfterQuorum. destruct (_ <=? 0)%Z; [apply after_ret, after_ret; eauto|].
    apply after_bind, after_ask, after_ret, after_ret. eauto.
  - apply after_bind, after_ask. destruct (env_sleep (w_tick w1) (wp_poll p)) eqn:Hs.
    + apply after_ret. eauto.
    + apply IH. cbn [w_tick set_tick].
      pose proof (Hsleep _ (w_tick w) (S (w_tick w1)) Hs). lia.
Qed.

Lemma nameservers_from_total labels w :
  after (nameservers_from labels) w (λ r w', r ≠ None ∧ w_tick w ≤ w_tick w').
Proof.
  revert w. induction labels as [|l labels IH]; intros w; [done|].
  destruct labels as [|l2 labels]; [done|]. cbn [nameservers_from]. apply after_bind, after_ask.
  assert (after (nameservers_from (l2 :: labels)) (set_tick (S (w_tick w)) w)
    (λ r w', r ≠ None ∧ w_tick w ≤ w_tick w')) as Hnext.
  { eapply after_mono; [apply IH|]. simpl. intros r w' [? ?]. split; [done|lia]. }
  destruct (env_LookupNS _ _) as [nss|]; [|done].
  destruct (compact _); [done|]. apply after_ret. simpl. split; [done|lia].
Qed.

Lemma endpoints_total hosts w :
  after (resolveNameserverEndpoints hosts) w (λ r w', r ≠ None ∧ w_tick w ≤ w_tick w').
Proof.
  revert w. induction hosts as [|h hosts IH]; intros w; [done|]. cbn [resolveNameserverEndpoints].
  apply after_bind, after_ask, after_bind. eapply after_mono; [apply IH|].
  simpl. intros [m|] w' [? ?]; [|done]. apply after_ret. split; [done|lia].
Qed.

(** Waiting for the poll interval of a hook really advances the clock, which never goes
    back; the rounds that fit into its timeout. *)
Definition time_passes (hook : DNSHook) : Prop :=
  (0 < PollOrDefault (Propagation hook))%Z ∧
  (∀ k i j, env_sleep k (PollOrDefault (Propagation hook)) = None → i < k → k < j →
     (env_now i + PollOrDefault (Propagation hook) ≤ env_now j)%Z) ∧
  (∀ i j, i ≤ j → (env_now i ≤ env_now j)%Z).
Definition rounds_suffice (rounds : nat) (hook : DNSHook) : Prop :=
  (TimeoutOrDefault (Propagation hook) ≤ Z.of_nat rounds * PollOrDefault (Propagation hook))%Z.

Lemma wait_settles rounds hook fqdn txt w :
  time_passes hook → rounds_suffice rounds hook →
  after (waitForDNSPropagation (S rounds) hook fqdn txt) w (λ r _, ∃ res, r = Some (Some res)).
Proof.
  intros (Hpoll & Hsleep & Hmono) Hrounds. unfold rounds_suffice in Hrounds.
  unfold waitForDNSPropagation. destruct (negb _); [apply after_ret; eauto|]. apply after_bind.
  apply (after_mono _ _ (λ r w', r ≠ None ∧ w_tick w ≤ w_tick w')).
  { unfold authoritativeNameservers. destruct (_ ==? ""); [done|]. apply nameservers_from_total. }
  intros r w1 [Hr _]. destruct r as [[[|h hosts]|e]|]; [apply after_ret; eauto| |apply after_ret; eauto|done].
  apply after_bind. eapply after_mono; [apply endpoints_total|]. intros r w2 [Hr2 _].
  destruct r as [ep|]; [|done]. apply after_bind, after_ask. apply wait_loop_returns; [done|done|].
  cbn [wp_deadline wp_poll w_tick set_tick]. pose proof (Hmono (w_tick w2) (S (w_tick w2))). lia.
Qed.

(** C32: the wait ends. When waiting for the poll interval really advances the
    clock, as many rounds as fit into the timeout, and one more, always produce a result. *)
Theorem wait_returns rounds hook fqdn txt w :
  (0 < PollOrDefault (Propagation hook))%Z →
  (∀ k i j, env_sleep k (PollOrDefault (Propagation hook)) = None → i < k → k < j →
     (env_now i + PollOrDefault (Propagation hook) ≤ env_now j)%Z) →
  (∀ i j, i ≤ j → (env_now i ≤ env_now j)%Z) →
  (TimeoutOrDefault (Propagation hook) ≤ Z.of_nat rounds * PollOrDefault (Propagation hook))%Z →
  ∃ res, (waitForDNSPropagation (S rounds) hook fqdn txt w).1 = Some (Some res).
Proof. intros Hpoll Hsleep Hmono Hrounds. by apply (wait_settles rounds hook fqdn txt w). Qed.

(** The wait only reads the outside. *)
Section reads.
Context (R : World → World → Prop) `{!PostRel R}.
Lemma keeps_nameservers labels : keeps R (nameservers_from labels).
Proof using Type*.
  induction labels as [|l1 labels IH]; [simpl; keeps_auto|]. destruct labels; [simpl; keeps_auto|].
  cbn [nameservers_from]. keeps_step; [keeps_auto|]. destruct a; [|exact IH].
  cbv zeta. destruct (compact _); [exact IH|keeps_auto].
Qed.
Lemma keeps_endpoints hosts : keeps R (resolveNameserverEndpoints hosts).
Proof using Type*. induction hosts; simpl; keeps_auto. Qed.
Lemma keeps_round ep hosts fqdn txt : keeps R (ask_round ep hosts fqdn txt).
Proof using Type*. induction hosts; simpl; unfold queryTXTFromNameserver; keeps_auto. Qed.
#[local] Hint Resolve keeps_nameservers keeps_endpoints keeps_round : keeps.
Lemma keeps_wait_loop rounds p hook successes : keeps R (wait_loop rounds p hook successes).
Proof using Type*.
  revert successes. induction rounds; intros s; simpl; unfold settleAfterQuorum; keeps_auto.
Qed.
#[local] Hint Resolve keeps_wait_loop : keeps.
Lemma keeps_wait rounds hook fqdn txt : keeps R (waitForDNSPropagation rounds hook fqdn txt).
Proof using Type*. unfold waitForDNSPropagation, authoritativeNameservers. keeps_auto. Qed.
End reads.
End wait.
#[export] Hint Resolve keeps_target keeps_wait : keeps.
