(* ===== verification/JWS.v ===== *)
(** * Inbound JWS requests (internal/server/jws.go)

    The structural checks of a signed request.  Signatures, keys and X.509
    objects belong to go-jose and crypto/x509 and are an interface; [encoding/json] and
    base64 are the development's own. *)
From S2P Require Export Json Base64.

(** ** Keys *)
Class KeyTypes := {
  RSAKey : Type; ECDSAKey : Type; Ed25519Key : Type;
  RSAEqual : RSAKey → RSAKey → bool;
  ECDSAEqual : ECDSAKey → ECDSAKey → bool;
  Ed25519Equal : Ed25519Key → Ed25519Key → bool
}.

(** The dynamic type of a key held in an interface value. *)
Inductive any_key `{KeyTypes} :=
| RSAPublic (k : RSAKey)
| RSAPrivate (k : RSAKey)
| ECDSAPublic (k : ECDSAKey)
| ECDSAPrivate (k : ECDSAKey)
| Ed25519Public (k : Ed25519Key)
| OtherKey (type_name : string).

(** ** What go-jose and crypto/x509 provide *)

(** One signature's protected header: [ph_URL] is the "url" extra header when
    it is a string. *)
Record protected_header (JSONWebKey : Type) := MkHeader {
  ph_Nonce : string; ph_URL : option string; ph_JWK : option JSONWebKey; ph_KeyID : string
}.
Arguments MkHeader {_}. Arguments ph_Nonce {_}. Arguments ph_URL {_}.
Arguments ph_JWK {_}. Arguments ph_KeyID {_}.

Class PKI `{KeyTypes} := {
  JSONWebKey : Type;
  jwk_Key : JSONWebKey → any_key;
  jwk_Thumbprint : JSONWebKey → result string;
  jwk_Marshal : JSONWebKey → result string;
  (** The key of a JWK text; [None] when it does not parse. *)
  jwk_Unmarshal : string → option JSONWebKey;
  JSONWebSignature : Type;
  jose_ParseSigned : string → list string → result JSONWebSignature;
  jws_Signatures : JSONWebSignature → list (protected_header JSONWebKey);
  (** [None] on success; a nil key never verifies. *)
  jws_Verify : JSONWebSignature → option any_key → option error;
  x509_ParseCertificate : string → result any_key;
  x509_ParseCertificateRequest : string → result any_key
}.

Section jws.
Context `{PKI}.

Definition allowedAlgorithms : list string := ["RS256"; "ES256"; "ES384"; "ES512"].

Record rawJWS := MkRawJWS { raw_Protected : string; raw_Payload : string; raw_Signature : string }.

Definition set_rawJWS (k : string) (v : json) (r : rawJWS) : option rawJWS :=
  if k ==? "protected" then s ← decode_string (raw_Protected r) v;
    Some (MkRawJWS s (raw_Payload r) (raw_Signature r))
  else if k ==? "payload" then s ← decode_string (raw_Payload r) v;
    Some (MkRawJWS (raw_Protected r) s (raw_Signature r))
  else if k ==? "signature" then s ← decode_string (raw_Signature r) v;
    Some (MkRawJWS (raw_Protected r) (raw_Payload r) s)
  else Some r.
Definition decode_rawJWS : json → option rawJWS := decode_struct set_rawJWS (MkRawJWS "" "" "").

Record ParsedJWS := MkParsed {
  Payload : string;
  EmbeddedJWK : option JSONWebKey;
  AccountKID : string;
  Nonce : string;
  p_URL : string;
  p_raw : JSONWebSignature
}.

Definition ParseJWS (body : string) : result ParsedJWS :=
  match Unmarshal body ≫= decode_rawJWS with
  | None => Wrapf "malformed JWS: " (EStr "invalid JSON")
  | Some raw =>
      match jose_ParseSigned body allowedAlgorithms with
      | Err e => Wrapf "malformed JWS: " e
      | Ok jws =>
          match jws_Signatures jws with
          | [headers] =>
              let nonce := ph_Nonce headers in
              fail_if nonce ==? "" with EStr "missing nonce in JWS protected header" in
              let url := default "" (ph_URL headers) in
              fail_if url ==? "" with EStr "missing url in JWS protected header" in
              let hasJWK := match ph_JWK headers with Some _ => true | None => false end in
              let hasKID := ph_KeyID headers !=? "" in
              fail_if hasJWK && hasKID
                with EStr "JWS must not have both jwk and kid in protected header" in
              fail_if negb hasJWK && negb hasKID
                with EStr "JWS must have either jwk or kid in protected header" in
              let p payload := MkParsed payload (ph_JWK headers)
                (if hasJWK then "" else ph_KeyID headers) nonce url jws in
              if raw_Payload raw !=? "" then
                match DecodeString (raw_Payload raw) with
                | None => Wrapf "decoding JWS payload: " (EStr "illegal base64 data")
                | Some decoded => Ok (p decoded)
                end
              else Ok (p "")
          | _ => Errorf "JWS must have exactly one signature"
          end
      end
  end.

Definition VerifySignature (p : ParsedJWS) (pubKey : option any_key) : option error :=
  match jws_Verify (p_raw p) pubKey with
  | Some e => Some (EWrap "invalid JWS signature: " e)
  | None => None
  end.

Definition JWKThumbprint (jwk : JSONWebKey) : result string :=
  match jwk_Thumbprint jwk with
  | Err e => Wrapf "computing JWK thumbprint: " e
  | Ok tp => Ok (EncodeToString tp)
  end.

Definition KeyTypeFromJWK (jwk : JSONWebKey) : result string :=
  match jwk_Key jwk with
  | RSAPublic _ | RSAPrivate _ => Ok "RSA"
  | ECDSAPublic _ | ECDSAPrivate _ => Ok "ECDSA"
  | Ed25519Public _ => Errorf "unsupported key type ed25519.PublicKey"
  | OtherKey t => Errorf ("unsupported key type " +:+ t)
  end.

(** ** What is accepted *)

(** The structural rules of RFC 8555 section 6.2 for a body that go-jose
    parses with the allowed algorithms. *)
Definition well_formed_request (body : string) (p : ParsedJWS) : Prop :=
  ∃ raw headers,
    (Unmarshal body ≫= decode_rawJWS) = Some raw ∧
    jose_ParseSigned body allowedAlgorithms = Ok (p_raw p) ∧
    jws_Signatures (p_raw p) = [headers] ∧
    Nonce p = ph_Nonce headers ∧ Nonce p ≠ "" ∧
    ph_URL headers = Some (p_URL p) ∧ p_URL p ≠ "" ∧
    ((∃ jwk, ph_JWK headers = Some jwk ∧ ph_KeyID headers = "" ∧
             EmbeddedJWK p = Some jwk ∧ AccountKID p = "") ∨
     (ph_JWK headers = None ∧ EmbeddedJWK p = None ∧
      AccountKID p = ph_KeyID headers ∧ AccountKID p ≠ "")) ∧
    (if raw_Payload raw ==? "" then Some "" else DecodeString (raw_Payload raw)) = Some (Payload p).

(** C35: [ParseJWS] accepts exactly the bodies with one signature under an
    allowed algorithm, a nonce, a url, either an embedded key or a key ID and not both,
    and a decodable payload, and returns those. *)
Theorem ParseJWS_iff body p : ParseJWS body = Ok p ↔ well_formed_request body p.
Proof.
  unfold ParseJWS, well_formed_request. destruct (Unmarshal body ≫= decode_rawJWS) as [raw|].
  2:{ split; [done|]. by intros (? & ? & ? & _). }
  destruct (jose_ParseSigned body allowedAlgorithms) as [jws|e].
  2:{ split; [done|]. by intros (? & ? & _ & ? & _). }
  destruct (jws_Signatures jws) as [|h [|]] eqn:Hsig.
  1,3: split; [done|]; intros (? & ? & _ & [= <-] & Hs & _); congruence.
  rewrite !fail_if_ok. unfold Wrapf.
  destruct (raw_Payload raw ==? "") eqn:Hpl; cbn [negb].
  - split.
    + intros (Hn & Hu & Hb1 & Hb2 & [= <-]). exists raw, h. simpl. rewrite Hpl.
      simp_bool. destruct (ph_URL h); simpl in *; [|done].
      destruct (ph_JWK h) as [jwk|]; simpl in *; split_and!; try done; naive_solver.
    + intros (? & ? & [= <-] & [= Hj] & Hs & Hn & Hn0 & Hu & Hu0 & Hk & Hp).
      rewrite Hpl in Hp. injection Hp as Hp. destruct p as [pl jw kid n u r]; simpl in *.
      subst. rewrite Hsig in Hs. injection Hs as <-. rewrite Hu. simpl. rewrite !(proj2 (String.eqb_neq _ _)) by done.
      destruct Hk as [(jwk & -> & -> & -> & ->)|(-> & -> & -> & Hkid)]; simpl; [done|].
      rewrite (proj2 (String.eqb_neq _ _)) by done. done.
  - split.
    + intros (Hn & Hu & Hb1 & Hb2 & Hd). exists raw, h.
      destruct (DecodeString (raw_Payload raw)) as [d|] eqn:Hdec; [|done]. injection Hd as <-.
      simpl. rewrite Hpl. simp_bool. destruct (ph_URL h); simpl in *; [|done].
      destruct (ph_JWK h) as [jwk|]; simpl in *; split_and!; try done; naive_solver.
    + intros (? & ? & [= <-] & [= Hj] & Hs & Hn & Hn0 & Hu & Hu0 & Hk & Hp).
      rewrite Hpl in Hp. rewrite Hp. destruct p as [pl jw kid n u r]; simpl in *.
      subst. rewrite Hsig in Hs. injection Hs as <-. rewrite Hu. simpl. rewrite !(proj2 (String.eqb_neq _ _)) by done.
      destruct Hk as [(jwk & -> & -> & -> & ->)|(-> & -> & -> & Hkid)]; simpl; [done|].
      rewrite (proj2 (String.eqb_neq _ _)) by done. done.
Qed.

(** The payload handed to the handlers is the last member named "payload" up
    to case, whatever member the signature covers. *)
Lemma payload_of_last_member :
  (Unmarshal ("{" +:+ Quote "payload" +:+ ":" +:+ Quote "QQ" +:+ ","
                  +:+ Quote "Payload" +:+ ":" +:+ Quote "Qg" +:+ "}") ≫= decode_rawJWS) =
  Some (MkRawJWS "" "Qg" "").
Proof. reflexivity. Qed.
End jws.
