(* ===== verification/Handlers.v ===== *)
(** * The ACME endpoints (internal/server/handlers.go, directory.go)

    The handlers as programs of the process monad: every store access, upstream
    call and response write in the order of the code, an early return for
    every refused request, and a panic where a nil pointer would be followed. *)
From S2P Require Export JWS DNSPolicy PoolProps Router.

(** ** Requests and responses *)

(** [in_Body] is what [io.ReadAll] of the limited body returns; [in_ID] the
    router's "id" parameter. *)
Record inbound := MkInbound {
  in_Method : string; in_Path : string; in_ContentType : string;
  in_Body : result string; in_ID : string
}.

(** A problem document for the client. *)
Record acmeError := MkProblem {
  pb_Type : string; pb_Detail : string; pb_Status : Z; pb_Subproblems : string
}.

Definition acme_urn (t : string) : string := "urn:ietf:params:acme:error:" +:+ t.

Definition errBadNonce d := MkProblem (acme_urn "badNonce") d 400 "".
Definition errMalformed d := MkProblem (acme_urn "malformed") d 400 "".
Definition errUnauthorized d := MkProblem (acme_urn "unauthorized") d 401 "".
Definition errNotFound d := MkProblem (acme_urn "malformed") d 404 "".
Definition errServerInternal d := MkProblem (acme_urn "serverInternal") d 500 "".
Definition errBadCSR d := MkProblem (acme_urn "badCSR") d 400 "".

Definition relayUpstreamError (fallbackDetail : string) (e : error) : acmeError :=
  match errors_As_ACME e with
  | Some ae =>
      let status := if (ae_Status ae <? 400)%Z || (599 <? ae_Status ae)%Z then 502%Z else ae_Status ae in
      let typ := if ae_Type ae ==? "" then acme_urn "serverInternal" else ae_Type ae in
      let detail := if ae_Detail ae ==? "" then fallbackDetail else ae_Detail ae in
      MkProblem typ detail status (ae_Subproblems ae)
  | None => errServerInternal (fallbackDetail +:+ ": " +:+ error_string e)
  end.

Definition isDefinitiveRejection (status : Z) : bool :=
  if (status <? 400)%Z || (500 <=? status)%Z then false
  else if (status =? 408)%Z || (status =? 429)%Z then false else true.

(** A raw JSON member, left out when empty. *)
Definition raw_member (k text : string) : list (string * json) :=
  if text ==? "" then [] else match Unmarshal text with Some j => [(k, j)] | None => [] end.
Definition omit_empty (k v : string) : list (string * json) :=
  if v ==? "" then [] else [(k, JStr v)].

Definition problem_json (e : acmeError) : json :=
  JObj ([("type", JStr (pb_Type e)); ("detail", JStr (pb_Detail e))]
        ++ raw_member "subproblems" (pb_Subproblems e)).
Definition upstream_error_json (e : ACMEError) : json :=
  JObj ([("type", JStr (ae_Type e)); ("detail", JStr (ae_Detail e));
         ("status", JNum (pretty (ae_Status e)))] ++ raw_member "subproblems" (ae_Subproblems e)).
(** [acmeProblem], a map: keys in sorted order. *)
Definition acmeProblem (errType detail : string) : json :=
  JObj [("detail", JStr detail); ("type", JStr (acme_urn errType))].

(** A slice field: nil is [null]. *)
Definition slice_json {A} (f : A → json) (l : list A) : json :=
  match l with [] => JNull | _ => JArr (f <$> l) end.

(** [os_Authorizations]: [None] is the nil slice. *)
Record orderResponse := MkOrderResponse {
  os_Status : string; os_Expires : string; os_Identifiers : list Identifier;
  os_Authorizations : option (list string); os_Finalize : string; os_Certificate : string
}.
Definition order_response_json (r : orderResponse) : json :=
  JObj ([("status", JStr (os_Status r))] ++ omit_empty "expires" (os_Expires r)
    ++ [("identifiers", slice_json identifier_json (os_Identifiers r));
        ("authorizations", match os_Authorizations r with
                           | Some l => JArr (JStr <$> l)
                           | None => JNull
                           end);
        ("finalize", JStr (os_Finalize r))] ++ omit_empty "certificate" (os_Certificate r)).

Record accountResponse := MkAccountResponse {
  as_Status : string; as_Contact : list string; as_Orders : string
}.
Definition account_response_json (r : accountResponse) : json :=
  JObj ([("status", JStr (as_Status r))]
    ++ match as_Contact r with [] => [] | l => [("contact", JArr (JStr <$> l))] end
    ++ [("orders", JStr (as_Orders r))]).

Section helpers.
Context `{Env} `{PKI} (cfg : Config).

Definition base_url : string := BaseURL (Server cfg).

(** [store.IssueNonce] from a handler. *)
Definition issueNonce : M (result string) :=
  let! b := ask env_rand in
  let! now := ask env_now in
  db (IssueNonce b now).

Definition attachNonce : M unit :=
  let! r := issueNonce in
  match r with Ok n => Header_Set "Replay-Nonce" n | Err _ => ret tt end.

Definition writeError (e : acmeError) : M unit :=
  do! attachNonce in
  do! Header_Set "Content-Type" "application/problem+json" in
  do! WriteHeader (pb_Status e) in
  Write (BodyJSON (problem_json e)).

Definition writeJSON (status : Z) (v : json) : M unit :=
  do! Header_Set "Content-Type" "application/json" in
  do! WriteHeader status in
  Write (BodyJSON v).

Definition linkHeader : string := "<" +:+ base_url +:+ "/directory>;rel=" +:+ Quote "index".
Definition upLinkHeader (u : string) : string := "<" +:+ u +:+ ">;rel=" +:+ Quote "up".
Definition alternateLinkHeader (u : string) : string := "<" +:+ u +:+ ">;rel=" +:+ Quote "alternate".

Definition addCommonHeaders : M unit :=
  do! Header_Set "Link" linkHeader in attachNonce.

(** ** Directory and nonces *)
Definition directory_json : json :=
  JObj [("newNonce", JStr (base_url +:+ "/new-nonce"));
        ("newAccount", JStr (base_url +:+ "/new-account"));
        ("newOrder", JStr (base_url +:+ "/new-order"));
        ("revokeCert", JStr (base_url +:+ "/revoke-cert"));
        ("keyChange", JStr (base_url +:+ "/key-change"));
        ("meta", JObj (omit_empty "website" base_url ++
          (let ps := merge_sort (λ a b : string * string, str_le a.1 b.1)
                       (map_to_list (Profiles cfg)) in
           match ps with
           | [] => []
           | _ => [("profiles", JObj ((λ kv, (kv.1, JStr kv.2)) <$> ps))]
           end)))].
Definition handleDirectory : M unit := do! attachNonce in writeJSON 200 directory_json.

Definition handleNewNonce (r : inbound) : M unit :=
  do! attachNonce in
  do! Header_Set "Cache-Control" "no-store" in
  if in_Method r ==? "HEAD" then WriteHeader 200 else WriteHeader 204.

(** ** Authentication *)

(** [return nil, false] after an error response. *)
Definition reject {A} (e : acmeError) : M (option A) := do! writeError e in ret None.

(** The checks of a signed request up to and including its nonce. *)
Definition parseAndValidateJWS (r : inbound) : M (option ParsedJWS) :=
  if in_ContentType r !=? "application/jose+json"
  then reject (errMalformed "Content-Type must be application/jose+json")
  else match in_Body r with
  | Err _ => reject (errMalformed "reading request body")
  | Ok body =>
      match ParseJWS body with
      | Err e => reject (errMalformed (error_string e))
      | Ok parsed =>
          let requestURL := base_url +:+ in_Path r in
          if p_URL parsed !=? requestURL
          then reject (errMalformed ("JWS url " +:+ Quote (p_URL parsed)
                 +:+ " does not match request URL " +:+ Quote requestURL))
          else
            let! now := ask env_now in
            let! c := db (ConsumeNonce (Nonce parsed) now) in
            match c with
            | Err e => reject (errBadNonce (error_string e))
            | Ok _ => ret (Some parsed)
            end
      end
  end.

Definition account_prefix : string := base_url +:+ "/account/".

(** [None] is the nil account of an embedded key that is not registered. *)
Definition resolveAccount (parsed : ParsedJWS) : M (result_of acmeError (option Account)) :=
  match EmbeddedJWK parsed with
  | Some jwk =>
      match JWKThumbprint jwk with
      | Err e => ret (Err (errMalformed ("invalid JWK: " +:+ error_string e)))
      | Ok tp =>
          let! r := db_read (GetAccount tp) in
          ret (match r with
               | Err _ => Err (errServerInternal "looking up account")
               | Ok acct => Ok acct
               end)
      end
  | None =>
      let kid := AccountKID parsed in
      if negb (HasPrefix kid account_prefix)
      then ret (Err (errUnauthorized "kid does not reference a known account URL"))
      else
        let! r := db_read (GetAccount (TrimPrefix kid account_prefix)) in
        ret (match r with
             | Err _ => Err (errServerInternal "looking up account")
             | Ok None => Err (errUnauthorized "account not found")
             | Ok (Some a) => Ok (Some a)
             end)
  end.

Definition mustParsePublicKey (jwkJSON : string) : option any_key := jwk_Key <$> jwk_Unmarshal jwkJSON.

Definition resolveAndVerify (parsed : ParsedJWS) : M (result_of acmeError (option Account)) :=
  let! ra := resolveAccount parsed in
  match ra with
  | Err e => ret (Err e)
  | Ok acct =>
      let verify k :=
        ret (match VerifySignature parsed k with
             | Some _ => Err (errUnauthorized "signature verification failed")
             | None => Ok acct
             end) in
      match EmbeddedJWK parsed with
      | Some jwk => verify (Some (jwk_Key jwk))
      | None =>
          match acct with
          | None => panic
          | Some a =>
              match mustParsePublicKey (acct_PublicKey a) with
              | None => ret (Err (errServerInternal "could not parse account public key"))
              | Some k => verify (Some k)
              end
          end
      end
  end.

(** [acct.ID] of a nil account panics. *)
Definition account_id (acct : option Account) : M string :=
  match acct with Some a => ret (acct_ID a) | None => panic end.

(** The client of an order: its slot, or the account's own. *)
Definition orderClient (o : Order) : M (result client_ref) :=
  if (0 <=? order_UpstreamSlot o)%Z then GetSlot cfg (order_UpstreamID o) (order_UpstreamSlot o)
  else GetClientForAccount cfg (order_UpstreamID o) (order_AccountID o).

(** [time.Now] is read inside [UpdateOrderStatus]. *)
Definition updateOrderStatus (id status : string) : M (result unit) :=
  let! now := ask env_now in db (UpdateOrderStatus id status now).

(** [SaveResource] of a mapping under a new UUID. *)
Definition saveNewResource (typ orderID upstreamURL : string) : M (result unit) :=
  let! id := ask env_uuid in
  db (SaveResource (MkResourceMap id typ orderID upstreamURL "")).
End helpers.

(** [if !ok { return }] *)
Notation "'let_some' x := m 'in' k" :=
  (bind m (fun o => match o with Some x => k | None => ret tt end))
  (at level 10, x pattern, m at level 200, k at level 200) : gateway_scope.

Section accounts.
Context `{Env} `{PKI} (cfg : Config).

(** ** POST /new-account *)
Record newAccountRequest := MkNewAccount {
  na_Contact : list string; na_TermsOfServiceAgreed : bool; na_OnlyReturnExisting : bool
}.
Definition set_newAccount (k : string) (v : json) (r : newAccountRequest) : option newAccountRequest :=
  if k ==? "contact" then x ← decode_list "" decode_string v;
    Some (MkNewAccount x (na_TermsOfServiceAgreed r) (na_OnlyReturnExisting r))
  else if k ==? "termsofserviceagreed" then x ← decode_bool (na_TermsOfServiceAgreed r) v;
    Some (MkNewAccount (na_Contact r) x (na_OnlyReturnExisting r))
  else if k ==? "onlyreturnexisting" then x ← decode_bool (na_OnlyReturnExisting r) v;
    Some (MkNewAccount (na_Contact r) (na_TermsOfServiceAgreed r) x)
  else Some r.
Definition zero_newAccount : newAccountRequest := MkNewAccount [] false false.
Definition decode_newAccount : json → option newAccountRequest :=
  decode_struct set_newAccount zero_newAccount.

Definition accountDoesNotExist : acmeError :=
  MkProblem (acme_urn "accountDoesNotExist") "account does not exist" 400 "".

Definition account_response (accountURL : string) (a : Account) : json :=
  account_response_json (MkAccountResponse (acct_Status a) (acct_Contact a) (accountURL +:+ "/orders")).

Definition handleNewAccount (r : inbound) : M unit :=
  do! addCommonHeaders cfg in
  let_some parsed := parseAndValidateJWS cfg r in
  match EmbeddedJWK parsed with
  | None => writeError (errMalformed "new-account must use jwk, not kid")
  | Some jwk =>
      match (if Payload parsed ==? "" then Some zero_newAccount
             else Unmarshal (Payload parsed) ≫= decode_newAccount) with
      | None => writeError (errMalformed "invalid account payload")
      | Some req =>
          match JWKThumbprint jwk with
          | Err _ => writeError (errMalformed "invalid JWK")
          | Ok tp =>
              match VerifySignature parsed (Some (jwk_Key jwk)) with
              | Some _ => writeError (errUnauthorized "signature verification failed")
              | None =>
                  let! existing := db_read (GetAccount tp)
                    else λ _, writeError (errServerInternal "looking up account") in
                  let accountURL := account_prefix cfg +:+ tp in
                  match existing with
                  | Some a =>
                      do! Header_Set "Location" accountURL in
                      writeJSON 200 (account_response accountURL a)
                  | None =>
                      if na_OnlyReturnExisting req then writeError accountDoesNotExist
                      else match KeyTypeFromJWK jwk with
                      | Err _ => writeError (errMalformed "unsupported key type")
                      | Ok kt =>
                          match jwk_Marshal jwk with
                          | Err _ => writeError (errServerInternal "marshalling key")
                          | Ok jwkJSON =>
                              let! now := ask env_now in
                              let acct := MkAccount tp jwkJSON kt (na_Contact req)
                                            AccountStatusValid now in
                              let! _ := db (SaveAccount acct)
                                else λ _, writeError (errServerInternal "saving account") in
                              do! Header_Set "Location" accountURL in
                              writeJSON 201 (account_response accountURL acct)
                          end
                      end
                  end
              end
          end
      end
  end.

(** ** POST /new-order *)
Record newOrderRequest := MkNewOrder { no_Identifiers : list Identifier; no_Profile : string }.
Definition set_newOrder (k : string) (v : json) (r : newOrderRequest) : option newOrderRequest :=
  if k ==? "identifiers" then x ← decode_list zero_identifier decode_identifier v;
    Some (MkNewOrder x (no_Profile r))
  else if k ==? "profile" then x ← decode_string (no_Profile r) v;
    Some (MkNewOrder (no_Identifiers r) x)
  else Some r.
Definition decode_newOrder : json → option newOrderRequest :=
  decode_struct set_newOrder (MkNewOrder [] "").

(** The authorizations, one mapping each: [None] when a mapping fails. *)
Fixpoint save_authzs (orderID : string) (urls : list string) : M (option (list string)) :=
  match urls with
  | [] => ret (Some [])
  | u :: urls =>
      let! authzID := ask env_uuid in
      let! r := db (SaveResource (MkResourceMap authzID ResourceTypeAuthz orderID u "")) in
      match r with
      | Err _ => reject (errServerInternal "saving authz resource")
      | Ok _ =>
          let! rest := save_authzs orderID urls in
          ret (cons (base_url cfg +:+ "/authz/" +:+ authzID) <$> rest)
      end
  end.

(** The part of [handleNewOrder] after the upstream accepted the order. *)
Definition record_order (acct : Account) (req : newOrderRequest) (d : Decision)
    (upOrder : ACMEOrder) (upOrderURL : string) : M unit :=
  let! orderID := ask env_uuid in
  let! created := ask env_now in
  let! updated := ask env_now in
  let order := MkOrder orderID (acct_ID acct) (dec_UpstreamID d) (-1) upOrderURL (ao_Status upOrder)
    (Marshal (slice_json identifier_json (no_Identifiers req))) (no_Profile req)
    (dec_RequireCSRKeyType d) created updated in
  let! _ := db (SaveOrder order) else λ _, writeError (errServerInternal "saving order") in
  let! finalizeID := ask env_uuid in
  let! _ := db (SaveResource (MkResourceMap finalizeID ResourceTypeFinalize orderID
                                (ao_Finalize upOrder) ""))
    else λ _, writeError (errServerInternal "saving finalize resource") in
  let_some urls := save_authzs orderID (ao_Authorizations upOrder) in
  do! Header_Set "Location" (base_url cfg +:+ "/order/" +:+ orderID) in
  writeJSON 201 (order_response_json (MkOrderResponse (ao_Status upOrder) (ao_Expires upOrder)
    (no_Identifiers req) (Some urls) (base_url cfg +:+ "/finalize/" +:+ finalizeID) "")).

Definition handleNewOrder (r : inbound) : M unit :=
  do! addCommonHeaders cfg in
  let_some parsed := parseAndValidateJWS cfg r in
  match EmbeddedJWK parsed with
  | Some _ => writeError (errMalformed "new-order requires kid, not jwk")
  | None =>
      let! oacct := resolveAccount cfg parsed else writeError in
      match oacct with
      | None => panic
      | Some acct =>
          match VerifySignature parsed (mustParsePublicKey (acct_PublicKey acct)) with
          | Some _ => writeError (errUnauthorized "signature verification failed")
          | None =>
              match Unmarshal (Payload parsed) ≫= decode_newOrder with
              | None => writeError (errMalformed "invalid order payload")
              | Some req =>
                  match no_Identifiers req with
                  | [] => writeError (errMalformed "identifiers must not be empty")
                  | _ =>
                      let d := Route (Routing cfg)
                        (MkRequest (no_Profile req) (acct_KeyType acct) (no_Identifiers req)) in
                      if dec_UpstreamID d ==? ""
                      then writeError (errServerInternal "no upstream matched and no default configured")
                      else
                        let upstreamProfile := ResolveUpstreamProfile d (no_Profile req) in
                        let! client := GetClientForAccount cfg (dec_UpstreamID d) (acct_ID acct)
                          else λ _, writeError (errServerInternal "upstream account unavailable") in
                        let! _ := AccountURL client in
                        let! (upOrder, upOrderURL) :=
                          SubmitOrder client (no_Identifiers req) upstreamProfile
                          else λ e, writeError (errServerInternal
                                 ("upstream order failed: " +:+ error_string e)) in
                        record_order acct req d upOrder upOrderURL
                  end
              end
          end
      end
  end.
End accounts.

(** ** Records of challenges in progress *)
Section challenge_records.
Context `{Env}.

Definition challengeProcRetention : Z := (3600 * second)%Z.

(** [snapshot] and [fail] of a record, under its lock. *)
Definition fail_progress (errType errMsg : string) (p : challengeProgress) : challengeProgress :=
  MkProgress (cp_createdAt p) "invalid" errType errMsg.

(** [evictStaleChallengeProc]: the records older than the retention go. *)
Definition evictStaleChallengeProc (now : time) (m : gmap string challengeProgress)
    : gmap string challengeProgress :=
  filter (λ kv, ¬ (challengeProcRetention < now - cp_createdAt kv.2)%Z) m.

(** [beginChallengeProc]: the record of the challenge, and whether the caller is
    to start the work. *)
Definition beginChallengeProc (chalID : string) : M (challengeProgress * bool) :=
  let! now := ask env_now in
  do! update_proc (evictStaleChallengeProc now) in
  let prog := MkProgress now "processing" "" "" in
  let! proc := gets w_proc in
  match proc !! chalID with
  | Some existing => ret (existing, false)
  | None => do! update_proc (<[chalID := prog]>) in ret (prog, true)
  end.

(** [startChallengeProcessing]: the goroutine is started; its steps are in
    Background.v. *)
Definition startChallengeProcessing (client : client_ref) (o : Order) (url chalID : string) : M unit :=
  let! (prog, started) := beginChallengeProc chalID in
  if started then update_jobs (λ jobs, jobs ++ [ProcessJob client o url chalID (cp_createdAt prog)])
  else ret tt.
End challenge_records.

Section orders.
Context `{Env} `{PKI} `{!RowOrder} (cfg : Config).

(** ** Shared by the order endpoints *)

(** The order response: the mapped URLs and the stored identifiers. *)
Definition decode_identifiers (text : string) : list Identifier :=
  default [] (Unmarshal text ≫= decode_list zero_identifier decode_identifier).

Definition cert_url (orderID upstreamURL : string) : M string :=
  if upstreamURL ==? "" then ret ""
  else
    let! rm := db_read (GetResourceByUpstreamURL upstreamURL) in
    let url_of rm := base_url cfg +:+ "/cert/" +:+ rm_GatewayID rm in
    match default None (ok_opt rm) with
    | Some rm => ret (url_of rm)
    | None =>
        let! _ := saveNewResource ResourceTypeCert orderID upstreamURL in
        let! rm := db_read (GetResourceByUpstreamURL upstreamURL) in
        ret (match default None (ok_opt rm) with Some rm => url_of rm | None => "" end)
    end.

Definition buildOrderResponse (orderID : string) (upOrder : ACMEOrder)
    : M (result_of acmeError orderResponse) :=
  let! o := db_read (GetOrder orderID) in
  match o with
  | Err _ | Ok None => ret (Err (errNotFound "order not found"))
  | Ok (Some order) =>
      let! fin := db_read (GetResourceByUpstreamURL (ao_Finalize upOrder)) in
      match fin with
      | Err _ => ret (Err (errServerInternal "looking up finalize resource"))
      | Ok finalizeRM =>
          let finalizeURL := match finalizeRM with
                             | Some rm => base_url cfg +:+ "/finalize/" +:+ rm_GatewayID rm
                             | None => ""
                             end in
          let! certURL := cert_url orderID (ao_Certificate upOrder) in
          let! authzRMs := db_read (GetAuthzResourcesByOrderID orderID) in
          ret (Ok (MkOrderResponse (ao_Status upOrder) (ao_Expires upOrder)
            (decode_identifiers (order_Identifiers order))
            (match (λ arm, base_url cfg +:+ "/authz/" +:+ rm_GatewayID arm)
                     <$> default [] (ok_opt authzRMs) with [] => None | l => Some l end)
            finalizeURL certURL))
      end
  end.

(** ** POST /order/{id} *)
Definition handleOrder (r : inbound) : M unit :=
  do! addCommonHeaders cfg in
  let_some parsed := parseAndValidateJWS cfg r in
  let! acct := resolveAndVerify cfg parsed else writeError in
  let! o := db_read (GetOrder (in_ID r)) in
  match o with
  | Err _ | Ok None => writeError (errNotFound "order not found")
  | Ok (Some order) =>
      let! id := account_id acct in
      if order_AccountID order !=? id
      then writeError (errUnauthorized "order does not belong to this account")
      else
        let! client := orderClient cfg order
          else λ _, writeError (errServerInternal "upstream unavailable") in
        let! upOrder := UpstreamGetOrder client (order_UpstreamOrderURL order)
          else λ e, writeError (relayUpstreamError "polling upstream order" e) in
        let! _ := if ao_Status upOrder !=? order_Status order
                  then updateOrderStatus (in_ID r) (ao_Status upOrder) else ret (Ok tt) in
        let! resp := buildOrderResponse (in_ID r) upOrder else writeError in
        writeJSON 200 (order_response_json resp)
  end.

(** A resource and its order, when the account owns the order; otherwise the
    error response has been written. *)
Definition owned_resource (acct : option Account) (id not_found order_not_found not_owner : string)
    : M (option (ResourceMap * Order)) :=
  let! rm := db_read (GetResource id) in
  match rm with
  | Err _ | Ok None => reject (errNotFound not_found)
  | Ok (Some rm) =>
      let! o := db_read (GetOrder (rm_OrderID rm)) in
      match o with
      | Err _ | Ok None => reject (errNotFound order_not_found)
      | Ok (Some order) =>
          let! id := account_id acct in
          if order_AccountID order !=? id then reject (errUnauthorized not_owner)
          else ret (Some (rm, order))
      end
  end.

(** ** POST /authz/{id} *)

(** The gateway ID of a challenge URL of an order, mapped on first sight. *)
Definition challenge_gateway_id (orderID url : string) : M (option string) :=
  let! rm := db_read (GetResourceByUpstreamURLAndOrder url orderID)
    else λ _, reject (errServerInternal "checking challenge resource") in
  match rm with
  | Some rm => ret (Some (rm_GatewayID rm))
  | None =>
      let! _ := saveNewResource ResourceTypeChallenge orderID url
        else λ _, reject (errServerInternal "saving challenge resource") in
      let! persisted := db_read (GetResourceByUpstreamURLAndOrder url orderID) in
      match persisted with
      | Err _ | Ok None => reject (errServerInternal "reading challenge resource")
      | Ok (Some rm) => ret (Some (rm_GatewayID rm))
      end
  end.

(** A challenge object; the keys of the map are printed in sorted order. *)
Definition challenge_json (err : option json) (status token typ url : string) : json :=
  JObj (match err with Some e => [("error", e)] | None => [] end
    ++ [("status", JStr status); ("token", JStr token); ("type", JStr typ); ("url", JStr url)]).

(** The challenge as the client sees it, and whether the gateway failed it. *)
Definition overlay_challenge (gatewayID : string) (chal : Challenge) (prog : option challengeProgress)
    : json * bool :=
  let url := base_url cfg +:+ "/challenge/" +:+ gatewayID in
  let plain := challenge_json (upstream_error_json <$> ch_Error chal) (ch_Status chal)
                 (ch_Token chal) (ch_Type chal) url in
  match prog with
  | Some p =>
      if cp_status p ==? "invalid"
      then (challenge_json (Some (acmeProblem (cp_errType p) (cp_errMsg p))) "invalid"
              (ch_Token chal) (ch_Type chal) url, true)
      else (plain, false)
  | None => (plain, false)
  end.

Fixpoint rewrite_challenges (orderID : string) (chals : list Challenge) (authzFailed : bool)
    : M (option (list json * bool)) :=
  match chals with
  | [] => ret (Some ([], authzFailed))
  | chal :: chals =>
      let! ogid := challenge_gateway_id orderID (ch_URL chal) in
      match ogid with
      | None => ret None
      | Some gatewayID =>
          let! proc := gets w_proc in
          let '(j, failed) := overlay_challenge gatewayID chal (proc !! gatewayID) in
          let! rest := rewrite_challenges orderID chals (authzFailed || failed) in
          ret ((λ '(js, f), (j :: js, f)) <$> rest)
      end
  end.

Definition authz_json (a : ACMEAuthorization) (status : string) (chals : list json) : json :=
  JObj ([("challenges", JArr chals)] ++ omit_empty "expires" (az_Expires a)
    ++ [("identifier", identifier_json (az_Identifier a)); ("status", JStr status)]
    ++ (if az_Wildcard a then [("wildcard", JBool true)] else [])).

Definition handleAuthz (r : inbound) : M unit :=
  do! addCommonHeaders cfg in
  let_some parsed := parseAndValidateJWS cfg r in
  let! acct := resolveAndVerify cfg parsed else writeError in
  let_some (rm, order) := owned_resource acct (in_ID r) "authorization not found"
    "order for authorization not found" "authorization does not belong to this account" in
  let! client := orderClient cfg order
    else λ _, writeError (errServerInternal "upstream unavailable") in
  let! upAuthz := GetAuthorization client (rm_UpstreamURL rm)
    else λ e, writeError (relayUpstreamError "fetching authorization" e) in
  let_some (chals, authzFailed) := rewrite_challenges (order_ID order) (az_Challenges upAuthz) false in
  writeJSON 200 (authz_json upAuthz (if authzFailed then "invalid" else az_Status upAuthz) chals).

(** ** POST /challenge/{id} *)

(** The parent authorization of a challenge: the first one that lists it. *)
Fixpoint find_challenge_authz (client : client_ref) (rms : list ResourceMap) (url : string)
    (lastErr : option error) : M (result (string * Challenge)) :=
  match rms with
  | [] =>
      ret (match lastErr with
           | Some e => Wrapf "failed to resolve challenge authorization: " e
           | None => Errorf "parent authorization not found for challenge"
           end)
  | rm :: rms =>
      let! ra := GetAuthorization client (rm_UpstreamURL rm) in
      match ra with
      | Err e => find_challenge_authz client rms url (Some e)
      | Ok a =>
          match List.find (λ c, ch_URL c ==? url) (az_Challenges a) with
          | Some chal => ret (Ok (base_url cfg +:+ "/authz/" +:+ rm_GatewayID rm, chal))
          | None => find_challenge_authz client rms url lastErr
          end
      end
  end.

Definition gatewayAuthzURLForChallenge (client : client_ref) (orderID url : string)
    : M (result (string * Challenge)) :=
  let!? rms := wrap "listing authorization resources: "
    (db_read (GetAuthzResourcesByOrderID orderID)) in
  find_challenge_authz client rms url None.

Definition handleChallenge (r : inbound) : M unit :=
  do! addCommonHeaders cfg in
  let_some parsed := parseAndValidateJWS cfg r in
  let! acct := resolveAndVerify cfg parsed else writeError in
  let_some (rm, order) := owned_resource acct (in_ID r) "challenge not found"
    "order for challenge not found" "challenge does not belong to this account" in
  let! client := orderClient cfg order
    else λ _, writeError (errServerInternal "upstream unavailable") in
  let! (authzURL, upChal) := gatewayAuthzURLForChallenge client (order_ID order) (rm_UpstreamURL rm)
    else λ e, writeError (errServerInternal ("resolving challenge authorization: " +:+ error_string e)) in
  do! Header_Add "Link" (upLinkHeader authzURL) in
  let chal_resp err status :=
    challenge_json err status (ch_Token upChal) (ch_Type upChal)
      (base_url cfg +:+ "/challenge/" +:+ in_ID r) in
  if (ch_Status upChal !=? "") && (ch_Status upChal !=? "pending")
  then writeJSON 200 (chal_resp (upstream_error_json <$> ch_Error upChal) (ch_Status upChal))
  else
    let! proc := gets w_proc in
    match proc !! in_ID r with
    | Some p =>
        writeJSON 200 (chal_resp (if cp_status p ==? "invalid"
                                  then Some (acmeProblem (cp_errType p) (cp_errMsg p)) else None)
                         (cp_status p))
    | None =>
        do! startChallengeProcessing client order (rm_UpstreamURL rm) (in_ID r) in
        writeJSON 200 (chal_resp None "processing")
    end.
End orders.

Section certificates.
Context `{Env} `{PKI} `{!RowOrder} `{!NetURL} (cfg : Config).

(** ** POST /finalize/{id} *)
Definition decode_finalize : json → option string :=
  decode_struct (λ k v csr, if k ==? "csr" then decode_string csr v else Some csr) "".

Definition certRequestKeyType (k : any_key) : string :=
  match k with
  | RSAPublic _ => "RSA"
  | ECDSAPublic _ => "ECDSA"
  | Ed25519Public _ => "Ed25519"
  | _ => ""
  end.

Definition csrKeyTypeFromDER (der : string) : result string :=
  let? k := x509_ParseCertificateRequest der in Ok (certRequestKeyType k).

Definition csrKeyTypeLabel (t : string) : string :=
  if t ==? "" then "an unrecognised key type" else t.

Definition wrong_csr_key (o : Order) (csrKeyType : string) : acmeError :=
  errBadCSR ("CSR public key must be " +:+ order_RequireCSRKeyType o +:+ " for profile "
             +:+ Quote (order_Profile o) +:+ ", got " +:+ csrKeyTypeLabel csrKeyType).

(** After the checks: the upstream's answer decides. *)
Definition finalize_upstream (rm : ResourceMap) (order : Order) (csrDER : string) : M unit :=
  let! client := orderClient cfg order
    else λ _, writeError (errServerInternal "upstream unavailable") in
  let! ro := FinalizeOrder client (rm_UpstreamURL rm) csrDER in
  match ro with
  | Err e =>
      let ferr := relayUpstreamError "finalizing upstream order" e in
      let! _ := if isDefinitiveRejection (pb_Status ferr)
                then updateOrderStatus (order_ID order) OrderStatusInvalid else ret (Ok tt) in
      writeError ferr
  | Ok upOrder =>
      let! _ := updateOrderStatus (order_ID order) (ao_Status upOrder) in
      let! resp := buildOrderResponse cfg (order_ID order) upOrder else writeError in
      writeJSON 200 (order_response_json resp)
  end.

Definition handleFinalize (r : inbound) : M unit :=
  do! addCommonHeaders cfg in
  let_some parsed := parseAndValidateJWS cfg r in
  let! acct := resolveAndVerify cfg parsed else writeError in
  let_some (rm, order) := owned_resource acct (in_ID r) "finalize resource not found"
    "order not found" "order does not belong to this account" in
  match Unmarshal (Payload parsed) ≫= decode_finalize with
  | None => writeError (errMalformed "invalid finalize payload")
  | Some csr =>
      if csr ==? "" then writeError (errMalformed "csr is required")
      else match DecodeString csr with
      | None => writeError (errMalformed "invalid csr encoding")
      | Some csrDER =>
          match csrKeyTypeFromDER csrDER with
          | Err _ => writeError (errBadCSR "could not parse CSR")
          | Ok csrKeyType =>
              if (order_RequireCSRKeyType order !=? "")
                 && negb (EqualFold csrKeyType (order_RequireCSRKeyType order))
              then writeError (wrong_csr_key order csrKeyType)
              else finalize_upstream rm order csrDER
          end
      end
  end.

(** ** GET and POST /cert/{id} *)
Definition hex_byte (c : ascii) : string :=
  String (hex_digit (N_of_ascii c / 16)) (String (hex_digit (N_of_ascii c mod 16)) "").
(** [hex.EncodeToString] *)
Fixpoint hex_encode (s : string) : string :=
  match s with "" => "" | String c s => hex_byte c +:+ hex_encode s end.

Definition fingerprint (der : string) : string := hex_encode (sha256 der).

Definition leafCertFingerprint (pemChain : string) : option string :=
  fingerprint <$> pem_Decode pemChain.

Definition ensureGatewayCertURL (orderID upstreamCertURL : string) : M (result string) :=
  let url_of rm := base_url cfg +:+ "/cert/" +:+ rm_GatewayID rm in
  let!? rm := db_read (GetResourceByUpstreamURLAndOrder upstreamCertURL orderID) in
  match rm with
  | Some rm => ret (Ok (url_of rm))
  | None =>
      let!? _ := saveNewResource ResourceTypeCert orderID upstreamCertURL in
      let!? rm := db_read (GetResourceByUpstreamURLAndOrder upstreamCertURL orderID) in
      ret (match rm with
           | Some rm => Ok (url_of rm)
           | None => Errorf "certificate resource not found after insert"
           end)
  end.

Fixpoint add_alternates (orderID : string) (urls : list string) : M unit :=
  match urls with
  | [] => ret tt
  | u :: urls =>
      let! r := ensureGatewayCertURL orderID u in
      do! match r with
          | Ok g => Header_Add "Link" (alternateLinkHeader g)
          | Err _ => ret tt
          end in
      add_alternates orderID urls
  end.

(** The POST-as-GET checks: [None] after an error response. *)
Definition check_cert_post (r : inbound) : M (option unit) :=
  if in_Method r ==? "POST" then
    let! oparsed := parseAndValidateJWS cfg r in
    match oparsed with
    | None => ret None
    | Some parsed =>
        if Payload parsed !=? "" then reject (errMalformed "POST-as-GET payload must be empty")
        else
          let! ra := resolveAndVerify cfg parsed in
          match ra with Err e => reject e | Ok _ => ret (Some tt) end
    end
  else ret (Some tt).

Definition serve_cert (certID : string) (rm : ResourceMap) (order : Order) : M unit :=
  let! client := orderClient cfg order
    else λ _, writeError (errServerInternal "upstream unavailable") in
  let! result := FetchCertificateWithAlternates client (rm_UpstreamURL rm)
    else λ e, writeError (relayUpstreamError "fetching certificate" e) in
  do! (if rm_CertFingerprint rm ==? "" then
         match leafCertFingerprint (Chain result) with
         | Some fp => let! _ := db (UpdateResourceCertFingerprint certID fp) in ret tt
         | None => ret tt
         end
       else ret tt) in
  do! add_alternates (order_ID order) (AlternateCertURLs result) in
  do! Header_Set "Content-Type" "application/pem-certificate-chain" in
  do! WriteHeader 200 in
  Write (BodyBytes (Chain result)).

Definition handleCert (r : inbound) : M unit :=
  do! attachNonce in
  do! Header_Set "Link" (linkHeader cfg) in
  let_some _ := check_cert_post r in
  let! rm := db_read (GetResource (in_ID r)) in
  match rm with
  | Err _ | Ok None => writeError (errNotFound "certificate not found")
  | Ok (Some rm) =>
      let! o := db_read (GetOrder (rm_OrderID rm)) in
      match o with
      | Err _ | Ok None => writeError (errNotFound "order not found")
      | Ok (Some order) => serve_cert (in_ID r) rm order
      end
  end.

(** ** POST /revoke-cert *)
Record revokeCertRequest := MkRevoke { rv_Certificate : string; rv_Reason : option Z }.
Definition set_revoke (k : string) (v : json) (r : revokeCertRequest) : option revokeCertRequest :=
  if k ==? "certificate" then x ← decode_string (rv_Certificate r) v; Some (MkRevoke x (rv_Reason r))
  else if k ==? "reason" then x ← decode_ptr (decode_int 0) v; Some (MkRevoke (rv_Certificate r) x)
  else Some r.
Definition decode_revoke : json → option revokeCertRequest := decode_struct set_revoke (MkRevoke "" None).

Definition jwkMatchesCertKey (jwk : JSONWebKey) (certKey : any_key) : bool :=
  match certKey, jwk_Key jwk with
  | ECDSAPublic c, ECDSAPublic k => ECDSAEqual c k
  | RSAPublic c, RSAPublic k => RSAEqual c k
  | Ed25519Public c, Ed25519Public k => Ed25519Equal c k
  | _, _ => false
  end.

(** Who asks: an embedded key whose signature verifies, or a known account. *)
Definition revoke_requester (parsed : ParsedJWS) : M (option (option Account)) :=
  match EmbeddedJWK parsed with
  | Some jwk =>
      match VerifySignature parsed (Some (jwk_Key jwk)) with
      | Some _ => reject (errUnauthorized "signature verification failed")
      | None => ret (Some None)
      end
  | None =>
      let! ra := resolveAndVerify cfg parsed in
      match ra with Err e => reject e | Ok a => ret (Some a) end
  end.

(** The key check of an embedded-key request. *)
Definition check_cert_key (parsed : ParsedJWS) (certDER : string) : M (option unit) :=
  match EmbeddedJWK parsed with
  | None => ret (Some tt)
  | Some jwk =>
      match x509_ParseCertificate certDER with
      | Err _ => reject (errMalformed "invalid certificate DER")
      | Ok certKey =>
          if jwkMatchesCertKey jwk certKey then ret (Some tt)
          else reject (errUnauthorized "JWK does not match certificate public key")
      end
  end.

(** The upstream, slot and account of a certificate, by its fingerprint. *)
Definition revoke_route (acct : option Account) (certDER : string)
    : M (option (string * Z * string)) :=
  let default_route := (DefaultUpstream (Routing cfg), 0%Z, "") in
  let! rc := db_read (GetResourceByCertFingerprint (fingerprint certDER)) in
  match default None (ok_opt rc) with
  | None => ret (Some default_route)
  | Some certRM =>
      let! ro := db_read (GetOrder (rm_OrderID certRM)) in
      match default None (ok_opt ro) with
      | None => ret (Some default_route)
      | Some o =>
          let route := (order_UpstreamID o, order_UpstreamSlot o,
            if (order_UpstreamSlot o <? 0)%Z then order_AccountID o else "") in
          match acct with
          | Some a =>
              if order_AccountID o !=? acct_ID a
              then reject (errUnauthorized "certificate does not belong to this account")
              else ret (Some route)
          | None => ret (Some route)
          end
      end
  end.

Definition handleRevokeCert (r : inbound) : M unit :=
  do! addCommonHeaders cfg in
  let_some parsed := parseAndValidateJWS cfg r in
  let_some acct := revoke_requester parsed in
  match Unmarshal (Payload parsed) ≫= decode_revoke with
  | None => writeError (errMalformed "invalid revoke payload")
  | Some req =>
      if rv_Certificate req ==? "" then writeError (errMalformed "certificate is required")
      else match DecodeString (rv_Certificate req) with
      | None => writeError (errMalformed "invalid certificate encoding")
      | Some certDER =>
          let_some _ := check_cert_key parsed certDER in
          let_some (upstreamID, slot, accountID) := revoke_route acct certDER in
          let reason := default (-1)%Z (rv_Reason req) in
          let! client := (if accountID !=? "" then GetClientForAccount cfg upstreamID accountID
                          else GetSlot cfg upstreamID slot)
            else λ _, writeError (errServerInternal "upstream unavailable") in
          let! _ := RevokeCertificate client certDER reason
            else λ e, writeError (errServerInternal ("revoking certificate: " +:+ error_string e)) in
          WriteHeader 200
      end
  end.

(** ** POST /key-change *)
Definition handleKeyChange (r : inbound) : M unit :=
  do! addCommonHeaders cfg in
  writeError (MkProblem (acme_urn "serverInternal") "key roll-over is not supported by this gateway"
                500 "").
End certificates.

(** [routingSignal], for the log. *)
Definition routingSignal (profile keyType : string) (ids : list Identifier) : string :=
  if (profile !=? "") && (keyType !=? "") then "profile+key_type"
  else if profile !=? "" then "profile"
  else if keyType !=? "" then "key_type"
  else if existsb (λ id, Contains (id_Value id) ".") ids then "domain_suffix" else "default".
