(* ===== verification/HandlerRel.v ===== *)
(** * Invariants of the whole process

    A relation kept by the primitive steps of the handlers is kept by every
    endpoint.  Instances: the database schema, the coherence of the pool, the
    single use of upstream nonces. *)
From S2P Require Export Handlers.

(** A relation kept by everything but the answer itself ... *)
Class ServiceRel `{Env} (cfg : Config) (R : World → World → Prop) := {
  hl_post :: PostRel R;
  hl_GetSlot u s : keeps R (GetSlot cfg u s);
  hl_GetClientForAccount u a : keeps R (GetClientForAccount cfg u a);
  hl_read A (f : Store → result A) : keeps R (db_read f);
  hl_new cl : client_nonces cl = empty_ring → keeps R (new_client cl);
  hl_headers f : keeps R (on_headers f);
  hl_issue b n : keeps R (db (IssueNonce b (env_now n)));
  hl_consume v n : keeps R (db (ConsumeNonce v (env_now n)));
  hl_account i k t c s n : keeps R (db (SaveAccount (MkAccount i k t c s (env_now n))));
  hl_order i a u sl url st ids p rk n m :
    keeps R (db (SaveOrder (MkOrder i a u sl url st ids p rk (env_now n) (env_now m))));
  hl_update i s n : keeps R (db (UpdateOrderStatus i s (env_now n)));
  hl_resource r : keeps R (db (SaveResource r));
  hl_fingerprint i fp : keeps R (db (UpdateResourceCertFingerprint i fp));
  hl_start c o u i : keeps R (startChallengeProcessing c o u i)
}.
(** ... and by the answer as well. *)
Class HandlerRel `{Env} (cfg : Config) (R : World → World → Prop) := {
  hl_service :: ServiceRel cfg R;
  hl_WriteHeader n : keeps R (WriteHeader n);
  hl_Write b : keeps R (Write b)
}.
#[export] Hint Extern 1 (ServiceRel _ _) => typeclasses eauto : keeps.
#[export] Hint Extern 1 (HandlerRel _ _) => typeclasses eauto : keeps.
#[export] Hint Resolve hl_new hl_GetSlot hl_GetClientForAccount hl_read hl_WriteHeader hl_Write
  hl_issue hl_consume hl_account hl_order hl_update hl_resource hl_fingerprint hl_start : keeps.

(** The continuation of a reading is only run on answers of the oracle. *)
Lemma keeps_bind_ask `{Env} {A B} R `{!PostRel R} (f : nat → A) (k : A → M B) :
  (∀ n, keeps R (k (f n))) → keeps R (bind (ask f) k).
Proof.
  intros Hk w. unfold bind, ask. simpl. etrans; [exact (pr_ask _ f w)|]. apply Hk.
Qed.

Ltac handler_step :=
  match goal with
  | |- keeps _ (bind (ask _) _) => apply keeps_bind_ask; [typeclasses eauto|intros]
  | |- keeps _ (Header_Set _ _) => apply hl_headers
  | |- keeps _ (Header_Add _ _) => apply hl_headers
  | |- keeps _ (ask _) => apply pr_ask
  | |- _ => keeps_step
  end.
Ltac handler_auto := repeat (handler_step || (progress eauto 2 with keeps nocore)).

Section service_keeps.
Context `{Env} `{PKI} `{!RowOrder} `{!NetURL} (cfg : Config) (R : World → World → Prop)
  `{!ServiceRel cfg R}.

Lemma keeps_attachNonce : keeps R attachNonce.
Proof using Type*. unfold attachNonce, issueNonce. handler_auto. Qed.
#[local] Hint Resolve keeps_attachNonce : keeps.
Lemma keeps_addCommonHeaders : keeps R (addCommonHeaders cfg).
Proof using Type*. unfold addCommonHeaders. handler_auto. Qed.
#[local] Hint Resolve keeps_addCommonHeaders : keeps.
Lemma keeps_resolveAccount p : keeps R (resolveAccount cfg p).
Proof using Type*. unfold resolveAccount. handler_auto. Qed.
#[local] Hint Resolve keeps_resolveAccount : keeps.
Lemma keeps_resolveAndVerify p : keeps R (resolveAndVerify cfg p).
Proof using Type*. unfold resolveAndVerify. handler_auto. Qed.
#[local] Hint Resolve keeps_resolveAndVerify : keeps.
Lemma keeps_account_id a : keeps R (account_id a).
Proof using Type*. unfold account_id. handler_auto. Qed.
#[local] Hint Resolve keeps_account_id : keeps.
Lemma keeps_orderClient o : keeps R (orderClient cfg o).
Proof using Type*. unfold orderClient. handler_auto. Qed.
#[local] Hint Resolve keeps_orderClient : keeps.
Lemma keeps_updateOrderStatus i s : keeps R (updateOrderStatus i s).
Proof using Type*. unfold updateOrderStatus. handler_auto. Qed.
#[local] Hint Resolve keeps_updateOrderStatus : keeps.
Lemma keeps_saveNewResource t o u : keeps R (saveNewResource t o u).
Proof using Type*. unfold saveNewResource. handler_auto. Qed.
#[local] Hint Resolve keeps_saveNewResource : keeps.
Lemma keeps_cert_url o u : keeps R (cert_url cfg o u).
Proof using Type*. unfold cert_url. handler_auto. Qed.
#[local] Hint Resolve keeps_cert_url : keeps.
Lemma keeps_buildOrderResponse o u : keeps R (buildOrderResponse cfg o u).
Proof using Type*. unfold buildOrderResponse. handler_auto. Qed.
#[local] Hint Resolve keeps_buildOrderResponse : keeps.
Lemma keeps_find_challenge_authz c rms u e : keeps R (find_challenge_authz cfg c rms u e).
Proof using Type*. revert e. induction rms; intros e; simpl; handler_auto. Qed.
#[local] Hint Resolve keeps_find_challenge_authz : keeps.
Lemma keeps_gatewayAuthz c o u : keeps R (gatewayAuthzURLForChallenge cfg c o u).
Proof using Type*. unfold gatewayAuthzURLForChallenge. handler_auto. Qed.
#[local] Hint Resolve keeps_gatewayAuthz : keeps.
Lemma keeps_ensureGatewayCertURL o u : keeps R (ensureGatewayCertURL cfg o u).
Proof using Type*. unfold ensureGatewayCertURL. handler_auto. Qed.
#[local] Hint Resolve keeps_ensureGatewayCertURL : keeps.
Lemma keeps_add_alternates o us : keeps R (add_alternates cfg o us).
Proof using Type*. induction us; simpl; handler_auto. Qed.
#[local] Hint Resolve keeps_add_alternates : keeps.
End service_keeps.
#[export] Hint Resolve keeps_attachNonce keeps_addCommonHeaders keeps_resolveAccount
  keeps_resolveAndVerify keeps_account_id keeps_orderClient keeps_updateOrderStatus
  keeps_saveNewResource keeps_cert_url keeps_buildOrderResponse keeps_find_challenge_authz
  keeps_gatewayAuthz keeps_ensureGatewayCertURL keeps_add_alternates : keeps.

Section handlers_keep.
Context `{Env} `{PKI} `{!RowOrder} `{!NetURL} (cfg : Config) (R : World → World → Prop)
  `{!HandlerRel cfg R}.

Lemma keeps_writeError e : keeps R (writeError e).
Proof using Type*. unfold writeError. handler_auto. Qed.
Lemma keeps_writeJSON n v : keeps R (writeJSON n v).
Proof using Type*. unfold writeJSON. handler_auto. Qed.
#[local] Hint Resolve keeps_writeError keeps_writeJSON : keeps.
Lemma keeps_reject {A} e : keeps R (reject (A := A) e).
Proof using Type*. unfold reject. handler_auto. Qed.
#[local] Hint Resolve keeps_reject : keeps.

Lemma keeps_parseAndValidateJWS r : keeps R (parseAndValidateJWS cfg r).
Proof using Type*. unfold parseAndValidateJWS. handler_auto. Qed.
#[local] Hint Resolve keeps_parseAndValidateJWS : keeps.

Lemma keeps_handleDirectory : keeps R (handleDirectory cfg).
Proof using Type*. unfold handleDirectory. handler_auto. Qed.
Lemma keeps_handleNewNonce r : keeps R (handleNewNonce r).
Proof using Type*. unfold handleNewNonce. handler_auto. Qed.
Lemma keeps_handleNewAccount r : keeps R (handleNewAccount cfg r).
Proof using Type*. unfold handleNewAccount. handler_auto. Qed.

Lemma keeps_save_authzs o urls : keeps R (save_authzs cfg o urls).
Proof using Type*. induction urls; simpl; handler_auto. Qed.
#[local] Hint Resolve keeps_save_authzs : keeps.
Lemma keeps_record_order a req d o u : keeps R (record_order cfg a req d o u).
Proof using Type*. unfold record_order. handler_auto. Qed.
#[local] Hint Resolve keeps_record_order : keeps.
Lemma keeps_handleNewOrder r : keeps R (handleNewOrder cfg r).
Proof using Type*. unfold handleNewOrder. handler_auto. Qed.

Lemma keeps_handleOrder r : keeps R (handleOrder cfg r).
Proof using Type*. unfold handleOrder. handler_auto. Qed.
Lemma keeps_owned_resource a i x y z : keeps R (owned_resource a i x y z).
Proof using Type*. unfold owned_resource. handler_auto. Qed.
#[local] Hint Resolve keeps_owned_resource : keeps.

Lemma keeps_challenge_gateway_id o u : keeps R (challenge_gateway_id o u).
Proof using Type*. unfold challenge_gateway_id. handler_auto. Qed.
#[local] Hint Resolve keeps_challenge_gateway_id : keeps.
Lemma keeps_rewrite_challenges o cs b : keeps R (rewrite_challenges cfg o cs b).
Proof using Type*. revert b. induction cs; intros b; simpl; handler_auto. Qed.
#[local] Hint Resolve keeps_rewrite_challenges : keeps.
Lemma keeps_handleAuthz r : keeps R (handleAuthz cfg r).
Proof using Type*. unfold handleAuthz. handler_auto. Qed.

Lemma keeps_handleChallenge r : keeps R (handleChallenge cfg r).
Proof using Type*. unfold handleChallenge. handler_auto. Qed.

Lemma keeps_finalize_upstream rm o csr : keeps R (finalize_upstream cfg rm o csr).
Proof using Type*. unfold finalize_upstream. handler_auto. Qed.
#[local] Hint Resolve keeps_finalize_upstream : keeps.
Lemma keeps_handleFinalize r : keeps R (handleFinalize cfg r).
Proof using Type*. unfold handleFinalize. handler_auto. Qed.

Lemma keeps_serve_cert i rm o : keeps R (serve_cert cfg i rm o).
Proof using Type*. unfold serve_cert. handler_auto. Qed.
Lemma keeps_check_cert_post r : keeps R (check_cert_post cfg r).
Proof using Type*. unfold check_cert_post. handler_auto. Qed.
#[local] Hint Resolve keeps_serve_cert keeps_check_cert_post : keeps.
Lemma keeps_handleCert r : keeps R (handleCert cfg r).
Proof using Type*. unfold handleCert. handler_auto. Qed.

Lemma keeps_revoke_requester p : keeps R (revoke_requester cfg p).
Proof using Type*. unfold revoke_requester. handler_auto. Qed.
Lemma keeps_check_cert_key p d : keeps R (check_cert_key p d).
Proof using Type*. unfold check_cert_key. handler_auto. Qed.
Lemma keeps_revoke_route a d : keeps R (revoke_route cfg a d).
Proof using Type*. unfold revoke_route. handler_auto. Qed.
#[local] Hint Resolve keeps_revoke_requester keeps_check_cert_key keeps_revoke_route : keeps.
Lemma keeps_handleRevokeCert r : keeps R (handleRevokeCert cfg r).
Proof using Type*. unfold handleRevokeCert. handler_auto. Qed.
Lemma keeps_handleKeyChange r : keeps R (handleKeyChange cfg r).
Proof using Type*. unfold handleKeyChange. handler_auto. Qed.
End handlers_keep.
#[export] Hint Resolve keeps_writeError keeps_writeJSON
  keeps_handleDirectory keeps_handleNewNonce keeps_handleNewAccount keeps_handleNewOrder
  keeps_handleOrder keeps_handleAuthz keeps_handleChallenge keeps_handleFinalize keeps_handleCert
  keeps_handleRevokeCert keeps_handleKeyChange : keeps.

(** ** Building such relations *)

(** The database writes of the handlers. *)
Inductive handler_write `{Env} : ∀ A, (Store → result A * Store) → Prop :=
| hw_issue b n : handler_write _ (IssueNonce b (env_now n))
| hw_consume v n : handler_write _ (ConsumeNonce v (env_now n))
| hw_account i k t c s n : handler_write _ (SaveAccount (MkAccount i k t c s (env_now n)))
| hw_order i a u sl url st ids p rk n m :
    handler_write _ (SaveOrder (MkOrder i a u sl url st ids p rk (env_now n) (env_now m)))
| hw_update i s n : handler_write _ (UpdateOrderStatus i s (env_now n))
| hw_resource r : handler_write _ (SaveResource r)
| hw_fingerprint i fp : handler_write _ (UpdateResourceCertFingerprint i fp).
#[export] Hint Constructors handler_write : gateway.

Section build.
Context `{Env} (cfg : Config) (R : World → World → Prop) `{!PostRel R}.

Lemma keeps_db {A} (f : Store → result A * Store) :
  (∀ w, R w (set_store (f (w_store w)).2 w)) → keeps R (db f).
Proof using Type*.
  intros Hf w. unfold db, bind, ask, ret. simpl.
  destruct (env_db (w_tick w)); [exact (pr_ask _ env_db w)|].
  etrans; [exact (pr_ask _ env_db w)|].
  specialize (Hf (set_tick (S (w_tick w)) w)). simpl in *. by destruct (f (w_store w)).
Qed.

Lemma keeps_start_of c o u i :
  (∀ w p, R w (set_proc p w)) → (∀ w j, R w (set_jobs j w)) →
  keeps R (startChallengeProcessing c o u i).
Proof using Type*.
  intros Hp Hj.
  assert (∀ f, keeps R (update_proc f)) by (intros f w; apply Hp).
  assert (∀ f, keeps R (update_jobs f)) by (intros f w; apply Hj).
  unfold startChallengeProcessing, beginChallengeProc. keeps_auto.
Qed.

(** A relation that may look at the answer, but not at its headers ... *)
Lemma service_rel :
  (∀ u s, keeps R (GetSlot cfg u s)) → (∀ u a, keeps R (GetClientForAccount cfg u a)) →
  (∀ cl, client_nonces cl = empty_ring → keeps R (new_client cl)) →
  (∀ f, keeps R (on_headers f)) →
  (∀ A f w, handler_write A f → R w (set_store (f (w_store w)).2 w)) →
  (∀ c o u i, keeps R (startChallengeProcessing c o u i)) →
  ServiceRel cfg R.
Proof using Type*.
  intros Hslot Hacct Hnew Hhead Hwrite Hstart.
  split; [apply _|done|done| |done|done| | | | | | | |done].
  2-8: intros; apply keeps_db; intros w; apply Hwrite; constructor.
  intros A f. apply keeps_db. intros w. simpl. destruct w. reflexivity.
Qed.

(** ... and one that does not look at it at all. *)
Lemma handler_rel :
  (∀ u s, keeps R (GetSlot cfg u s)) → (∀ u a, keeps R (GetClientForAccount cfg u a)) →
  (∀ cl, client_nonces cl = empty_ring → keeps R (new_client cl)) →
  (∀ w r, R w (set_resp r w)) →
  (∀ A f w, handler_write A f → R w (set_store (f (w_store w)).2 w)) →
  (∀ c o u i, keeps R (startChallengeProcessing c o u i)) →
  HandlerRel cfg R.
Proof using Type*.
  intros Hslot Hacct Hnew Hresp Hwrite Hstart. split; [|intros n w; apply Hresp..].
  apply service_rel; try done. intros f w. unfold on_headers, modify. simpl.
  destruct (rp_status (w_resp w)); [apply Hresp|reflexivity].
Qed.

Lemma handler_rel_pool `{!PoolRel R} :
  (∀ w r, R w (set_resp r w)) →
  (∀ A f w, handler_write A f → R w (set_store (f (w_store w)).2 w)) →
  (∀ c o u i, keeps R (startChallengeProcessing c o u i)) →
  HandlerRel cfg R.
Proof using Type*.
  intros. apply handler_rel; try done; intros.
  - by apply keeps_GetSlot.
  - by apply keeps_GetClientForAccount.
  - by apply pl_new.
Qed.
End build.

(** A relation that only looks at the store is kept by upstream clients. *)
Section client_only.
Context `{Env} (R : World → World → Prop) `{!PreOrder R}.
Lemma client_frame_post : (∀ w w', client_frame w w' → R w w') → PostRel R.
Proof using Type*.
  intros HR. split; [done| | |]; intros; apply (keeps_weaken client_frame); try done.
  - apply cr_ask.
  - by apply keeps_Directory, _.
  - by apply keeps_attempts, _.
Qed.
End client_only.

(** ** Oracles are only read forward *)
Section ticks.
Context `{Env}.
Definition ticks (w w' : World) : Prop := w_tick w ≤ w_tick w'.
#[export] Instance ticks_pre : PreOrder ticks.
Proof. split; [by intros w; unfold ticks|]. intros w1 w2 w3. unfold ticks. lia. Qed.
#[export] Instance ticks_post : PostRel ticks.
Proof. apply client_frame_post; [apply _|]. by intros w w' []. Qed.
Lemma ticks_same w w' : w_tick w' = w_tick w → ticks w w'.
Proof. unfold ticks. lia. Qed.
#[export] Instance ticks_pool : PoolRel ticks.
Proof.
  split; [apply _|intros cl _ w; by apply ticks_same|intros c u w; by apply ticks_same
          |intros f w; by apply ticks_same|..].
  all: intros; apply keeps_db; [apply _|]; intros w; by apply ticks_same.
Qed.
#[export] Instance ticks_handlers `{PKI} `{!RowOrder} `{!NetURL} cfg : HandlerRel cfg ticks.
Proof.
  apply handler_rel_pool; [apply _|apply _|intros w r; by apply ticks_same|intros A f w _; by apply ticks_same|].
  intros. apply keeps_start_of; [apply _|intros; by apply ticks_same..].
Qed.
End ticks.
