(* ===== verification/Health.v ===== *)
(** * Health endpoints and the routing table (internal/server/health.go, server.go)

    The liveness probe, the report on the upstreams, the dispatch of requests to
    the handlers and the recovery from panics. *)
From S2P Require Export HandlerRel.

Section health.
(** [probeKey] is computed once for the process; [None] when that failed, and
    [New] then generates a key per client. *)
Context `{Env} `{PKI} (cfg : Config) (probeKey : option ECKey).

Definition probeErrGeneric : string := "probe failed (see gateway logs)".

(** A map of strings, keys in sorted order. *)
Definition handleLiveness : M unit :=
  let! e := db_read (λ _, Ok tt) in
  match e with
  | Err _ =>
      writeJSON 503 (JObj [("reason", JStr "state store unreachable"); ("status", JStr "unavailable")])
  | Ok _ => writeJSON 200 (JObj [("status", JStr "ok")])
  end.

Record upstreamHealth := MkHealth {
  uh_ID : string; uh_DirectoryURL : string; uh_Healthy : bool; uh_LatencyMS : Z;
  uh_NewOrderURL : string; uh_NewNonceURL : string; uh_Error : string
}.

Definition newProbeClient (up : UpstreamConfig) : M (result client_ref) :=
  let! e := if CACertPath up !=? "" then ask (λ n, env_cacert n (CACertPath up)) else ret None in
  match e with
  | Some e => ret (Err e)
  | None =>
      let!? cl := New (DirectoryURL up) probeKey in
      let! c := new_client cl in
      ret (Ok c)
  end.

Definition probeUpstream (id : string) (up : UpstreamConfig) : M upstreamHealth :=
  let failed latency := MkHealth id (DirectoryURL up) false latency "" "" probeErrGeneric in
  let! rc := newProbeClient up in
  match rc with
  | Err _ => ret (failed 0%Z)
  | Ok client =>
      let! start := ask env_now in
      let! rd := Directory client in
      let! stop := ask env_now in
      let latency := ((stop - start) / 1000000)%Z in
      ret (match rd with
           | Err _ => failed latency
           | Ok d => MkHealth id (DirectoryURL up) true latency (NewOrder d) (NewNonce d) ""
           end)
  end.

(** The goroutines write disjoint slots of the result and are joined before
    it is read; here they run one after the other. *)
Fixpoint probe_all (ids : list string) : M (list upstreamHealth) :=
  match ids with
  | [] => ret []
  | id :: ids =>
      let! h := probeUpstream id (default zero_UpstreamConfig (Upstreams cfg !! id)) in
      let! rest := probe_all ids in
      ret (h :: rest)
  end.

Definition health_json (h : upstreamHealth) : json :=
  JObj ([("id", JStr (uh_ID h)); ("directory_url", JStr (uh_DirectoryURL h));
         ("healthy", JBool (uh_Healthy h)); ("latency_ms", JNum (pretty (uh_LatencyMS h)))]
    ++ omit_empty "new_order_url" (uh_NewOrderURL h) ++ omit_empty "new_nonce_url" (uh_NewNonceURL h)
    ++ omit_empty "error" (uh_Error h)).

Definition sorted_upstreams : list string := sort_strings (map_to_list (Upstreams cfg)).*1.

Definition handleUpstreamsHealth : M unit :=
  let! results := probe_all sorted_upstreams in
  let allHealthy := forallb uh_Healthy results in
  let! now := ask env_now in
  writeJSON (if allHealthy then 200 else 503)
    (JObj [("status", JStr (if allHealthy then "ok" else "degraded"));
           ("checked_at", JStr (format_rfc3339 now));
           ("upstreams", JArr (health_json <$> results))]).

(** ** The report *)
Definition report_ok (id : string) (h : upstreamHealth) : Prop :=
  uh_ID h = id ∧
  uh_DirectoryURL h = DirectoryURL (default zero_UpstreamConfig (Upstreams cfg !! id)) ∧
  (if uh_Healthy h then uh_Error h = ""
   else uh_Error h = probeErrGeneric ∧ uh_NewOrderURL h = "" ∧ uh_NewNonceURL h = "").

(** What probing leaves alone: its clients are its own. *)
Definition probe_frame (w w' : World) : Prop :=
  w_store w' = w_store w ∧ w_pool w' = w_pool w ∧ w_proc w' = w_proc w ∧
  w_jobs w' = w_jobs w ∧ w_resp w' = w_resp w.
#[local] Instance probe_frame_pre : PreOrder probe_frame.
Proof. split; [by intros w|]. unfold probe_frame. intros w1 w2 w3 ? ?. naive_solver congruence. Qed.
#[local] Instance probe_frame_fetch : FetchRel probe_frame.
Proof. split; [apply _|by intros..]. Qed.

Lemma keeps_probeUpstream id up : keeps probe_frame (probeUpstream id up).
Proof.
  assert (∀ cl, keeps probe_frame (new_client cl)) as Hnew by (intros cl w; done).
  unfold probeUpstream, newProbeClient, New. keeps_auto.
Qed.
Lemma keeps_probe_all ids : keeps probe_frame (probe_all ids).
Proof. pose proof keeps_probeUpstream. induction ids; simpl; keeps_auto. Qed.

Lemma Directory_no_panic c w :
  is_Some (w_heap w !! c) → after (Directory c) w (λ r _, is_Some r).
Proof.
  intros [cl Hc]. unfold Directory. apply after_bind, after_deref. rewrite Hc.
  destruct (directory cl); [by eexists|]. destruct (request_url_error _); [by eexists|].
  apply after_bind_ok, after_wrap, after_http. destruct (env_http _ _); [|by eexists].
  destruct (negb _); [by eexists|]. by destruct (decode_body _ _ _); eexists.
Qed.
Lemma newProbeClient_ok up w :
  after (newProbeClient up) w (λ r w', ∃ rc, r = Some rc ∧ ∀ c, rc = Ok c → is_Some (w_heap w' !! c)).
Proof.
  assert (∀ k w, after (let!? cl := New (DirectoryURL up) k in let! c := new_client cl in ret (Ok c)) w
    (λ r w', ∃ rc, r = Some rc ∧ ∀ c, rc = Ok c → is_Some (w_heap w' !! c))) as Hnew.
  { intros k w0. unfold New.
    apply after_bind_ok. destruct k; [|apply after_bind_ok, after_wrap, after_ask; destruct (env_genkey _)];
      try (eexists; split; [done|]; intros; by simplify_eq);
      unfold after; simpl; eexists; (split; [done|]); intros c [= <-]; rewrite lookup_insert_eq; by eexists. }
  unfold newProbeClient. destruct (CACertPath up !=? "").
  - apply after_bind, after_ask. destruct (env_cacert _ _); [eexists; split; [done|]; by intros|].
    apply Hnew.
  - apply Hnew.
Qed.

Lemma probeUpstream_ok id up w :
  after (probeUpstream id up) w (λ r _, ∃ h, r = Some h ∧ uh_ID h = id ∧
    uh_DirectoryURL h = DirectoryURL up ∧
    (if uh_Healthy h then uh_Error h = ""
     else uh_Error h = probeErrGeneric ∧ uh_NewOrderURL h = "" ∧ uh_NewNonceURL h = "")).
Proof.
  unfold probeUpstream. apply after_bind. eapply after_mono; [apply newProbeClient_ok|].
  intros r w1 ([c|e] & -> & Hc). 2:{ by eexists. }
  apply after_bind, after_ask, after_bind.
  eapply after_mono; [apply Directory_no_panic, (Hc c eq_refl)|]. intros r w2 [rd ->].
  apply after_bind, after_ask, after_ret. eexists. split; [done|]. by destruct rd.
Qed.

Lemma probe_all_ok ids w :
  after (probe_all ids) w (λ r _, ∃ hs, r = Some hs ∧ Forall2 report_ok ids hs).
Proof.
  revert w. induction ids as [|id ids IH]; intros w; simpl.
  { apply after_ret. exists []. split; [done|constructor]. }
  apply after_bind. eapply after_mono; [apply probeUpstream_ok|].
  intros r w1 (h & -> & Hh). apply after_bind. eapply after_mono; [apply IH|].
  intros r w2 (hs & -> & Hhs). apply after_ret. eexists. split; [done|]. by constructor.
Qed.

Lemma sorted_upstreams_spec :
  NoDup sorted_upstreams ∧ ∀ id, id ∈ sorted_upstreams ↔ is_Some (Upstreams cfg !! id).
Proof.
  unfold sorted_upstreams, sort_strings. split.
  - rewrite merge_sort_Permutation. apply NoDup_fst_map_to_list.
  - intros id. rewrite merge_sort_Permutation, list_elem_of_fmap. split.
    + intros ([k v] & -> & Hin%elem_of_map_to_list). by exists v.
    + intros [v Hv]. exists (id, v). by rewrite elem_of_map_to_list.
Qed.

(** The upstream report never panics, lists every configured upstream once
    with a generic error and no detail for those that failed, and answers 200 "ok" exactly
    when all are healthy and 503 "degraded" otherwise; probing touches neither the
    database nor the pool nor the challenges. *)
Theorem health_report w :
  ∃ hs now w0,
    Forall2 report_ok sorted_upstreams hs ∧ NoDup sorted_upstreams ∧
    (∀ id, id ∈ sorted_upstreams ↔ is_Some (Upstreams cfg !! id)) ∧ probe_frame w w0 ∧
    let ok := forallb uh_Healthy hs in
    handleUpstreamsHealth w = writeJSON (if ok then 200 else 503)
      (JObj [("status", JStr (if ok then "ok" else "degraded"));
             ("checked_at", JStr (format_rfc3339 now));
             ("upstreams", JArr (health_json <$> hs))]) w0.
Proof.
  pose proof (probe_all_ok sorted_upstreams w) as (hs & Hr & Hhs).
  pose proof (keeps_probe_all sorted_upstreams w) as Hf.
  destruct sorted_upstreams_spec as [Hnd Hin]. unfold handleUpstreamsHealth, bind.
  destruct (probe_all sorted_upstreams w) as [r w1]. simpl in *. subst r.
  eexists hs, (env_now (w_tick w1)), _. split_and!; [done..| |reflexivity]. exact Hf.
Qed.
End health.

(** ** Routing (server.go) *)

(** What the router finds for a method and a path: the index of a registered
    pattern with the value of its [{id}] ("" without one), or no handler. *)
Inductive mux_result := Found (i : nat) (id : string) | NotFound | MethodNotAllowed.

(** go-chi's matching of a request against (method, pattern) pairs. *)
Class Mux := { mux_match : list (string * string) → string → string → mux_result }.

Section routing.
Context `{Env} `{PKI} `{!RowOrder} `{!NetURL} `{!Mux} (cfg : Config) (probeKey : option ECKey).

Definition with_id (r : inbound) (id : string) : inbound :=
  MkInbound (in_Method r) (in_Path r) (in_ContentType r) (in_Body r) id.

(** [buildRouter]: the registered handlers, in order. *)
Definition routes : list (string * string * (inbound → M unit)) :=
  [("GET", "/directory", λ _, handleDirectory cfg);
   ("GET", "/healthz", λ _, handleLiveness);
   ("GET", "/healthz/upstreams", λ _, handleUpstreamsHealth cfg probeKey);
   ("HEAD", "/new-nonce", handleNewNonce);
   ("GET", "/new-nonce", handleNewNonce);
   ("POST", "/new-account", handleNewAccount cfg);
   ("POST", "/new-order", handleNewOrder cfg);
   ("POST", "/order/{id}", handleOrder cfg);
   ("POST", "/authz/{id}", handleAuthz cfg);
   ("POST", "/challenge/{id}", handleChallenge cfg);
   ("POST", "/finalize/{id}", handleFinalize cfg);
   ("GET", "/cert/{id}", handleCert cfg);
   ("POST", "/cert/{id}", handleCert cfg);
   ("POST", "/key-change", handleKeyChange cfg);
   ("POST", "/revoke-cert", handleRevokeCert cfg)].

Definition dispatch (r : inbound) : M unit :=
  match mux_match routes.*1 (in_Method r) (in_Path r) with
  | Found i id =>
      match routes !! i with
      | Some (_, _, h) => h (with_id r id)
      | None => WriteHeader 404
      end
  | NotFound => WriteHeader 404
  | MethodNotAllowed => WriteHeader 405
  end.

(** [middleware.Recoverer]: a panic becomes a 500. *)
Definition recover (m : M unit) : M unit := λ w,
  match m w with
  | (Some _, w') => (Some tt, w')
  | (None, w') => WriteHeader 500 w'
  end.

(** One request on a fresh response. *)
Definition serve (r : inbound) (w : World) : World :=
  (recover (dispatch r) (set_resp empty_response w)).2.

Fixpoint serve_all (rs : list inbound) (w : World) : World :=
  match rs with [] => w | r :: rs => serve_all rs (serve r w) end.
End routing.
