(* ===== verification/ServeProps.v ===== *)
(** * Any sequence of requests

    A relation kept by the steps of the handlers is kept by the server over any
    requests, answers of the upstreams, failures and panics.  Instances: the
    schema of the database, the single use of upstream nonces and the coherence of the
    pool (used in System.v, with the background work), and the single flight of challenges. *)
From S2P Require Export Health.

Section serve_keeps.
Context `{Env} `{PKI} `{!RowOrder} `{!NetURL} `{!Mux} (cfg : Config) (probeKey : option ECKey)
  (R : World → World → Prop) `{!HandlerRel cfg R}.

Lemma keeps_handleLiveness : keeps R handleLiveness.
Proof using Type*. unfold handleLiveness. handler_auto. Qed.
Lemma keeps_probe_new url k :
  keeps R (let!? cl := New url k in let! c := new_client cl in ret (Ok c)).
Proof using Type*.
  unfold New. destruct k as [k|].
  - change (keeps R (bind (new_client (MkClient _ url k "" None empty_ring))
      (λ c, ret (Ok c : result client_ref)))).
    keeps_step; [by apply hl_new|handler_auto].
  - intros w. unfold bind_ok, wrap, bind, ask, ret. simpl.
    destruct (env_genkey (w_tick w)) as [k|e]; simpl.
    + etrans; [exact (pr_ask _ env_genkey w)|]. simpl.
      exact (hl_new (MkClient _ url k "" None empty_ring) eq_refl _).
    + exact (pr_ask _ env_genkey w).
Qed.
Lemma keeps_newProbeClient up : keeps R (newProbeClient probeKey up).
Proof using Type*.
  unfold newProbeClient. keeps_step; [handler_auto|].
  match goal with |- keeps _ (match ?e with _ => _ end) => destruct e end; [handler_auto|].
  apply keeps_probe_new.
Qed.
#[local] Hint Resolve keeps_newProbeClient : keeps.
Lemma keeps_probe id up : keeps R (probeUpstream probeKey id up).
Proof using Type*. unfold probeUpstream. handler_auto. Qed.
#[local] Hint Resolve keeps_probe : keeps.
Lemma keeps_probe_list ids : keeps R (probe_all cfg probeKey ids).
Proof using Type*. induction ids; simpl; handler_auto. Qed.
#[local] Hint Resolve keeps_probe_list : keeps.
Lemma keeps_handleUpstreamsHealth : keeps R (handleUpstreamsHealth cfg probeKey).
Proof using Type*. unfold handleUpstreamsHealth. handler_auto. Qed.
#[local] Hint Resolve keeps_handleLiveness keeps_handleUpstreamsHealth : keeps.

(** Every handler of the table. *)
Lemma keeps_routes : Forall (λ '(_, h), ∀ r, keeps R (h r)) (routes cfg probeKey).
Proof using Type*. unfold routes. repeat constructor; intros; handler_auto. Qed.

Lemma keeps_dispatch r : keeps R (dispatch cfg probeKey r).
Proof using Type*.
  unfold dispatch. destruct (mux_match _ _ _) as [i id| |]; [|handler_auto..].
  destruct (routes cfg probeKey !! i) as [[[m p] h]|] eqn:Hi; [|handler_auto].
  exact (proj1 (Forall_lookup _ _) keeps_routes _ _ Hi (with_id r id)).
Qed.

Context (Hfresh : ∀ w, R w (set_resp empty_response w)).

Lemma serve_keeps r w : R w (serve cfg probeKey r w).
Proof using Type*.
  unfold serve, recover. etrans; [apply Hfresh|].
  pose proof (keeps_dispatch r (set_resp empty_response w)) as Hd.
  destruct (dispatch cfg probeKey r _) as [[[]|] w']; simpl in *; [done|].
  etrans; [exact Hd|]. apply (hl_WriteHeader (R := R) 500).
Qed.
Lemma serve_all_keeps rs w : R w (serve_all cfg probeKey rs w).
Proof using Type*.
  revert w. induction rs as [|r rs IH]; intros w; simpl; [reflexivity|].
  etrans; [apply serve_keeps|apply IH].
Qed.
End serve_keeps.

(** ** The database schema *)
(** The clock reads times that RFC 3339 can print. *)
Class SaneClock `{Env} := {
  clock_ok n : representable (env_now n) ∧ representable (env_now n + nonceTTL)%Z
}.

Definition schema_kept `{Crypto} (w w' : World) : Prop := store_wf (w_store w) → store_wf (w_store w').
#[export] Instance schema_kept_pre `{Crypto} : PreOrder schema_kept.
Proof. split; unfold schema_kept; repeat intros ?; auto. Qed.

Lemma handler_write_wf `{SaneClock} A (f : Store → result A * Store) s :
  handler_write A f → store_wf s → store_wf (f s).2.
Proof.
  intros Hf Hs. assert (∀ op, op_time_ok op → store_wf (@run go_driver op s).2) as Hrun
    by (intros op Hop; by apply run_wf).
  assert (∀ n, representable (env_now n)) as Hnow by (intros n; apply clock_ok).
  destruct Hf as [b n|v n|i k t c st n|i a u sl url st ids p rk n m|i st n|r|i fp].
  - apply (Hrun (OpIssueNonce b (env_now n))), clock_ok.
  - apply (Hrun (OpConsumeNonce v (env_now n)) I).
  - exact (Hrun (OpSaveAccount (MkAccount i k t c st (env_now n))) (Hnow n)).
  - exact (Hrun (OpSaveOrder (MkOrder i a u sl url st ids p rk (env_now n) (env_now m)))
             (conj (Hnow n) (Hnow m))).
  - exact (Hrun (OpUpdateOrderStatus i st (env_now n)) (Hnow n)).
  - apply (Hrun (OpSaveResource r) I).
  - apply (Hrun (OpUpdateFingerprint i fp) I).
Qed.

Section instances.
Context `{Env} `{PKI} `{!RowOrder} `{!NetURL} `{!Mux} (cfg : Config) (probeKey : option ECKey).

#[export] Instance schema_post : PostRel schema_kept.
Proof.
  apply client_frame_post; [apply _|]. intros w w' Hf. unfold schema_kept.
  by rewrite (cf_store w w' Hf).
Qed.
#[export] Instance schema_pool : PoolRel schema_kept.
Proof.
  split; [apply _|intros cl _ w Hs; exact Hs|intros c u w Hs; exact Hs|intros f w Hs; exact Hs| | |];
    intros; apply keeps_db; try apply _; intros w Hs; simpl; [done| |].
  - by apply wf_with_upstream_accounts.
  - by apply wf_with_by_account.
Qed.
#[export] Instance schema_handlers `{!SaneClock} : HandlerRel cfg schema_kept.
Proof.
  apply handler_rel_pool; [apply _|apply _|intros w r Hs; exact Hs| |].
  - intros A f w Hf Hs. by apply (handler_write_wf A f).
  - intros. apply keeps_start_of; [apply _|intros w x Hs; exact Hs..].
Qed.

(** ** Upstream nonces *)
#[export] Instance nonces_handlers `{!FreshNonces} : HandlerRel cfg keeps_all.
Proof.
  assert (∀ w w', w_tick w ≤ w_tick w' → w_heap w' = w_heap w → w_next w' = w_next w →
    w_trace w' = w_trace w → keeps_all w w') as Hsame by (intros w w' ???? Hi; by apply (nonce_inv_same ∅ w)).
  apply handler_rel_pool; [apply _|apply _| | |].
  - intros w r. by apply Hsame.
  - intros A f w _. by apply Hsame.
  - intros. by apply keeps_start_of; [apply _|intros; apply Hsame..].
Qed.

(** ** The pool *)
Definition pool_kept `{!CryptoLaws} (w w' : World) : Prop := pool_ok w → pool_ok w'.
#[export] Instance pool_kept_pre `{!CryptoLaws} : PreOrder pool_kept.
Proof. split; unfold pool_kept; repeat intros ?; auto. Qed.
#[export] Instance pool_kept_post `{!CryptoLaws} : PostRel pool_kept.
Proof.
  apply client_frame_post; [apply _|]. intros w w' Hf Hp. by eapply pool_ok_client_frame.
Qed.
Lemma handler_write_accounts A (f : Store → result A * Store) s :
  handler_write A f → upstream_accounts_by_account (f s).2 = upstream_accounts_by_account s.
Proof.
  intros Hf. destruct Hf; unfold IssueNonce, ConsumeNonce, SaveOrder, UpdateOrderStatus, SaveResource;
    simpl; repeat case_match; done.
Qed.
#[export] Instance pool_kept_handlers `{!CryptoLaws} : HandlerRel cfg pool_kept.
Proof.
  apply handler_rel; [apply _| | | | | |].
  - intros u s w Hp. unfold GetSlot.
    refine (after_bind_ok _ _ w (λ _ w', pool_ok w') _).
    eapply after_mono; [by apply getOrCreateAll_ok|]. intros [[cs|e]|] w1 [Hp1 _]; [|done..].
    refine (keeps_bind pool_kept (index_client cs _) (λ c, ret (Ok c)) _ _ w1 Hp1).
    + unfold index_client. keeps_auto.
    + intros c. keeps_auto.
  - intros u a w Hp. apply (GetClientForAccount_ok cfg u a w Hp).
  - intros cl _ w Hp. by apply pool_ok_new.
  - intros w r Hp. by apply (pool_ok_same w).
  - intros A f w Hf Hp. apply (pool_ok_same w); try done. by apply (handler_write_accounts A f).
  - intros. apply keeps_start_of; [apply _|intros w x Hp; by apply (pool_ok_same w)..].
Qed.

End instances.

(** ** Challenges are processed once *)
Section single_flight.
Context `{Env} (id : string) (p : challengeProgress).

Definition starts_challenge (j : job) : bool :=
  match j with ProcessJob _ _ _ chalID _ => chalID ==? id | _ => false end.
Definition jobs_of (w : World) : list job := List.filter starts_challenge (w_jobs w).

(** Every clock reading between the two states is within the record's retention. *)
Definition within_retention (w w' : World) : Prop :=
  ∀ n, w_tick w ≤ n < w_tick w' → (env_now n - cp_createdAt p ≤ challengeProcRetention)%Z.

Definition flight_kept (w w' : World) : Prop :=
  w_tick w ≤ w_tick w' ∧
  (within_retention w w' → w_proc w !! id = Some p →
   w_proc w' !! id = Some p ∧ jobs_of w' = jobs_of w).

#[export] Instance flight_pre : PreOrder flight_kept.
Proof.
  split; [by intros w; split|]. intros w1 w2 w3 [Ht1 H1] [Ht2 H2]. split; [lia|].
  intros Hr Hp. destruct H1 as [Hp1 Hj1]; [intros n Hn; apply Hr; lia|done|].
  destruct H2 as [Hp2 Hj2]; [intros n Hn; apply Hr; lia|done|]. by rewrite Hj2.
Qed.

Lemma flight_same w w' :
  w_tick w ≤ w_tick w' → w_proc w' = w_proc w → w_jobs w' = w_jobs w → flight_kept w w'.
Proof. intros Ht Hp Hj. split; [done|]. unfold jobs_of. by rewrite Hp, Hj. Qed.

#[export] Instance flight_post : PostRel flight_kept.
Proof. apply client_frame_post; [apply _|]. intros w w' []. by apply flight_same. Qed.
#[export] Instance flight_pool : PoolRel flight_kept.
Proof.
  split; [apply _|intros cl _ w|intros c u w|intros f w|..]; try by apply flight_same.
  all: intros; apply keeps_db; [apply _|]; intros w; by apply flight_same.
Qed.

(** A request for the challenge finds the record and starts nothing. *)
Lemma flight_start c o u i : keeps flight_kept (startChallengeProcessing c o u i).
Proof.
  intros w. unfold startChallengeProcessing, beginChallengeProc, update_proc, update_jobs,
    bind, ask, gets, ret, modify. simpl. set (now := env_now (w_tick w)).
  assert (∀ m, (now - cp_createdAt p ≤ challengeProcRetention)%Z → m !! id = Some p →
               evictStaleChallengeProc now m !! id = Some p) as Hkeep.
  { intros m Hn Hm. unfold evictStaleChallengeProc. rewrite map_lookup_filter_Some. simpl.
    split; [done|lia]. }
  destruct (evictStaleChallengeProc now (w_proc w) !! i) as [q|] eqn:Hi; simpl.
  - split; [simpl; lia|]. intros Hr Hp. split; [|done]. apply Hkeep; [|done]. apply Hr. simpl. lia.
  - split; [simpl; lia|]. intros Hr Hp. simpl.
    assert (evictStaleChallengeProc now (w_proc w) !! id = Some p) as Hev.
    { apply Hkeep; [|done]. apply Hr. simpl. lia. }
    assert (i ≠ id) as Hne by congruence. split; [by rewrite lookup_insert_ne|].
    unfold jobs_of. simpl. rewrite List.filter_app. simpl.
    rewrite (proj2 (String.eqb_neq i id) Hne). by rewrite app_nil_r.
Qed.
#[export] Instance flight_handlers cfg : HandlerRel cfg flight_kept.
Proof.
  apply handler_rel_pool; [apply _|apply _|intros w r|intros A f w _|apply flight_start];
    by apply flight_same.
Qed.

(** C15: a challenge is processed once. While its record is younger than the
    retention, any sequence of requests, for this challenge or others, leaves the record
    as it is and starts no second job for the challenge. *)
Theorem challenge_single_flight `{PKI} `{!RowOrder} `{!NetURL} `{!Mux} cfg probeKey rs w :
  let w' := serve_all cfg probeKey rs w in
  within_retention w w' → w_proc w !! id = Some p →
  w_proc w' !! id = Some p ∧ jobs_of w' = jobs_of w.
Proof.
  apply (serve_all_keeps cfg probeKey flight_kept). intros w0. by apply flight_same.
Qed.
End single_flight.
