(* ===== verification/Responses.v ===== *)
(** * Every request is answered once

    A handler writes one status line, between 200 and 599, and at most one body;
    a panic happens before anything is written, so the router's recovery answers it.
    Three judgements carry this through the handlers' code. *)
From S2P Require Export Health.

Section replies.
Context `{Env} `{PKI} `{!RowOrder} `{!NetURL} (cfg : Config).

Definition unanswered (w : World) : Prop := rp_status (w_resp w) = [] ∧ rp_body (w_resp w) = [].
Definition valid_status (s : Z) : Prop := (200 ≤ s ≤ 599)%Z.
Definition error_status (s : Z) : Prop := (400 ≤ s ≤ 599)%Z.
Definition answered_with (P : Z → Prop) (w : World) : Prop :=
  (∃ s, rp_status (w_resp w) = [s] ∧ P s) ∧ length (rp_body (w_resp w)) ≤ 1.
Definition answered : World → Prop := answered_with valid_status.

(** Writes neither status nor body. *)
Definition silent (w w' : World) : Prop :=
  rp_status (w_resp w') = rp_status (w_resp w) ∧ rp_body (w_resp w') = rp_body (w_resp w).
(** Answers, unless it panics first. *)
Definition replies (m : M unit) : Prop :=
  ∀ w, unanswered w → after m w (λ r w', match r with Some _ => answered w' | None => unanswered w' end).
(** Answers with an error when it returns [None], and only then. *)
Definition guards {A} (m : M (option A)) : Prop :=
  ∀ w, unanswered w →
  after m w (λ r w', match r with Some None => answered_with error_status w' | _ => unanswered w' end).
(** Fails only with problems that have an error status. *)
Definition sound_errors {A} (m : M (result_of acmeError A)) : Prop :=
  ∀ w, after m w (λ r _, ∀ e, r = Some (Err e) → error_status (pb_Status e)).

#[export] Instance silent_pre : PreOrder silent.
Proof. split; [by intros w|]. unfold silent. intros w1 w2 w3 [] []. split; congruence. Qed.
#[export] Instance silent_post : PostRel silent.
Proof. apply client_frame_post; [apply _|]. intros w w' []. unfold silent. by rewrite cf_resp. Qed.
#[export] Instance silent_pool : PoolRel silent.
Proof.
  split; [apply _|by intros cl _ w|by intros c u w|by intros f w|..].
  all: intros; apply keeps_db; [apply _|]; by intros w.
Qed.
#[local] Instance silent_service : ServiceRel cfg silent.
Proof.
  apply service_rel; [apply _|intros; apply keeps_GetSlot, _|intros; apply keeps_GetClientForAccount, _
    |by intros cl _ w| |by intros A f w| ].
  - intros f w. unfold on_headers, modify, silent. simpl.
    by destruct (rp_status (w_resp w)) eqn:Hs; simpl; rewrite ?Hs.
  - intros. by apply keeps_start_of; [apply _|..].
Qed.

Lemma silent_db {A} (f : Store → result A * Store) : keeps silent (db f).
Proof. apply keeps_db; [apply _|by intros w]. Qed.

Lemma error_valid s : error_status s → valid_status s.
Proof. unfold error_status, valid_status. lia. Qed.
Lemma error_answered w : answered_with error_status w → answered w.
Proof. intros [(s & Hs & He) Hb]. split; [|done]. exists s. split; [done|by apply error_valid]. Qed.

(** ** Rules *)
Lemma replies_bind {A} (m : M A) k : keeps silent m → (∀ a, replies (k a)) → replies (bind m k).
Proof.
  intros Hm Hk w [Hs Hb]. apply after_bind, (after_keeps silent); [done|].
  intros r w' _ [Hs' Hb']. assert (unanswered w') as Hw by (split; congruence).
  destruct r as [a|]; [by apply Hk|done].
Qed.
Lemma replies_some {A} (m : M (option A)) k :
  guards m → (∀ a, replies (k a)) → replies (let_some x := m in k x).
Proof.
  intros Hm Hk w Hw. apply after_bind. eapply after_mono; [by apply Hm|].
  intros [[a|]|] w' Hw'; [by apply Hk|by apply error_answered|done].
Qed.
Lemma replies_else {A} (m : M (result_of acmeError A)) k :
  keeps silent m → sound_errors m → (∀ e, error_status (pb_Status e) → replies (writeError e)) →
  (∀ a, replies (k a)) → replies (let! x := m else writeError in k x).
Proof.
  intros Hm He Hw Hk w [Hs Hb]. apply after_bind. pose proof (He w) as Hew. pose proof (Hm w) as [Hs' Hb'].
  unfold after in Hew |- *. destruct (m w) as [[[a|e]|] w']; simpl in *.
  - apply Hk. split; congruence.
  - apply Hw; [by apply Hew|split; congruence].
  - split; congruence.
Qed.
Lemma guards_bind {A B} (m : M A) (k : A → M (option B)) :
  keeps silent m → (∀ a, guards (k a)) → guards (bind m k).
Proof.
  intros Hm Hk w [Hs Hb]. apply after_bind, (after_keeps silent); [done|].
  intros r w' _ [Hs' Hb']. assert (unanswered w') as Hw by (split; congruence).
  destruct r as [a|]; [by apply Hk|done].
Qed.
Lemma guards_some {A B} (m : M (option A)) (k : A → M (option B)) :
  guards m → (∀ a, guards (k a)) →
  guards (bind m (λ o, match o with None => ret None | Some a => k a end)).
Proof.
  intros Hm Hk w Hw. apply after_bind. eapply after_mono; [by apply Hm|].
  intros [[a|]|] w' Hw'; [by apply Hk|done..].
Qed.
Lemma guards_map {A B} (f : A → B) (m : M (option A)) :
  guards m → guards (let! o := m in ret (f <$> o)).
Proof.
  intros Hm w Hw. apply after_bind. eapply after_mono; [by apply Hm|]. by intros [[a|]|] w' Hw'.
Qed.
Lemma guards_ret {A} (a : A) : guards (ret (Some a)).
Proof. by intros w. Qed.
Lemma guards_panic {A} : guards (panic (A := option A)).
Proof. by intros w. Qed.
Lemma replies_panic : replies panic.
Proof. by intros w. Qed.

Lemma write_answered P status b w :
  P status → unanswered w →
  after (do! WriteHeader status in Write b) w
    (λ r w', match r with Some _ => answered_with P w' | None => unanswered w' end).
Proof.
  intros Hv [Hs Hb]. unfold after, answered_with, bind, WriteHeader, Write, modify. simpl.
  rewrite Hs, Hb. split; [by exists status|simpl; lia].
Qed.
Lemma replies_WriteHeader status : valid_status status → replies (WriteHeader status).
Proof.
  intros Hv w [Hs Hb]. unfold after, answered. simpl. rewrite Hs, Hb. split; [by exists status|simpl; lia].
Qed.
Lemma replies_Write status b : valid_status status → replies (do! WriteHeader status in Write b).
Proof. intros Hv w. by apply write_answered. Qed.
Lemma replies_writeJSON status v : valid_status status → replies (writeJSON status v).
Proof.
  intros Hv. apply replies_bind; [apply (hl_headers (cfg := cfg))|]. intros _. by apply replies_Write.
Qed.
Lemma writeError_answered P e w :
  P (pb_Status e) → unanswered w →
  after (writeError e) w (λ r w', match r with Some _ => answered_with P w' | None => unanswered w' end).
Proof.
  intros HP [Hs Hb]. unfold writeError.
  apply after_bind, (after_keeps silent); [apply (keeps_attachNonce cfg), _|]. intros [[]|] w1 _ [Hs1 Hb1];
    [|by split; congruence].
  apply after_bind, (after_keeps silent); [apply (hl_headers (cfg := cfg))|]. intros [[]|] w2 _ [Hs2 Hb2];
    [|by split; congruence].
  apply write_answered; [done|by split; congruence].
Qed.
Lemma replies_writeError e : valid_status (pb_Status e) → replies (writeError e).
Proof. intros Hv w. by apply writeError_answered. Qed.
Lemma guards_reject {A} e : error_status (pb_Status e) → guards (reject (A := A) e).
Proof.
  intros Hv w Hw. apply after_bind. eapply after_mono; [by apply (writeError_answered error_status)|].
  by intros [[]|] w' Hw'.
Qed.

Lemma guards_else {A B} (m : M (result_of acmeError A)) (k : A → M (option B)) :
  keeps silent m → sound_errors m → (∀ a, guards (k a)) →
  guards (let! x := m else reject in k x).
Proof.
  intros Hm He Hk w [Hs Hb]. apply after_bind. pose proof (He w) as Hew. pose proof (Hm w) as [Hs' Hb'].
  unfold after in Hew |- *. destruct (m w) as [[[a|e]|] w']; simpl in *.
  - apply Hk. split; congruence.
  - apply guards_reject; [by apply Hew|split; congruence].
  - split; congruence.
Qed.

(** ** Statuses *)
Lemma relay_status d e : (400 ≤ pb_Status (relayUpstreamError d e) ≤ 599)%Z.
Proof.
  unfold relayUpstreamError. destruct (errors_As_ACME e) as [ae|]; simpl; [|lia].
  destruct (Z.ltb_spec (ae_Status ae) 400), (Z.ltb_spec 599 (ae_Status ae)); simpl; lia.
Qed.
Lemma relay_valid d e : valid_status (pb_Status (relayUpstreamError d e)).
Proof. pose proof (relay_status d e). unfold valid_status. lia. Qed.

Lemma sound_resolveAccount p : sound_errors (resolveAccount cfg p).
Proof.
  intros w. unfold resolveAccount. destruct (EmbeddedJWK p) as [jwk|].
  - destruct (JWKThumbprint jwk); [|by intros ? [= <-]].
    apply after_bind, after_run. intros [[acct|e]|] w' _; [done|by intros ? [= <-]|done].
  - destruct (negb _); [by intros ? [= <-]|].
    apply after_bind, after_run. intros [[[acct|]|e]|] w' _; [done|by intros ? [= <-]..|done].
Qed.
Lemma sound_resolveAndVerify p : sound_errors (resolveAndVerify cfg p).
Proof.
  intros w. unfold resolveAndVerify. apply after_bind.
  eapply after_mono; [apply sound_resolveAccount|]. intros [[acct|e]|] w' He; [|exact He|done].
  destruct (EmbeddedJWK p) as [jwk|]; [by destruct (VerifySignature _ _); intros ? [= <-]|].
  destruct acct as [a|]; [|done].
  destruct (mustParsePublicKey _); [by destruct (VerifySignature _ _); intros ? [= <-]|by intros ? [= <-]].
Qed.
Lemma sound_buildOrderResponse o u : sound_errors (buildOrderResponse cfg o u).
Proof.
  intros w. unfold buildOrderResponse.
  apply after_bind, after_run. intros [[[ord|]|e]|] w1 _; [|by intros ? [= <-]..|done].
  apply after_bind, after_run. intros [[fin|e]|] w2 _; [|by intros ? [= <-]|done].
  apply after_bind, after_run. intros [u'|] w3 _; [|done].
  apply after_bind, after_run. by intros [rs|] w4 _.
Qed.
End replies.

(** [reply_auto]: the rules along the code; silent calls by the hints of the
    relation they keep. *)
Ltac valid_auto :=
  first [assumption | by apply error_valid | apply relay_valid | apply relay_status
        | unfold valid_status, error_status; simpl; repeat case_match; lia].
Create HintDb replies discriminated.
#[export] Hint Constants Opaque : replies.
#[export] Hint Resolve guards_ret guards_panic replies_panic sound_resolveAccount
  sound_resolveAndVerify sound_buildOrderResponse : replies.
Ltac reply_step :=
  match goal with
  | |- replies (bind _ (fun o => match o with Some _ => _ | None => ret tt end)) => apply replies_some; [|intros]
  | |- replies (bind _ (fun r => match r with Ok _ => _ | Err _ => writeError _ end)) =>
      apply replies_else; [handler_auto; fail|solve [eauto 1 with replies nocore]|intros|intros]
  | |- replies (bind (WriteHeader _) _) => apply replies_Write; valid_auto
  | |- replies (WriteHeader _) => apply replies_WriteHeader; valid_auto
  | cfg : Config |- replies (writeJSON _ _) => apply (replies_writeJSON cfg); valid_auto
  | cfg : Config |- replies (writeError _) => apply (replies_writeError cfg); valid_auto
  | |- replies (bind _ _) => apply replies_bind; [solve [handler_auto]|intros]
  | cfg : Config |- guards (reject _) => apply (guards_reject cfg); valid_auto
  | |- guards (bind _ (fun o => match o with None => ret None | Some _ => _ end)) => apply guards_some; [|intros]
  | cfg : Config |- guards (bind _ (fun r => match r with Ok _ => _ | Err _ => reject _ end)) =>
      apply (guards_else cfg); [handler_auto; fail|solve [eauto 1 with replies nocore]|intros]
  | |- guards (bind _ (fun o => ret (fmap _ o))) => apply guards_map
  | |- guards (bind _ _) => apply guards_bind; [solve [handler_auto]|intros]
  | |- replies (match ?e with _ => _ end) => destruct e eqn:?
  | |- guards (match ?e with _ => _ end) => destruct e eqn:?
  end.
Ltac reply_auto := repeat (reply_step || (progress eauto 2 with replies nocore)).

Section handlers_reply.
Context `{Env} `{PKI} `{!RowOrder} `{!NetURL} `{!Mux} (cfg : Config) (probeKey : option ECKey).
#[local] Instance silent_here : ServiceRel cfg silent := silent_service cfg.
#[local] Hint Resolve silent_db : keeps.

Lemma replies_handleDirectory : replies (handleDirectory cfg).
Proof. unfold handleDirectory. reply_auto. Qed.
Lemma replies_handleNewNonce r : replies (handleNewNonce r).
Proof. unfold handleNewNonce. reply_auto. Qed.
Lemma guards_parse r : guards (parseAndValidateJWS cfg r).
Proof. unfold parseAndValidateJWS. reply_auto. Qed.
#[local] Hint Resolve guards_parse : replies.
Lemma replies_handleNewAccount r : replies (handleNewAccount cfg r).
Proof. unfold handleNewAccount. reply_auto. Qed.

Lemma guards_save_authzs o urls : guards (save_authzs cfg o urls).
Proof. induction urls; simpl; reply_auto. Qed.
#[local] Hint Resolve guards_save_authzs : replies.
Lemma replies_record_order a req d o u : replies (record_order cfg a req d o u).
Proof. unfold record_order. reply_auto. Qed.
#[local] Hint Resolve replies_record_order : replies.
Lemma replies_handleNewOrder r : replies (handleNewOrder cfg r).
Proof. unfold handleNewOrder. reply_auto. Qed.
Lemma replies_handleOrder r : replies (handleOrder cfg r).
Proof. unfold handleOrder. reply_auto. Qed.
Lemma guards_owned a i x y z : guards (owned_resource a i x y z).
Proof. unfold owned_resource. reply_auto. Qed.
#[local] Hint Resolve guards_owned : replies.
Lemma guards_challenge_id o u : guards (challenge_gateway_id o u).
Proof. unfold challenge_gateway_id. reply_auto. Qed.
#[local] Hint Resolve guards_challenge_id : replies.
Lemma guards_rewrite o cs b : guards (rewrite_challenges cfg o cs b).
Proof. revert b. induction cs; intros b; simpl; reply_auto. Qed.
#[local] Hint Resolve guards_rewrite : replies.
Lemma replies_handleAuthz r : replies (handleAuthz cfg r).
Proof. unfold handleAuthz. reply_auto. Qed.
Lemma replies_handleChallenge r : replies (handleChallenge cfg r).
Proof. unfold handleChallenge. reply_auto. Qed.
Lemma replies_finalize rm o csr : replies (finalize_upstream cfg rm o csr).
Proof. unfold finalize_upstream. reply_auto. Qed.
#[local] Hint Resolve replies_finalize : replies.
Lemma replies_handleFinalize r : replies (handleFinalize cfg r).
Proof. unfold handleFinalize. reply_auto. Qed.
Lemma replies_serve_cert i rm o : replies (serve_cert cfg i rm o).
Proof. unfold serve_cert. reply_auto. Qed.
Lemma guards_cert_post r : guards (check_cert_post cfg r).
Proof. unfold check_cert_post. reply_auto. Qed.
#[local] Hint Resolve replies_serve_cert guards_cert_post : replies.
Lemma replies_handleCert r : replies (handleCert cfg r).
Proof. unfold handleCert. reply_auto. Qed.
Lemma guards_requester p : guards (revoke_requester cfg p).
Proof. unfold revoke_requester. reply_auto. Qed.
Lemma guards_cert_key p d : guards (check_cert_key p d).
Proof. unfold check_cert_key. reply_auto. Qed.
Lemma guards_route a d : guards (revoke_route cfg a d).
Proof. unfold revoke_route. reply_auto. Qed.
#[local] Hint Resolve guards_requester guards_cert_key guards_route : replies.
Lemma replies_handleRevokeCert r : replies (handleRevokeCert cfg r).
Proof. unfold handleRevokeCert. reply_auto. Qed.
Lemma replies_handleKeyChange r : replies (handleKeyChange cfg r).
Proof. unfold handleKeyChange. reply_auto. Qed.
Lemma replies_handleLiveness : replies handleLiveness.
Proof. unfold handleLiveness. reply_auto. Qed.
Lemma silent_probe_all ids : keeps silent (probe_all cfg probeKey ids).
Proof.
  apply (keeps_weaken probe_frame); [|apply keeps_probe_all].
  intros w w' (_ & _ & _ & _ & Hr). unfold silent. by rewrite Hr.
Qed.
#[local] Hint Resolve silent_probe_all : keeps.
Lemma replies_handleUpstreamsHealth : replies (handleUpstreamsHealth cfg probeKey).
Proof. unfold handleUpstreamsHealth. reply_auto. Qed.

Lemma replies_routes : Forall (λ '(_, h), ∀ r, replies (h r)) (routes cfg probeKey).
Proof.
  repeat constructor; intros;
    auto using replies_handleDirectory, replies_handleLiveness, replies_handleUpstreamsHealth,
      replies_handleNewNonce, replies_handleNewAccount, replies_handleNewOrder, replies_handleOrder,
      replies_handleAuthz, replies_handleChallenge, replies_handleFinalize, replies_handleCert,
      replies_handleKeyChange, replies_handleRevokeCert.
Qed.
Lemma replies_dispatch r : replies (dispatch cfg probeKey r).
Proof.
  unfold dispatch. destruct (mux_match _ _ _) as [i id| |]; [|reply_auto..].
  destruct (routes cfg probeKey !! i) as [[[m p] h]|] eqn:Hi; [|reply_auto].
  exact (proj1 (Forall_lookup _ _) replies_routes _ _ Hi (with_id r id)).
Qed.

(** C6: every request gets exactly one status line, between 200 and 599, and at
    most one body, whatever is asked and whatever fails; a panic leaves the response
    untouched for the recovery to answer 500. *)
Theorem serve_one_response r w :
  let resp := w_resp (serve cfg probeKey r w) in
  (∃ s, rp_status resp = [s] ∧ (200 ≤ s ≤ 599)%Z) ∧ length (rp_body resp) ≤ 1 ∧
  ((dispatch cfg probeKey r (set_resp empty_response w)).1 = None →
   rp_status resp = [500%Z] ∧ rp_body resp = []).
Proof.
  pose proof (replies_dispatch r (set_resp empty_response w) (conj eq_refl eq_refl)) as Hd.
  unfold serve, recover, after in *.
  destruct (dispatch cfg probeKey r _) as [[[]|] w']; simpl in *.
  - destruct Hd as [Hs Hb]. by split.
  - destruct Hd as [Hs Hb]. rewrite Hs, Hb. simpl. split_and!; [by exists 500%Z|lia|done].
Qed.
End handlers_reply.
