(* ===== verification/AuthProps.v ===== *)
(** * Who may do what

    A request has an effect beyond the nonce table and its own answer only when it
    is authentic: signed over its URL under a live nonce by the key it presents or
    by the account it names, and, for an order, by the order's owner. *)
From S2P Require Export HandlerRel.

Section auth.
Context `{Env} `{PKI} `{!RowOrder} `{!NetURL} (cfg : Config).

(** ** No effect *)

(** Only nonces, oracle readings and the response differ. *)
Record no_effect (w w' : World) : Prop := {
  ne_tick : w_tick w ≤ w_tick w';
  ne_accounts : accounts (w_store w') = accounts (w_store w);
  ne_upstream_accounts : upstream_accounts (w_store w') = upstream_accounts (w_store w);
  ne_by_account : upstream_accounts_by_account (w_store w') = upstream_accounts_by_account (w_store w);
  ne_orders : orders (w_store w') = orders (w_store w);
  ne_resources : resource_map (w_store w') = resource_map (w_store w);
  ne_heap : w_heap w' = w_heap w;
  ne_pool : w_pool w' = w_pool w;
  ne_proc : w_proc w' = w_proc w;
  ne_jobs : w_jobs w' = w_jobs w;
  ne_trace : w_trace w' = w_trace w
}.
#[export] Instance no_effect_pre : PreOrder no_effect.
Proof. split; [done|]. intros w1 w2 w3 [] []. split; (lia || congruence). Qed.

Lemma no_effect_same w w' :
  w_tick w ≤ w_tick w' → w_store w' = w_store w → w_heap w' = w_heap w → w_pool w' = w_pool w → w_proc w' = w_proc w →
  w_jobs w' = w_jobs w → w_trace w' = w_trace w → no_effect w w'.
Proof. intros Ht Hs. split; rewrite ?Hs; done. Qed.

(** Readings of the oracles alone. *)
Ltac ne_later := split; try done; simpl; lia.

Lemma ne_ask A (f : nat → A) : keeps no_effect (ask f).
Proof. intros w. ne_later. Qed.
Lemma ne_headers f : keeps no_effect (on_headers f).
Proof. intros w. unfold on_headers, modify. simpl. by destruct (rp_status (w_resp w)). Qed.
Lemma ne_WriteHeader n : keeps no_effect (WriteHeader n).
Proof. done. Qed.
Lemma ne_Write b : keeps no_effect (Write b).
Proof. done. Qed.
Lemma ne_db A (f : Store → result A * Store) :
  (∀ w, no_effect w (set_store (f (w_store w)).2 w)) → keeps no_effect (db f).
Proof.
  intros Hf w. unfold db, bind, ask, ret. simpl. destruct (env_db (w_tick w)); [apply (ne_ask _ env_db)|].
  specialize (Hf (set_tick (S (w_tick w)) w)). simpl in *. destruct (f (w_store w)). simpl in *.
  etrans; [apply (ne_ask _ env_db)|exact Hf].
Qed.
Lemma ne_read A (f : Store → result A) : keeps no_effect (db_read f).
Proof. by apply ne_db. Qed.
Lemma ne_issue b n : keeps no_effect (db (IssueNonce b n)).
Proof. apply ne_db. intros w. unfold IssueNonce. by repeat case_match. Qed.
Lemma ne_consume_store v n w : no_effect w (set_store (ConsumeNonce v n (w_store w)).2 w).
Proof. unfold ConsumeNonce. by repeat case_match. Qed.
Lemma ne_consume v n : keeps no_effect (db (ConsumeNonce v n)).
Proof. apply ne_db. apply ne_consume_store. Qed.

#[local] Hint Resolve ne_ask ne_WriteHeader ne_Write ne_read ne_issue ne_consume : keeps.
#[local] Hint Extern 1 (keeps no_effect (Header_Set _ _)) => apply ne_headers : keeps.
#[local] Hint Extern 1 (keeps no_effect (Header_Add _ _)) => apply ne_headers : keeps.

Lemma ne_attachNonce : keeps no_effect attachNonce.
Proof. unfold attachNonce, issueNonce. keeps_auto. Qed.
#[local] Hint Resolve ne_attachNonce : keeps.
Lemma ne_addCommonHeaders : keeps no_effect (addCommonHeaders cfg).
Proof. unfold addCommonHeaders. keeps_auto. Qed.
Lemma ne_writeError e : keeps no_effect (writeError e).
Proof. unfold writeError. keeps_auto. Qed.
Lemma ne_writeJSON n v : keeps no_effect (writeJSON n v).
Proof. unfold writeJSON. keeps_auto. Qed.
#[local] Hint Resolve ne_writeError ne_writeJSON : keeps.
Lemma ne_reject {A} e : keeps no_effect (reject (A := A) e).
Proof. unfold reject. keeps_auto. Qed.
#[local] Hint Resolve ne_reject : keeps.
Lemma ne_resolveAccount p : keeps no_effect (resolveAccount cfg p).
Proof. unfold resolveAccount. keeps_auto. Qed.
#[local] Hint Resolve ne_resolveAccount : keeps.

(** [m] has no effect beyond [w0] unless [P]. *)
Definition only_if {A} (P : World → Prop) (w0 : World) (m : M A) (w : World) : Prop :=
  after m w (λ _ w', no_effect w0 w' ∨ P w').

Lemma only_if_quiet {A} P w0 (m : M A) w : keeps no_effect m → no_effect w0 w → only_if P w0 m w.
Proof. intros Hm Hw. left. etrans; [done|apply Hm]. Qed.
Lemma only_if_holds {A} (P : World → Prop) w0 (m : M A) w : P (m w).2 → only_if P w0 m w.
Proof. intros HP. by right. Qed.
Lemma only_if_bind {A B} P w0 (m : M A) (k : A → M B) w :
  keeps no_effect m → no_effect w0 w →
  (∀ a w', m w = (Some a, w') → no_effect w0 w' → only_if P w0 (k a) w') →
  only_if P w0 (bind m k) w.
Proof.
  intros Hm Hw Hk. apply after_bind, (after_keeps no_effect); [done|].
  intros [a|] w' Hrun Hw'; [apply Hk; [done|by etrans]|left; by etrans].
Qed.

(** A reading of the database in [w] is one of [w0]. *)
Lemma db_read_some {A} (f : Store → result A) w w' a :
  db_read f w = (Some (Ok a), w') → f (w_store w) = Ok a.
Proof.
  unfold db_read, db, bind, ask, ret. simpl. destruct (env_db (w_tick w)); [done|].
  simpl. by intros [= -> _].
Qed.
Lemma GetAccount_frame w0 w id : no_effect w0 w → GetAccount id (w_store w) = GetAccount id (w_store w0).
Proof. intros []. unfold GetAccount. by rewrite ne_accounts0. Qed.
Lemma GetOrder_frame w0 w id : no_effect w0 w → GetOrder id (w_store w) = GetOrder id (w_store w0).
Proof. intros []. unfold GetOrder. by rewrite ne_orders0. Qed.
Lemma GetResource_frame w0 w id : no_effect w0 w → GetResource id (w_store w) = GetResource id (w_store w0).
Proof. intros []. unfold GetResource. by rewrite ne_resources0. Qed.

(** ** Authentic requests *)

(** [p] is the content of a request signed for this URL, and its nonce was good
    when it arrived: after the handler issued its own. *)
Record received (r : inbound) (p : ParsedJWS) (w : World) : Prop := {
  rc_type : in_ContentType r = "application/jose+json";
  rc_body : ∃ body, in_Body r = Ok body ∧ ParseJWS body = Ok p;
  rc_url : p_URL p = base_url cfg +:+ in_Path r;
  rc_nonce : let w1 := (addCommonHeaders cfg w).2 in
    (ConsumeNonce (Nonce p) (env_now (w_tick w1)) (w_store w1)).1 = Ok tt
}.

(** The account a request speaks for, by its embedded key (no account when the
    key is not registered) or its key ID; the signature verifies with that key. *)
Inductive speaks_for (p : ParsedJWS) (w : World) : option Account → Prop :=
| speaks_jwk jwk tp acct :
    EmbeddedJWK p = Some jwk → JWKThumbprint jwk = Ok tp → GetAccount tp (w_store w) = Ok acct →
    VerifySignature p (Some (jwk_Key jwk)) = None → speaks_for p w acct
| speaks_kid id a k :
    EmbeddedJWK p = None → AccountKID p = account_prefix cfg +:+ id →
    GetAccount id (w_store w) = Ok (Some a) → mustParsePublicKey (acct_PublicKey a) = Some k →
    VerifySignature p (Some k) = None → speaks_for p w (Some a).

Lemma after_reject {A} e w0 w (P : A → Prop) :
  no_effect w0 w → after (reject e) w (λ o w', no_effect w0 w' ∧ ∀ x, o = Some (Some x) → P x).
Proof.
  intros Hw. pose proof (ne_reject (A := A) e w) as Hr.
  assert (∀ x, (reject (A := A) e w).1 ≠ Some (Some x)) as Hx.
  { intros x. unfold reject, bind, ret. by destruct (writeError e w) as [[]]. }
  split; [by etrans|]. intros x Hs. by destruct (Hx x).
Qed.

Lemma parse_received r w :
  after (parseAndValidateJWS cfg r) (addCommonHeaders cfg w).2
    (λ o w', no_effect (addCommonHeaders cfg w).2 w' ∧ ∀ p, o = Some (Some p) → received r p w).
Proof.
  set (w1 := (addCommonHeaders cfg w).2). unfold parseAndValidateJWS.
  destruct (String.eqb_spec (in_ContentType r) "application/jose+json") as [Htype|]; cbn [negb];
    [|by apply after_reject].
  destruct (in_Body r) as [body|] eqn:Hbody; [|by apply after_reject].
  destruct (ParseJWS body) as [p|] eqn:Hp; [|by apply after_reject].
  destruct (String.eqb_spec (p_URL p) (base_url cfg +:+ in_Path r)) as [Hurl|]; cbn [negb];
    [|by apply after_reject].
  apply after_bind, after_ask, after_bind.
  apply (after_mono _ _ (λ o w2, no_effect w1 w2 ∧ (o = Some (Ok tt) →
    (ConsumeNonce (Nonce p) (env_now (w_tick w1)) (w_store w1)).1 = Ok tt))).
  - apply after_db; [intros e _; split; [ne_later|done]|]. intros _. simpl.
    pose proof (ne_consume_store (Nonce p) (env_now (w_tick w1)) w1) as Hne.
    split; [|congruence]. destruct Hne; split; try done; simpl in *; lia.
  - intros [[[]|e]|] w2 [Hne Hc]; [|by apply after_reject|done].
    apply after_ret. split; [done|]. intros ? [= <-]. split; eauto.
Qed.

(** The opening of a handler that takes signed requests. *)
Lemma only_if_received P r w (k : ParsedJWS → M unit) :
  (∀ p w', received r p w → no_effect w w' → only_if P w (k p) w') →
  only_if P w (do! addCommonHeaders cfg in let_some p := parseAndValidateJWS cfg r in k p) w.
Proof.
  intros Hk. apply only_if_bind; [apply ne_addCommonHeaders|done|]. intros u w1 Hw1 Hne1.
  assert (w1 = (addCommonHeaders cfg w).2) as -> by (by rewrite Hw1).
  apply after_bind. eapply after_mono; [apply parse_received|].
  intros [[p|]|] w2 [Hne2 Hp]; [apply Hk; [by apply Hp|by etrans]|left; by etrans..].
Qed.

(** The account a request names, before its signature is checked. *)
Inductive claims (p : ParsedJWS) (w : World) : option Account → Prop :=
| claims_jwk jwk tp acct :
    EmbeddedJWK p = Some jwk → JWKThumbprint jwk = Ok tp → GetAccount tp (w_store w) = Ok acct →
    claims p w acct
| claims_kid id a :
    EmbeddedJWK p = None → AccountKID p = account_prefix cfg +:+ id →
    GetAccount id (w_store w) = Ok (Some a) → claims p w (Some a).

Lemma after_resolveAccount p w0 w :
  no_effect w0 w →
  after (resolveAccount cfg p) w (λ r w', no_effect w0 w' ∧
    ∀ acct, r = Some (Ok acct) → claims p w0 acct).
Proof.
  intros Hw. unfold resolveAccount. destruct (EmbeddedJWK p) as [jwk|] eqn:Hjwk.
  - destruct (JWKThumbprint jwk) as [tp|] eqn:Htp; [|by split].
    apply after_bind, (after_keeps no_effect); [apply ne_read|].
    intros [[acct|]|] w1 Hrun Hw1; (split; [by etrans|]); [|done..]. intros ? [= <-].
    apply db_read_some in Hrun. rewrite (GetAccount_frame w0) in Hrun by done. by econstructor.
  - destruct (HasPrefix (AccountKID p) (account_prefix cfg)) eqn:Hpre; [|by split]. cbn [negb].
    apply HasPrefix_spec in Hpre as [id Hid].
    apply after_bind, (after_keeps no_effect); [apply ne_read|].
    intros [[[a|]|]|] w1 Hrun Hw1; (split; [by etrans|]); [|done..]. intros ? [= <-].
    apply db_read_some in Hrun. rewrite Hid, TrimPrefix_app, (GetAccount_frame w0) in Hrun by done.
    by eapply claims_kid.
Qed.

Lemma after_resolveAndVerify p w0 w :
  no_effect w0 w →
  after (resolveAndVerify cfg p) w (λ r w', no_effect w0 w' ∧
    ∀ acct, r = Some (Ok acct) → speaks_for p w0 acct).
Proof.
  intros Hw. unfold resolveAndVerify. apply after_bind.
  eapply after_mono; [by apply after_resolveAccount|].
  intros [[acct|e]|] w1 [Hne Hc]; [|by split..]. specialize (Hc acct eq_refl).
  destruct Hc as [jwk tp acct Hjwk Htp Hget|id a Hjwk Hid Hget]; rewrite Hjwk.
  - apply after_ret. split; [done|]. intros ? [= Ha].
    destruct (VerifySignature p _) eqn:Hv; [done|]. injection Ha as <-. by eapply speaks_jwk.
  - destruct (mustParsePublicKey (acct_PublicKey a)) as [k|] eqn:Hk; [|by split].
    apply after_ret. split; [done|]. intros ? [= Ha].
    destruct (VerifySignature p _) eqn:Hv; [done|]. injection Ha as <-. by eapply speaks_kid.
Qed.

Lemma only_if_verified P p w0 w (k : option Account → M unit) :
  no_effect w0 w →
  (∀ acct w', speaks_for p w0 acct → no_effect w0 w' → only_if P w0 (k acct) w') →
  only_if P w0 (let! acct := resolveAndVerify cfg p else writeError in k acct) w.
Proof.
  intros Hw Hk. apply after_bind. eapply after_mono; [by apply after_resolveAndVerify|].
  intros [[acct|e]|] w1 [Hne Hs]; [apply Hk; [by apply Hs|done]|apply only_if_quiet; [apply ne_writeError|done]|by left].
Qed.

(** ** Orders *)

(** The order a request names, directly or by one of its resources, and its owner. *)
Definition owned_order (w : World) (a : Account) (id : string) (o : Order) : Prop :=
  GetOrder id (w_store w) = Ok (Some o) ∧ order_AccountID o = acct_ID a.
Definition owned_by_resource (w : World) (a : Account) (id : string) (rm : ResourceMap) (o : Order) : Prop :=
  GetResource id (w_store w) = Ok (Some rm) ∧ owned_order w a (rm_OrderID rm) o.

Lemma after_owned_resource acct id x y z w0 w :
  no_effect w0 w →
  after (owned_resource acct id x y z) w (λ r w', no_effect w0 w' ∧
    ∀ rmo, r = Some (Some rmo) → ∃ a, acct = Some a ∧ owned_by_resource w0 a id rmo.1 rmo.2).
Proof.
  intros Hw. unfold owned_resource. apply after_bind, (after_keeps no_effect); [apply ne_read|].
  intros [[[rm|]|]|] w1 Hrm Hw1; [|by apply after_reject; etrans..|split; [by etrans|done]].
  assert (no_effect w0 w1) as Hne1 by by etrans.
  apply db_read_some in Hrm. rewrite (GetResource_frame w0) in Hrm by done.
  apply after_bind, (after_keeps no_effect); [apply ne_read|].
  intros [[[o|]|]|] w2 Ho Hw2; [|by apply after_reject; etrans..|split; [by etrans|done]].
  assert (no_effect w0 w2) as Hne2 by by etrans.
  apply db_read_some in Ho. rewrite (GetOrder_frame w0) in Ho by done.
  destruct acct as [a|]; [|done]. apply after_bind, after_ret.
  destruct (String.eqb_spec (order_AccountID o) (acct_ID a)) as [Hown|]; cbn [negb]; [|by apply after_reject].
  apply after_ret. split; [done|]. intros ? [= <-]. by exists a.
Qed.

Lemma only_if_owned P acct id x y z w0 w (k : ResourceMap * Order → M unit) :
  no_effect w0 w →
  (∀ a rm o w', acct = Some a → owned_by_resource w0 a id rm o → no_effect w0 w' →
     only_if P w0 (k (rm, o)) w') →
  only_if P w0 (let_some rmo := owned_resource acct id x y z in k rmo) w.
Proof.
  intros Hw Hk. apply after_bind. eapply after_mono; [by apply after_owned_resource|].
  intros [[[rm o]|]|] w1 [Hne Ho]; [|by left..].
  destruct (Ho _ eq_refl) as (a & -> & Hown). by eapply Hk.
Qed.

(** The endpoints of existing orders. *)
Inductive order_endpoint := EpOrder | EpAuthz | EpChallenge | EpFinalize.
Definition order_handler (e : order_endpoint) : inbound → M unit :=
  match e with
  | EpOrder => handleOrder cfg | EpAuthz => handleAuthz cfg
  | EpChallenge => handleChallenge cfg | EpFinalize => handleFinalize cfg
  end.
Definition names_order (e : order_endpoint) (w : World) (a : Account) (id : string) (o : Order) : Prop :=
  match e with
  | EpOrder => owned_order w a id o
  | _ => ∃ rm, owned_by_resource w a id rm o
  end.

(** C1: only the owner of an order reaches it. A request to an order, authorization,
    challenge or finalize URL changes anything (database rows, upstream requests,
    clients, challenges) only when it is authentic and speaks for the account that owns the
    order the URL names; otherwise the process is as before, nonces apart. *)
Theorem order_access_controlled e r w :
  after (order_handler e r) w (λ _ w', no_effect w w' ∨
    ∃ p a o, received r p w ∧ speaks_for p w (Some a) ∧ names_order e w a (in_ID r) o).
Proof.
  set (Q (_ : World) := ∃ p a o, received r p w ∧ speaks_for p w (Some a) ∧ names_order e w a (in_ID r) o).
  change (only_if Q w (order_handler e r) w).
  assert (∀ p a o w', received r p w → speaks_for p w (Some a) → names_order e w a (in_ID r) o → Q w') as HQ
    by (intros p a o; exists p, a, o; done).
  destruct e; simpl in *; apply only_if_received; intros p w1 Hp Hw1;
    apply only_if_verified; try done; intros acct w2 Hs Hw2.
  1: { apply only_if_bind; [apply ne_read|done|]. intros [[o|]|] w3 Ho Hw3;
         [|by apply only_if_quiet; [apply ne_writeError|]..].
       apply db_read_some in Ho. rewrite (GetOrder_frame w) in Ho by done.
       destruct acct as [a|]; [|by left]. apply after_bind, after_ret.
       destruct (String.eqb_spec (order_AccountID o) (acct_ID a)) as [Hown|]; cbn [negb];
         [by apply only_if_holds, (HQ p a o)|by apply only_if_quiet; [apply ne_writeError|]]. }
  all: apply only_if_owned; [done|]; intros a rm o w3 -> Hown Hw3;
    apply only_if_holds, (HQ p a o); eauto.
Qed.

(** ** Finalization *)

(** The key type of a CSR is the one the order's profile requires. *)
Definition csr_allowed (o : Order) (keyType : string) : Prop :=
  order_RequireCSRKeyType o = "" ∨ EqualFold keyType (order_RequireCSRKeyType o) = true.

(** C2: a CSR is sent upstream only for the owner of the order, and only when it
    parses and its key has the type the routing rule required when the order was made. All
    of a request's effects are those of forwarding that CSR. *)
Theorem finalize_controlled r w :
  after (handleFinalize cfg r) w (λ _ w', no_effect w w' ∨
    ∃ p a rm o csr der keyType w1,
      received r p w ∧ speaks_for p w (Some a) ∧ owned_by_resource w a (in_ID r) rm o ∧
      (Unmarshal (Payload p) ≫= decode_finalize) = Some csr ∧ DecodeString csr = Some der ∧
      csrKeyTypeFromDER der = Ok keyType ∧ csr_allowed o keyType ∧
      no_effect w w1 ∧ w' = (finalize_upstream cfg rm o der w1).2).
Proof.
  match goal with |- after _ _ (λ _ w', _ ∨ @?P w') => set (Q := P); change (only_if Q w (handleFinalize cfg r) w) end.
  unfold handleFinalize. apply only_if_received. intros p w1 Hp Hw1.
  apply only_if_verified; [done|]. intros acct w2 Hs Hw2.
  apply only_if_owned; [done|]. intros a rm o w3 -> Hown Hw3.
  assert (∀ e, only_if Q w (writeError e) w3) as He by (intros e; by apply only_if_quiet; [apply ne_writeError|]).
  destruct (_ ≫= _) as [csr|] eqn:Hcsr; [|done]. destruct (csr ==? ""); [done|].
  destruct (DecodeString csr) as [der|] eqn:Hder; [|done].
  destruct (csrKeyTypeFromDER der) as [kt|] eqn:Hkt; [|done].
  destruct (_ && _) eqn:Hchk; [done|]. apply only_if_holds. exists p, a, rm, o, csr, der, kt, w3.
  split_and!; try done. unfold csr_allowed. destruct (String.eqb_spec (order_RequireCSRKeyType o) ""); [by left|].
  right. by destruct (EqualFold _ _).
Qed.

(** ** New orders *)


(** ** New accounts *)

(** C5: an account row is written only for the key that signed the request, under
    that key's thumbprint, when no account has it yet and the client did not ask
    for an existing one; nothing but that row changes. *)
Theorem new_account_controlled r w :
  after (handleNewAccount cfg r) w (λ _ w', no_effect w w' ∨
    ∃ p jwk tp req kt text now,
      received r p w ∧ EmbeddedJWK p = Some jwk ∧ VerifySignature p (Some (jwk_Key jwk)) = None ∧
      JWKThumbprint jwk = Ok tp ∧ GetAccount tp (w_store w) = Ok None ∧
      na_OnlyReturnExisting req = false ∧
      KeyTypeFromJWK jwk = Ok kt ∧ jwk_Marshal jwk = Ok text ∧
      (let acct := MkAccount tp text kt (na_Contact req) AccountStatusValid now in
       ∃ w1, no_effect w w1 ∧ no_effect (set_store (SaveAccount acct (w_store w1)).2 w1) w')).
Proof.
  match goal with |- after _ _ (λ _ w', _ ∨ @?P w') =>
    set (Q := P); change (only_if Q w (handleNewAccount cfg r) w) end.
  unfold handleNewAccount. apply only_if_received. intros p w1 Hp Hw1.
  assert (∀ e w2, no_effect w w2 → only_if Q w (writeError e) w2) as He
    by (intros e w2 ?; by apply only_if_quiet; [apply ne_writeError|]).
  destruct (EmbeddedJWK p) as [jwk|] eqn:Hjwk; [|by apply He].
  destruct (if Payload p ==? "" then _ else _) as [req|]; [|by apply He].
  destruct (JWKThumbprint jwk) as [tp|] eqn:Htp; [|by apply He].
  destruct (VerifySignature _ _) eqn:Hv; [by apply He|].
  apply only_if_bind; [apply ne_read|done|]. intros [acct|e] w2 Hacct Hw2; [|by apply He].
  apply db_read_some in Hacct. rewrite (GetAccount_frame w) in Hacct by done.
  destruct acct as [a|].
  { apply only_if_quiet; [|done]. keeps_step; [apply ne_headers|apply ne_writeJSON]. }
  destruct (na_OnlyReturnExisting req) eqn:Hex; [by apply He|].
  destruct (KeyTypeFromJWK jwk) as [kt|] eqn:Hkt; [|by apply He].
  destruct (jwk_Marshal jwk) as [text|] eqn:Htext; [|by apply He].
  apply after_bind, after_ask. set (now := env_now (w_tick w2)). set (w3 := set_tick _ w2).
  assert (no_effect w w3) as Hw3 by (etrans; [exact Hw2|unfold w3; ne_later]).
  apply after_bind, after_db.
  { intros e _. apply (He (errServerInternal "saving account")). etrans; [exact Hw3|ne_later]. }
  intros _. set (w4 := set_store _ _). cbn.
  assert (∀ m : M unit, keeps no_effect m → no_effect w4 (m w4).2) as Hquiet by (intros m Hm; apply Hm).
  right. exists p, jwk, tp, req, kt, text, now. split_and!; try done.
  exists (set_tick (S (w_tick w3)) w3). split; [etrans; [exact Hw3|ne_later]|].
  refine (Hquiet (do! Header_Set _ _ in writeJSON 201 _) _).
  keeps_step; [apply ne_headers|apply ne_writeJSON].
Qed.

(** ** Revocation *)

Lemma after_revoke_requester p w0 w :
  no_effect w0 w →
  after (revoke_requester cfg p) w (λ r w', no_effect w0 w' ∧ ∀ acct, r = Some (Some acct) →
    match EmbeddedJWK p with
    | Some jwk => acct = None ∧ VerifySignature p (Some (jwk_Key jwk)) = None
    | None => speaks_for p w0 acct
    end).
Proof.
  intros Hw. unfold revoke_requester. destruct (EmbeddedJWK p) as [jwk|] eqn:Hjwk.
  - destruct (VerifySignature _ _) eqn:Hv; [by apply after_reject|].
    apply after_ret. split; [done|]. by intros ? [= <-].
  - apply after_bind. eapply after_mono; [by apply after_resolveAndVerify|].
    intros [[acct|e]|] w1 [Hne Hs]; [|by apply after_reject|by split].
    apply after_ret. split; [done|]. intros ? [= <-]. by apply Hs.
Qed.

Lemma after_check_cert_key p der w0 w :
  no_effect w0 w →
  after (check_cert_key p der) w (λ r w', no_effect w0 w' ∧ ∀ u, r = Some (Some u) →
    ∀ jwk, EmbeddedJWK p = Some jwk →
      ∃ k, x509_ParseCertificate der = Ok k ∧ jwkMatchesCertKey jwk k = true).
Proof.
  intros Hw. unfold check_cert_key. destruct (EmbeddedJWK p) as [jwk|]; [|by split].
  destruct (x509_ParseCertificate der) as [k|]; [|by apply after_reject].
  destruct (jwkMatchesCertKey jwk k) eqn:Hk; [|by apply after_reject].
  apply after_ret. split; [done|]. intros _ _ ? [= <-]. eauto.
Qed.

(** The certificate is an order's of [a], as far as the gateway knows it. *)
Definition owns_certificate (w : World) (a : Account) (der : string) : Prop :=
  ∀ rm o, GetResourceByCertFingerprint (fingerprint der) (w_store w) = Ok (Some rm) →
          GetOrder (rm_OrderID rm) (w_store w) = Ok (Some o) → order_AccountID o = acct_ID a.
(** A statement that the engine refuses, among those run between two states. *)
Definition database_fails (w w' : World) : Prop :=
  ∃ n e, w_tick w ≤ n < w_tick w' ∧ env_db n = Some e.
Lemma database_fails_in w1 w2 w w' :
  w_tick w ≤ w_tick w1 → w_tick w2 ≤ w_tick w' → database_fails w1 w2 → database_fails w w'.
Proof. intros Hl Hr (n & e & Hn & He). exists n, e. split; [lia|done]. Qed.
(** The look-up of the certificate's order in [revoke_route], from [w1] to [w2]: it
    decides by what it finds, or one of its statements fails. *)
Definition looked_up (a : Account) (der : string) (w w1 w2 : World) : Prop :=
  (∃ route, revoke_route cfg (Some a) der w1 = (Some (Some route), w2)) ∧
  no_effect w w1 ∧ (database_fails w1 w2 ∨ owns_certificate w a der).

Lemma GetFingerprint_frame w0 w fp :
  no_effect w0 w → GetResourceByCertFingerprint fp (w_store w) = GetResourceByCertFingerprint fp (w_store w0).
Proof. intros []. unfold GetResourceByCertFingerprint, select_resources. by rewrite ne_resources0. Qed.

Lemma db_read_result {A} (f : Store → result A) w r w' :
  db_read f w = (r, w') → (∃ e, r = Some (Err e) ∧ database_fails w w') ∨ r = Some (f (w_store w)).
Proof.
  unfold db_read, db, bind, ask, ret. simpl. destruct (env_db (w_tick w)) as [e|] eqn:He; intros [= <- <-].
  - left. exists e. split; [done|]. exists (w_tick w), e. split; [simpl; lia|done].
  - by right.
Qed.

Lemma after_revoke_route a der w0 w :
  no_effect w0 w →
  after (revoke_route cfg (Some a) der) w (λ r w', no_effect w0 w' ∧ ∀ x, r = Some (Some x) →
    database_fails w w' ∨ owns_certificate w0 a der).
Proof.
  intros Hw. unfold revoke_route. apply after_bind, (after_keeps no_effect); [apply ne_read|].
  intros rc w1 Hrc Hw1. assert (no_effect w0 w1) as Hne1 by by etrans.
  apply db_read_result in Hrc as [(e & -> & Hf)|Hrc]; [apply after_ret; split; [done|by left]|].
  rewrite (GetFingerprint_frame w0) in Hrc by done. unfold owns_certificate.
  destruct (GetResourceByCertFingerprint _ (w_store w0)) as [[rm|]|]; subst rc; simpl;
    [|by apply after_ret; split; [|right]..].
  apply after_bind, (after_keeps no_effect); [apply ne_read|].
  intros ro w2 Hro Hw2. assert (no_effect w0 w2) as Hne2 by by etrans.
  apply db_read_result in Hro as [(e & -> & Hf)|Hro].
  { apply after_ret. split; [done|left]. eapply database_fails_in; [apply (ne_tick _ _ Hw1)|done|exact Hf]. }
  rewrite (GetOrder_frame w0) in Hro by done.
  destruct (GetOrder (rm_OrderID rm) (w_store w0)) as [[o|]|] eqn:Ho; subst ro; simpl.
  - destruct (String.eqb_spec (order_AccountID o) (acct_ID a)) as [Hown|]; cbn [negb]; [|by apply after_reject].
    apply after_ret. split; [done|]. right. intros rm' o' [= <-]. congruence.
  - apply after_ret. split; [done|]. right. intros rm' o' [= <-]. congruence.
  - apply after_ret. split; [done|]. right. intros rm' o' [= <-]. congruence.
Qed.

(** C3: a revocation goes upstream only for the holder of the certificate's key,
    or for a registered account that owns the order of the certificate. The second check
    passes for a certificate the gateway has never served, and when the database
    fails during that very look-up ([revoke_route], from [w1] to [w2]). *)
Theorem revocation_controlled r w :
  after (handleRevokeCert cfg r) w (λ _ w', no_effect w w' ∨
    ∃ p req der,
      received r p w ∧ (Unmarshal (Payload p) ≫= decode_revoke) = Some req ∧
      DecodeString (rv_Certificate req) = Some der ∧
      match EmbeddedJWK p with
      | Some jwk =>
          VerifySignature p (Some (jwk_Key jwk)) = None ∧
          ∃ k, x509_ParseCertificate der = Ok k ∧ jwkMatchesCertKey jwk k = true
      | None =>
          ∃ a w1 w2, speaks_for p w (Some a) ∧ looked_up a der w w1 w2 ∧ w_tick w2 ≤ w_tick w'
      end).
Proof.
  match goal with |- after _ _ (λ _ w', _ ∨ @?P w') =>
    set (Q := P); change (only_if Q w (handleRevokeCert cfg r) w) end.
  unfold handleRevokeCert. apply only_if_received. intros p w1 Hp Hw1.
  apply after_bind. eapply after_mono; [by apply after_revoke_requester|].
  intros [[acct|]|] w2 [Hw2 Hacct]; [|by left..]. specialize (Hacct acct eq_refl).
  assert (∀ e w', no_effect w w' → only_if Q w (writeError e) w') as He
    by (intros e w' ?; by apply only_if_quiet; [apply ne_writeError|]).
  destruct (_ ≫= _) as [req|] eqn:Hreq; [|by apply He].
  destruct (rv_Certificate req ==? ""); [by apply He|].
  destruct (DecodeString _) as [der|] eqn:Hder; [|by apply He].
  apply after_bind. eapply after_mono; [by apply after_check_cert_key|].
  intros [[u|]|] w3 [Hw3 Hkey]; [|by left..]. specialize (Hkey u eq_refl).
  destruct (EmbeddedJWK p) as [jwk|] eqn:Hjwk.
  - apply only_if_holds. exists p, req, der. rewrite Hjwk. destruct Hacct as [_ Hv].
    split_and!; try done. by apply Hkey.
  - assert (∃ a, acct = Some a) as [a ->] by (destruct Hacct; [congruence|eauto]).
    apply after_bind. pose proof (after_revoke_route a der w w3 Hw3) as Hroute. apply after_run.
    intros rr w4 Hrun. unfold after in Hroute. rewrite Hrun in Hroute.
    destruct rr as [[[[u' slot] aid]|]|], Hroute as [Hw4 Hown]; [|by left..].
    apply only_if_holds. exists p, req, der. rewrite Hjwk. split_and!; try done.
    exists a, w3, w4. split; [done|]. split; [split; [by eexists|split; [done|by eapply Hown]]|].
    match goal with |- _ ≤ w_tick (?m w4).2 => enough (keeps ticks m) as Hk by apply Hk end.
    pose proof (ticks_handlers cfg). handler_auto; apply hl_WriteHeader.
Qed.

(** A failing look-up passes the ownership check of any account. *)
Lemma revoke_check_fails_open a der w e :
  env_db (w_tick w) = Some e →
  (revoke_route cfg (Some a) der w).1 = Some (Some (DefaultUpstream (Routing cfg), 0%Z, "")).
Proof. intros He. unfold revoke_route, db_read, db, bind, ask, ret. simpl. by rewrite He. Qed.

(** An embedded key that is not registered leaves no account to compare the
    owner of an existing order with: the handler follows a nil pointer. *)
Lemma unregistered_key_panics rm o id w :
  GetResource id (w_store w) = Ok (Some rm) → GetOrder (rm_OrderID rm) (w_store w) = Ok (Some o) →
  (∀ n, env_db n = None) →
  ∀ x y z, (owned_resource None id x y z w).1 = None.
Proof.
  intros Hrm Ho Hdb x y z.
  refine (_ : after (owned_resource None id x y z) w (λ r _, r = None)). unfold owned_resource.
  apply after_bind, after_db_read; [intros e; by rewrite Hdb|]. rewrite Hrm. intros _.
  apply after_bind, after_db_read; [intros e; by rewrite Hdb|]. simpl w_store. rewrite Ho. done.
Qed.
End auth.
