(* ===== verification/OrderProps.v ===== *)
(** * What the order endpoints answer

    A new order is stored with mappings for all its URLs; the responses built from an
    upstream order; polling keeps the stored status equal to the one answered. *)
From S2P Require Export Responses AuthProps.

(** ** Identifiers are read back as stored *)
Lemma identifier_back i : decode_identifier zero_identifier (identifier_json i) = Some i.
Proof. by destruct i. Qed.
Lemma identifiers_back ids : decode_identifiers (Marshal (slice_json identifier_json ids)) = ids.
Proof.
  unfold decode_identifiers. rewrite Unmarshal_Marshal.
  - assert (mapM (decode_identifier zero_identifier) (identifier_json <$> ids) = Some ids) as Hids.
    { induction ids as [|i ids IH]; [done|].
      change (mapM (decode_identifier zero_identifier) (identifier_json <$> i :: ids))
        with (x ← decode_identifier zero_identifier (identifier_json i);
              k ← mapM (decode_identifier zero_identifier) (identifier_json <$> ids); Some (x :: k)).
      by rewrite identifier_back, IH. }
    destruct ids; [done|]. unfold slice_json, decode_list. cbn [mbind option_bind]. by rewrite Hids.
  - unfold slice_json. destruct ids; constructor. apply Forall_fmap, Forall_true. intros [t v].
    repeat constructor.
Qed.

(** google/uuid: identifiers are not repeated. *)
Class FreshUUIDs `{Env} := { uuid_inj n m : env_uuid n = env_uuid m → n = m }.

Section orders.
Context `{Env} `{PKI} `{!RowOrder} `{!NetURL} `{!FreshUUIDs} (cfg : Config).

(** The identifiers drawn from now on name nothing yet. *)
Definition fresh_ids (t : nat) (s : Store) : Prop :=
  ∀ n, t ≤ n → orders s !! env_uuid n = None ∧ resource_map s !! env_uuid n = None.

(** The URLs mapped so far under [orderID]; no identifier from [t] on is used. *)
Record mapping (orderID : string) (seen : list string) (t : nat) (s : Store) : Prop := {
  mp_order : is_Some (orders s !! orderID);
  mp_rows u : u ∈ seen ↔ ∃ i r, resource_map s !! i = Some r ∧ rr_order_id r = orderID ∧ rr_upstream_url r = u;
  mp_fresh n : t ≤ n → resource_map s !! env_uuid n = None
}.

(** Rows of both tables stay as they are. *)
Definition rows_kept (s s' : Store) : Prop :=
  orders s ⊆ orders s' ∧ resource_map s ⊆ resource_map s'.
#[export] Instance rows_kept_pre : PreOrder rows_kept.
Proof. split; [by intros s; split|]. intros s1 s2 s3 [] []. split; by etrans. Qed.

Definition mapped (s : Store) (typ orderID id url : string) : Prop :=
  resource_map s !! id = Some (MkResourceRow typ orderID url None).
Lemma mapped_kept s s' typ o id url : rows_kept s s' → mapped s typ o id url → mapped s' typ o id url.
Proof. intros [_ Hr] Hm. by eapply lookup_weaken. Qed.

(** One mapping under the identifier drawn at [t]: a row, or none when the order has
    one for the URL already. *)
Lemma save_mapping t typ orderID url seen s :
  mapping orderID seen t s →
  let s' := (SaveResource (MkResourceMap (env_uuid t) typ orderID url "") s).2 in
  (url ∉ seen → mapped s' typ orderID (env_uuid t) url) ∧
  (url ∈ seen → resource_map s' !! env_uuid t = None) ∧
  mapping orderID (seen ++ [url]) (S t) s' ∧ rows_kept s s' ∧
  (∀ n, n ≠ t → resource_map s' !! env_uuid n = resource_map s !! env_uuid n).
Proof.
  intros [[o Ho] Hrows Hfresh]. unfold SaveResource, mapped, rows_kept. simpl. rewrite (Hfresh t) by lia.
  destruct (index_conflict orderID url s) eqn:Hc; simpl.
  - apply index_conflict_true in Hc. rewrite <- Hrows in Hc. split_and!; [done|by intros _; apply Hfresh| |done..].
    split; [by eexists| |intros; apply Hfresh; lia]. intros u. rewrite <- Hrows, elem_of_app, list_elem_of_singleton.
    naive_solver.
  - rewrite index_conflict_false in Hc.
    assert (url ∉ seen) as Hs by (rewrite Hrows; intros (i & r & Hi & Hio & Hiu); by eapply Hc).
    rewrite Ho. simpl. split_and!; [intros _; apply lookup_insert_eq|done| |done| |].
    + split; simpl; [by eexists| |].
      * intros u. rewrite elem_of_app, list_elem_of_singleton, Hrows. split.
        -- intros [(i & r & Hi & Hr)| ->]; [exists i, r|by eexists _, _; rewrite lookup_insert_eq].
           split; [|done]. rewrite lookup_insert_ne; [done|]. intros <-. by rewrite Hfresh in Hi by lia.
        -- intros (i & r & [[<- <-]|[_ Hi]]%lookup_insert_Some & Hio & Hiu); [by right|left; eauto].
      * intros n Hn. rewrite lookup_insert_ne; [apply Hfresh; lia|]. intros He%uuid_inj. lia.
    + apply insert_subseteq. by apply Hfresh.
    + intros n Hn. rewrite lookup_insert_ne; [done|]. by intros He%uuid_inj.
Qed.

Lemma mapping_later orderID seen t t' s : t ≤ t' → mapping orderID seen t s → mapping orderID seen t' s.
Proof. intros Ht []. split; try done. intros n Hn. apply mp_fresh0. lia. Qed.

(** The identifiers answered for a list of URLs: those of a URL that the order has not
    mapped before are stored, those of a repeated one are not. *)
Definition authzs_recorded (s : Store) (orderID : string) (seen ids urls : list string) : Prop :=
  length ids = length urls ∧
  ∀ k id u, ids !! k = Some id → urls !! k = Some u →
    (u ∉ seen ++ take k urls → mapped s ResourceTypeAuthz orderID id u) ∧
    (u ∈ seen ++ take k urls → resource_map s !! id = None).
Lemma authzs_recorded_cons s orderID seen id ids u urls :
  (u ∉ seen → mapped s ResourceTypeAuthz orderID id u) → (u ∈ seen → resource_map s !! id = None) →
  authzs_recorded s orderID (seen ++ [u]) ids urls → authzs_recorded s orderID seen (id :: ids) (u :: urls).
Proof.
  intros Hnew Hold [Hlen Hall]. split; [simpl; by f_equal|]. intros [|k] i v; simpl.
  - intros [= <-] [= <-]. by rewrite app_nil_r.
  - intros Hi Hv. specialize (Hall k i v Hi Hv). by rewrite <- (assoc_L (++) seen [u]) in Hall.
Qed.

(** ** Answers *)
Lemma header_get_set k vs l : header_get k (header_set k vs l) = vs.
Proof.
  unfold header_get. induction l as [|[k' vs'] l IH]; simpl; [by rewrite String.eqb_refl|].
  destruct (k' ==? k) eqn:Hk; simpl; [by rewrite String.eqb_refl|]. by rewrite Hk.
Qed.
Lemma header_get_set_ne k k' vs l : k' ≠ k → header_get k (header_set k' vs l) = header_get k l.
Proof.
  intros Hne. unfold header_get. induction l as [|[k1 vs1] l IH]; simpl.
  { by rewrite (proj2 (String.eqb_neq k' k)). }
  destruct (String.eqb_spec k1 k') as [->|]; simpl; [by rewrite (proj2 (String.eqb_neq k' k))|].
  by destruct (k1 ==? k).
Qed.

Lemma writeError_status e w :
  unanswered w → after (writeError e) w (λ _ w', rp_status (w_resp w') = [pb_Status e]).
Proof.
  intros [Hs Hb]. unfold writeError.
  apply after_bind, (after_keeps silent); [apply (keeps_attachNonce cfg), silent_service|].
  intros u w1 Hrun [Hs1 _]. rewrite Hs in Hs1.
  destruct u as [[]|].
  - unfold Header_Set, on_headers, WriteHeader, Write, bind, modify, after. simpl. rewrite Hs1. simpl.
    done.
  - exfalso. revert Hrun. unfold attachNonce, issueNonce, db, Header_Set, on_headers, modify, bind, ask, ret. simpl.
    destruct (env_db _); simpl; [done|]. by destruct (IssueNonce _ _ _) as [[]].
Qed.
Lemma writeJSON_answer status v w :
  unanswered w → after (writeJSON status v) w (λ _ w',
    w_store w' = w_store w ∧ rp_status (w_resp w') = [status] ∧ rp_body (w_resp w') = [BodyJSON v] ∧
    header_get "Location" (rp_headers (w_resp w')) = header_get "Location" (rp_headers (w_resp w))).
Proof.
  intros [Hs Hb]. unfold writeJSON, Header_Set, on_headers, WriteHeader, Write, bind, modify, after.
  simpl. rewrite Hs. simpl. rewrite Hb. split_and!; try done. by apply header_get_set_ne.
Qed.

Lemma reject_status {A} e w :
  unanswered w → after (reject (A := A) e) w (λ r w', (∀ x, r ≠ Some (Some x)) ∧
    rp_status (w_resp w') = [pb_Status e]).
Proof.
  intros Hw. apply after_bind. eapply after_mono; [by apply writeError_status|].
  by intros [[]|] w' Hs; split.
Qed.

Lemma after_save_authzs orderID seen urls w :
  mapping orderID seen (w_tick w) (w_store w) → unanswered w →
  after (save_authzs cfg orderID urls) w (λ r w', match r with
    | Some (Some l) =>
        w_resp w' = w_resp w ∧ rows_kept (w_store w) (w_store w') ∧
        (∀ n, n < w_tick w → resource_map (w_store w') !! env_uuid n = resource_map (w_store w) !! env_uuid n) ∧
        ∃ ids, l = (λ i, base_url cfg +:+ "/authz/" +:+ i) <$> ids ∧
               authzs_recorded (w_store w') orderID seen ids urls
    | _ => rp_status (w_resp w') ≠ [201%Z]
    end).
Proof.
  revert seen w. induction urls as [|u urls IH]; intros seen w Hm Hun; simpl.
  { apply after_ret. split_and!; try done. exists []. by split. }
  assert (∀ w', unanswered w' → after (reject (A := list string) (errServerInternal "saving authz resource")) w'
    (λ r w', match r with Some (Some l) => False | _ => rp_status (w_resp w') ≠ [201%Z] end)) as Hrej.
  { intros w' Hw'. eapply after_mono; [by apply reject_status|].
    intros [[x|]|] w2 [Hx Hs]; [by destruct (Hx x)|by rewrite Hs..]. }
  apply after_bind, after_ask, after_bind, after_db.
  { intros e _. eapply after_mono; [by apply Hrej|]. by intros [[]|]. }
  intros _. simpl. destruct (save_mapping _ ResourceTypeAuthz _ u _ _ Hm) as (Hnew & Hold & Hm' & Hk & Hsame).
  destruct (SaveResource _ (w_store w)) as [[[]|e] s] eqn:Hs; simpl in *.
  2:{ eapply after_mono; [by apply Hrej|]. by intros [[]|]. }
  apply after_bind. eapply after_mono.
  { apply (IH (seen ++ [u])); [simpl; eapply mapping_later; [|done]; lia|done]. }
  intros [[l|]|] w' Hl; [|done..]. apply after_ret.
  destruct Hl as (Hsil & Hk' & Hsame' & ids & -> & Hall). simpl in *. split_and!; [done|by etrans| |].
  - intros n Hn. rewrite Hsame' by lia. apply Hsame. lia.
  - exists (env_uuid (w_tick w) :: ids). split; [done|]. apply authzs_recorded_cons; [| |done].
    + intros Hu. eapply mapped_kept; [done|]. by apply Hnew.
    + intros Hu. rewrite Hsame' by lia. by apply Hold.
Qed.

(** A stored order is ready for its mappings. *)
Lemma save_order_mapping n o s :
  store_wf s → fresh_ids n s → order_ID o = env_uuid n → ∀ r s',
  SaveOrder o s = (Ok r, s') →
  rows_kept s s' ∧ mapping (order_ID o) [] (S n) s' ∧
  GetOrder (order_ID o) s' = Ok (Some (scanOrder (order_ID o)
    (MkOrderRow (order_AccountID o) (order_UpstreamID o) (order_UpstreamSlot o) (order_UpstreamOrderURL o)
      (order_Status o) (order_Identifiers o) (order_Profile o) (order_RequireCSRKeyType o)
      (format_rfc3339 (order_CreatedAt o)) (format_rfc3339 (order_UpdatedAt o))))).
Proof.
  intros Hwf Hfresh Hid r s'. unfold SaveOrder. destruct (accounts s !! _); [|done].
  intros [= _ <-]. destruct (Hfresh n) as [Hno _]; [done|]. rewrite <- Hid in Hno. split_and!.
  - split; simpl; [by apply insert_subseteq|done].
  - split; simpl; [by rewrite lookup_insert_eq; eexists| |].
    + intros u. split; [by intros Hin%elem_of_nil|]. intros (i & q & Hi & Hq & _).
      destruct (wf_resource_order s Hwf i q Hi) as [x Hx]. congruence.
    + intros m Hm. apply Hfresh. lia.
  - unfold GetOrder. simpl. by rewrite lookup_insert_eq.
Qed.

(** C13: a 201 answer to new-order means the order is there, for a database that
    satisfies its schema and identifiers that are not in use: the order row with its
    owner, upstream and CSR key requirement, and identifiers that read back as requested; a
    mapping for the finalize URL; the Location of the order; and for each authorization of the
    upstream order a URL with an identifier of its own, which is mapped to the authorization
    when the upstream lists that URL for the first time. For a URL the upstream repeats, or that is the
    finalize URL, the identifier answered is not stored (the insertion is ignored). Nothing
    stored before is touched. *)
Theorem new_order_recorded acct req d up url w :
  store_wf (w_store w) → fresh_ids (w_tick w) (w_store w) → unanswered w →
  after (record_order cfg acct req d up url) w (λ _ w', rp_status (w_resp w') = [201%Z] →
    rows_kept (w_store w) (w_store w') ∧
    ∃ orderID finalizeID ids o,
      GetOrder orderID (w_store w') = Ok (Some o) ∧
      order_AccountID o = acct_ID acct ∧ order_UpstreamID o = dec_UpstreamID d ∧
      order_UpstreamOrderURL o = url ∧ order_Status o = ao_Status up ∧
      order_RequireCSRKeyType o = dec_RequireCSRKeyType d ∧
      decode_identifiers (order_Identifiers o) = no_Identifiers req ∧
      mapped (w_store w') ResourceTypeFinalize orderID finalizeID (ao_Finalize up) ∧
      length ids = length (ao_Authorizations up) ∧
      (∀ k id u, ids !! k = Some id → ao_Authorizations up !! k = Some u →
         (u ∉ ao_Finalize up :: take k (ao_Authorizations up) →
            mapped (w_store w') ResourceTypeAuthz orderID id u) ∧
         (u ∈ ao_Finalize up :: take k (ao_Authorizations up) → resource_map (w_store w') !! id = None)) ∧
      header_get "Location" (rp_headers (w_resp w')) = [base_url cfg +:+ "/order/" +:+ orderID] ∧
      rp_body (w_resp w') = [BodyJSON (order_response_json
        (MkOrderResponse (ao_Status up) (ao_Expires up) (no_Identifiers req)
           (Some ((λ i, base_url cfg +:+ "/authz/" +:+ i) <$> ids))
           (base_url cfg +:+ "/finalize/" +:+ finalizeID) ""))]).
Proof.
  intros Hwf Hfresh Hun. unfold record_order. set (n := w_tick w).
  assert (∀ e w', unanswered w' → pb_Status e = 500%Z →
    ∀ P : World → Prop, after (writeError e) w' (λ _ w', rp_status (w_resp w') = [201%Z] → P w')) as Herr.
  { intros e w' Hw' He P. eapply after_mono; [by apply writeError_status|]. intros ? ? ->. by rewrite He. }
  apply after_bind, after_ask, after_bind, after_ask, after_bind, after_ask.
  fold n. set (o := MkOrder _ _ _ _ _ _ _ _ _ _ _). apply after_bind, after_db; [by intros; apply Herr|].
  intros _. simpl. destruct (SaveOrder o (w_store w)) as [[[]|e] s1] eqn:Hs1; [|by apply Herr].
  destruct (save_order_mapping n o _ Hwf Hfresh eq_refl _ _ Hs1) as (Hk1 & Hm1 & Hget1).
  apply after_bind, after_ask, after_bind, after_db; [by intros; apply Herr|]. intros _. simpl.
  apply (mapping_later _ _ _ (S (S (S (S n))))) in Hm1; [|lia].
  destruct (save_mapping _ ResourceTypeFinalize _ (ao_Finalize up) _ _ Hm1) as (Hfin & _ & Hm2 & Hk2 & _).
  specialize (Hfin (not_elem_of_nil _)). simpl in *.
  destruct (SaveResource _ s1) as [[[]|e] s2]; simpl in *; [|by apply Herr].
  apply after_bind. eapply after_mono; [apply after_save_authzs; [simpl; eapply mapping_later; [|done]; lia|done]|].
  intros [[l|]|] w3 Hl; [|by intros..]. destruct Hl as (Hr3 & Hk3 & _ & ids & -> & Hlen & Hids). simpl in *.
  set (w4 := (Header_Set "Location" (base_url cfg +:+ "/order/" +:+ order_ID o) w3).2).
  assert (unanswered w4 ∧ w_store w4 = w_store w3 ∧
          header_get "Location" (rp_headers (w_resp w4)) = [base_url cfg +:+ "/order/" +:+ order_ID o])
    as (Hun4 & Hs4 & Hloc).
  { unfold w4, Header_Set, on_headers, modify. simpl. destruct Hun as [Hst Hbd]. rewrite Hr3, Hst. simpl.
    split_and!; [|done|apply header_get_set]. split; simpl; [done|congruence]. }
  apply after_bind. refine (after_mono _ w4 _ _ (writeJSON_answer 201 _ w4 Hun4) _).
  intros r w5 (Hs5 & _ & Hb5 & Hl5) _. rewrite Hs5, Hs4, Hl5. split; [by etrans; [|etrans]|].
  assert (rows_kept s1 (w_store w3)) as Hk13 by by etrans.
  assert (GetOrder (order_ID o) (w_store w3) = GetOrder (order_ID o) s1) as Hget.
  { unfold GetOrder. change (order_ID o) with (env_uuid n). destruct Hk13 as [Ho _], (mp_order _ _ _ _ Hm1) as [row Hrow].
    by rewrite Hrow, (lookup_weaken _ _ _ _ Hrow Ho). }
  exists (order_ID o), (env_uuid (S (S (S (S n))))), ids. eexists.
  split_and!; [etrans; [exact Hget|exact Hget1]|done|done|done|done|done|apply identifiers_back
              |eapply mapped_kept; [exact Hk3|exact Hfin]|exact Hlen|exact Hids|exact Hloc|].
  exact Hb5.
Qed.
End orders.

(** ** The response of an existing order *)
Section polling.
Context `{Env} `{PKI} `{!RowOrder} `{!NetURL} (cfg : Config).
#[local] Instance silent_polling : ServiceRel cfg silent := silent_service cfg.

(** The order table stays as it is. *)
Definition orders_kept (w w' : World) : Prop := orders (w_store w') = orders (w_store w).
#[local] Instance orders_kept_pre : PreOrder orders_kept.
Proof. split; [by intros w|]. unfold orders_kept. intros w1 w2 w3 ? ?. congruence. Qed.
#[local] Instance orders_kept_post : PostRel orders_kept.
Proof. apply client_frame_post; [apply _|]. intros w w' []. unfold orders_kept. by rewrite cf_store. Qed.
#[local] Instance orders_kept_pool : PoolRel orders_kept.
Proof.
  split; [apply _|by intros cl _ w|by intros c u w|by intros f w|..].
  all: intros; apply keeps_db; [apply _|]; by intros w.
Qed.
Lemma orders_kept_resource r : keeps orders_kept (db (SaveResource r)).
Proof. apply keeps_db; [apply _|]. intros w. unfold SaveResource. by repeat case_match. Qed.
#[local] Hint Resolve orders_kept_resource : keeps.
Lemma orders_kept_build o u : keeps orders_kept (buildOrderResponse cfg o u).
Proof. unfold buildOrderResponse, cert_url, saveNewResource. keeps_auto. Qed.
Lemma orders_kept_account a : keeps orders_kept (account_id a).
Proof. unfold account_id. keeps_auto. Qed.
Lemma orders_kept_client o : keeps orders_kept (orderClient cfg o).
Proof. unfold orderClient. keeps_auto. Qed.

(** The mapped URLs of one kind in a store. *)
Definition resolves (s : Store) (kind url : string) (p : resource_row → Prop) : Prop :=
  ∃ i r, resource_map s !! i = Some r ∧ p r ∧ url = base_url cfg +:+ kind +:+ i.

Lemma db_read_keeps {A} (f : Store → result A) w r w' : db_read f w = (r, w') → w_store w' = w_store w.
Proof. unfold db_read, db, bind, ask, ret. simpl. destruct (env_db _); by intros [= <- <-]. Qed.

Lemma after_find_url url w :
  after (db_read (GetResourceByUpstreamURL url)) w (λ r w', w_store w' = w_store w ∧
    ∀ rm, default None (r ≫= ok_opt) = Some rm →
      ∃ q, resource_map (w_store w) !! rm_GatewayID rm = Some q ∧ rr_upstream_url q = url).
Proof.
  apply after_run. intros r w' Hrun. split; [by eapply db_read_keeps|].
  intros rm Hrm. destruct r as [[[rm'|]|]|]; simplify_eq/=.
  apply db_read_some in Hrun. injection Hrun as Hrm.
  apply select_head_some in Hrm as (i & q & Hi & Hq & ->). simp_bool. by exists q.
Qed.

Lemma after_cert_url orderID url w :
  after (cert_url cfg orderID url) w (λ r w', ∀ u, r = Some u →
    resource_map (w_store w) ⊆ resource_map (w_store w') ∧
    (u = "" ∨ resolves (w_store w') "/cert/" u (λ q, rr_upstream_url q = url))).
Proof.
  unfold cert_url. destruct (url ==? ""); [apply after_ret; intros u [= <-]; by split; [|left]|].
  apply after_bind. eapply after_mono; [apply after_find_url|].
  intros [r|] w1 [Hs1 Hrm]; [|done]. simpl in Hrm.
  destruct (default None (ok_opt r)) as [rm|].
  { apply after_ret. intros u [= <-]. rewrite Hs1. split; [done|]. right.
    destruct (Hrm rm eq_refl) as (q & Hq & Hu). by exists (rm_GatewayID rm), q. }
  apply after_bind. apply (after_mono _ _ (λ _ w2, resource_map (w_store w) ⊆ resource_map (w_store w2))).
  { unfold saveNewResource. apply after_bind, after_ask, after_db; intros; simpl; rewrite Hs1; [done|].
    unfold SaveResource. repeat case_match; simpl; try done. by apply insert_subseteq. }
  intros [x|] w2 Hk; [|done]. apply after_bind. eapply after_mono; [apply after_find_url|].
  intros [r2|] w3 [Hs3 Hrm2]; [|done]. apply after_ret. intros u [= <-]. rewrite Hs3. split; [done|].
  simpl in Hrm2. destruct (default None (ok_opt r2)) as [rm|]; [|by left]. right.
  destruct (Hrm2 rm eq_refl) as (q & Hq & Hu). by exists (rm_GatewayID rm), q.
Qed.

Lemma after_authzs orderID w :
  after (db_read (GetAuthzResourcesByOrderID orderID)) w (λ r w', w_store w' = w_store w ∧
    ∀ rm, rm ∈ default [] (r ≫= ok_opt) →
      ∃ q, resource_map (w_store w) !! rm_GatewayID rm = Some q ∧
           rr_order_id q = orderID ∧ rr_type q = ResourceTypeAuthz).
Proof.
  apply after_run. intros r w' Hrun. split; [by eapply db_read_keeps|].
  intros rm Hrm. destruct r as [[l|]|]; simpl in Hrm; [|by apply not_elem_of_nil in Hrm..].
  apply db_read_some in Hrun. injection Hrun as <-.
  apply list_elem_of_fmap in Hrm as ([i q] & -> & Hin). rewrite row_order_perm in Hin.
  apply list_elem_of_filter in Hin as [Hp Hin]. apply elem_of_map_to_list in Hin.
  simp_bool. by exists q.
Qed.

Lemma order_response_status orderID up w :
  after (buildOrderResponse cfg orderID up) w (λ r _, ∀ resp, r = Some (Ok resp) →
    os_Status resp = ao_Status up).
Proof.
  unfold buildOrderResponse. apply after_bind, after_run. intros [[[o|]|]|] w1 _; [|done..].
  apply after_bind, after_run. intros [[fin|]|] w2 _; [|done..].
  apply after_bind, after_run. intros [cu|] w3 _; [|done].
  apply after_bind, after_run. intros [rms|] w4 _; [|done]. by intros resp [= <-].
Qed.

(** C14: every URL in the answer for an order is one the gateway serves: a finalize
    URL mapped to the upstream's, the mapped authorizations of this order and no others, a
    certificate URL mapped to the upstream's; a URL it cannot map is left empty.
    The status is the upstream's, the identifiers the stored ones. *)
Theorem order_response_resolves orderID up w :
  after (buildOrderResponse cfg orderID up) w (λ r w', ∀ resp, r = Some (Ok resp) →
    ∃ o, GetOrder orderID (w_store w) = Ok (Some o) ∧
      os_Status resp = ao_Status up ∧ os_Expires resp = ao_Expires up ∧
      os_Identifiers resp = decode_identifiers (order_Identifiers o) ∧
      (os_Finalize resp = "" ∨
       resolves (w_store w') "/finalize/" (os_Finalize resp) (λ q, rr_upstream_url q = ao_Finalize up)) ∧
      (∀ u, u ∈ default [] (os_Authorizations resp) →
       resolves (w_store w') "/authz/" u
         (λ q, rr_order_id q = orderID ∧ rr_type q = ResourceTypeAuthz)) ∧
      (os_Certificate resp = "" ∨
       resolves (w_store w') "/cert/" (os_Certificate resp) (λ q, rr_upstream_url q = ao_Certificate up))).
Proof.
  unfold buildOrderResponse. apply after_bind, after_run. intros r1 w1 Ho.
  pose proof (db_read_keeps _ _ _ _ Ho) as Hs1.
  destruct r1 as [[[o|]|]|]; [|done..]. apply db_read_some in Ho.
  apply after_bind. eapply after_mono; [apply after_find_url|].
  intros [[fin|]|] w2 [Hs2 Hfin]; [|done..]. simpl in Hfin.
  apply after_bind. eapply after_mono; [apply after_cert_url|]. intros [cu|] w3 Hcert; [|done].
  destruct (Hcert cu eq_refl) as [Hsub Hcu].
  apply after_bind. eapply after_mono; [apply after_authzs|]. intros [rms|] w4 [Hs4 Haz]; [|done].
  apply after_ret. intros resp [= <-]. rewrite Hs4. exists o. split_and!; try done.
  - simpl. destruct fin as [rm|]; [|by left]. right. destruct (Hfin rm eq_refl) as (q & Hq & Hu).
    exists (rm_GatewayID rm), q. split; [|done]. eapply lookup_weaken; [|done]. congruence.
  - simpl in *. intros u Hu. assert (u ∈ (λ arm, base_url cfg +:+ "/authz/" +:+ rm_GatewayID arm) <$> default [] (ok_opt rms)) as Hin
      by (destruct (_ <$> _); [by apply not_elem_of_nil in Hu|done]).
    apply list_elem_of_fmap in Hin as (rm & -> & Hin). destruct (Haz rm Hin) as (q & Hq & Hp).
    by exists (rm_GatewayID rm), q.
Qed.

(** ** Polling *)

(** When [m] answers 200, [Q] holds. *)
Definition ok_only (Q : World → Prop) (m : M unit) (w : World) : Prop :=
  after m w (λ _ w', rp_status (w_resp w') = [200%Z] → Q w').

Lemma unanswered_not_ok (Q : Prop) w : unanswered w → rp_status (w_resp w) = [200%Z] → Q.
Proof. intros [-> _]. done. Qed.
Lemma refused_not_ok (Q : Prop) w : answered_with error_status w → rp_status (w_resp w) = [200%Z] → Q.
Proof. intros [(s & -> & Hs) _] [= ->]. unfold error_status in Hs. lia. Qed.
Lemma ok_writeError Q e w : error_status (pb_Status e) → unanswered w → ok_only Q (writeError e) w.
Proof.
  intros He Hw. eapply after_mono; [by apply (writeError_answered cfg error_status)|].
  intros [[]|] w' Hw' Hok; [exact (refused_not_ok _ w' Hw' Hok)|exact (unanswered_not_ok _ w' Hw' Hok)].
Qed.
Lemma ok_bind {A} Q (m : M A) k w :
  keeps silent m → unanswered w →
  (∀ a w', m w = (Some a, w') → unanswered w' → ok_only Q (k a) w') → ok_only Q (bind m k) w.
Proof.
  intros Hm [Hs Hb] Hk. apply after_bind, (after_keeps silent); [done|].
  intros r w' Hrun [Hs' Hb']. assert (unanswered w') as Hw by (split; congruence).
  destruct r as [a|]; [by apply Hk|]. intros Hok. exact (unanswered_not_ok _ w' Hw Hok).
Qed.
Lemma ok_some {A} Q (m : M (option A)) k w :
  guards m → unanswered w → (∀ a w', unanswered w' → ok_only Q (k a) w') →
  ok_only Q (let_some x := m in k x) w.
Proof.
  intros Hm Hw Hk. apply after_bind. eapply after_mono; [by apply Hm|].
  intros [[a|]|] w' Hw'; [by apply Hk|intros Hok..];
    [exact (refused_not_ok _ w' Hw' Hok)|exact (unanswered_not_ok _ w' Hw' Hok)].
Qed.
Lemma ok_else {A} Q (m : M (result_of acmeError A)) k w :
  keeps silent m → sound_errors m → unanswered w →
  (∀ a w', m w = (Some (Ok a), w') → unanswered w' → ok_only Q (k a) w') →
  ok_only Q (let! x := m else writeError in k x) w.
Proof.
  intros Hm He Hw Hk. apply ok_bind; [done|done|]. intros [a|e] w' Hrun Hw'; [by apply Hk|].
  apply ok_writeError; [|done]. pose proof (He w) as Hew. unfold after in Hew. rewrite Hrun in Hew.
  by apply Hew.
Qed.

Lemma run_keeps {A} R (m : M A) w r w' : keeps R m → m w = (r, w') → R w w'.
Proof. intros Hm Hrun. specialize (Hm w). by rewrite Hrun in Hm. Qed.
Lemma GetOrder_kept id w w' : orders_kept w w' → GetOrder id (w_store w') = GetOrder id (w_store w).
Proof. unfold GetOrder. by intros ->. Qed.

(** The engine refuses the update of a status. *)
Definition update_fails (id st : string) : Prop :=
  ∃ w1, database_fails w1 (updateOrderStatus id st w1).2.

Lemma update_synced id st w o :
  GetOrder id (w_store w) = Ok (Some o) →
  after (updateOrderStatus id st) w (λ _ w', update_fails id st ∨
    ∃ o', GetOrder id (w_store w') = Ok (Some o') ∧ order_Status o' = st).
Proof.
  intros Ho. destruct (env_db (S (w_tick w))) as [e|] eqn:He.
  { left. exists w, (S (w_tick w)), e. split; [|done]. unfold updateOrderStatus, db, bind, ask, ret. simpl.
    rewrite He. simpl. lia. }
  apply after_bind, after_ask, after_db; [intros e He'; simpl in He'; congruence|]. intros _. right.
  simpl. unfold GetOrder, UpdateOrderStatus in *. destruct (orders (w_store w) !! id); [|done].
  simpl. rewrite lookup_insert_eq. by eexists.
Qed.

(** Polling an order never answers 200 with a status other than the stored one: the
    upstream's status is written to the order before it is shown to the owner, unless the
    engine refuses that update. *)
Theorem order_poll_synced r w :
  after (handleOrder cfg r) (set_resp empty_response w) (λ _ w', rp_status (w_resp w') = [200%Z] →
    ∃ resp, rp_body (w_resp w') = [BodyJSON (order_response_json resp)] ∧
      (update_fails (in_ID r) (os_Status resp) ∨ ∃ o, GetOrder (in_ID r) (w_store w') = Ok (Some o) ∧ order_Status o = os_Status resp)).
Proof.
  match goal with |- after _ ?w0 (λ _ w', _ → @?Q w') => change (ok_only Q (handleOrder cfg r) w0) end.
  set (Q := λ w' : World, _).
  apply ok_bind; [apply keeps_addCommonHeaders, _|done|]. intros _ w1 _ Hw1.
  apply ok_some; [apply guards_parse|done|]. intros p w2 Hw2.
  apply ok_else; [apply keeps_resolveAndVerify, _|apply sound_resolveAndVerify|done|].
  intros acct w3 _ Hw3. apply ok_bind; [apply (hl_read (cfg := cfg))|done|].
  intros [[o|]|] w4 Ho Hw4; [|by apply ok_writeError..].
  apply ok_bind; [apply (keeps_account_id cfg silent acct)|done|]. intros aid w5 Haid Hw5.
  destruct (_ !=? _); [by apply ok_writeError|].
  apply ok_bind; [apply keeps_orderClient, _|done|]. intros [c|e] w6 Hc Hw6; [|by apply ok_writeError].
  apply ok_bind; [apply keeps_UpstreamGetOrder, _|done|]. intros [up|e] w7 Hup Hw7;
    [|by apply ok_writeError; [apply relay_status|]].
  assert (GetOrder (in_ID r) (w_store w7) = Ok (Some o)) as Ho7.
  { rewrite (GetOrder_kept (in_ID r) w4 w7).
    - rewrite (db_read_keeps _ _ _ _ Ho). by apply db_read_some in Ho.
    - etrans; [exact (run_keeps _ _ _ _ _ (orders_kept_account acct) Haid)|].
      etrans; [exact (run_keeps _ _ _ _ _ (orders_kept_client o) Hc)|].
      exact (run_keeps _ _ _ _ _ (keeps_UpstreamGetOrder orders_kept c _) Hup). }
  assert (∀ w8, unanswered w8 → (update_fails (in_ID r) (ao_Status up) ∨ ∃ o', GetOrder (in_ID r) (w_store w8) = Ok (Some o') ∧
      order_Status o' = ao_Status up) →
    ok_only Q (let! resp := buildOrderResponse cfg (in_ID r) up else writeError in
               writeJSON 200 (order_response_json resp)) w8) as Hend.
  { intros w8 Hw8 Hst. apply ok_else; [apply keeps_buildOrderResponse, _|apply sound_buildOrderResponse|done|].
    intros resp w9 Hresp Hw9.
    pose proof (order_response_status (in_ID r) up w8) as Hstat. unfold after in Hstat. rewrite Hresp in Hstat.
    eapply after_mono; [by apply writeJSON_answer|]. intros u w10 (Hs & _ & Hb & _) _.
    exists resp. split; [done|]. rewrite (Hstat resp eq_refl).
    rewrite Hs.  rewrite (GetOrder_kept (in_ID r) w8 w9) by exact (run_keeps _ _ _ _ _ (orders_kept_build (in_ID r) up) Hresp).
    done. }
  destruct (ao_Status up !=? order_Status o) eqn:Hne.
  - apply ok_bind; [apply (keeps_updateOrderStatus cfg silent)|done|]. intros u w8 Hu Hw8. apply Hend; [done|].
    pose proof (update_synced (in_ID r) (ao_Status up) w7 o Ho7) as Hupd. unfold after in Hupd.
    by rewrite Hu in Hupd.
  - apply ok_bind; [intros ?; done|done|]. intros u w8 [= <- <-] Hw8. apply Hend; [done|]. right.
    exists o. split; [done|]. by destruct (String.eqb_spec (ao_Status up) (order_Status o)).
Qed.
End polling.
