(* ===== verification/Background.v ===== *)
(** * DNS-01 in the background (internal/server/handlers.go)

    The goroutine of a challenge: deploy the TXT record by the hook script, wait for the
    propagation, trigger the upstream, and the watcher that cleans the record up. *)
From S2P Require Export Handlers.

(** ** Hook scripts *)
Section hooks.
Context `{Env} (cfg : Config).

Definition dnsHookForUpstream (upstreamID : string) : DNSHook :=
  let b := Bootstrap cfg in
  let fallback :=
    if boot_Enabled b && (boot_Upstream b ==? upstreamID) && EqualFold (boot_Challenge b) "dns-01"
    then boot_DNSHook b else zero_DNSHook in
  match Upstreams cfg !! upstreamID with
  | Some up => if DeployScript (up_DNSHook up) !=? "" then up_DNSHook up else fallback
  | None => fallback
  end.

(** [filepath.IsAbs] is a leading slash (Unix). *)
Definition validateDNSHookScriptPath (script : string) : M (result unit) :=
  if script ==? "" then ret (Errorf "dns hook script is empty")
  else if negb (HasPrefix script "/")
  then ret (Errorf ("dns hook script must be an absolute path: " +:+ Quote script))
  else
    let! fi := ask (λ n, env_stat n script) in
    ret (match fi with
         | Err e => Err (EStr ("dns hook script " +:+ Quote script +:+ " not accessible: " +:+ error_string e))
         | Ok (isDir, executable) =>
             if isDir : bool then Errorf ("dns hook script " +:+ Quote script +:+ " is a directory")
             else if executable : bool then Ok tt
             else Errorf ("dns hook script " +:+ Quote script +:+ " is not executable")
         end).

(** The variables added to the process environment. *)
Definition hook_env (t : dnsChallengeTarget) (dnsValue token : string) : list (string * string) :=
  [("CERTBOT_DOMAIN", EffectiveDomain t);
   ("CERTBOT_DOMAIN_SOURCE", SourceDomain t);
   ("CERTBOT_DOMAIN_EFFECTIVE", EffectiveDomain t);
   ("CERTBOT_FQDN_SOURCE", SourceFQDN t);
   ("CERTBOT_FQDN_EFFECTIVE", EffectiveFQDN t);
   ("CERTBOT_VALIDATION", dnsValue);
   ("CERTBOT_TOKEN", token);
   ("ACME_GATEWAY_DOMAIN", EffectiveDomain t);
   ("ACME_GATEWAY_FQDN", EffectiveFQDN t);
   ("ACME_GATEWAY_DOMAIN_SOURCE", SourceDomain t);
   ("ACME_GATEWAY_DOMAIN_EFFECTIVE", EffectiveDomain t);
   ("ACME_GATEWAY_FQDN_SOURCE", SourceFQDN t);
   ("ACME_GATEWAY_FQDN_EFFECTIVE", EffectiveFQDN t);
   ("ACME_GATEWAY_DNS_VALUE", dnsValue);
   ("ACME_GATEWAY_TOKEN", token)].

(** [cmd.CombinedOutput]: nothing is started once the context has ended;
    starting a script is visible outside. *)
Definition exec_hook (script : string) (env : list (string * string)) : M (string * option error) :=
  let! done := ask env_ctx in
  match done with
  | Some e => ret ("", Some e)
  | None => do! emit (EvHook script env) in ask (λ n, env_exec n script env)
  end.

(** The failure of a script keeps its output in the text; nothing inspects the
    error behind it. *)
Definition runDNSHookScript (script : string) (t : dnsChallengeTarget) (dnsValue token : string)
    : M (result unit) :=
  let script := TrimSpace script in
  let!? _ := validateDNSHookScriptPath script in
  let! (out, e) := exec_hook script (hook_env t dnsValue token) in
  ret (match e with
       | Some e => Errorf ("dns hook " +:+ Quote script +:+ " failed: " +:+ error_string e
                           +:+ "; output: " +:+ TrimSpace out)
       | None => Ok tt
       end).
End hooks.

(** ** Preparing a challenge *)
Section prepare.
Context `{Env} `{!RowOrder} (cfg : Config).

Definition start_job (j : job) : M unit := update_jobs (λ jobs, jobs ++ [j]).

(** The challenge found under an authorization: deploy its record. [None]
    when the polling rounds given to the propagation wait do not suffice. *)
Definition deploy_challenge (rounds : nat) (hook : DNSHook) (client : client_ref) (authzURL : string)
    (upAuthz : ACMEAuthorization) (ch : Challenge) : M (option (result unit)) :=
  if ch_Type ch !=? "dns-01" then ret (Some (Ok tt))
  else
    let domain := TrimSuffix (TrimSpace (id_Value (az_Identifier upAuthz))) "." in
    if domain ==? "" then ret (Some (Errorf "empty authorization identifier for dns-01 challenge"))
    else
      let! r := DNS01TXTFromToken client (ch_Token ch) in
      match r with
      | Err e => ret (Some (Wrapf "computing dns-01 TXT value: " e))
      | Ok (_, dnsValue) =>
          let! rt := resolveDNSChallengeTarget hook domain (acme_prefix +:+ domain) in
          match rt with
          | Err e => ret (Some (Err e))
          | Ok target =>
              let! rd := runDNSHookScript (DeployScript hook) target dnsValue (ch_Token ch) in
              match rd with
              | Err e => ret (Some (Err e))
              | Ok _ =>
                  let finish : M (option (result unit)) :=
                    do! (if CleanupScript hook !=? "" then
                           start_job (CleanupJob client authzURL dnsValue (ch_Token ch)
                                        (CleanupScript hook) target)
                         else ret tt) in
                    ret (Some (Ok tt)) in
                  let! rw := waitForDNSPropagation rounds hook (EffectiveFQDN target) dnsValue in
                  match rw with
                  | None => ret None
                  | Some (Err e) =>
                      let! done := ask env_ctx in
                      match done with
                      | Some _ => ret (Some (Wrapf "dns-01 propagation aborted: " e))
                      | None => finish
                      end
                  | Some (Ok _) => finish
                  end
              end
          end
      end.

(** The loop over the order's authorizations; failing ones are skipped. *)
Fixpoint prepare_authzs (rounds : nat) (hook : DNSHook) (client : client_ref) (url : string)
    (rms : list ResourceMap) : M (option (result unit)) :=
  match rms with
  | [] => ret (Some (Ok tt))
  | rm :: rms =>
      let! ra := GetAuthorization client (rm_UpstreamURL rm) in
      match ra with
      | Err _ => prepare_authzs rounds hook client url rms
      | Ok upAuthz =>
          match List.find (λ c, ch_URL c ==? url) (az_Challenges upAuthz) with
          | Some ch => deploy_challenge rounds hook client (rm_UpstreamURL rm) upAuthz ch
          | None => prepare_authzs rounds hook client url rms
          end
      end
  end.

Definition prepareDNS01Challenge (rounds : nat) (o : Order) (client : client_ref) (url : string)
    : M (option (result unit)) :=
  let hook := dnsHookForUpstream cfg (order_UpstreamID o) in
  if DeployScript hook ==? "" then ret (Some (Ok tt))
  else
    let! r := db_read (GetAuthzResourcesByOrderID (order_ID o)) in
    match r with
    | Err e => ret (Some (Wrapf "listing authorization resources: " e))
    | Ok rms => prepare_authzs rounds hook client url rms
    end.

(** ** The goroutines *)

(** [prog.fail]: through the pointer, so only the record made at [created]. *)
Definition fail_challenge (chalID : string) (created : time) (errType errMsg : string) : M unit :=
  update_proc (alter (λ p, if (cp_createdAt p =? created)%Z then fail_progress errType errMsg p else p)
                 chalID).

(** The first half of the goroutine of [startChallengeProcessing] ... *)
Definition process_step (rounds : nat) (client : client_ref) (o : Order) (url chalID : string)
    (created : time) : M (option unit) :=
  let! r := prepareDNS01Challenge rounds o client url in
  match r with
  | None => ret None
  | Some (Err e) =>
      do! fail_challenge chalID created "dns"
            ("failed to provision dns-01 challenge record: " +:+ error_string e) in
      ret (Some tt)
  | Some (Ok _) => do! start_job (TriggerJob client url chalID created) in ret (Some tt)
  end.

(** ... and the second: trigger the upstream; the record goes when it accepted. *)
Definition trigger_step (client : client_ref) (url chalID : string) (created : time) : M (option unit) :=
  let! r := TriggerChallenge client url in
  do! match r with
      | Err e => fail_challenge chalID created "serverInternal"
                   ("failed to trigger upstream challenge: " +:+ error_string e)
      | Ok _ => update_proc (delete chalID)
      end in
  ret (Some tt).

(** One turn of the cleanup watcher: the deadline, or a tick of its second. *)
Definition cleanup_step (client : client_ref) (authzURL dnsValue token script : string)
    (target : dnsChallengeTarget) : M (option unit) :=
  let run := let! _ := runDNSHookScript script target dnsValue token in ret (Some tt) in
  let again := do! start_job (CleanupJob client authzURL dnsValue token script target) in ret (Some tt) in
  let! done := ask (λ n, env_sleep n second) in
  match done with
  | Some _ => run
  | None =>
      let! ra := GetAuthorization client authzURL in
      match ra with
      | Err _ => again
      | Ok upAuthz => if az_Status upAuthz ==? "pending" then again else run
      end
  end.

Definition run_job (rounds : nat) (j : job) : M (option unit) :=
  match j with
  | ProcessJob client o url chalID created => process_step rounds client o url chalID created
  | TriggerJob client url chalID created => trigger_step client url chalID created
  | CleanupJob client authzURL dnsValue token script target =>
      cleanup_step client authzURL dnsValue token script target
  end.
End prepare.
