(* ===== verification/Bootstrap.v ===== *)
(** * The gateway's own certificate (internal/bootstrap)

    Files replaced atomically, the persisted account, the dns-01 flow against an
    upstream, and the renewal.  The files are the initial disk with the file events of
    the trace replayed, so that every prefix of a trace is a point where the process
    may stop. *)
From S2P Require Export Background.

(** ** Files *)

(** Contents and permission bits. *)
Record file := MkFile { f_data : string; f_mode : Z }.

Definition apply_file (fs : gmap string file) (op : file_op) : gmap string file :=
  match op with
  | FCreate p => <[p := MkFile "" 384]> fs
  | FAppend p c => alter (λ f, MkFile (f_data f +:+ String c "") (f_mode f)) p fs
  | FChmod p mode => alter (λ f, MkFile (f_data f) mode) p fs
  | FRename src dst =>
      match fs !! src with
      | Some f => <[dst := f]> (delete src fs)
      | None => fs
      end
  | FRemove p => delete p fs
  end.

Definition file_event `{Crypto} (ev : event) : option file_op :=
  match ev with EvFile op => Some op | _ => None end.
Definition file_ops `{Crypto} (w : World) : list file_op := omap file_event (w_trace w).

(** *** Paths (path/filepath, on Unix) *)

(** One element of a path on the cleaned elements before it, last first. *)
Definition clean_element (rooted : bool) (out : list string) (e : string) : list string :=
  if (e ==? "") || (e ==? ".") then out
  else if e ==? ".." then
    match out with
    | [] => if rooted then [] else [".."]
    | top :: rest => if top ==? ".." then ".." :: out else rest
    end
  else e :: out.

Definition filepath_Clean (p : string) : string :=
  let rooted := HasPrefix p "/" in
  let body := Join (rev (foldl (clean_element rooted) [] (Split p "/"))) "/" in
  if rooted then "/" +:+ body else if body ==? "" then "." else body.

(** Up to and including the last slash, cleaned. *)
Definition filepath_Dir (p : string) : string :=
  let parts := Split p "/" in
  filepath_Clean (match parts with
                  | [] | [_] => ""
                  | _ => Join (removelast parts) "/" +:+ "/"
                  end).

Definition filepath_Join (dir name : string) : string := filepath_Clean (dir +:+ "/" +:+ name).

(** The name [os.CreateTemp] tries for a random number. *)
Definition tmp_path (dir random : string) : string :=
  (if HasSuffix dir "/" then dir else dir +:+ "/") +:+ ".tmp-" +:+ random.

(** ** Operations *)
Section files.
Context `{Env} (disk : gmap string file).

Definition files (w : World) : gmap string file := foldl apply_file disk (file_ops w).

(** A file operation: refused, or done. *)
Definition file_do (op : file_op) : M (result unit) :=
  let! e := ask env_file in
  match e with
  | Some e => ret (Err e)
  | None => do! emit (EvFile op) in ret (Ok tt)
  end.

Definition ReadFile (p : string) : M (result string) :=
  let! e := ask env_file in
  match e with
  | Some e => ret (Err e)
  | None =>
      let! fs := gets files in
      ret (match fs !! p with
           | Some f => Ok (f_data f)
           | None => Errorf ("open " +:+ p +:+ ": no such file or directory")
           end)
  end.

(** [os.CreateTemp(dir, ".tmp-")]: the first name that does not exist. *)
Definition CreateTemp (dir : string) : M (result string) :=
  let! randoms := ask env_tmp in
  let! fs := gets files in
  match List.find (λ p, bool_decide (fs !! p = None)) (tmp_path dir <$> randoms) with
  | None => ret (Errorf ("createtemp " +:+ tmp_path dir "" +:+ ": file already exists"))
  | Some p => let!? _ := file_do (FCreate p) in ret (Ok p)
  end.

(** [f.Write]: byte by byte, as far as it gets. *)
Fixpoint append_bytes (p data : string) : M unit :=
  match data with
  | "" => ret tt
  | String c data => do! emit (EvFile (FAppend p c)) in append_bytes p data
  end.
Definition file_Write (p data : string) : M (result unit) :=
  let! e := ask env_file in
  match e with
  | Some e =>
      let! n := ask env_partial in
      do! append_bytes p (str_take n data) in ret (Err e)
  | None => do! append_bytes p data in ret (Ok tt)
  end.

(** [f.Close], which changes nothing. *)
Definition file_Close : M (result unit) :=
  let! e := ask env_file in
  ret (match e with Some e => Err e | None => Ok tt end).

(** An error after the file was made removes it, as well as it can. *)
Definition or_remove (tmp : string) (m : M (result unit)) (k : M (result unit)) : M (result unit) :=
  let! r := m in
  match r with
  | Err e => let! _ := file_do (FRemove tmp) in ret (Err e)
  | Ok _ => k
  end.
(** The same, closing the file first. *)
Definition or_close_remove (tmp : string) (m : M (result unit)) (k : M (result unit)) : M (result unit) :=
  let! r := m in
  match r with
  | Err e => let! _ := file_Close in let! _ := file_do (FRemove tmp) in ret (Err e)
  | Ok _ => k
  end.

Definition atomicWrite (path data : string) (mode : Z) : M (result unit) :=
  let!? tmp := CreateTemp (filepath_Dir path) in
  or_close_remove tmp (file_Write tmp data)
    (or_close_remove tmp (file_do (FChmod tmp mode))
      (or_remove tmp file_Close
        (file_do (FRename tmp path)))).
End files.

Notation "'let!!' x := m 'in' k" :=
  (bind m (fun o => match o with
                    | None => ret None
                    | Some (Err e) => ret (Some (Err e))
                    | Some (Ok x) => k
                    end))
  (at level 10, x pattern, m at level 200, k at level 200) : gateway_scope.
(** A program that needs no rounds. *)
Notation "'once' m" := (bind m (fun r => ret (Some r))) (at level 9, m at level 9) : gateway_scope.

(** ** Hook scripts (dnshook.go) *)
Section hook.
Context `{Env}.

Definition certbot_env (domain validation token : string) : list (string * string) :=
  [("CERTBOT_DOMAIN", domain); ("CERTBOT_VALIDATION", validation); ("CERTBOT_TOKEN", token)].

Definition runScript (script domain validation token : string) : M (result unit) :=
  let! (out, e) := exec_hook script (certbot_env domain validation token) in
  ret (match e with
       | Some e => Errorf ("hook " +:+ Quote script +:+ " failed: " +:+ error_string e
                           +:+ String newline "output: " +:+ out)
       | None => Ok tt
       end).

Definition Deploy (hook : DNSHook) (domain validation token : string) : M (result unit) :=
  if DeployScript hook ==? "" then ret (Errorf "dns_hook.deploy_script is not configured")
  else runScript (DeployScript hook) domain validation token.
Definition Cleanup (hook : DNSHook) (domain validation token : string) : M (result unit) :=
  if CleanupScript hook ==? "" then ret (Ok tt)
  else runScript (CleanupScript hook) domain validation token.

Definition DNSTXT (keyAuthorization : string) : result string :=
  if keyAuthorization ==? "" then Errorf "empty key authorisation"
  else Ok (EncodeToString (sha256 keyAuthorization)).
End hook.

(** ** Polling (bootstrap.go) *)
Section poll.
Context `{Env}.

Definition pollInterval : Z := (5 * second)%Z.
Definition pollTimeout : Z := (5 * 60 * second)%Z.

(** The loop of both polls: [get] reads the status.  [None] when the rounds do
    not suffice. *)
Fixpoint poll_loop (rounds : nat) (deadline : time) (get : M (result string)) (what : string)
    : M (option (result unit)) :=
  match rounds with
  | 0 => ret None
  | S rounds =>
      let! now := ask env_now in
      if negb (now <? deadline)%Z
      then ret (Some (Errorf (what +:+ " did not become valid within timeout")))
      else
        let! done := ask (λ n, env_sleep n pollInterval) in
        match done with
        | Some e => ret (Some (Err e))
        | None =>
            let!! status := once get in
            if status ==? "valid" then ret (Some (Ok tt))
            else if status ==? "invalid" then ret (Some (Errorf (what +:+ " became invalid")))
            else poll_loop rounds deadline get what
        end
  end.

Definition pollAuthorization (rounds : nat) (client : client_ref) (authzURL : string)
    : M (option (result unit)) :=
  let! now := ask env_now in
  poll_loop rounds (now + pollTimeout)%Z
    (let!? authz := GetAuthorization client authzURL in ret (Ok (az_Status authz))) "authorization".

Definition pollOrder (rounds : nat) (client : client_ref) (orderURL : string)
    : M (option (result unit)) :=
  let! now := ask env_now in
  poll_loop rounds (now + pollTimeout)%Z
    (let!? order := UpstreamGetOrder client orderURL in ret (Ok (ao_Status order))) "order".
End poll.

(** ** The manager (bootstrap.go) *)

(** What crypto/tls and crypto/x509 provide: a key pair from two PEM texts, its
    DER chain, and the end of a certificate's validity ([None] when it does not parse). *)
Class TLSFiles := {
  tls_Certificate : Type;
  tls_X509KeyPair : string → string → result tls_Certificate;
  cert_Chain : tls_Certificate → list string;
  x509_NotAfter : string → option time
}.

Section manager.
Context `{Env} `{!NetURL} `{!TLSFiles} (disk : gmap string file)
  (boot : BootstrapConfig) (up : UpstreamConfig).

Definition accountKeyPath : string :=
  filepath_Join (filepath_Dir (KeyPath boot)) "bootstrap-account.key".
Definition accountURLPath : string := accountKeyPath +:+ ".url".

Definition loadOrCreateAccountKey : M (result ECKey) :=
  let! data := ReadFile disk accountKeyPath in
  match (data ← ok_opt data; block ← pem_Decode data; ok_opt (ParseECPrivateKey block)) with
  | Some k => ret (Ok k)
  | None =>
      let!? k := wrap "generating bootstrap account key: " (ask env_genkey) in
      let!? der := wrap "marshalling bootstrap account key: " (ret (MarshalECPrivateKey k)) in
      let!? _ := wrap "writing bootstrap account key: "
        (atomicWrite disk accountKeyPath (pem_EncodeECKey der) 384) in
      ret (Ok k)
  end.

(** A saved account URL counts when it is an https URL with a host. *)
Definition usable_url (text : string) : option string :=
  let u := TrimSpace text in
  p ← url_Parse u;
  if (url_Scheme p ==? "https") && (url_Host p !=? "") then Some u else None.

(** Reuse the saved account URL, or register and persist a new one. *)
Definition bootstrap_account (client : client_ref) : M (result unit) :=
  let! data := ReadFile disk accountURLPath in
  match ok_opt data ≫= usable_url with
  | Some savedURL => do! SetAccountURL client savedURL in ret (Ok tt)
  | None =>
      let!? accountURL := wrap "registering bootstrap account: "
        (Register client (up_ContactEmail up) (EAB up)) in
      let! _ := atomicWrite disk accountURLPath accountURL 384 in
      ret (Ok tt)
  end.

(** One authorization of the order. *)
Definition process_authz (rounds : nat) (client : client_ref) (authzURL : string)
    : M (option (result unit)) :=
  let!! authz := once (wrap "getting authorization: " (GetAuthorization client authzURL)) in
  if az_Status authz ==? "valid" then ret (Some (Ok tt))
  else
    let domain := id_Value (az_Identifier authz) in
    match List.find (λ c, ch_Type c ==? "dns-01") (az_Challenges authz) with
    | None => ret (Some (Errorf ("no dns-01 challenge found for " +:+ domain)))
    | Some chal =>
        let token := ch_Token chal in
        let!! keyAuth := once (wrap "computing key authorisation: " (KeyAuthorization client token)) in
        let!! validation := once (wrap "computing DNS TXT value: " (ret (DNSTXT keyAuth))) in
        let!! _ := once (wrap "DNS deploy hook: "
                           (Deploy (boot_DNSHook boot) domain validation token)) in
        let cleanup := Cleanup (boot_DNSHook boot) domain validation token in
        let! rt := TriggerChallenge client (ch_URL chal) in
        match rt with
        | Err e => let! _ := cleanup in ret (Some (Wrapf "triggering challenge: " e))
        | Ok _ =>
            let! rp := pollAuthorization rounds client authzURL in
            match rp with
            | None => ret None
            | Some (Err e) => let! _ := cleanup in ret (Some (Err e))
            | Some (Ok _) => let! _ := cleanup in ret (Some (Ok tt))
            end
        end
    end.

Fixpoint process_all (rounds : nat) (client : client_ref) (urls : list string)
    : M (option (result unit)) :=
  match urls with
  | [] => ret (Some (Ok tt))
  | u :: urls => let!! _ := process_authz rounds client u in process_all rounds client urls
  end.

(** The order once it is valid. *)
Definition wait_valid (rounds : nat) (client : client_ref) (orderURL : string) (o : ACMEOrder)
    : M (option (result ACMEOrder)) :=
  if ao_Status o !=? "valid" then
    let!! _ := pollOrder rounds client orderURL in once (UpstreamGetOrder client orderURL)
  else ret (Some (Ok o)).

(** Both files, the key first. *)
Definition write_pair (keyPEM chain : string) : M (result unit) :=
  let!? _ := wrap "writing key: " (atomicWrite disk (KeyPath boot) keyPEM 384) in
  let!? _ := wrap "writing cert: " (atomicWrite disk (CertPath boot) chain 420) in
  ret (Ok tt).

(** From the client on. *)
Definition obtain (rounds : nat) (client : client_ref) (certKey : ECKey) : M (option (result unit)) :=
  let!! _ := once (bootstrap_account client) in
  let!! (order, orderURL) := once (wrap "submitting bootstrap order: "
    (SubmitOrder client [MkIdentifier "dns" (boot_Domain boot)] "")) in
  match ao_Authorizations order with
  | [] => ret (Some (Errorf "upstream returned no authorizations"))
  | urls =>
      let!! _ := process_all rounds client urls in
      let!! csrDER := once (wrap "building CSR: " (ask (λ n, env_csr n certKey (boot_Domain boot)))) in
      let!! order := once (wrap "finalizing order: " (FinalizeOrder client (ao_Finalize order) csrDER)) in
      let!! order := wait_valid rounds client orderURL order in
      if ao_Certificate order ==? ""
      then ret (Some (Errorf "order is valid but no certificate URL returned"))
      else
        let!! chain := once (wrap "fetching certificate: "
                               (FetchCertificate client (ao_Certificate order))) in
        let!! der := once (ret (MarshalECPrivateKey certKey)) in
        once (write_pair (pem_EncodeECKey der) chain)
  end.

Definition acquire (rounds : nat) : M (option (result unit)) :=
  let!! certKey := once (wrap "generating certificate key: " (ask env_genkey)) in
  let!! accountKey := once (wrap "loading bootstrap account key: " loadOrCreateAccountKey) in
  let!! cl := once (wrap "creating ACME client: " (New (DirectoryURL up) (Some accountKey))) in
  let! client := new_client cl in
  obtain rounds client certKey.

Definition loadExistingCert : M (result tls_Certificate) :=
  let!? certPEM := ReadFile disk (CertPath boot) in
  let!? keyPEM := ReadFile disk (KeyPath boot) in
  ret (tls_X509KeyPair certPEM keyPEM).

(** The zero time when there is no leaf. *)
Definition x509LeafNotAfter (cert : tls_Certificate) : time :=
  match cert_Chain cert with
  | [] => zero_time
  | leaf :: _ => default zero_time (x509_NotAfter leaf)
  end.

(** [time.Until] saturates; the configured days are multiplied as an int64. *)
Definition saturate64 (z : Z) : Z := Z.max (- 2 ^ 63) (Z.min (2 ^ 63 - 1) z).
Definition renewBefore : Z := wrap64 (wrap64 (RenewBeforeDays boot * 24) * (3600 * second)).

Definition isExpiringSoon (cert : tls_Certificate) : M bool :=
  let notAfter := x509LeafNotAfter cert in
  if (notAfter =? zero_time)%Z then ret true
  else
    let! now := ask env_now in
    ret (saturate64 (notAfter - now) <? renewBefore)%Z.

(** [Manager.Bootstrap], before the listener starts. *)
Definition bootstrap_run (rounds : nat) : M (option (result tls_Certificate)) :=
  let! existing := loadExistingCert in
  let! reload := match existing with
                 | Ok cert => isExpiringSoon cert
                 | Err _ => ret true
                 end in
  match existing, reload with
  | Ok cert, false => ret (Some (Ok cert))
  | _, _ =>
      let! r := acquire rounds in
      match r with
      | None => ret None
      | Some (Err e) => ret (Some (Wrapf "bootstrap acquire: " e))
      | Some (Ok _) => once (wrap "loading certificate after acquire: " loadExistingCert)
      end
  end.

(** One tick of [renewalLoop]: the certificate it goes on with, and the one it
    hands to [onRenew]. *)
Definition renewal_turn (rounds : nat) (current : tls_Certificate)
    : M (option (tls_Certificate * option tls_Certificate)) :=
  let! soon := isExpiringSoon current in
  if negb soon then ret (Some (current, None))
  else
    let! r := acquire rounds in
    match r with
    | None => ret None
    | Some (Err _) => ret (Some (current, None))
    | Some (Ok _) =>
        let! rc := loadExistingCert in
        ret (Some (match rc with Ok cert => (cert, Some cert) | Err _ => (current, None) end))
    end.
End manager.
