(* ===== verification/BackgroundProps.v ===== *)
(** * What the background work guarantees

    What hook scripts are given, that the upstream is asked to validate only after
    the record is deployed, how a challenge ends, and the single clean-up. *)
From S2P Require Export Background HandlerRel.

Section background.
Context `{Env} `{!RowOrder} (cfg : Config).

Definition is_hook (ev : event) : bool := match ev with EvHook _ _ => true | _ => false end.
Definition hooks_of (w : World) : list event := List.filter is_hook (w_trace w).

(** No script is started, and clients keep their keys. *)
Definition no_hooks (w w' : World) : Prop :=
  hooks_of w' = hooks_of w ∧ w_proc w' = w_proc w ∧ w_jobs w' = w_jobs w ∧
  ∀ c, client_key w' c = client_key w c.
#[export] Instance no_hooks_pre : PreOrder no_hooks.
Proof.
  split; [by intros w|]. unfold no_hooks. intros w1 w2 w3 (?&?&?&Hk1) (?&?&?&Hk2).
  split_and!; congruence.
Qed.
Lemma filter_http evs : forallb is_http evs = true → List.filter is_hook evs = [].
Proof. induction evs as [|[] evs IH]; simpl; [done|exact IH|done|done]. Qed.
#[export] Instance no_hooks_post : PostRel no_hooks.
Proof.
  apply client_frame_post; [apply _|]. intros w w' [].
  destruct cf_trace as (evs & Ht & Hf). split_and!; [|done|done|].
  - unfold hooks_of. rewrite Ht, List.filter_app, (filter_http evs Hf). by rewrite app_nil_r.
  - intros c. specialize (cf_heap c). unfold client_key.
    destruct (w_heap w' !! c), (w_heap w !! c); simpl in *; try done. by injection cf_heap as ->.
Qed.
Lemma no_hooks_read A (f : Store → result A) : keeps no_hooks (db_read f).
Proof. apply keeps_db; [apply _|]. by intros w. Qed.
#[local] Hint Resolve no_hooks_read : keeps.

(** ** Scripts *)

(** A script that may be run: absolute, a file, executable. *)
Definition runnable (script : string) : Prop :=
  HasPrefix script "/" = true ∧ ∃ n, env_stat n script = Ok (false, true).

(** A run of a script: nothing, when the path is refused; or the script,
    trimmed, with exactly the variables of the target. *)
Definition hook_run (script : string) (t : dnsChallengeTarget) (v token : string)
    (r : option (result unit)) (w w' : World) : Prop :=
  w_proc w' = w_proc w ∧ w_jobs w' = w_jobs w ∧ (∀ c, client_key w' c = client_key w c) ∧
  ((hooks_of w' = hooks_of w ∧ ∃ e, r = Some (Err e)) ∨
   (hooks_of w' = hooks_of w ++ [EvHook (TrimSpace script) (hook_env t v token)] ∧
    runnable (TrimSpace script))).

Lemma after_runDNSHookScript script t v token w :
  after (runDNSHookScript script t v token) w (λ r w', hook_run script t v token r w w' ∧ r ≠ None).
Proof.
  unfold runDNSHookScript, validateDNSHookScriptPath. set (s := TrimSpace script).
  apply after_bind_ok. destruct (s ==? ""); [split; [|done]; split_and!; try done; left; eauto|].
  destruct (HasPrefix s "/") eqn:Habs; cbn [negb];
    [|split; [|done]; split_and!; try done; left; eauto].
  apply after_bind, after_ask, after_ret.
  destruct (env_stat (w_tick w) s) as [[[] []]|e] eqn:Hst;
    try (split; [|done]; split_and!; try done; left; by eauto).
  unfold exec_hook, emit. apply after_bind, after_bind, after_ask.
  destruct (env_ctx _) as [e|].
  { apply after_ret. cbn [uncurry]. apply after_ret. split; [|done]. split_and!; try done. left. eauto. }
  apply after_bind, after_modify, after_ask.
  destruct (env_exec _ _ _) as [out e]. apply after_ret. split; [|done].
  split_and!; try done. right. split.
  - unfold hooks_of. simpl. by rewrite List.filter_app.
  - split; [done|]. by exists (w_tick w).
Qed.

(** ** Deployment *)
Section deploy.
Context (hook : DNSHook) (c : client_ref).

(** The record of a dns-01 challenge (RFC 8555 section 8.4) at an allowed place. *)
Definition record_of (w : World) (t : dnsChallengeTarget) (v token : string) : Prop :=
  ∃ k tp domain, client_key w c = Some k ∧ ec_Thumbprint k = Ok tp ∧ domain ≠ "" ∧
    v = EncodeToString (sha256 (token +:+ "." +:+ EncodeToString tp)) ∧
    target_allowed hook domain (acme_prefix +:+ domain) t.

(** What preparing a challenge does: no script and no job; or one run of the
    deploy script for the challenge's record, then at most the watcher that removes the
    same record. *)
Inductive prepared (r : option (option (result unit))) (w w' : World) : Prop :=
| prepared_none :
    hooks_of w' = hooks_of w → w_proc w' = w_proc w → w_jobs w' = w_jobs w → prepared r w w'
| prepared_deploy t v token :
    record_of w t v token →
    hooks_of w' = hooks_of w ++ [EvHook (TrimSpace (DeployScript hook)) (hook_env t v token)] →
    runnable (TrimSpace (DeployScript hook)) → w_proc w' = w_proc w →
    (w_jobs w' = w_jobs w ∨
     ∃ u, w_jobs w' = w_jobs w ++ [CleanupJob c u v token (CleanupScript hook) t] ∧
          CleanupScript hook ≠ "" ∧ r = Some (Some (Ok tt))) →
    prepared r w w'.

Lemma prepared_quiet r w w' : no_hooks w w' → prepared r w w'.
Proof. intros (? & ? & ? & _). by apply prepared_none. Qed.
Lemma prepared_after r w w1 w' : no_hooks w w1 → prepared r w1 w' → prepared r w w'.
Proof.
  intros (Hh & Hp & Hj & Hk) [Hh' Hp' Hj'|t v token Hrec Hh' Hrun Hp' Hj'].
  - apply prepared_none; congruence.
  - apply (prepared_deploy r w w' t v token); [|congruence|done|congruence|by rewrite <- Hj].
    destruct Hrec as (k & tp & d & Hkey & Hrest). exists k, tp, d. by rewrite <- Hk.
Qed.

Lemma DNS01_value token w :
  after (DNS01TXTFromToken c token) w (λ r w', w' = w ∧ ∀ ka v, r = Some (Ok (ka, v)) →
    ∃ k tp, client_key w c = Some k ∧ ec_Thumbprint k = Ok tp ∧
      v = EncodeToString (sha256 (token +:+ "." +:+ EncodeToString tp))).
Proof.
  unfold DNS01TXTFromToken. destruct (token ==? ""); [done|].
  apply after_bind, after_deref. unfold client_key. destruct (w_heap w !! c) as [cl|]; [|done].
  destruct (ec_Thumbprint (key cl)) as [tp|] eqn:Htp; [|done].
  apply after_ret. split; [done|]. intros ka v [= _ <-]. by exists (key cl), tp.
Qed.

(** The end of a deployment: the propagation decides, and the watcher starts. *)
Lemma deploy_finish rounds t v token u fqdn w w0 :
  record_of w0 t v token →
  hooks_of w = hooks_of w0 ++ [EvHook (TrimSpace (DeployScript hook)) (hook_env t v token)] →
  runnable (TrimSpace (DeployScript hook)) → w_proc w = w_proc w0 → w_jobs w = w_jobs w0 →
  after (let! rw := waitForDNSPropagation rounds hook fqdn v in
         let finish : M (option (result unit)) :=
           do! (if CleanupScript hook !=? "" then
                  start_job (CleanupJob c u v token (CleanupScript hook) t)
                else ret tt) in
           ret (Some (Ok tt)) in
         match rw with
         | None => ret None
         | Some (Err e) =>
             let! done := ask env_ctx in
             match done with
             | Some _ => ret (Some (Wrapf "dns-01 propagation aborted: " e))
             | None => finish
             end
         | Some (Ok _) => finish
         end) w (λ r w', prepared r w0 w').
Proof.
  intros Hrec Hh Hrun Hp Hj.
  assert (∀ r w', no_hooks w w' → prepared r w0 w') as Hend.
  { intros r w' (Hh' & Hp' & Hj' & _). apply (prepared_deploy r w0 w' t v token); try done; [congruence..|].
    left. congruence. }
  apply after_bind, (after_keeps no_hooks); [apply keeps_wait, _|]. intros r w1 _ Hw1.
  destruct r as [[rw|]|]; [|by apply Hend..]. cbv zeta.
  assert (∀ w2, no_hooks w w2 →
    after (do! (if CleanupScript hook !=? "" then
                  start_job (CleanupJob c u v token (CleanupScript hook) t)
                else ret tt) in ret (Some (Ok tt) : option (result unit))) w2
      (λ r w', prepared r w0 w')) as Hfin.
  { intros w2 Hw2. destruct (CleanupScript hook ==? "") eqn:Hc; cbn [negb]; [by apply Hend|].
    destruct Hw2 as (Hh' & Hp' & Hj' & _). apply after_bind, after_modify, after_ret.
    apply (prepared_deploy _ w0 _ t v token); [done|unfold hooks_of in *; simpl; congruence|done|simpl; congruence|].
    right. exists u. simpl. split; [congruence|]. split; [by apply String.eqb_neq|done]. }
  destruct rw as [[]|e]; [by apply Hfin|].
  apply after_bind, after_ask. destruct (env_ctx _); [apply Hend|apply Hfin];
    (etrans; [exact Hw1|apply (pr_ask _ env_ctx w1)]).
Qed.

Lemma deploy_challenge_prepared rounds u az ch w :
  after (deploy_challenge rounds hook c u az ch) w (λ r w', prepared r w w').
Proof.
  assert (∀ r, prepared r w w) as Hnone by (intros r; by apply prepared_quiet).
  unfold deploy_challenge. destruct (ch_Type ch !=? "dns-01"); [apply after_ret, Hnone|].
  set (domain := TrimSuffix _ "."). destruct (String.eqb_spec domain "") as [|Hd]; [apply after_ret, Hnone|].
  apply after_bind. eapply after_mono; [apply DNS01_value|].
  intros [[[ka v]|e]|] w1 [-> Hv]; [|apply Hnone..].
  destruct (Hv ka v eq_refl) as (k & tp & Hk & Htp & Hval).
  apply after_bind.
  pose proof (challenge_target_allowed hook domain (acme_prefix +:+ domain) w) as Hal.
  apply (after_keeps no_hooks); [apply keeps_target, _|]. intros r w2 Hrun2 Hw2.
  unfold after in Hal. rewrite Hrun2 in Hal.
  destruct r as [[t|e]|]; [|by apply prepared_quiet..].
  assert (record_of w2 t v (ch_Token ch)) as Hrec.
  { destruct Hw2 as (_ & _ & _ & Hkey). exists k, tp, domain. rewrite Hkey. split_and!; try done. by apply Hal. }
  apply (after_mono _ _ (λ r w', prepared r w2 w')); [|intros; by eapply prepared_after].
  apply after_bind. eapply after_mono; [apply after_runDNSHookScript|].
  intros r w3 [(Hp3 & Hj3 & Hk3 & Hhook) _].
  destruct Hhook as [[Hh [e ->]]|[Hh Hrun]]; [by apply prepared_none|].
  assert (∀ r', prepared r' w2 w3) as Hdone.
  { intros r'. apply (prepared_deploy r' w2 w3 t v (ch_Token ch)); [done..|by left]. }
  destruct r as [[[]|e]|]; [|by apply Hdone..].
  by apply (deploy_finish rounds t v (ch_Token ch) u (EffectiveFQDN t) w3 w2).
Qed.

Lemma prepare_authzs_prepared rounds url rms w :
  after (prepare_authzs rounds hook c url rms) w (λ r w', prepared r w w').
Proof.
  revert w. induction rms as [|rm rms IH]; intros w; simpl; [by apply prepared_quiet|].
  apply after_bind, (after_keeps no_hooks); [apply keeps_GetAuthorization, _|].
  intros [[az|e]|] w1 _ Hw1; [|eapply after_mono; [apply IH|]; intros; by eapply prepared_after
                               |by apply prepared_quiet].
  destruct (List.find _ _) as [ch|]; eapply after_mono; try apply IH; try apply deploy_challenge_prepared;
    intros; by eapply prepared_after.
Qed.
End deploy.

Lemma prepare_prepared rounds o c url w :
  after (prepareDNS01Challenge cfg rounds o c url) w (λ r w',
    prepared (dnsHookForUpstream cfg (order_UpstreamID o)) c r w w').
Proof.
  set (hook := dnsHookForUpstream cfg (order_UpstreamID o)). unfold prepareDNS01Challenge. fold hook.
  destruct (DeployScript hook ==? ""); [by apply prepared_quiet|].
  apply after_bind, (after_keeps no_hooks); [apply no_hooks_read|].
  intros [[rms|e]|] w1 _ Hw1; [|by apply prepared_quiet..].
  eapply after_mono; [apply prepare_authzs_prepared|]. intros; by eapply prepared_after.
Qed.

(** C17: what a challenge publishes. Preparing a challenge starts at most one
    script: the configured deploy script (an absolute path to an executable file), given
    the base64url SHA-256 of token "." thumbprint of the client's own key, for the source
    name or a delegated name the allow-list accepts. The clean-up watcher it may leave has
    the same name and value. *)
Theorem deploy_publishes rounds o c url w :
  let hook := dnsHookForUpstream cfg (order_UpstreamID o) in
  after (prepareDNS01Challenge cfg rounds o c url) w (λ r w', prepared hook c r w w').
Proof. intros hook. apply prepare_prepared. Qed.

(** ** How a challenge ends *)

(** Still the record that was made at [created], not failed. *)
Definition in_progress (w : World) (id : string) (created : time) : Prop :=
  ∃ p, w_proc w !! id = Some p ∧ cp_createdAt p = created.
Definition failed_with (w : World) (id errType : string) (created : time) : Prop :=
  ∃ msg, w_proc w !! id = Some (MkProgress created "invalid" errType msg).

(** Where the two halves of the goroutine leave its record, whenever they return. *)
Definition record_failed (errType msg id : string) (created : time)
    : gmap string challengeProgress → gmap string challengeProgress :=
  alter (λ p, if (cp_createdAt p =? created)%Z then fail_progress errType msg p else p) id.
Definition processed (c : client_ref) (url id : string) (created : time) (w w' : World) : Prop :=
  (w_jobs w' = w_jobs w ∧ ∃ msg, w_proc w' = record_failed "dns" msg id created (w_proc w)) ∨
  (w_proc w' = w_proc w ∧ ∃ js, w_jobs w' = w_jobs w ++ js ++ [TriggerJob c url id created]).
Definition triggered (c : client_ref) (url id : string) (created : time) (w w' : World) : Prop :=
  w_jobs w' = w_jobs w ∧
  ((∃ msg, w_proc w' = record_failed "serverInternal" msg id created (w_proc w)) ∨
   (w_proc w' = delete id (w_proc w) ∧ ∃ chal, (TriggerChallenge c url w).1 = Some (Ok chal))).
Lemma record_failed_with errType msg id created w w' :
  w_proc w' = record_failed errType msg id created (w_proc w) →
  in_progress w id created → failed_with w' id errType created.
Proof.
  intros Hm (p & Hp & Hc). exists msg. rewrite Hm. unfold record_failed. rewrite lookup_alter_eq, Hp. simpl.
  rewrite (proj2 (Z.eqb_eq _ _) Hc). unfold fail_progress. by rewrite Hc.
Qed.

Lemma process_processed rounds c o url id created w :
  after (process_step cfg rounds c o url id created) w (λ r w',
    r = Some (Some tt) → processed c url id created w w').
Proof.
  unfold process_step. apply after_bind. eapply after_mono; [apply prepare_prepared|].
  intros r w1 Hprep. assert (w_proc w1 = w_proc w) as Hp1 by by destruct Hprep.
  destruct r as [[[[]|e]|]|]; [| |done..].
  - apply after_bind, after_modify, after_ret. intros _. right. split; [done|].
    assert (∃ js, w_jobs w1 = w_jobs w ++ js) as [js Hjs].
    { destruct Hprep as [_ _ Hj|t v token _ _ _ _ [Hj|(u & Hj & _)]];
        [exists []; by rewrite app_nil_r|exists []; by rewrite app_nil_r|by eexists]. }
    exists js. simpl. by rewrite Hjs, app_assoc.
  - assert (w_jobs w1 = w_jobs w) as Hj1.
    { destruct Hprep as [_ _ Hj|t v token _ _ _ _ [Hj|(u & _ & _ & [=])]]; done. }
    apply after_bind, after_modify, after_ret. intros _. left. split; [done|].
    eexists. simpl. rewrite Hp1. reflexivity.
Qed.

Lemma trigger_triggered c url id created w :
  after (trigger_step c url id created) w (λ r w', r = Some (Some tt) → triggered c url id created w w').
Proof.
  unfold trigger_step. apply after_bind, (after_keeps no_hooks); [apply keeps_TriggerChallenge, _|].
  intros r w1 Hrun (_ & Hp1 & Hj1 & _). destruct r as [[chal|e]|]; [| |done].
  - apply after_bind, after_modify, after_ret. intros _. split; [done|]. right.
    simpl. rewrite Hp1, Hrun. simpl. eauto.
  - apply after_bind, after_modify, after_ret. intros _. split; [done|]. left.
    eexists. simpl. rewrite Hp1. reflexivity.
Qed.

(** *** They return *)
Section returns.
Context (c : client_ref).

Lemma total_DNS01 token : no_panic c (DNS01TXTFromToken c token).
Proof using Type. unfold DNS01TXTFromToken. total_auto. Qed.
Lemma total_target hook domain fqdn : no_panic c (resolveDNSChallengeTarget hook domain fqdn).
Proof using Type.
  assert (∀ fuel d cur seen, no_panic c (resolve_loop fuel d cur seen)) as Hloop.
  { induction fuel; intros; simpl; unfold lookupCNAMEOnce; total_auto; auto. }
  unfold resolveDNSChallengeTarget, resolveDelegatedFQDN. total_auto.
Qed.
Lemma total_script script t v token : no_panic c (runDNSHookScript script t v token).
Proof using Type. unfold runDNSHookScript, validateDNSHookScriptPath, exec_hook. total_auto. Qed.
Lemma total_start_job j : no_panic c (start_job j).
Proof using Type. apply total_update_jobs. Qed.
#[local] Hint Resolve total_DNS01 total_target total_script total_start_job : no_panic.

Lemma has_client_key w : has_client c w ↔ is_Some (client_key w c).
Proof. unfold has_client, client_key. by rewrite fmap_is_Some. Qed.

Section enough.
Context (rounds : nat) (hook : DNSHook) (Htime : time_passes hook) (Hrounds : rounds_suffice rounds hook).

Lemma settles_wait fqdn txt : settles c (waitForDNSPropagation (S rounds) hook fqdn txt).
Proof using Htime Hrounds.
  intros w Hc. apply (after_keeps no_hooks); [apply keeps_wait, _|]. intros r w' Hrun (_ & _ & _ & Hk).
  rewrite has_client_key, Hk, <- has_client_key. split; [|done].
  pose proof (wait_settles rounds hook fqdn txt w Htime Hrounds) as Hw. unfold after in Hw. by rewrite Hrun in Hw.
Qed.
Lemma settles_deploy u az ch : settles c (deploy_challenge (S rounds) hook c u az ch).
Proof using Htime Hrounds.
  unfold deploy_challenge. destruct (_ !=? _); [apply settles_ret|]. cbv zeta.
  destruct (_ ==? ""); [apply settles_ret|].
  apply settles_bind; [total_auto|]. intros [[ka v]|e]; [|apply settles_ret].
  apply settles_bind; [total_auto|]. intros [t|e]; [|apply settles_ret].
  apply settles_bind; [total_auto|]. intros [[]|e]; [|apply settles_ret].
  assert (settles c (do! (if CleanupScript hook !=? "" then
                  start_job (CleanupJob c u v (ch_Token ch) (CleanupScript hook) t)
                else ret tt) in ret (Some (Ok tt) : option (result unit)))) as Hfin
    by (apply settles_bind; [total_auto|intros; apply settles_ret]).
  apply settles_poll; [apply settles_wait|]. intros [[]|e]; [exact Hfin|].
  apply settles_bind; [total_auto|]. intros [e'|]; [apply settles_ret|exact Hfin].
Qed.
Lemma settles_prepare_authzs url rms : settles c (prepare_authzs (S rounds) hook c url rms).
Proof using Htime Hrounds.
  induction rms as [|rm rms IH]; [apply settles_ret|]. cbn [prepare_authzs].
  apply settles_bind; [total_auto|]. intros [az|e]; [|exact IH].
  destruct (List.find _ _); [apply settles_deploy|exact IH].
Qed.
End enough.

Lemma settles_process rounds o url id created :
  let hook := dnsHookForUpstream cfg (order_UpstreamID o) in
  time_passes hook → rounds_suffice rounds hook → settles c (process_step cfg (S rounds) c o url id created).
Proof using Type.
  intros hook Ht Hr. unfold process_step. apply settles_poll.
  - unfold prepareDNS01Challenge. fold hook. destruct (_ ==? ""); [apply settles_ret|].
    apply settles_bind; [total_auto|]. intros [rms|e]; [by apply settles_prepare_authzs|apply settles_ret].
  - intros [[]|e]; (apply settles_bind; [unfold fail_challenge; total_auto|intros; apply settles_ret]).
Qed.
Lemma settles_trigger url id created : settles c (trigger_step c url id created).
Proof using Type.
  unfold trigger_step, fail_challenge. apply settles_bind; [total_auto|]. intros r.
  apply settles_bind; [total_auto|intros; apply settles_ret].
Qed.
End returns.

(** C16: a challenge the gateway took never stays in processing. Its goroutine returns,
    as long as its client exists and waiting advances the clock: the first half leaves the
    record invalid with a dns problem and starts nothing more, or queues the second half; and
    the second half, whenever it runs, returns too and leaves the record invalid with a
    server problem, or gone, the upstream having accepted the trigger. *)
Theorem challenge_ends rounds c o url id created w :
  let hook := dnsHookForUpstream cfg (order_UpstreamID o) in
  time_passes hook → rounds_suffice rounds hook →
  has_client c w → in_progress w id created →
  ∃ w1, process_step cfg (S rounds) c o url id created w = (Some (Some tt), w1) ∧ has_client c w1 ∧
  ((failed_with w1 id "dns" created ∧ w_jobs w1 = w_jobs w) ∨
   (w_proc w1 = w_proc w ∧ (∃ js, w_jobs w1 = w_jobs w ++ js ++ [TriggerJob c url id created]) ∧
    ∀ w2, has_client c w2 → in_progress w2 id created →
    ∃ w3, trigger_step c url id created w2 = (Some (Some tt), w3) ∧ w_jobs w3 = w_jobs w2 ∧
      (failed_with w3 id "serverInternal" created ∨
       (w_proc w3 = delete id (w_proc w2) ∧ ∃ chal, (TriggerChallenge c url w2).1 = Some (Ok chal))))).
Proof.
  intros hook Htime Hrounds Hc Hin.
  pose proof (settles_process c rounds o url id created Htime Hrounds w Hc) as [[[] Hr] Hc1].
  pose proof (process_processed (S rounds) c o url id created w) as Hp. unfold after in Hp.
  destruct (process_step _ _ _ _ _ _ _ w) as [r w1]. cbn [fst snd] in *. exists w1. rewrite Hr.
  split; [done|]. split; [done|]. destruct (Hp Hr) as [[Hj [msg Hf]]|[Hproc Hj]];
    [left; split; [by eapply record_failed_with|done]|right].
  split; [done|]. split; [done|]. intros w2 Hc2 Hin2.
  pose proof (settles_trigger c url id created w2 Hc2) as [[[] Hr2] _].
  pose proof (trigger_triggered c url id created w2) as Ht. unfold after in Ht.
  destruct (trigger_step _ _ _ _ w2) as [r2 w3]. cbn [fst snd] in *. exists w3. rewrite Hr2.
  split; [done|]. destruct (Ht Hr2) as [Hj3 [[msg Hm]|Hd]]; (split; [done|]); [left|by right].
  by eapply record_failed_with.
Qed.

(** One turn of the watcher that goes on, or ends it. *)
Definition cleanup_goes_on c u v token script t (w w' : World) : Prop :=
  w_jobs w' = w_jobs w ++ [CleanupJob c u v token script t] ∧ hooks_of w' = hooks_of w.
Definition cleanup_time (c : client_ref) (u : string) (w : World) : Prop :=
  is_Some (env_sleep (w_tick w) second) ∨
  ∃ az w1, (GetAuthorization c u w1).1 = Some (Ok az) ∧ az_Status az ≠ "pending".
Definition cleanup_ends v token script t (w w' : World) : Prop :=
  w_jobs w' = w_jobs w ∧
  (hooks_of w' = hooks_of w ∨
   hooks_of w' = hooks_of w ++ [EvHook (TrimSpace script) (hook_env t v token)] ∧
   runnable (TrimSpace script)).

(** The record is cleaned up once. Each turn of the watcher either goes on
    without starting a script, or ends it with one run of the clean-up script for the same
    name and value (none when its path is refused or the context has ended); it ends when its time is up or the
    authorization is no longer pending. *)
Theorem cleanup_once c u v token script t w :
  after (cleanup_step c u v token script t) w (λ r w', r = Some (Some tt) →
    cleanup_goes_on c u v token script t w w' ∨
    (cleanup_ends v token script t w w' ∧ cleanup_time c u w)).
Proof.
  unfold cleanup_step. apply after_bind, after_ask. set (w0 := set_tick (S (w_tick w)) w).
  assert (no_hooks w w0) as Hw0 by apply (pr_ask (R := no_hooks) _ (λ n, env_sleep n second) w).
  assert (∀ w1, no_hooks w w1 → cleanup_time c u w →
    after (let! _ := runDNSHookScript script t v token in ret (Some tt)) w1 (λ r w', r = Some (Some tt) →
      cleanup_goes_on c u v token script t w w' ∨
      (cleanup_ends v token script t w w' ∧ cleanup_time c u w))) as Hrun.
  { intros w1 (Hh1 & Hp1 & Hj1 & _) Hwhy. apply after_bind. eapply after_mono; [apply after_runDNSHookScript|].
    intros r w2 [(Hp2 & Hj2 & _ & Hhook) _]. destruct r as [r|]; [|done]. apply after_ret. intros _. right.
    split; [|exact Hwhy]. split; [congruence|]. destruct Hhook as [[Hh _]|[Hh Hr]]; [left; congruence|].
    right. split; [congruence|done]. }
  assert (∀ w1, no_hooks w w1 →
    after (do! start_job (CleanupJob c u v token script t) in ret (Some tt)) w1
      (λ r w', r = Some (Some tt) → cleanup_goes_on c u v token script t w w' ∨
        (cleanup_ends v token script t w w' ∧ cleanup_time c u w))) as Hagain.
  { intros w1 (Hh1 & Hp1 & Hj1 & _). apply after_bind, after_modify, after_ret. intros _. left.
    split; simpl; [by rewrite Hj1|exact Hh1]. }
  destruct (env_sleep (w_tick w) second) as [e|] eqn:Hs; [apply Hrun; [done|left; rewrite Hs; by eexists]|].
  apply after_bind, (after_keeps no_hooks); [apply keeps_GetAuthorization, _|].
  intros [[az|e]|] w1 Haz Hw1; [|by apply Hagain; etrans|done].
  assert (no_hooks w w1) by by etrans.
  destruct (String.eqb_spec (az_Status az) "pending") as [|Hst]; [by apply Hagain|].
  apply Hrun; [done|]. right. exists az, w0. by rewrite Haz.
Qed.
End background.
