(* ===== verification/BootstrapProps.v ===== *)
(** * What the bootstrap guarantees

    Atomic replacement of files at every point where the process may stop, the states of
    the certificate and its key on disk, the account key, the hook scripts, and the end
    of the polls. *)
From S2P Require Export Bootstrap BackgroundProps.

Section files_props.
Context `{Env} (disk : gmap string file).

Abbreviation files := (files disk).

(** ** Points where the process may stop *)

Definition replay (fs : gmap string file) (ops : list file_op) : gmap string file :=
  foldl apply_file fs ops.

(** Between [w] and [w'], the files are in a state of [P] after every event. *)
Definition stays (P : gmap string file → Prop) (w w' : World) : Prop :=
  ∃ ops, file_ops w' = file_ops w ++ ops ∧ ∀ n, P (replay (files w) (take n ops)).

Lemma files_app w w' ops : file_ops w' = file_ops w ++ ops → files w' = replay (files w) ops.
Proof. intros Ho. unfold files. by rewrite Ho, foldl_app. Qed.
Lemma stays_start P w w' : stays P w w' → P (files w).
Proof. intros (ops & _ & HP). exact (HP 0). Qed.
Lemma stays_end P w w' : stays P w w' → P (files w').
Proof.
  intros (ops & Ho & HP). rewrite (files_app _ _ _ Ho). specialize (HP (length ops)).
  by rewrite firstn_all in HP.
Qed.
Lemma stays_refl P w w' : file_ops w' = file_ops w → P (files w) → stays P w w'.
Proof. intros Ho HP. exists []. rewrite app_nil_r. split; [done|]. by intros []. Qed.
Lemma stays_trans P w1 w2 w3 : stays P w1 w2 → stays P w2 w3 → stays P w1 w3.
Proof.
  intros (o1 & Ho1 & P1) (o2 & Ho2 & P2). exists (o1 ++ o2). split; [by rewrite Ho2, Ho1, app_assoc|].
  intros n. rewrite take_app. unfold replay in *. rewrite foldl_app.
  destruct (decide (n ≤ length o1)) as [Hn|Hn].
  - replace (n - length o1) with 0 by lia. apply P1.
  - rewrite (take_ge o1) by lia. rewrite (files_app _ _ _ Ho1) in P2. apply P2.
Qed.
Lemma stays_mono (P Q : gmap string file → Prop) w w' : (∀ fs, P fs → Q fs) → stays P w w' → stays Q w w'.
Proof. intros HPQ (ops & Ho & HP). exists ops. split; [done|]. intros n. apply HPQ, HP. Qed.
Lemma stays_op P w w' op :
  file_ops w' = file_ops w ++ [op] → P (files w) → P (apply_file (files w) op) → stays P w w'.
Proof. intros Ho Hp0 Hp1. exists [op]. split; [done|]. intros [|[|n]]; done. Qed.

(** No file is touched. *)
Definition same_files (w w' : World) : Prop := file_ops w' = file_ops w.
#[export] Instance same_files_pre : PreOrder same_files.
Proof. split; [by intros w|]. unfold same_files. intros ? ? ? ? ?. congruence. Qed.
Lemma no_file_http evs : forallb is_http evs = true → omap file_event evs = [].
Proof. induction evs as [|[] evs IH]; simpl; [done|exact IH|done|done]. Qed.
#[export] Instance same_files_post : PostRel same_files.
Proof.
  apply client_frame_post; [apply _|]. intros w w' []. destruct cf_trace as (evs & Ht & Hf).
  unfold same_files, file_ops. by rewrite Ht, omap_app, (no_file_http evs Hf), app_nil_r.
Qed.
Lemma same_files_eq w w' : same_files w w' → files w' = files w.
Proof. intros Hs. unfold files. by rewrite Hs. Qed.

Lemma file_ops_emit w op : file_ops (set_trace (w_trace w ++ [EvFile op]) w) = file_ops w ++ [op].
Proof. unfold file_ops. simpl. by rewrite omap_app. Qed.

Lemma after_file_do op w :
  after (file_do op) w (λ r w',
    (∃ e, r = Some (Err e) ∧ file_ops w' = file_ops w) ∨
    (r = Some (Ok tt) ∧ file_ops w' = file_ops w ++ [op])).
Proof.
  unfold file_do. apply after_bind, after_ask. destruct (env_file _) as [e|].
  - apply after_ret. left. by exists e.
  - apply after_bind, after_modify, after_ret. right. split; [done|]. apply (file_ops_emit (set_tick _ w)).
Qed.

(** ** The temporary file *)
Section write.
Context (path data : string) (mode : Z) (fs0 : gmap string file).

(** The states of a replacement: as before, with a temporary file beside, or
    replaced. *)
Definition unfinished (tmp : string) (fs : gmap string file) : Prop := ∃ f, fs = <[tmp := f]> fs0.
Definition leftover (fs : gmap string file) : Prop :=
  fs = fs0 ∨ ∃ r, fs0 !! tmp_path (filepath_Dir path) r = None ∧
               unfinished (tmp_path (filepath_Dir path) r) fs.
Definition write_state (fs : gmap string file) : Prop :=
  leftover fs ∨ fs = <[path := MkFile data mode]> fs0.

Context (tmp r : string) (Htmp : tmp = tmp_path (filepath_Dir path) r) (Hnew : fs0 !! tmp = None).

Lemma unfinished_leftover fs : unfinished tmp fs → leftover fs.
Proof using Htmp Hnew. intros Hu. right. exists r. rewrite <- Htmp. done. Qed.

(** The bytes arrive one by one. *)
Lemma after_append_bytes s m pre w :
  files w = <[tmp := MkFile pre m]> fs0 →
  after (append_bytes tmp s) w (λ r w',
    r = Some tt ∧ stays (unfinished tmp) w w' ∧ files w' = <[tmp := MkFile (pre +:+ s) m]> fs0).
Proof using Htmp Hnew.
  revert pre w. induction s as [|c s IH]; intros pre w Hw; cbn [append_bytes].
  - apply after_ret. rewrite app_nil_r_str. split_and!; [done| |done].
    apply stays_refl; [done|]. by eexists.
  - apply after_bind, after_modify. set (w1 := set_trace _ w).
    pose proof (file_ops_emit w (FAppend tmp c)) as Ho. fold w1 in Ho.
    assert (files w1 = <[tmp := MkFile (pre +:+ String c "") m]> fs0) as Hw1.
    { rewrite (files_app _ _ _ Ho). simpl. rewrite Hw. by rewrite alter_insert_eq. }
    eapply after_mono; [apply (IH _ _ Hw1)|]. intros x w' (-> & Hs & Hf). split_and!; [done| |].
    + eapply stays_trans; [|exact Hs]. eapply stays_op; [exact Ho|by eexists|].
      change (unfinished tmp (replay (files w) [FAppend tmp c])). rewrite <- (files_app _ _ _ Ho).
      by eexists.
    + rewrite Hf. do 2 f_equal. by rewrite <- app_assoc_str.
Qed.

Lemma after_file_Write m w :
  files w = <[tmp := MkFile "" m]> fs0 →
  after (file_Write tmp data) w (λ x w', stays (unfinished tmp) w w' ∧
    ((∃ e, x = Some (Err e)) ∨ (x = Some (Ok tt) ∧ files w' = <[tmp := MkFile data m]> fs0))).
Proof using Htmp Hnew.
  intros Hw. unfold file_Write. apply after_bind, after_ask. destruct (env_file _) as [e|].
  - apply after_bind, after_ask, after_bind.
    eapply after_mono; [by apply (after_append_bytes _ m "")|]. intros x w' (-> & Hs & _).
    apply after_ret. split; [exact Hs|eauto].
  - apply after_bind. eapply after_mono; [by apply (after_append_bytes _ m "")|].
    intros x w' (-> & Hs & Hf). apply after_ret. split; [exact Hs|]. right. by split.
Qed.

(** The temporary file goes, or stays behind. *)
Lemma after_remove f (e : error) w :
  files w = <[tmp := f]> fs0 →
  after (let! _ := file_do (FRemove tmp) in ret (Err e : result unit)) w (λ x w',
    x = Some (Err e) ∧ stays (leftover) w w').
Proof using Htmp Hnew.
  intros Hw. apply after_bind. eapply after_mono; [apply after_file_do|].
  assert (leftover (files w)) as Hl by (apply unfinished_leftover; by exists f).
  intros x w' [(e' & -> & Ho)|[-> Ho]]; apply after_ret; (split; [done|]).
  - by apply stays_refl.
  - eapply stays_op; [exact Ho|done|]. left. rewrite Hw. simpl. rewrite delete_insert_eq.
    by apply delete_id.
Qed.

(** What a step of the writing may leave. *)
Definition step_outcome (fs : gmap string file) (x : option (result unit)) (w w' : World) : Prop :=
  stays (unfinished tmp) w w' ∧
  ((∃ e, x = Some (Err e)) ∨ (x = Some (Ok tt) ∧ files w' = fs)).
Definition final_outcome (x : option (result unit)) (w w' : World) : Prop :=
  stays (write_state) w w' ∧
  ((∃ e, x = Some (Err e) ∧ leftover (files w')) ∨
   (x = Some (Ok tt) ∧ files w' = <[path := MkFile data mode]> fs0)).

Lemma final_trans x (w1 w2 w3 : World) :
  stays (unfinished tmp) w1 w2 → final_outcome x w2 w3 → final_outcome x w1 w3.
Proof using Htmp Hnew.
  intros Hs [Hs' Hx]. split; [|exact Hx]. eapply stays_trans; [|exact Hs'].
  eapply stays_mono; [|exact Hs]. intros fs Hu. left. by apply unfinished_leftover.
Qed.
Lemma removed_final f e w :
  files w = <[tmp := f]> fs0 →
  after (let! _ := file_do (FRemove tmp) in ret (Err e : result unit)) w (λ x w', final_outcome x w w').
Proof using Htmp Hnew.
  intros Hw. eapply after_mono; [by apply (after_remove f)|]. intros x w' [-> Hs]. split.
  - eapply stays_mono; [|exact Hs]. intros fs Hl. by left.
  - left. exists e. split; [done|]. by eapply stays_end.
Qed.

Lemma after_or_remove (m k : M (result unit)) fs w :
  after m w (λ x w', step_outcome fs x w w') →
  (∀ w', files w' = fs → after k w' (λ x w'', final_outcome x w' w'')) →
  after (or_remove tmp m k) w (λ x w', final_outcome x w w').
Proof using Htmp Hnew.
  intros Hm Hk. unfold or_remove. apply after_bind. eapply after_mono; [exact Hm|].
  intros x w1 [Hs [[e ->]|[-> Hf]]].
  - destruct (stays_end _ _ _ Hs) as [f Hw1].
    eapply after_mono; [by apply (removed_final f)|]. intros x w2. by apply final_trans.
  - eapply after_mono; [by apply Hk|]. intros x w2. by apply final_trans.
Qed.
Lemma after_or_close_remove (m k : M (result unit)) fs w :
  after m w (λ x w', step_outcome fs x w w') →
  (∀ w', files w' = fs → after k w' (λ x w'', final_outcome x w' w'')) →
  after (or_close_remove tmp m k) w (λ x w', final_outcome x w w').
Proof using Htmp Hnew.
  intros Hm Hk. unfold or_close_remove. apply after_bind. eapply after_mono; [exact Hm|].
  intros x w1 [Hs [[e ->]|[-> Hf]]].
  - destruct (stays_end _ _ _ Hs) as [f Hw1]. unfold file_Close.
    apply after_bind, after_bind, after_ask, after_ret.
    eapply after_mono; [apply (removed_final f e (set_tick _ w1)), Hw1|]. intros x w2 Hx.
    eapply final_trans; [exact Hs|]. exact Hx.
  - eapply after_mono; [by apply Hk|]. intros x w2. by apply final_trans.
Qed.

Lemma after_fill w :
  files w = <[tmp := MkFile "" 384]> fs0 →
  after (or_close_remove tmp (file_Write tmp data)
    (or_close_remove tmp (file_do (FChmod tmp mode))
      (or_remove tmp file_Close
        (file_do (FRename tmp path))))) w (λ x w', final_outcome x w w').
Proof using Htmp Hnew.
  intros Hw. apply (after_or_close_remove _ _ (<[tmp := MkFile data 384]> fs0)).
  { by apply after_file_Write. }
  intros w1 Hw1. apply (after_or_close_remove _ _ (<[tmp := MkFile data mode]> fs0)).
  { eapply after_mono; [apply after_file_do|]. intros x w' [(e & -> & Ho)|[-> Ho]].
    - split; [apply stays_refl; [done|by eexists]|eauto].
    - assert (files w' = <[tmp := MkFile data mode]> fs0) as Hw'.
      { rewrite (files_app _ _ _ Ho). simpl. by rewrite Hw1, alter_insert_eq. }
      split; [|eauto]. eapply stays_op; [exact Ho|by eexists|].
      change (unfinished tmp (replay (files w1) [FChmod tmp mode])).
      rewrite <- (files_app _ _ _ Ho). by eexists. }
  intros w2 Hw2. apply (after_or_remove _ _ (<[tmp := MkFile data mode]> fs0)).
  { unfold file_Close. apply after_bind, after_ask, after_ret. split.
    - apply stays_refl; [done|]. by eexists.
    - destruct (env_file _); eauto. }
  intros w3 Hw3. eapply after_mono; [apply after_file_do|].
  assert (leftover (files w3)) as Hl by (apply unfinished_leftover; by eexists).
  intros x w' [(e & -> & Ho)|[-> Ho]].
  - split; [by apply stays_refl; [|left]|]. left. exists e. split; [done|].
    unfold files. rewrite Ho. exact Hl.
  - assert (files w' = <[path := MkFile data mode]> fs0) as Hw'.
    { rewrite (files_app _ _ _ Ho). simpl. rewrite Hw3, lookup_insert_eq, delete_insert_eq.
      by rewrite delete_id. }
    split; [|by right]. eapply stays_op; [exact Ho|by left|].
    change (write_state (replay (files w3) [FRename tmp path])).
    rewrite <- (files_app _ _ _ Ho). by right.
Qed.
End write.

Lemma after_CreateTemp dir w :
  after (CreateTemp disk dir) w (λ x w',
    (∃ e, x = Some (Err e) ∧ file_ops w' = file_ops w) ∨
    (∃ r, x = Some (Ok (tmp_path dir r)) ∧ files w !! tmp_path dir r = None ∧
          file_ops w' = file_ops w ++ [FCreate (tmp_path dir r)])).
Proof.
  unfold CreateTemp. apply after_bind, after_ask, after_bind, after_gets.
  destruct (List.find _ _) as [p|] eqn:Hf; [|apply after_ret; left; eauto].
  apply List.find_some in Hf as [Hin Hp]. apply bool_decide_eq_true in Hp.
  apply list_elem_of_In, list_elem_of_fmap in Hin as (r & -> & _).
  apply after_bind_ok. eapply after_mono; [apply after_file_do|].
  intros x w' [(e & -> & Ho)|[-> Ho]]; [left; by exists e|].
  apply after_ret. right. by exists r.
Qed.

Lemma after_atomicWrite path data mode w :
  after (atomicWrite disk path data mode) w (λ x w',
    final_outcome path data mode (files w) x w w').
Proof.
  unfold atomicWrite. apply after_bind_ok. eapply after_mono; [apply after_CreateTemp|].
  intros x w1 [(e & -> & Ho)|(r & -> & Hnew & Ho)].
  - split; [apply stays_refl; [done|]; by left; left|]. left. exists e. split; [done|].
    left. by apply same_files_eq.
  - assert (files w1 = <[tmp_path (filepath_Dir path) r := MkFile "" 384]> (files w)) as Hw1
      by by rewrite (files_app _ _ _ Ho).
    eapply after_mono; [by eapply (after_fill path data mode (files w) _ r)|].
    intros x w' [Hs Hx]. split; [|exact Hx]. eapply stays_trans; [|exact Hs].
    eapply stays_op; [exact Ho|by left; left|]. left. right. exists r. split; [done|].
    by eexists.
Qed.

(** A path that is not of the form of a temporary name beside [path]. *)
Definition apart (path q : string) : Prop := ∀ r, tmp_path (filepath_Dir path) r ≠ q.

Lemma leftover_other path fs0 fs q :
  leftover path fs0 fs → apart path q ∨ is_Some (fs0 !! q) → fs !! q = fs0 !! q.
Proof.
  intros [->|(r & Hnew & f & ->)] Hq; [done|]. apply lookup_insert_ne. intros <-.
  destruct Hq as [Hq|Hq]; [by apply (Hq r)|]. rewrite Hnew in Hq. by destruct Hq.
Qed.

(** C27: a file is replaced atomically. Wherever the process stops, and whatever fails,
    the path holds what it held before or the complete new contents with their mode, and
    every other file is as it was. Success means replaced; an error means nothing changed but
    for a temporary file that may stay behind. *)
Theorem atomic_write_crash_safe path data mode w :
  apart path path →
  let '(r, w') := atomicWrite disk path data mode w in
  stays (λ fs, (fs !! path = files w !! path ∨ fs !! path = Some (MkFile data mode)) ∧
               ∀ q, q ≠ path → is_Some (files w !! q) → fs !! q = files w !! q) w w' ∧
  ((r = Some (Ok tt) ∧ files w' = <[path := MkFile data mode]> (files w)) ∨
   (∃ e, r = Some (Err e) ∧ leftover path (files w) (files w'))).
Proof.
  intros Hap. pose proof (after_atomicWrite path data mode w) as [Hs Hx]. unfold after in *.
  destruct (atomicWrite disk path data mode w) as [r w']. cbn [fst snd] in *. split.
  - eapply stays_mono; [|exact Hs]. intros fs [Hl| ->].
    + split; [left; apply (leftover_other path); eauto|]. intros q _ Hq. apply (leftover_other path); eauto.
    + rewrite lookup_insert_eq. split; [by right|]. intros q Hq _. by rewrite lookup_insert_ne.
  - destruct Hx as [Hx|Hx]; [by right|by left].
Qed.

(** Another path, existing or not, is left alone. *)
Lemma atomicWrite_other path data mode q w :
  path ≠ q → apart path q →
  after (atomicWrite disk path data mode) w (λ _ w', stays (λ fs, fs !! q = files w !! q) w w').
Proof.
  intros Hne Hap. eapply after_mono; [apply after_atomicWrite|]. intros r w' [Hs _].
  eapply stays_mono; [|exact Hs]. intros fs [Hl| ->].
  - apply (leftover_other path); eauto.
  - by rewrite lookup_insert_ne.
Qed.
End files_props.

(** ** The account key *)
Section account_key.
Context `{Env} (disk : gmap string file) (boot : BootstrapConfig).

Lemma after_ReadFile d p w :
  after (ReadFile d p) w (λ r w', w' = set_tick (S (w_tick w)) w ∧
    ((∃ e, r = Some (Err e)) ∨ ∃ f, r = Some (Ok (f_data f)) ∧ files d w !! p = Some f)).
Proof.
  unfold ReadFile. apply after_bind, after_ask. destruct (env_file _); [apply after_ret; eauto|].
  apply after_bind, after_gets, after_ret. split; [done|].
  change (files d (set_tick (S (w_tick w)) w)) with (files d w).
  destruct (files d w !! p) as [f|] eqn:Hf; [right; eauto|left; eauto].
Qed.
Lemma ReadFile_ok d p f w :
  env_file (w_tick w) = None → files d w !! p = Some f →
  ReadFile d p w = (Some (Ok (f_data f)), set_tick (S (w_tick w)) w).
Proof.
  intros He Hf. unfold ReadFile, bind, ask, gets, ret. rewrite He.
  change (files d (set_tick (S (w_tick w)) w)) with (files d w). by rewrite Hf.
Qed.

(** The key a stored text holds. *)
Definition key_of (text : string) : option ECKey :=
  block ← pem_Decode text; ok_opt (ParseECPrivateKey block).
Lemma key_of_pem `{!CryptoLaws} k der : MarshalECPrivateKey k = Ok der → key_of (pem_EncodeECKey der) = Some k.
Proof.
  intros Hk%pem_roundtrip. unfold key_of, parseECPrivateKeyPEM in *.
  destruct (pem_Decode _) as [block|]; simpl in *; [|done].
  by destruct (ParseECPrivateKey block); simplify_eq.
Qed.

(** The key returned is the one the file holds, or a new one written to it. *)
Lemma after_loadOrCreate w :
  after (loadOrCreateAccountKey disk boot) w (λ r w', ∀ k, r = Some (Ok k) →
    (∃ f, files disk w !! accountKeyPath boot = Some f ∧ key_of (f_data f) = Some k ∧
          w' = set_tick (S (w_tick w)) w) ∨
    ∃ der, env_genkey (S (w_tick w)) = Ok k ∧ MarshalECPrivateKey k = Ok der ∧
      files disk w' = <[accountKeyPath boot := MkFile (pem_EncodeECKey der) 384]> (files disk w)).
Proof.
  unfold loadOrCreateAccountKey. apply after_bind. eapply after_mono; [apply after_ReadFile|].
  intros r w1 [-> Hr]. destruct r as [data|]; [|by destruct Hr as [[? [=]]|(?&[=]&_)]].
  destruct (mbind _ _) as [k0|] eqn:Hk0.
  - apply after_ret. intros k [= ->]. left. destruct Hr as [[e [= ->]]|(f & [= ->] & Hf)]; [done|].
    exists f. done.
  - apply after_bind_ok, after_wrap, after_ask. cbn [w_tick set_tick].
    destruct (env_genkey _) as [k1|] eqn:Hgen; [|done].
    apply after_bind_ok, after_wrap, after_ret. destruct (MarshalECPrivateKey k1) as [der|] eqn:Hder; [|done].
    apply after_bind_ok, after_wrap. eapply after_mono; [apply after_atomicWrite|].
    intros r w2 [_ [(e & -> & _)|[-> Hf]]]; [done|]. apply after_ret. intros k [= <-]. right.
    exists der. split_and!; [done|done|]. by rewrite Hf.
Qed.

(** C29: the bootstrap's ACME account key is kept. Once a run has obtained it, every
    later run, also after a restart, that finds the file as the first one left it gets
    the same key, without generating or writing anything, if it can read the file. *)
Theorem account_key_kept `{!CryptoLaws} w :
  let '(r, w') := loadOrCreateAccountKey disk boot w in
  ∀ k, r = Some (Ok k) →
  ∀ disk2 w2, files disk2 w2 !! accountKeyPath boot = files disk w' !! accountKeyPath boot →
    env_file (w_tick w2) = None →
    loadOrCreateAccountKey disk2 boot w2 = (Some (Ok k), set_tick (S (w_tick w2)) w2).
Proof.
  pose proof (after_loadOrCreate w) as Hl. unfold after in Hl.
  destruct (loadOrCreateAccountKey disk boot w) as [r w']. cbn [fst snd] in *.
  intros k Hr disk2 w2 Hf He.
  assert (∃ f, files disk2 w2 !! accountKeyPath boot = Some f ∧ key_of (f_data f) = Some k)
    as (f & Hf2 & Hk).
  { destruct (Hl k Hr) as [(f & Hf1 & Hk & ->)|(der & _ & Hder & Hw')].
    - exists f. rewrite Hf. by split.
    - eexists. rewrite Hf, Hw', lookup_insert_eq. split; [done|]. by apply key_of_pem. }
  unfold loadOrCreateAccountKey. unfold bind at 1. rewrite (ReadFile_ok _ _ _ _ He Hf2).
  cbn [ok_opt mbind option_bind]. unfold key_of in Hk. by rewrite Hk.
Qed.

(** When the file cannot be read for once, the key is generated anew and the file
    replaced, while the account URL saved beside it stays. *)
Lemma failed_read_replaces_account_key w e k :
  env_file (w_tick w) = Some e →
  after (loadOrCreateAccountKey disk boot) w (λ r w', r = Some (Ok k) →
    (∃ der, files disk w' !! accountKeyPath boot = Some (MkFile (pem_EncodeECKey der) 384) ∧
       env_genkey (S (w_tick w)) = Ok k) ∧
    files disk w' !! accountURLPath boot = files disk w !! accountURLPath boot).
Proof.
  intros He. unfold loadOrCreateAccountKey. apply after_bind.
  assert (ReadFile disk (accountKeyPath boot) w = (Some (Err e), set_tick (S (w_tick w)) w)) as Hrd
    by (unfold ReadFile, bind, ask, ret; by rewrite He).
  unfold after at 1. rewrite Hrd. cbn [fst snd ok_opt mbind option_bind].
  apply after_bind_ok, after_wrap, after_ask. cbn [w_tick set_tick].
  destruct (env_genkey _) as [k1|] eqn:Hgen; [|done].
  apply after_bind_ok, after_wrap, after_ret. destruct (MarshalECPrivateKey k1) as [der|]; [|done].
  apply after_bind_ok, after_wrap. eapply after_mono; [apply after_atomicWrite|].
  intros r w2 [_ [(e' & -> & _)|[-> Hf]]]; [done|]. apply after_ret. intros [= <-].
  rewrite Hf. split.
  - exists der. by rewrite lookup_insert_eq.
  - apply lookup_insert_ne. unfold accountURLPath. intros Heq%(f_equal String.length).
    rewrite length_app_str in Heq. simpl in Heq. lia.
Qed.
End account_key.

(** ** Relations kept by the steps before the files are written *)
Section polls_keep.
Context `{Env} (R : World → World → Prop) `{!PostRel R}.
Lemma keeps_poll_loop rounds deadline get what : keeps R get → keeps R (poll_loop rounds deadline get what).
Proof using Type*. intros Hg. induction rounds; cbn [poll_loop]; keeps_auto. Qed.
Lemma keeps_pollAuthorization rounds c u : keeps R (pollAuthorization rounds c u).
Proof using Type*. unfold pollAuthorization. keeps_auto. apply keeps_poll_loop. keeps_auto. Qed.
Lemma keeps_pollOrder rounds c u : keeps R (pollOrder rounds c u).
Proof using Type*. unfold pollOrder. keeps_auto. apply keeps_poll_loop. keeps_auto. Qed.
End polls_keep.
#[export] Hint Resolve keeps_pollAuthorization keeps_pollOrder : keeps.

(** The files of the ACME account. *)
Definition account_path (boot : BootstrapConfig) (p : string) : Prop :=
  p = accountKeyPath boot ∨ p = accountURLPath boot.

Class AccountRel `{Env} (disk : gmap string file) (boot : BootstrapConfig) (R : World → World → Prop) := {
  br_post :: PostRel R;
  br_write p data mode : account_path boot p → keeps R (atomicWrite disk p data mode)
}.
(** ... scripts included. *)
Class BootRel `{Env} (disk : gmap string file) (boot : BootstrapConfig) (R : World → World → Prop) := {
  br_account :: AccountRel disk boot R;
  br_hook script env : keeps R (emit (EvHook script env))
}.

Section account_keeps.
Context `{Env} `{!NetURL} (disk : gmap string file) (boot : BootstrapConfig)
  (up : UpstreamConfig) (R : World → World → Prop) `{!AccountRel disk boot R}.

#[local] Hint Resolve pr_ask : keeps.
#[local] Hint Extern 1 (PostRel _) => typeclasses eauto : keeps.

Lemma keeps_ReadFile p : keeps R (ReadFile disk p).
Proof using Type*. unfold ReadFile. keeps_auto. Qed.
#[local] Hint Resolve keeps_ReadFile : keeps.
Lemma keeps_loadOrCreateAccountKey : keeps R (loadOrCreateAccountKey disk boot).
Proof using Type*.
  assert (∀ d m, keeps R (atomicWrite disk (accountKeyPath boot) d m)) by (intros; apply br_write; by left).
  unfold loadOrCreateAccountKey. keeps_auto.
Qed.
Lemma keeps_New url k : keeps R (New url (Some k)).
Proof using Type*. unfold New. keeps_auto. Qed.
Lemma keeps_bootstrap_account c :
  (∀ u, keeps R (SetAccountURL c u)) → keeps R (bootstrap_account disk boot up c).
Proof using Type*.
  intros Hset.
  assert (∀ d m, keeps R (atomicWrite disk (accountURLPath boot) d m)) by (intros; apply br_write; by right).
  unfold bootstrap_account. keeps_auto.
Qed.

Lemma keeps_wait_valid rounds c u o : keeps R (wait_valid rounds c u o).
Proof using Type*. unfold wait_valid. keeps_auto. Qed.
Lemma keeps_FetchCertificate c u : keeps R (FetchCertificate c u).
Proof using Type*. unfold FetchCertificate. keeps_auto. Qed.
End account_keeps.
#[export] Hint Resolve keeps_loadOrCreateAccountKey keeps_New keeps_bootstrap_account
  keeps_wait_valid keeps_FetchCertificate keeps_ReadFile : keeps.
#[export] Hint Extern 1 (AccountRel _ _ _) => typeclasses eauto : keeps.

Section setup_keeps.
Context `{Env} `{!NetURL} (disk : gmap string file) (boot : BootstrapConfig)
  (R : World → World → Prop) `{!BootRel disk boot R}.

#[local] Hint Resolve br_hook pr_ask : keeps.
#[local] Hint Extern 1 (PostRel _) => typeclasses eauto : keeps.

Lemma keeps_exec_hook script env : keeps R (exec_hook script env).
Proof using Type*. unfold exec_hook. keeps_auto. Qed.
#[local] Hint Resolve keeps_exec_hook : keeps.
Lemma keeps_Deploy h d v t : keeps R (Deploy h d v t).
Proof using Type*. unfold Deploy, runScript. keeps_auto. Qed.
Lemma keeps_Cleanup h d v t : keeps R (Cleanup h d v t).
Proof using Type*. unfold Cleanup, runScript. keeps_auto. Qed.
#[local] Hint Resolve keeps_Deploy keeps_Cleanup : keeps.

Lemma keeps_process_authz rounds c u : keeps R (process_authz boot rounds c u).
Proof using Type*.
  unfold process_authz, KeyAuthorization, PublicKeyThumbprint. keeps_auto.
Qed.
#[local] Hint Resolve keeps_process_authz : keeps.
Lemma keeps_process_all rounds c us : keeps R (process_all boot rounds c us).
Proof using Type*. induction us; cbn [process_all]; keeps_auto. Qed.
End setup_keeps.
#[export] Hint Resolve keeps_process_all : keeps.
#[export] Hint Extern 1 (BootRel _ _ _) => typeclasses eauto : keeps.

(** A relation kept by every file event is kept by whole replacements. *)
Section writes_keep.
Context `{Env} (disk : gmap string file) (R : World → World → Prop) `{!PostRel R}
  (Hfile : ∀ op, keeps R (emit (EvFile op))).

Lemma keeps_append_bytes p s : keeps R (append_bytes p s).
Proof using Type*. induction s; cbn [append_bytes]; keeps_auto. Qed.
#[local] Hint Resolve keeps_append_bytes : keeps.
Lemma keeps_atomicWrite path data mode : keeps R (atomicWrite disk path data mode).
Proof using Type*.
  unfold atomicWrite, CreateTemp, or_close_remove, or_remove, file_Write, file_Close, file_do. keeps_auto.
Qed.
End writes_keep.

(** ... and by a whole turn of the renewal, if it is kept by a new client and
    what that client does. *)
Section turn_keeps.
Context `{Env} `{!NetURL} `{!TLSFiles} (disk : gmap string file) (boot : BootstrapConfig)
  (up : UpstreamConfig) (R : World → World → Prop) `{!PostRel R}
  (Hfile : ∀ op, keeps R (emit (EvFile op))) (Hhook : ∀ script env, keeps R (emit (EvHook script env))).

#[local] Instance files_boot : BootRel disk boot R.
Proof using Type*. split; [split; [done|]|done]. intros. by apply keeps_atomicWrite. Qed.
#[local] Hint Resolve keeps_atomicWrite : keeps.

Lemma keeps_obtain rounds c k :
  (∀ u, keeps R (SetAccountURL c u)) → keeps R (obtain disk boot up rounds c k).
Proof using Type*. intros Hset. unfold obtain, write_pair. keeps_auto. Qed.

Context (Hclient : ∀ rounds k cl, client_nonces cl = empty_ring →
  keeps R (let! c := new_client cl in obtain disk boot up rounds c k)).

Lemma keeps_acquire rounds : keeps R (acquire disk boot up rounds).
Proof using Type*.
  unfold acquire. keeps_step; [keeps_auto|]. destruct a as [[k|e]|]; [|keeps_auto..].
  keeps_step; [keeps_auto|]. destruct a as [[ak|e]|]; [|keeps_auto..].
  exact (Hclient rounds k (MkClient _ (DirectoryURL up) ak "" None empty_ring) eq_refl).
Qed.
#[local] Hint Resolve keeps_acquire : keeps.
Lemma keeps_renewal_turn rounds current : keeps R (renewal_turn disk boot up rounds current).
Proof using Type*. unfold renewal_turn, isExpiringSoon, loadExistingCert. keeps_auto. Qed.
End turn_keeps.

(** The trace only grows. *)
Section grows.
Context `{Env}.
Definition grows (w w' : World) : Prop := w_trace w `prefix_of` w_trace w'.
#[export] Instance grows_pre : PreOrder grows.
Proof. split; [intros w; unfold grows; reflexivity|]. intros w1 w2 w3. unfold grows. by etrans. Qed.
#[export] Instance grows_post : PostRel grows.
Proof.
  apply client_frame_post; [apply _|]. intros w w' []. destruct cf_trace as (evs & Ht & _).
  unfold grows. rewrite Ht. by eexists.
Qed.
Lemma grows_emit ev : keeps grows (emit ev).
Proof. intros w. by eexists. Qed.
End grows.

(** ** Programs in stages *)
Section stages.
Context `{Env}.

(** A stage of [acquire]: what is to be shown holds wherever it stops, or goes on from its
    value.  [w0] is where the whole run began. *)
Lemma after_stage {A B} (R : World → World → Prop) `{!PreOrder R} (m : M (option (result A)))
    (k : A → M (option (result B))) (Q : option (option (result B)) → World → Prop) w0 w :
  R w0 w → keeps R m →
  (∀ r w', R w0 w' → (∀ b, r ≠ Some (Some (Ok b))) → Q r w') →
  after m w (λ r w', ∀ a, r = Some (Some (Ok a)) → R w0 w' → R w w' → after (k a) w' Q) →
  after (let!! x := m in k x) w Q.
Proof using Type.
  intros Hw0 Hk Hstop Hgo. apply after_bind. pose proof (Hk w) as Hw. unfold after in *.
  destruct (m w) as [r w']. cbn [fst snd] in *. assert (R w0 w') as Hw1 by (etrans; [exact Hw0|exact Hw]).
  destruct r as [[[a|e]|]|]; [by apply Hgo| | |]; by apply Hstop.
Qed.
Lemma after_once {A} (m : M (result A)) w (Q : option (option (result A)) → World → Prop) :
  after m w (λ r w', Q (Some <$> r) w') → after (once m) w Q.
Proof using Type. intros Hm. apply after_bind. eapply after_mono; [exact Hm|]. by intros [r|] w'. Qed.
End stages.

Ltac stage :=
  match goal with
  | Hw : ?R ?w0 ?w, Hstop : ∀ r w', ?R _ w' → _ |- after _ ?w _ =>
      apply (after_stage R _ _ _ w0); [exact Hw|handler_auto|exact Hstop|clear Hw]
  end.
(** A stage whose value does not matter. *)
Tactic Notation "stage_any" ident(w') ident(a) ident(Hw) := stage; apply after_run; intros _ w' _ a _ Hw _.

(** ** The certificate and its key *)

(** No file of the bootstrap is another one of them, or a temporary name: an assumption on
    the configuration, which its validation does not check. *)
Record distinct_paths (boot : BootstrapConfig) : Prop := {
  dp_pair : KeyPath boot ≠ CertPath boot;
  dp_account p : account_path boot p → p ≠ KeyPath boot ∧ p ≠ CertPath boot;
  dp_apart p : account_path boot p ∨ p = KeyPath boot ∨ p = CertPath boot →
    apart p (KeyPath boot) ∧ apart p (CertPath boot)
}.

Section acquire.
Context `{Env} `{!NetURL} (disk : gmap string file) (boot : BootstrapConfig) (up : UpstreamConfig)
  (Hpaths : distinct_paths boot).

Abbreviation files := (files disk).

(** The two files. *)
Definition pair (fs : gmap string file) : option file * option file :=
  (fs !! KeyPath boot, fs !! CertPath boot).

(** Before they are written: both stay as they are. *)
Definition untouched (w w' : World) : Prop := stays disk (λ fs, pair fs = pair (files w)) w w'.
Definition setup (w w' : World) : Prop := untouched w w' ∧ grows w w'.

Lemma untouched_same w w' : same_files w w' → untouched w w'.
Proof using Type. intros Hs. by apply stays_refl. Qed.
#[local] Instance untouched_pre : PreOrder untouched.
Proof using Type.
  split; [intros w; by apply untouched_same|]. intros w1 w2 w3 Hs1 Hs2.
  eapply stays_trans; [exact Hs1|]. pose proof (stays_end _ _ _ _ Hs1) as He.
  eapply stays_mono; [|exact Hs2]. simpl. intros fs Hfs. congruence.
Qed.
#[local] Instance setup_pre : PreOrder setup.
Proof using Type.
  split; [intros w; split; reflexivity|]. intros w1 w2 w3 [] []. split; by etrans.
Qed.
Lemma keeps_setup {A} (m : M A) : keeps same_files m → keeps grows m → keeps setup m.
Proof using Type. intros Hs Hg w. split; [apply untouched_same, Hs|apply Hg]. Qed.
Lemma setup_quiet w w' : w_trace w' = w_trace w → setup w w'.
Proof using Type.
  intros Ht. split; [|unfold grows; by rewrite Ht]. apply untouched_same.
  unfold same_files, file_ops. by rewrite Ht.
Qed.
#[local] Instance setup_post : PostRel setup.
Proof using Type.
  split; [apply _| | |]; intros; apply keeps_setup;
    (apply pr_ask || apply pr_Directory || apply pr_attempts).
Qed.
#[local] Instance setup_boot : BootRel disk boot setup.
Proof using Hpaths.
  split; [split; [apply _|]|].
  - intros p data mode Hp w. split; [|apply keeps_atomicWrite; [apply _|intros op; apply grows_emit]].
    destruct (dp_account _ Hpaths p Hp) as [Hk Hc]. destruct (dp_apart _ Hpaths p) as [Hak Hac]; [by left|].
    pose proof (atomicWrite_other disk p data mode (KeyPath boot) w Hk Hak) as (o1 & Ho1 & Hs1).
    pose proof (atomicWrite_other disk p data mode (CertPath boot) w Hc Hac) as (o2 & Ho2 & Hs2).
    exists o1. split; [done|]. assert (o2 = o1) as -> by (rewrite Ho1 in Ho2; by simplify_list_eq).
    intros n. unfold pair. by rewrite Hs1, Hs2.
  - intros sc e. apply keeps_setup; [|apply grows_emit]. intros w.
    unfold same_files, file_ops. simpl. rewrite omap_app. simpl. by rewrite app_nil_r.
Qed.

Definition csr_text (csr : string) : string := Marshal (JObj [("csr", JStr (EncodeToString csr))]).

(** The upstream was sent this payload, signed ... *)
Definition posted (w : World) (text : string) : Prop :=
  ∃ url accept nonce kh k, EvHTTP (MkHTTP _ "POST" url accept (SignedBody nonce url kh k text)) ∈ w_trace w.
(** ... and answered a download with this body. *)
Definition downloaded (body : string) : Prop :=
  ∃ i rq rs, env_http i rq = Ok rs ∧ rs_StatusCode rs = 200%Z ∧ rs_ReadErr rs = None ∧ rs_Body rs = body.

Lemma expect_200 rs : expect_status [200%Z] rs = Ok tt → rs_StatusCode rs = 200%Z.
Proof using Type.
  unfold expect_status. simpl. destruct (rs_StatusCode rs =? 200)%Z eqn:Hs; [|done].
  intros _. lia.
Qed.

Lemma after_FinalizeOrder c url csr w :
  after (FinalizeOrder c url csr) w (λ r w', ∀ o, r = Some (Ok o) → posted w' (csr_text csr)).
Proof using Type.
  unfold FinalizeOrder. apply after_bind_ok, after_wrap. eapply after_mono; [apply attempts_answered|].
  intros r w' Hr. destruct r as [[rs|e]|]; [|done..]. apply after_ret. intros o _.
  destruct (Hr rs eq_refl) as (nonce & kh & k & i & rs0 & Hin & _). by eexists _, _, _, _, _.
Qed.
Lemma after_FetchCertificate c url w :
  after (FetchCertificate c url) w (λ r w', ∀ chain, r = Some (Ok chain) → downloaded chain).
Proof using Type.
  unfold FetchCertificate, FetchCertificateWithAlternates, signedPostWithHeaders.
  apply after_bind_ok, after_bind_ok, after_wrap.
  eapply after_mono; [apply attempts_answered|]. intros r w' Hr. destruct r as [[rs|e]|]; [|done..].
  apply after_ret. destruct (expect_status [200%Z] rs) as [[]|] eqn:Hst; [|done].
  apply expect_200 in Hst. cbn [result_bind]. destruct (rs_ReadErr rs) eqn:Hre; [done|].
  apply after_ret. intros chain [= <-].
  destruct (answered_ok _ _ _ _ _ (Hr rs eq_refl) Hst) as (nonce & kh & k & i & _ & Hi).
  by eexists _, _, _.
Qed.

(** *** The two files *)

(** As before, the new key alone, or both. *)
Definition written (w : World) (pem chain : string) (fs : gmap string file) : Prop :=
  pair fs = pair (files w) ∨
  pair fs = (Some (MkFile pem 384), files w !! CertPath boot) ∨
  pair fs = (Some (MkFile pem 384), Some (MkFile chain 420)).

Lemma after_write_pair pem chain w :
  after (write_pair disk boot pem chain) w (λ r w',
    stays disk (written w pem chain) w w' ∧
    (r = Some (Ok tt) → pair (files w') = (Some (MkFile pem 384), Some (MkFile chain 420))) ∧
    (∀ e, r = Some (Err e) → files w' !! CertPath boot = files w !! CertPath boot)).
Proof using Hpaths.
  destruct Hpaths as [Hne _ Hap]. destruct (Hap (KeyPath boot)) as [Hkk Hkc]; [by right; left|].
  destruct (Hap (CertPath boot)) as [Hck Hcc]; [by right; right|].
  unfold write_pair. apply after_bind_ok, after_wrap. eapply after_mono; [apply after_atomicWrite|].
  intros r w1 [Hs1 Hr1].
  assert (stays disk (written w pem chain) w w1) as Hw1.
  { eapply stays_mono; [|exact Hs1]. unfold written, pair. intros fs [Hl| ->].
    - left. by rewrite !(leftover_other _ _ _ _ Hl) by auto.
    - right; left. by rewrite lookup_insert_eq, lookup_insert_ne. }
  destruct Hr1 as [(e & -> & Hl)|[-> Hf1]].
  { split_and!; [done|done|]. intros e' _. apply (leftover_other _ _ _ _ Hl). by left. }
  assert (pair (files w1) = (Some (MkFile pem 384), files w !! CertPath boot)) as Hp1.
  { unfold pair. by rewrite Hf1, lookup_insert_eq, lookup_insert_ne. }
  apply after_bind_ok, after_wrap. eapply after_mono; [apply after_atomicWrite|].
  intros r w2 [Hs2 Hr2].
  assert (stays disk (written w pem chain) w w2) as Hw2.
  { eapply stays_trans; [exact Hw1|]. eapply stays_mono; [|exact Hs2]. unfold written.
    intros fs [Hl| ->].
    - right; left. rewrite <- Hp1. unfold pair. by rewrite !(leftover_other _ _ _ _ Hl) by auto.
    - right; right. unfold pair in *. rewrite lookup_insert_eq, lookup_insert_ne by done. congruence. }
  injection Hp1 as Hk1 Hc1. destruct Hr2 as [(e & -> & Hl)|[-> Hf2]].
  - split_and!; [done|done|]. intros e' _. rewrite <- Hc1. apply (leftover_other _ _ _ _ Hl). by left.
  - apply after_ret. split_and!; [done| |done]. intros _. unfold pair.
    by rewrite Hf2, lookup_insert_eq, lookup_insert_ne, Hk1.
Qed.

(** The key of a run is the first thing it generates. *)
Definition issued (w : World) (k : ECKey) (pem : string) : Prop :=
  ∃ der, env_genkey (w_tick w) = Ok k ∧ MarshalECPrivateKey k = Ok der ∧ pem = pem_EncodeECKey der.

Definition pair_state (w : World) (fs : gmap string file) : Prop :=
  pair fs = pair (files w) ∨
  ∃ k pem chain, issued w k pem ∧ downloaded chain ∧ written w pem chain fs.

Definition acquired (w w' : World) : Prop :=
  ∃ k pem chain i csr, issued w k pem ∧ env_csr i k (boot_Domain boot) = Ok csr ∧
    posted w' (csr_text csr) ∧ downloaded chain ∧
    pair (files w') = (Some (MkFile pem 384), Some (MkFile chain 420)).

Definition acquire_outcome (w : World) (r : option (option (result unit))) (w' : World) : Prop :=
  stays disk (pair_state w) w w' ∧ (r = Some (Some (Ok tt)) → acquired w w') ∧
  (∀ e, r = Some (Some (Err e)) → files w' !! CertPath boot = files w !! CertPath boot).

Lemma stopped_early w r w' :
  setup w w' → (∀ b : unit, r ≠ Some (Some (Ok b))) → acquire_outcome w r w'.
Proof using Type.
  intros [Hu _] Hr. split_and!.
  - eapply stays_mono; [|exact Hu]. intros fs Hfs. by left.
  - intros ->. by destruct (Hr tt).
  - intros e _. by injection (stays_end _ _ _ _ Hu) as _ <-.
Qed.

Lemma posted_grows w w' text : grows w w' → posted w text → posted w' text.
Proof using Type.
  intros [evs Ht] (u & a & n & kh & k & Hin). exists u, a, n, kh, k. rewrite Ht.
  apply elem_of_app. by left.
Qed.

(** The last stage: the files. *)
Lemma finish_acquire w w1 k der csr i chain :
  setup w w1 → env_genkey (w_tick w) = Ok k → MarshalECPrivateKey k = Ok der →
  env_csr i k (boot_Domain boot) = Ok csr → posted w1 (csr_text csr) → downloaded chain →
  after (once (write_pair disk boot (pem_EncodeECKey der) chain)) w1 (acquire_outcome w).
Proof using Hpaths.
  intros [Hu Hg] Hk Hder Hcsr Hpost Hdown. apply after_once.
  set (pem := pem_EncodeECKey der). assert (issued w k pem) as Hiss by by exists der.
  assert (keeps grows (write_pair disk boot pem chain)) as Hgw.
  { assert (∀ p d m, keeps grows (atomicWrite disk p d m)) as Haw
      by (intros; apply keeps_atomicWrite; [apply _|intros op; apply grows_emit]).
    unfold write_pair. keeps_auto. }
  pose proof (Hgw w1) as Hg1. eapply after_keeps; [exact Hgw|].
  pose proof (after_write_pair pem chain w1) as Hw. unfold after in Hw. intros r w2 Hrun Hg2.
  rewrite Hrun in Hw. cbn [fst snd] in Hw. destruct Hw as (Hs & Hok & Herr).
  pose proof (stays_end _ _ _ _ Hu) as He. cbn beta in He. split_and!.
  - eapply stays_trans; [eapply stays_mono; [|exact Hu]; intros fs Hfs; by left|].
    eapply stays_mono; [|exact Hs]. intros fs Hfs. right. exists k, pem, chain. split_and!; [done|done|].
    unfold written in *. rewrite He in Hfs. injection He as _ <-. exact Hfs.
  - intros Hr. exists k, pem, chain, i, csr. split_and!; [done|done|by eapply posted_grows|done|].
    apply Hok. destruct r as [[[]|]|]; simpl in Hr; by simplify_eq.
  - intros e Hr. injection He as _ <-. apply (Herr e). destruct r as [[[]|]|]; simpl in Hr; by simplify_eq.
Qed.

Lemma after_acquire rounds w :
  after (acquire disk boot up rounds) w (acquire_outcome w).
Proof using Hpaths.
  pose proof setup_pre as Hpre. pose proof setup_post as Hpost. pose proof setup_boot as Hboot.
  pose proof (stopped_early w) as Hstop. assert (setup w w) as Hw0 by reflexivity.
  unfold acquire. stage.
  apply after_once, after_wrap, after_ask. intros k Hk. destruct (env_genkey (w_tick w)) as [k0|] eqn:Hgen; [|done].
  injection Hk as ->. intros Hw1 _.
  stage_any w2 akey Hw2. stage_any w3 cl Hw3. apply after_bind.
  assert (keeps setup (new_client cl)) as Hnew by (intros w'; by apply setup_quiet).
  apply (after_keeps setup _ _ _ Hnew). intros [client|] w4 _ Hw4; [|by apply Hstop; [etrans|]].
  assert (setup w w4) as Hw4' by (etrans; [exact Hw3|exact Hw4]). clear Hw3 Hw4. unfold obtain.
  assert (∀ u, keeps setup (SetAccountURL client u)) as Hset by (intros u w'; by apply setup_quiet).
  stage_any w5 acct Hw5. stage_any w6 order Hw6. destruct order as [order orderURL].
  destruct (ao_Authorizations order) as [|u us]; [by apply after_ret, Hstop|].
  stage_any w7 done7 Hw7. stage.
  apply after_once, after_wrap, after_ask. intros csr Hcsr Hw8 _.
  destruct (env_csr _ _ _) as [csr0|] eqn:Hc; [|done]. injection Hcsr as ->. stage.
  apply after_once, after_wrap. eapply after_mono; [apply after_FinalizeOrder|].
  intros r w9 Hpo order1 Hr Hw9 _. destruct r as [[o|]|]; simpl in Hr; [|done|done].
  specialize (Hpo o eq_refl). clear Hr. stage.
  apply after_run. intros _ w10 _ order2 _ Hw10 [_ Hg]. apply (posted_grows _ _ _ Hg) in Hpo. clear Hg.
  destruct (_ ==? ""); [by apply after_ret, Hstop|]. stage.
  apply after_once, after_wrap. eapply after_mono; [apply after_FetchCertificate|].
  intros r w11 Hdown chain Hr Hw11 [_ Hg]. apply (posted_grows _ _ _ Hg) in Hpo. clear Hg.
  destruct r as [[o'|]|]; simpl in Hr; [|done|done]. injection Hr as ->. specialize (Hdown chain eq_refl).
  apply (after_stage setup _ _ _ w); [exact Hw11|handler_auto|exact Hstop|].
  apply after_once, after_ret. intros der Hder _ _. injection Hder as Hder.
  by eapply finish_acquire.
Qed.

(** C24: what is on disk while the certificate is acquired. Wherever the process stops,
    the key and certificate files are as before, or hold the new key with the old
    certificate, or the new pair; never a part of a file or the new certificate without its key.
    Success means the new pair: the key generated by this run, of the CSR
    that was sent, and a chain an upstream served. A failed run leaves the certificate file
    as it was. The configured paths are assumed distinct ([distinct_paths]: key, certificate,
    account files and their temporary names), which the validation of the configuration does
    not check. *)
Theorem acquire_pair_on_disk rounds w :
  let '(r, w') := acquire disk boot up rounds w in
  stays disk (pair_state w) w w' ∧
  (r = Some (Some (Ok tt)) → acquired w w') ∧
  (∀ e, r = Some (Some (Err e)) → files w' !! CertPath boot = files w !! CertPath boot).
Proof using Hpaths.
  pose proof (after_acquire rounds w) as Ha. unfold after in Ha.
  by destruct (acquire disk boot up rounds w) as [r w'].
Qed.
End acquire.

(** ** Scripts *)
Section hooks.
Context `{Env} `{!NetURL} (disk : gmap string file) (boot : BootstrapConfig) (up : UpstreamConfig).

(** What the scripts are run for: the name of the authorization, and the digest of the
    key authorization (RFC 8555 section 8.4) of its dns-01 challenge, by the client's key. *)
Definition dns_record (c : client_ref) (w : World) (az : ACMEAuthorization)
    (domain validation token : string) : Prop :=
  domain = id_Value (az_Identifier az) ∧
  (∃ ch, ch ∈ az_Challenges az ∧ ch_Type ch = "dns-01" ∧ ch_Token ch = token) ∧
  ∃ k tp, client_key w c = Some k ∧ ec_Thumbprint k = Ok tp ∧
    validation = EncodeToString (sha256 (token +:+ "." +:+ EncodeToString tp)).

(** Failures among what happens between two states. *)
Definition context_ended (w w' : World) : Prop := ∃ n e, w_tick w ≤ n < w_tick w' ∧ env_ctx n = Some e.
Definition script_failed (s : string) (env : list (string * string)) (w w' : World) : Prop :=
  ∃ n out e, w_tick w ≤ n < w_tick w' ∧ env_exec n s env = (out, Some e).

(** The scripts of the authorization at [u], processed from [w] to [w']: none; the
    deployment followed by the clean-up; or the deployment alone, when it failed, or no
    clean-up is configured, or the context had ended. *)
Inductive authz_hooks (c : client_ref) (u : string) (w w' : World) : list event → Prop :=
| ah_none : authz_hooks c u w w' []
| ah_pair az d v t :
    (GetAuthorization c u w).1 = Some (Ok az) → dns_record c w az d v t →
    authz_hooks c u w w'
      [EvHook (DeployScript (boot_DNSHook boot)) (certbot_env d v t);
       EvHook (CleanupScript (boot_DNSHook boot)) (certbot_env d v t)]
| ah_deploy az d v t :
    (GetAuthorization c u w).1 = Some (Ok az) → dns_record c w az d v t →
    CleanupScript (boot_DNSHook boot) = "" ∨ context_ended w w' ∨
      script_failed (DeployScript (boot_DNSHook boot)) (certbot_env d v t) w w' →
    authz_hooks c u w w' [EvHook (DeployScript (boot_DNSHook boot)) (certbot_env d v t)].

(** The loop over the authorizations: each in turn, until one fails. *)
Inductive authzs_run (rounds : nat) (c : client_ref) :
    list string → World → list (list event) → World → Prop :=
| run_nil w : authzs_run rounds c [] w [] w
| run_next u us w b w1 bs w2 :
    process_authz boot rounds c u w = (Some (Some (Ok tt)), w1) → authz_hooks c u w w1 b →
    authzs_run rounds c us w1 bs w2 → authzs_run rounds c (u :: us) w (b :: bs) w2
| run_stop u us w b w1 e :
    process_authz boot rounds c u w = (Some (Some (Err e)), w1) → authz_hooks c u w w1 b →
    authzs_run rounds c (u :: us) w [b] w1.

(** No script is run. *)
Definition quiet (w w' : World) : Prop := hooks_of w' = hooks_of w ∧ ticks w w'.
#[local] Instance quiet_pre : PreOrder quiet.
Proof using Type.
  split; [by intros w; split|]. intros w1 w2 w3 [Hh1 Ht1] [Hh2 Ht2].
  split; [congruence|by etrans].
Qed.
Lemma keeps_quiet {A} (m : M A) : keeps no_hooks m → keeps ticks m → keeps quiet m.
Proof using Type. intros Hn Ht w. split; [apply Hn|apply Ht]. Qed.
#[local] Instance quiet_post : PostRel quiet.
Proof using Type.
  split; [apply _| | |]; intros; (apply keeps_quiet; [|keeps_auto]);
    (apply pr_ask || apply pr_Directory || apply pr_attempts).
Qed.
Lemma quiet_same w w' : hooks_of w' = hooks_of w → w_tick w' = w_tick w → quiet w w'.
Proof using Type. intros Hh Ht. split; [done|by apply ticks_same]. Qed.
Lemma quiet_file op : keeps quiet (emit (EvFile op)).
Proof using Type.
  intros w. apply quiet_same; [|done]. unfold hooks_of. simpl. by rewrite List.filter_app, app_nil_r.
Qed.
#[local] Instance quiet_account : AccountRel disk boot quiet.
Proof using Type.
  split; [apply _|]. intros p data mode _. apply keeps_atomicWrite; [apply _|apply quiet_file].
Qed.

Lemma after_exec_hook s env w :
  after (exec_hook s env) w (λ r w', ticks w w' ∧
    ((hooks_of w' = hooks_of w ∧ context_ended w w' ∧ ∃ e, r = Some ("", Some e)) ∨
     (hooks_of w' = hooks_of w ++ [EvHook s env] ∧
      ∃ out oe, r = Some (out, oe) ∧ (oe = None ∨ script_failed s env w w')))).
Proof using Type.
  unfold exec_hook. apply after_bind, after_ask. destruct (env_ctx (w_tick w)) as [e|] eqn:He.
  - apply after_ret. split; [unfold ticks; simpl; lia|]. left. split; [done|]. split; [|by eexists].
    exists (w_tick w), e. simpl. split; [lia|done].
  - apply after_bind, after_modify, after_ask. split; [unfold ticks; simpl; lia|]. right. split.
    + unfold hooks_of. simpl. by rewrite List.filter_app.
    + cbn [w_tick set_tick set_trace]. destruct (env_exec _ s env) as [out [e|]] eqn:Hex; eexists _, _;
        (split; [done|]); [right|by left].
      exists (S (w_tick w)), out, e. simpl. split; [lia|done].
Qed.

Section one.
Context (d v tok : string).
Abbreviation h := (boot_DNSHook boot).
Abbreviation deploy_ev := (EvHook (DeployScript h) (certbot_env d v tok)).
Abbreviation cleanup_ev := (EvHook (CleanupScript h) (certbot_env d v tok)).

Lemma after_Deploy w :
  after (Deploy h d v tok) w (λ r w', ticks w w' ∧
    ((hooks_of w' = hooks_of w ∧ ∃ e, r = Some (Err e)) ∨
     (hooks_of w' = hooks_of w ++ [deploy_ev] ∧
      (r = Some (Ok tt) ∨ script_failed (DeployScript h) (certbot_env d v tok) w w')))).
Proof using Type.
  unfold Deploy. destruct (_ ==? ""); [apply after_ret; split; [done|left; eauto]|].
  unfold runScript. apply after_bind. eapply after_mono; [apply after_exec_hook|].
  intros r w' [Ht [(Hh & _ & e & ->)|(Hh & out & oe & -> & Hex)]]; apply after_ret; (split; [done|]).
  - left. eauto.
  - right. split; [done|]. destruct Hex as [->|Hex]; [by left|by right].
Qed.

Lemma after_Cleanup w :
  after (Cleanup h d v tok) w (λ r w', is_Some r ∧ ticks w w' ∧
    ((hooks_of w' = hooks_of w ∧ (CleanupScript h = "" ∨ context_ended w w')) ∨
     hooks_of w' = hooks_of w ++ [cleanup_ev])).
Proof using Type.
  unfold Cleanup. destruct (String.eqb_spec (CleanupScript h) ""); [apply after_ret; split_and!; eauto; by left|].
  unfold runScript. apply after_bind. eapply after_mono; [apply after_exec_hook|].
  intros r w' [Ht [(Hh & Hc & e & ->)|(Hh & out & oe & -> & Hex)]]; apply after_ret;
    (split; [done|]; split; [done|]).
  - left. split; [done|]. by right.
  - by right.
Qed.

(** The clean-up ends the processing of an authorization. *)
Lemma after_cleanup {A} (a : A) c u az w0 w :
  (GetAuthorization c u w0).1 = Some (Ok az) → dns_record c w0 az d v tok → ticks w0 w →
  hooks_of w = hooks_of w0 ++ [deploy_ev] →
  after (let! _ := Cleanup h d v tok in ret a) w (λ r w',
    ∃ b, authz_hooks c u w0 w' b ∧ hooks_of w' = hooks_of w0 ++ b).
Proof using Type.
  intros Haz Hrec Ht0 Hw. apply after_bind. eapply after_mono; [apply after_Cleanup|].
  intros r w' ([a' ->] & Ht & [[Hh Hc]|Hh]); apply after_ret; rewrite Hh, Hw.
  - exists [deploy_ev]. split; [|done]. apply (ah_deploy c u w0 w' az); [done..|].
    destruct Hc as [Hc|(n & e & Hn & He)]; [by left|]. right. left. exists n, e.
    unfold ticks in *. split; [lia|done].
  - exists [deploy_ev; cleanup_ev]. split; [by apply (ah_pair c u w0 w' az)|]. by rewrite <- app_assoc.
Qed.
End one.

Lemma after_KeyAuthorization c tok w :
  after (KeyAuthorization c tok) w (λ r w', w' = w ∧ ∀ ka, r = Some (Ok ka) →
    ∃ k tp, client_key w c = Some k ∧ ec_Thumbprint k = Ok tp ∧ ka = tok +:+ "." +:+ EncodeToString tp).
Proof using Type.
  unfold KeyAuthorization, PublicKeyThumbprint. apply after_bind_ok, after_bind, after_deref. unfold client_key.
  destruct (w_heap w !! c) as [cl|]; [|done]. apply after_ret.
  destruct (ec_Thumbprint (key cl)) as [tp|e] eqn:Htp; [|done]. apply after_ret. split; [done|].
  intros ka [= <-]. by exists (key cl), tp.
Qed.

Definition completed (P : World → Prop) (r : option (option (result unit))) (w' : World) : Prop :=
  (∃ res, r = Some (Some res)) → P w'.
Lemma completed_now (P : World → Prop) r w' : P w' → completed P r w'.
Proof using Type. by intros HP _. Qed.

(** One authorization. *)
Definition hooks_done c u w w' : Prop := ∃ b, authz_hooks c u w w' b ∧ hooks_of w' = hooks_of w ++ b.
Lemma hooks_none c u w w' : hooks_of w' = hooks_of w → hooks_done c u w w'.
Proof using Type. intros Hh. exists []. rewrite app_nil_r. split; [constructor|done]. Qed.

(** The processing after the deployment. *)
Lemma after_deployed rounds c u az ch d v tok w0 w :
  (GetAuthorization c u w0).1 = Some (Ok az) → dns_record c w0 az d v tok → ticks w0 w →
  hooks_of w = hooks_of w0 ++ [EvHook (DeployScript (boot_DNSHook boot)) (certbot_env d v tok)] →
  after (let cleanup := Cleanup (boot_DNSHook boot) d v tok in
         let! rt := TriggerChallenge c (ch_URL ch) in
         match rt with
         | Err e => let! _ := cleanup in ret (Some (Wrapf "triggering challenge: " e))
         | Ok _ =>
             let! rp := pollAuthorization rounds c u in
             match rp with
             | None => ret None
             | Some (Err e) => let! _ := cleanup in ret (Some (Err e))
             | Some (Ok _) => let! _ := cleanup in ret (Some (Ok tt))
             end
         end) w (completed (hooks_done c u w0)).
Proof using Type.
  intros Haz Hrec Ht Hh. cbv zeta.
  assert (∀ (a : option (result unit)) w1, quiet w w1 →
    after (let! _ := Cleanup (boot_DNSHook boot) d v tok in ret a) w1 (completed (hooks_done c u w0))) as Hend.
  { intros a w1 [Hh1 Ht1]. eapply after_mono.
    - apply (after_cleanup d v tok a c u az w0 w1 Haz Hrec); [by etrans|congruence].
    - intros r w2 Hb. by apply completed_now. }
  apply after_bind, (after_keeps quiet); [keeps_auto|]. intros [[chal|e]|] w1 _ Hw1; [|by apply Hend|by intros [? [=]]].
  apply after_bind, (after_keeps quiet); [keeps_auto|]. intros r w2 _ Hw2. assert (quiet w w2) by by etrans.
  destruct r as [[[[]|e]|]|]; [by apply Hend..| |]; by intros [? [=]].
Qed.

Lemma after_process_authz rounds c u w :
  after (process_authz boot rounds c u) w (completed (hooks_done c u w)).
Proof using Type.
  unfold process_authz. apply after_bind, after_once, after_wrap, after_run. intros r w1 Haz.
  pose proof (keeps_GetAuthorization no_hooks c u w) as (Hh1 & _ & _ & Hkey). rewrite Haz in Hh1, Hkey.
  pose proof (keeps_GetAuthorization ticks c u w) as Ht1. rewrite Haz in Ht1. cbn [snd] in *.
  assert (∀ r, completed (hooks_done c u w) r w1) as Hnone by (intros; by apply completed_now, hooks_none).
  destruct r as [[az|e]|]; cbn; [|apply Hnone..].
  destruct (_ ==? "valid"); [apply after_ret, Hnone|].
  destruct (List.find _ _) as [ch|] eqn:Hch; [|apply after_ret, Hnone].
  apply List.find_some in Hch as [Hin Htype]. apply list_elem_of_In in Hin. apply String.eqb_eq in Htype.
  apply after_bind, after_once, after_wrap. eapply after_mono; [apply after_KeyAuthorization|].
  intros r w2 [-> Hka]. destruct r as [[ka|e]|]; cbn; [|apply Hnone..].
  destruct (Hka ka eq_refl) as (k & tp & Hk & Htp & ->).
  apply after_bind, after_once, after_wrap, after_ret.
  destruct (DNSTXT _) as [v|] eqn:Hv; cbn; [|apply Hnone].
  assert (dns_record c w az (id_Value (az_Identifier az)) v (ch_Token ch)) as Hrec.
  { split; [done|]. split; [by exists ch|]. exists k, tp. rewrite <- Hkey. split; [done|]. split; [done|].
    unfold DNSTXT in Hv. by destruct (_ ==? ""); simplify_eq. }
  apply (f_equal fst) in Haz. cbn in Haz. clear Hka Hv Htp Hk Hkey.
  apply after_bind, after_once, after_wrap.
  eapply after_mono; [apply after_Deploy|]. intros r w3 [Ht3 [[Hh3 (e & ->)]|[Hh3 Hd]]].
  { apply completed_now, hooks_none. exact (eq_trans Hh3 Hh1). }
  rewrite Hh1 in Hh3. assert (ticks w w3) as Htw by by etrans.
  destruct r as [[[]|e]|]; cbn; [by apply (after_deployed rounds c u az ch)| |by intros [? [=]]].
  apply completed_now. eexists. split; [|exact Hh3]. apply (ah_deploy c u w w3 az); [done..|].
  destruct Hd as [[=]|(n & out & e' & Hn & Hex)]. right. right. exists n, out, e'.
  unfold ticks in *. split; [lia|done].
Qed.

Lemma after_process_all rounds c us w :
  after (process_all boot rounds c us) w (completed (λ w',
    ∃ bs, authzs_run rounds c us w bs w' ∧ hooks_of w' = hooks_of w ++ concat bs)).
Proof using Type.
  revert w. induction us as [|u us IH]; intros w; cbn [process_all].
  { apply after_ret, completed_now. exists []. rewrite app_nil_r. split; [constructor|done]. }
  pose proof (after_process_authz rounds c u w) as Hb. apply after_bind, after_run. intros r w1 Hrun.
  unfold after in Hb. rewrite Hrun in Hb. cbn [fst snd] in Hb.
  destruct r as [[[[]|e]|]|]; [| |by intros [? [=]]|by intros [? [=]]];
    destruct (Hb ltac:(by eexists)) as (b & Hab & Hh).
  - eapply after_mono; [apply IH|]. intros r w2 Hr2 Hr. destruct (Hr2 Hr) as (bs & Hbs & Hh2).
    exists (b :: bs). split; [by eapply run_next|]. cbn. by rewrite Hh2, Hh, app_assoc.
  - apply after_ret, completed_now. exists [b]. split; [by eapply run_stop|]. cbn. by rewrite app_nil_r.
Qed.

(** The scripts of a whole run that started in [w]. *)
Definition scripts_run (rounds : nat) (w w' : World) : Prop :=
  hooks_of w' = hooks_of w ∨
  ∃ c order orderURL wa wb bs wc,
    ticks w wa ∧
    SubmitOrder c [MkIdentifier "dns" (boot_Domain boot)] "" wa = (Some (Ok (order, orderURL)), wb) ∧
    authzs_run rounds c (ao_Authorizations order) wb bs wc ∧ ticks wc w' ∧
    hooks_of w' = hooks_of w ++ concat bs.

(** C28: the records of the bootstrap are cleaned up. A run that returns has run no script;
    or the upstream accepted its order and the scripts are, for each authorization
    of that order in turn until one failed, the deployment of the record (the authorization's name, the digest of
    the key authorization of its dns-01 challenge by the client's key) followed by the
    clean-up with the same variables, before the next authorization. A deployment is without its clean-up only when, in the
    processing of that authorization, the deploy script itself failed or the context had ended, or no clean-up
    script is configured. *)
Theorem acquire_cleans_up rounds w :
  let '(r, w') := acquire disk boot up rounds w in
  (∃ res, r = Some (Some res)) → scripts_run rounds w w'.
Proof using Type.
  apply (after_let (acquire disk boot up rounds) w (completed (scripts_run rounds w))). unfold acquire.
  pose proof quiet_account as Hacc. pose proof quiet_pre as Hpre.
  assert (∀ r w', quiet w w' → (∀ b : unit, r ≠ Some (Some (Ok b))) → completed (scripts_run rounds w) r w') as Hstop
    by (intros r w' [Hh _] _; apply completed_now; by left).
  assert (quiet w w) as Hw0 by reflexivity.
  stage_any w1 k Hw1. stage_any w2 akey Hw2. stage_any w3 cl Hw3. apply after_bind.
  assert (keeps quiet (new_client cl)) as Hnew by (intros w'; by apply quiet_same).
  apply (after_keeps quiet _ _ _ Hnew). intros [client|] w4 _ Hw4; [|by apply Hstop; [etrans|]].
  assert (quiet w w4) as Hw4' by (etrans; [exact Hw3|exact Hw4]). clear Hw3 Hw4. unfold obtain.
  assert (∀ u, keeps quiet (SetAccountURL client u)) as Hset by (intros u w'; by apply quiet_same).
  stage_any w5 acct Hw5. apply (after_stage quiet _ _ _ w); [exact Hw5|handler_auto|exact Hstop|].
  apply after_once, after_wrap, after_run. intros r w6 Hrun [order orderURL] Hr Hw6 _.
  destruct r as [[[order' url']|]|]; simpl in Hr; [|done..]. injection Hr as -> ->.
  destruct (ao_Authorizations order) as [|u us] eqn:Hus; [by apply after_ret, completed_now; left; apply Hw6|].
  apply after_bind. eapply after_mono; [apply after_process_all|]. intros r w7 Hr.
  destruct r as [[[[]|e]|]|]; [| |by intros [? [=]]|by intros [? [=]]];
    destruct (Hr ltac:(by eexists)) as (bs & Hbs & Hh7); clear Hr;
    (assert (∀ r w', quiet w7 w' → completed (scripts_run rounds w) r w') as Hdone;
     [intros r w' [Hh' Ht']; apply completed_now; right; exists client, order, orderURL, w5, w6, bs, w7;
      rewrite Hus, Hh', Hh7; destruct Hw5, Hw6 as [Hh6 _]; by rewrite Hh6|]); [|by apply Hdone].
  eapply after_mono; [|intros r w' Hq; by apply Hdone, Hq].
  apply (after_keeps quiet); [|by intros].
  assert (∀ p d m, keeps quiet (atomicWrite disk p d m)) as Haw
    by (intros; apply keeps_atomicWrite; [apply _|apply quiet_file]).
  unfold wait_valid, write_pair. keeps_auto.
Qed.
End hooks.

(** ** The polls and the whole run end *)
Section returns.
Context `{Env} `{!NetURL}.

Lemma settles_once c {A} (m : M (result A)) : no_panic c m → settles c (once m).
Proof.
  intros Hm w Hc. apply after_once. eapply after_mono; [by apply Hm|].
  intros r w' [[res ->] Hc']. split; [by exists res|done].
Qed.
Lemma settles_stage c {A B} (m : M (option (result A))) (k : A → M (option (result B))) :
  settles c m → (∀ a, settles c (k a)) → settles c (let!! x := m in k x).
Proof. intros Hm Hk. apply settles_poll; [done|]. intros [a|e]; [apply Hk|apply settles_ret]. Qed.

(** *** Polling *)

(** Waiting really advances the clock, which never goes back. *)
Class SteadyClock := {
  clock_sleeps k i j : env_sleep k pollInterval = None → i < k → k < j →
    (env_now i + pollInterval ≤ env_now j)%Z;
  clock_mono i j : i ≤ j → (env_now i ≤ env_now j)%Z
}.

Context `{!SteadyClock}.

(** The rounds that fit into the five minutes, and one more. *)
Definition enough_rounds : nat := 61.

Lemma poll_loop_returns rounds deadline get what c w :
  no_panic c get → keeps ticks get → has_client c w →
  (deadline ≤ env_now (w_tick w) + Z.of_nat rounds * pollInterval)%Z →
  after (poll_loop (S rounds) deadline get what) w (λ r w',
    (∃ res, r = Some (Some res)) ∧ has_client c w').
Proof using Type*.
  intros Hget Hticks. revert w. induction rounds as [|rounds IH]; intros w Hc Hd; cbn [poll_loop].
  { apply after_bind, after_ask. rewrite (proj2 (Z.ltb_ge _ _)) by lia. apply after_ret. eauto. }
  apply after_bind, after_ask. destruct (negb _); [apply after_ret; eauto|].
  apply after_bind, after_ask. destruct (env_sleep _ _) eqn:Hs; [apply after_ret; eauto|].
  set (w1 := set_tick _ (set_tick _ w)).
  apply after_bind, after_once. pose proof (Hticks w1) as Ht. pose proof (Hget w1 Hc) as Hg.
  unfold after in *. destruct (get w1) as [r w2]. cbn [fst snd] in *. destruct Hg as [[res ->] Hc2].
  destruct res as [status|e]; simpl; [|eauto].
  destruct (status ==? "valid"); [eauto|]. destruct (status ==? "invalid"); [eauto|].
  apply IH; [done|]. unfold ticks in Ht. simpl in Ht.
  pose proof (clock_sleeps _ (w_tick w) (w_tick w2) Hs). cbn [w_tick set_tick] in *. lia.
Qed.

Lemma settles_pollAuthorization c u : settles c (pollAuthorization enough_rounds c u).
Proof using Type*.
  intros w Hc. unfold pollAuthorization. apply after_bind, after_ask.
  apply poll_loop_returns; [total_auto|keeps_auto|done|].
  pose proof (clock_mono (w_tick w) (S (w_tick w))). cbn [w_tick set_tick].
  unfold pollTimeout, pollInterval, second in *. lia.
Qed.
Lemma settles_pollOrder c u : settles c (pollOrder enough_rounds c u).
Proof using Type*.
  intros w Hc. unfold pollOrder. apply after_bind, after_ask.
  apply poll_loop_returns; [total_auto|keeps_auto|done|].
  pose proof (clock_mono (w_tick w) (S (w_tick w))). cbn [w_tick set_tick].
  unfold pollTimeout, pollInterval, second in *. lia.
Qed.

(** *** The run *)
Context (disk : gmap string file) (boot : BootstrapConfig) (up : UpstreamConfig).

Lemma total_file_do c op : no_panic c (file_do op).
Proof using Type. unfold file_do. total_auto. Qed.
Lemma total_append_bytes c p s : no_panic c (append_bytes p s).
Proof using Type. induction s; cbn [append_bytes]; total_auto. Qed.
#[local] Hint Resolve total_file_do total_append_bytes : no_panic.
Lemma total_atomicWrite c path data mode : no_panic c (atomicWrite disk path data mode).
Proof using Type.
  unfold atomicWrite, CreateTemp, or_close_remove, or_remove, file_Write, file_Close. total_auto.
Qed.
#[local] Hint Resolve total_atomicWrite : no_panic.
Lemma total_ReadFile c p : no_panic c (ReadFile disk p).
Proof using Type. unfold ReadFile. total_auto. Qed.
#[local] Hint Resolve total_ReadFile : no_panic.
Lemma total_bootstrap_account c : no_panic c (bootstrap_account disk boot up c).
Proof using Type. unfold bootstrap_account. total_auto. Qed.
Lemma total_hook c s env : no_panic c (exec_hook s env).
Proof using Type. unfold exec_hook. total_auto. Qed.
#[local] Hint Resolve total_hook : no_panic.
Lemma total_Deploy c h d v t : no_panic c (Deploy h d v t).
Proof using Type. unfold Deploy, runScript. total_auto. Qed.
Lemma total_Cleanup c h d v t : no_panic c (Cleanup h d v t).
Proof using Type. unfold Cleanup, runScript. total_auto. Qed.
#[local] Hint Resolve total_Deploy total_Cleanup total_bootstrap_account : no_panic.
Lemma total_write_pair c pem chain : no_panic c (write_pair disk boot pem chain).
Proof using Type. unfold write_pair. total_auto. Qed.
#[local] Hint Resolve total_write_pair : no_panic.

Lemma settles_process_authz c u : settles c (process_authz boot enough_rounds c u).
Proof using Type*.
  unfold process_authz. apply settles_stage; [apply settles_once; total_auto|]. intros authz.
  destruct (_ ==? "valid"); [apply settles_ret|]. destruct (List.find _ _); [|apply settles_ret].
  cbv zeta. apply settles_stage; [apply settles_once; total_auto|]. intros ka.
  apply settles_stage; [apply settles_once; total_auto|]. intros v.
  apply settles_stage; [apply settles_once; total_auto|]. intros _.
  apply settles_bind; [total_auto|]. intros [_|e].
  - apply settles_poll; [apply settles_pollAuthorization|]. intros [[]|e];
      (apply settles_bind; [total_auto|intros; apply settles_ret]).
  - apply settles_bind; [total_auto|intros; apply settles_ret].
Qed.
Lemma settles_process_all c us : settles c (process_all boot enough_rounds c us).
Proof using Type*.
  induction us as [|u us IH]; cbn [process_all]; [apply settles_ret|].
  apply settles_stage; [apply settles_process_authz|done].
Qed.
Lemma settles_wait_valid c u o : settles c (wait_valid enough_rounds c u o).
Proof using Type*.
  unfold wait_valid. destruct (_ !=? _); [|apply settles_ret].
  apply settles_stage; [apply settles_pollOrder|]. intros _. apply settles_once. total_auto.
Qed.

Lemma settles_obtain c k : settles c (obtain disk boot up enough_rounds c k).
Proof using Type*.
  assert (∀ A (m : M (result A)), no_panic c m → settles c (once m)) as Honce by (intros; by apply settles_once).
  unfold obtain. apply settles_stage; [apply Honce; total_auto|]. intros _.
  apply settles_stage; [apply Honce; total_auto|]. intros [order orderURL].
  destruct (ao_Authorizations order); [apply settles_ret|].
  apply settles_stage; [apply settles_process_all|]. intros _.
  apply settles_stage; [apply Honce; total_auto|]. intros csr.
  apply settles_stage; [apply Honce; total_auto|]. intros order1.
  apply settles_stage; [apply settles_wait_valid|]. intros order2.
  destruct (_ ==? ""); [apply settles_ret|].
  do 2 (apply settles_stage; [apply Honce; total_auto|]; intros ?). apply Honce. total_auto.
Qed.

(** The account key is loaded or made before there is a client. *)
Lemma loadOrCreateAccountKey_answers : answers (loadOrCreateAccountKey disk boot).
Proof using Type.
  assert (∀ p s, answers (append_bytes p s)) by (intros p s; induction s; cbn [append_bytes]; answers_auto).
  unfold loadOrCreateAccountKey, ReadFile, atomicWrite, CreateTemp, or_close_remove, or_remove, file_Write,
    file_Close, file_do. answers_auto.
Qed.

(** C30: acquiring a certificate ends. On a clock that advances while the code waits,
    the rounds that fit into the five minutes of a poll, and one more, always give a result,
    and nothing panics on the way. *)
Theorem acquire_returns w :
  ∃ res, (acquire disk boot up enough_rounds w).1 = Some (Some res).
Proof using Type*.
  enough (after (acquire disk boot up enough_rounds) w (λ r _, ∃ res, r = Some (Some res))) as Hr by exact Hr.
  unfold acquire. apply after_bind, after_once, after_wrap, after_ask.
  destruct (env_genkey (w_tick w)) as [k|e]; simpl; [|by eexists].
  apply after_bind, after_once, after_wrap. eapply (after_mono _ _ (λ r _, is_Some r)); [apply loadOrCreateAccountKey_answers|].
  intros r w1 [[ak|e] ->]; simpl; [|by eexists].
  apply after_bind, after_once, after_wrap, after_ret, after_bind.
  set (cl := MkClient _ _ _ _ _ _).
  set (w2 := set_next (S (w_next w1)) (set_heap (<[w_next w1 := cl]> (w_heap w1)) w1)).
  change (after (obtain disk boot up enough_rounds (w_next w1) k) w2 (λ r _, ∃ res, r = Some (Some res))).
  eapply after_mono; [apply settles_obtain|by intros r' w' [Hr _]]. unfold has_client. simpl. by rewrite lookup_insert_eq.
Qed.
End returns.

(** ** The certificate in use *)

(** *** When it is renewed *)
Section due.
Context `{Env} `{!TLSFiles} (boot : BootstrapConfig).

(** Days that fit into a [time.Duration]. *)
Definition max_days : Z := 106751.

Lemma renewBefore_exact :
  (0 ≤ RenewBeforeDays boot ≤ max_days)%Z →
  renewBefore boot = (RenewBeforeDays boot * (24 * 3600 * second))%Z.
Proof.
  unfold renewBefore, max_days, second. intros Hd.
  rewrite (wrap64_small (RenewBeforeDays boot * 24)), wrap64_small; lia.
Qed.

(** A certificate is due for renewal exactly when it cannot be read or has less than
    the configured days left, as long as those fit into a [time.Duration]: neither the
    multiplication nor the saturating subtraction of times shows. *)
Theorem renewal_due_iff cert w (Hdays : (0 ≤ RenewBeforeDays boot ≤ max_days)%Z) :
  (isExpiringSoon boot cert w).1 = Some (bool_decide (x509LeafNotAfter cert = zero_time ∨
    (x509LeafNotAfter cert - env_now (w_tick w) < RenewBeforeDays boot * (24 * 3600 * second))%Z)).
Proof.
  unfold isExpiringSoon. destruct (Z.eqb_spec (x509LeafNotAfter cert) zero_time) as [Hz|Hz].
  { rewrite bool_decide_eq_true_2; [done|by left]. }
  unfold bind, ask, ret. cbn [fst]. f_equal. rewrite (renewBefore_exact Hdays). unfold saturate64, max_days, second in *.
  set (left := (x509LeafNotAfter cert - env_now (w_tick w))%Z). case_bool_decide as Hc.
  - destruct Hc as [Hc|Hc]; [done|]. apply Z.ltb_lt. lia.
  - apply Z.ltb_ge. assert (¬ left < RenewBeforeDays boot * (24 * 3600 * 1000000000))%Z by tauto. lia.
Qed.
End due.

(** One day more, and the certificate is never renewed. *)
Lemma renewal_days_overflow : (saturate64 0 <? wrap64 (wrap64 ((max_days + 1) * 24) * (3600 * second)))%Z = false.
Proof. reflexivity. Qed.

(** *** What is served *)
Section served.
Context `{Env} `{!NetURL} `{!TLSFiles} (disk : gmap string file) (boot : BootstrapConfig)
  (up : UpstreamConfig) (Hpaths : distinct_paths boot).

Abbreviation files := (files disk).

(** The two files load as this key pair. *)
Definition loads (fs : gmap string file) (cert : tls_Certificate) : Prop :=
  ∃ kf cf, pair boot fs = (Some kf, Some cf) ∧ tls_X509KeyPair (f_data cf) (f_data kf) = Ok cert.

(** A certificate with enough time left. *)
Definition lasts (cert : tls_Certificate) (now : time) : Prop :=
  x509LeafNotAfter cert ≠ zero_time ∧
  (renewBefore boot ≤ saturate64 (x509LeafNotAfter cert - now))%Z.

(** A reading: the files and the trace stay. *)
Definition reads (w w' : World) : Prop := w_trace w' = w_trace w.
#[local] Instance reads_pre : PreOrder reads.
Proof using Type. split; [by intros w|]. unfold reads. intros ? ? ? ? ?. congruence. Qed.
Lemma reads_files w w' : reads w w' → files w' = files w.
Proof using Type. intros Hr. unfold files, file_ops. by rewrite Hr. Qed.

Lemma after_load w :
  after (loadExistingCert disk boot) w (λ r w', reads w w' ∧
    ((∃ e, r = Some (Err e)) ∨ ∃ cert, r = Some (Ok cert) ∧ loads (files w') cert)).
Proof using Type.
  unfold loadExistingCert. apply after_bind_ok. eapply after_mono; [apply after_ReadFile|].
  intros r w1 [-> [(e & ->)|(cf & -> & Hcf)]]; [split; [done|eauto]|].
  apply after_bind_ok. eapply after_mono; [apply after_ReadFile|].
  intros r w2 [-> [(e & ->)|(kf & -> & Hkf)]]; [split; [done|eauto]|].
  apply after_ret. split; [done|]. destruct (tls_X509KeyPair _ _) as [cert|e] eqn:Hc; [right|left; eauto].
  exists cert. split; [done|]. exists kf, cf. split; [|done]. unfold pair. by rewrite <- Hkf, <- Hcf.
Qed.

Lemma after_expiring cert w :
  after (isExpiringSoon boot cert) w (λ r w', reads w w' ∧ ∃ b, r = Some b ∧
    (b = false ↔ lasts cert (env_now (w_tick w)))).
Proof using Type.
  unfold isExpiringSoon, lasts. destruct (Z.eqb_spec (x509LeafNotAfter cert) zero_time) as [Hz|Hz].
  - apply after_ret. split; [done|]. exists true. split; [done|]. split; [done|]. by intros [].
  - apply after_bind, after_ask, after_ret. split; [done|]. eexists. split; [done|].
    rewrite Z.ltb_ge. tauto.
Qed.

(** Acquired, starting from the files of [w]. *)
Definition renewed (w w' : World) : Prop := ∃ w1, reads w w1 ∧ acquired disk boot w1 w'.

Lemma acquired_reads w w1 w2 : acquired disk boot w w1 → reads w1 w2 → acquired disk boot w w2.
Proof using Type.
  intros (k & pem & chain & i & csr & Hi & Hc & Hp & Hd & Hf) Hr. exists k, pem, chain, i, csr.
  rewrite (reads_files _ _ Hr). split_and!; try done. unfold posted. by rewrite Hr.
Qed.

(** What the gateway starts with. A certificate that [Bootstrap] returns is the pair
    in the two files, and either nothing was done for it because it has enough
    time left, or it was acquired by this run. When it fails, the old certificate file
    is still there, or a complete new pair is, that does not load. *)
Theorem bootstrap_serves_pair rounds w :
  let '(r, w') := bootstrap_run disk boot up rounds w in
  (∀ cert, r = Some (Some (Ok cert)) →
     loads (files w') cert ∧
     ((reads w w' ∧ ∃ i, lasts cert (env_now i)) ∨ renewed w w')) ∧
  (∀ e, r = Some (Some (Err e)) →
     files w' !! CertPath boot = files w !! CertPath boot ∨ renewed w w').
Proof using Hpaths.
  apply (after_let (bootstrap_run disk boot up rounds) w (λ r w', (∀ cert, r = Some (Some (Ok cert)) → _) ∧
    (∀ e, r = Some (Some (Err e)) → _))).
  unfold bootstrap_run. apply after_bind. eapply after_mono; [apply after_load|].
  intros existing w1 [Hr1 Hex].
  enough (∀ w2, reads w w2 → after (let! r := acquire disk boot up rounds in
    match r with
    | None => ret None
    | Some (Err e) => ret (Some (Wrapf "bootstrap acquire: " e))
    | Some (Ok _) => once (wrap "loading certificate after acquire: " (loadExistingCert disk boot))
    end) w2 (λ r w', (∀ cert, r = Some (Some (Ok cert)) →
       loads (files w') cert ∧ ((reads w w' ∧ ∃ i, lasts cert (env_now i)) ∨ renewed w w')) ∧
     (∀ e, r = Some (Some (Err e)) →
       files w' !! CertPath boot = files w !! CertPath boot ∨ renewed w w'))) as Hacq.
  { destruct Hex as [(e & ->)|(cert & -> & Hl)].
    - apply after_bind, after_ret. by apply Hacq.
    - apply after_bind. eapply after_mono; [apply after_expiring|].
      intros b w2 [Hr2 (soon & -> & Hs)]. assert (reads w w2) as Hw2 by (etrans; [exact Hr1|exact Hr2]).
      destruct soon; [by apply Hacq|]. apply after_ret. split; [|done]. intros c [= <-].
      split; [by rewrite (reads_files _ _ Hr2)|]. left. split; [done|]. eexists. by apply Hs. }
  intros w2 Hr2. apply after_bind. eapply after_mono; [by apply after_acquire|].
  intros r w3 (_ & Hok & Herr). rewrite (reads_files _ _ Hr2) in Herr.
  destruct r as [[[[]|e]|]|].
  - specialize (Hok eq_refl). apply after_once, after_wrap. eapply after_mono; [apply after_load|].
    intros r w4 [Hr4 Hl]. assert (renewed w w4) as Hren.
    { exists w2. split; [done|]. by eapply acquired_reads. }
    split; [|by right]. destruct Hl as [(e & ->)|(c & -> & Hl)]; [done|]. intros c' [= <-]. by split; [|right].
  - apply after_ret. split; [done|]. intros e' _. left. by eapply Herr.
  - by apply after_ret.
  - done.
Qed.

(** C26: renewal never takes a working certificate away. A turn of the loop does nothing
    while the certificate in use has enough time left; a turn that fails goes on with
    it; and a certificate is handed on only when it was acquired by this turn
    and is the pair in the two files, whose paths are assumed distinct ([distinct_paths]). *)
Theorem renewal_replaces_or_keeps rounds current w :
  let '(r, w') := renewal_turn disk boot up rounds current w in
  (lasts current (env_now (w_tick w)) → r = Some (Some (current, None)) ∧ reads w w') ∧
  (∀ next handed, r = Some (Some (next, handed)) →
     (next = current ∧ handed = None) ∨
     (handed = Some next ∧ loads (files w') next ∧ renewed w w')).
Proof using Hpaths.
  apply (after_let (renewal_turn disk boot up rounds current) w (λ r w', (_ → r = _ ∧ reads w w') ∧
    (∀ next handed, r = Some (Some (next, handed)) → _))).
  unfold renewal_turn. apply after_bind. eapply after_mono; [apply after_expiring|].
  intros b w1 [Hr1 (soon & -> & Hs)]. destruct soon; simpl.
  - assert (¬ lasts current (env_now (w_tick w))) as Hdue by by intros Hl%Hs.
    apply after_bind. eapply after_mono; [by apply after_acquire|]. intros r w2 (_ & Hok & _).
    destruct r as [[[[]|e]|]|]; [|apply after_ret; (split; [done|naive_solver])..|by split].
    specialize (Hok eq_refl). apply after_bind. eapply after_mono; [apply after_load|].
    intros r w3 [Hr3 Hl]. destruct Hl as [(e & ->)|(c & -> & Hl)]; apply after_ret;
      (split; [done|intros next handed [= <- <-]]); [by left|right].
    split_and!; [done|done|]. exists w1. split; [done|]. by eapply acquired_reads.
  - apply after_ret. split; [done|]. intros next handed [= <- <-]. by left.
Qed.
End served.
