(* ===== verification/System.v ===== *)
(** * The gateway as a transition system

    Requests, the background goroutines of challenges, the nonce pruner and the renewal
    of the gateway's certificate, interleaved in any order; and what holds in every
    reachable state. *)
From S2P Require Export ServeProps BootstrapProps.

Section system.
Context `{Env} `{PKI} `{!RowOrder} `{!NetURL} `{!Mux} `{!SQLDriver} `{!TLSFiles}
  (cfg : Config) (probeKey : option ECKey) (disk : gmap string file).

(** One turn of the ticker in [main]: expired nonces go, an error is logged. *)
Definition prune_nonces : M unit :=
  let! now := ask env_now in
  let! _ := db (PruneExpiredNonces now) in ret tt.

(** A step is a whole request, one part of a background job, which leaves the
    queue and may put its continuation there, or a turn of the pruner or of the
    renewal loop, which runs when a bootstrap upstream is configured. *)
Inductive step : World → World → Prop :=
| step_request r w : step w (serve cfg probeKey r w)
| step_job rounds pre j post w u w' :
    w_jobs w = pre ++ j :: post →
    run_job cfg rounds j (set_jobs (pre ++ post) w) = (Some (Some u), w') →
    step w w'
| step_prune w : step w (prune_nonces w).2
| step_renew up rounds current w u w' :
    boot_Enabled (Bootstrap cfg) = true → Upstreams cfg !! boot_Upstream (Bootstrap cfg) = Some up →
    renewal_turn disk (Bootstrap cfg) up rounds current w = (Some (Some u), w') →
    step w w'.

Definition reaches : World → World → Prop := rtc step.

(** ** Relations kept by every step *)
Class SystemRel (R : World → World → Prop) := {
  sy_handler :: HandlerRel cfg R;
  sy_hook script env : keeps R (emit (EvHook script env));
  sy_file op : keeps R (emit (EvFile op));
  sy_obtain up rounds k cl : client_nonces cl = empty_ring →
    keeps R (let! c := new_client cl in obtain disk (Bootstrap cfg) up rounds c k);
  sy_proc f : keeps R (update_proc f);
  sy_jobs f : keeps R (update_jobs f);
  sy_prune n : keeps R (db (PruneExpiredNonces (env_now n)));
  sy_fresh w : R w (set_resp empty_response w);
  sy_take w js : R w (set_jobs js w)
}.

Section keeps.
Context (R : World → World → Prop) `{!SystemRel R}.

#[local] Hint Resolve sy_hook sy_proc sy_jobs sy_prune : keeps.
#[local] Hint Extern 1 (SystemRel _) => typeclasses eauto : keeps.

Lemma keeps_runDNSHookScript script t v token : keeps R (runDNSHookScript script t v token).
Proof using Type*. unfold runDNSHookScript, validateDNSHookScriptPath, exec_hook. handler_auto. Qed.
#[local] Hint Resolve keeps_runDNSHookScript : keeps.
Lemma keeps_start_job j : keeps R (start_job j).
Proof using Type*. apply sy_jobs. Qed.
#[local] Hint Resolve keeps_start_job : keeps.
Lemma keeps_deploy_challenge rounds hook c u az ch : keeps R (deploy_challenge rounds hook c u az ch).
Proof using Type*. unfold deploy_challenge. handler_auto. Qed.
#[local] Hint Resolve keeps_deploy_challenge : keeps.
Lemma keeps_prepare_authzs rounds hook c u rms : keeps R (prepare_authzs rounds hook c u rms).
Proof using Type*. induction rms; simpl; handler_auto. Qed.
#[local] Hint Resolve keeps_prepare_authzs : keeps.
Lemma keeps_run_job rounds j : keeps R (run_job cfg rounds j).
Proof using Type*.
  destruct j; simpl; unfold process_step, trigger_step, cleanup_step, prepareDNS01Challenge, fail_challenge;
    handler_auto; apply sy_proc.
Qed.
Lemma keeps_prune_nonces : keeps R prune_nonces.
Proof using Type*. unfold prune_nonces. handler_auto. Qed.

Lemma step_keeps w w' : step w w' → R w w'.
Proof using Type*.
  intros [r w0|rounds pre j post w0 u w0' _ Hrun|w0|up rounds current w0 u w0' _ _ Hrun].
  - apply serve_keeps; [apply _|apply sy_fresh].
  - pose proof (keeps_run_job rounds j (set_jobs (pre ++ post) w0)) as Hk. rewrite Hrun in Hk.
    etrans; [apply sy_take|exact Hk].
  - apply keeps_prune_nonces.
  - pose proof (keeps_renewal_turn disk (Bootstrap cfg) up R sy_file sy_hook (sy_obtain up) rounds current w0)
      as Hk. by rewrite Hrun in Hk.
Qed.
Lemma reaches_keeps w w' : reaches w w' → R w w'.
Proof using Type*.
  induction 1 as [w|w1 w2 w3 Hs _ IH]; [reflexivity|]. etrans; [by apply step_keeps|done].
Qed.
End keeps.

(** ** The invariants *)
#[export] Instance schema_system `{!SaneClock} : SystemRel schema_kept.
Proof.
  assert (∀ ev, keeps schema_kept (emit ev)) as Hemit by (intros ev w Hs; exact Hs).
  split; [apply _|intros; apply Hemit|intros; apply Hemit| |intros f w Hs; exact Hs|intros f w Hs; exact Hs|
          |intros w Hs; exact Hs|intros w js Hs; exact Hs].
  { intros up rounds k cl Hcl. keeps_step; [by apply (hl_new (cfg := cfg))|].
    apply keeps_obtain; [apply _|intros; apply Hemit..|]. intros u w Hs. exact Hs. }
  intros n. apply keeps_db; [apply _|]. intros w Hs. apply (run_wf (OpPrune (env_now n))); [done|].
  apply clock_ok.
Qed.

(** C12: the database always satisfies its schema: whatever requests, background work and
    pruning do, in any order and whatever the upstreams, the engine, scripts, randomness and
    the network answer, foreign keys hold, mappings are unique and timestamps parse. *)
Theorem schema_always_holds `{!SaneClock} w w' :
  reaches w w' → store_wf (w_store w) → store_wf (w_store w').
Proof. intros Hr. exact (reaches_keeps schema_kept w w' Hr). Qed.

Lemma keeps_all_same w w' :
  w_tick w ≤ w_tick w' → w_heap w' = w_heap w → w_next w' = w_next w →
  sent_nonces w' = sent_nonces w → keeps_all w w'.
Proof.
  intros Ht Hh Hn Hs Hi. eapply nonce_inv_sub; [done|done|rewrite Hh, Hn; apply Hi|rewrite Hh; apply Hi|].
  intros p n. unfold at_place. by rewrite Hh, Hs.
Qed.
#[export] Instance nonces_system `{!FreshNonces} : SystemRel keeps_all.
Proof.
  assert (∀ ev, event_nonce ev = None → keeps keeps_all (emit ev)) as Hemit.
  { intros ev Hev w. apply keeps_all_same; try done. unfold sent_nonces. simpl.
    rewrite omap_app. simpl. by rewrite Hev, app_nil_r. }
  split; [apply _|intros; by apply Hemit|intros; by apply Hemit| |intros f w|intros f w| |intros w|intros w js];
    try by apply keeps_all_same.
  - intros up rounds k cl Hcl. keeps_step; [by apply (hl_new (cfg := cfg))|].
    apply keeps_obtain; [apply _|intros; by apply Hemit..|]. intros u. by apply pl_SetAccountURL.
  - intros n. apply keeps_db; [apply _|]. intros w. by apply keeps_all_same.
Qed.

(** C8: no upstream nonce is ever sent twice. In every state a fresh process reaches,
    over any requests, background work, retries, failures and clients, the signed
    requests carry pairwise different nonces, provided the upstreams do not repeat theirs. *)
Theorem nonces_sent_once `{!FreshNonces} w w' :
  w_heap w = ∅ → w_trace w = [] → reaches w w' → NoDup (sent_nonces w').
Proof.
  intros Hh Ht Hr. eapply nonce_inv_sent, (reaches_keeps keeps_all w w' Hr), nonce_inv_start; done.
Qed.

#[export] Instance pool_system `{!CryptoLaws} : SystemRel pool_kept.
Proof.
  split; [apply _|intros sc e w Hp|intros op w Hp| |intros f w Hp|intros f w Hp| |intros w Hp|intros w js Hp];
    try by apply (pool_ok_same w).
  { (* The client of the bootstrap is its own. *)
    intros up rounds k cl _ w Hp. pose proof (pool_ok_new cl w Hp) as Hp1.
    apply (pool_ok_frame (w_next w) (new_world cl w)); [done|intros u a; exact (new_not_account w u a Hp)|].
    enough (keeps (frame_but (w_next w)) (obtain disk (Bootstrap cfg) up rounds (w_next w) k)) as Hk
      by apply Hk.
    apply keeps_obtain; [apply _|by intros..|]. intros u w1. apply SetAccountURL_frame. }
  intros n. apply keeps_db; [apply _|]. intros w Hp. by apply (pool_ok_same w).
Qed.

(** The pool always agrees with the database: in every reachable state, a client
    kept for a gateway account carries the key and the URL of the stored upstream
    account, and is not among the shared slots. *)
Theorem pool_always_coherent `{!CryptoLaws} w w' : reaches w w' → pool_ok w → pool_ok w'.
Proof. intros Hr. exact (reaches_keeps pool_kept w w' Hr). Qed.

(** ** Challenges in processing *)

(** The record made at [created] is being worked on by one half of its goroutine. *)
Definition works_on (id : string) (created : time) (j : job) : Prop :=
  match j with
  | ProcessJob _ _ _ i t | TriggerJob _ _ i t => i = id ∧ t = created
  | CleanupJob _ _ _ _ _ _ => False
  end.
Definition attended (w : World) : Prop :=
  ∀ id p, w_proc w !! id = Some p → cp_status p = "processing" →
    ∃ j, j ∈ w_jobs w ∧ works_on id (cp_createdAt p) j.

(** Steps that touch no record and only queue more. *)
Definition adds_jobs (w w' : World) : Prop :=
  w_proc w' = w_proc w ∧ ∃ js, w_jobs w' = w_jobs w ++ js.
#[export] Instance adds_jobs_pre : PreOrder adds_jobs.
Proof.
  split; [intros w; split; [done|by exists []; rewrite app_nil_r]|].
  intros w1 w2 w3 [Hp1 [js1 Hj1]] [Hp2 [js2 Hj2]]. split; [congruence|]. exists (js1 ++ js2).
  by rewrite Hj2, Hj1, app_assoc.
Qed.
Lemma adds_jobs_same w w' : w_proc w' = w_proc w → w_jobs w' = w_jobs w → adds_jobs w w'.
Proof. intros Hp Hj. split; [done|]. exists []. by rewrite app_nil_r. Qed.
#[export] Instance adds_jobs_post : PostRel adds_jobs.
Proof. apply client_frame_post; [apply _|]. intros w w' []. by apply adds_jobs_same. Qed.
Lemma adds_jobs_attended w w' : adds_jobs w w' → attended w → attended w'.
Proof.
  intros [Hp [js Hj]] Ha id p Hi Hs. rewrite Hp in Hi. destruct (Ha id p Hi Hs) as (j & Hin & Hw).
  exists j. rewrite Hj, elem_of_app. auto.
Qed.

(** *** Requests *)
Definition attended_kept (w w' : World) : Prop := attended w → attended w'.
#[export] Instance attended_pre : PreOrder attended_kept.
Proof. split; [by intros w Ha|]. intros w1 w2 w3 H12 H23 Ha. by apply H23, H12. Qed.
Lemma attended_same w w' : w_proc w' = w_proc w → w_jobs w' = w_jobs w → attended_kept w w'.
Proof. intros Hp Hj. exact (adds_jobs_attended w w' (adds_jobs_same w w' Hp Hj)). Qed.
#[export] Instance attended_post : PostRel attended_kept.
Proof. apply client_frame_post; [apply _|]. intros w w' []. by apply attended_same. Qed.
#[export] Instance attended_pool : PoolRel attended_kept.
Proof.
  split; [apply _|intros cl _ w|intros c u w|intros f w|..]; try by apply attended_same.
  all: intros; apply keeps_db; [apply _|]; intros w; by apply attended_same.
Qed.
Lemma attended_start c o u i : keeps attended_kept (startChallengeProcessing c o u i).
Proof.
  intros w Ha. unfold startChallengeProcessing, beginChallengeProc, update_proc, update_jobs,
    bind, ask, gets, ret, modify. simpl. set (now := env_now (w_tick w)).
  assert (∀ id p, evictStaleChallengeProc now (w_proc w) !! id = Some p → cp_status p = "processing" →
    ∃ j, j ∈ w_jobs w ∧ works_on id (cp_createdAt p) j) as Hev.
  { intros id p [Hp _]%map_lookup_filter_Some. by apply Ha. }
  destruct (evictStaleChallengeProc now (w_proc w) !! i) as [q|] eqn:Hi; simpl; [exact Hev|].
  intros id p. simpl. destruct (decide (id = i)) as [->|Hne].
  - rewrite lookup_insert_eq. intros [= <-] _. eexists. rewrite elem_of_app, list_elem_of_singleton.
    split; [by right|done].
  - rewrite lookup_insert_ne by done. intros Hp Hs. destruct (Hev id p Hp Hs) as (j & Hj & Hw).
    exists j. rewrite elem_of_app. auto.
Qed.
#[export] Instance attended_handlers : HandlerRel cfg attended_kept.
Proof.
  apply handler_rel_pool; [apply _|apply _|intros w r|intros A f w _|apply attended_start];
    by apply attended_same.
Qed.

(** *** Jobs *)

(** A job that leaves the queue has no record left to work on, or its successor is queued. *)
Lemma attended_rest pre j post m (w w' : World) js :
  attended w → w_jobs w = pre ++ j :: post → w_jobs w' = (pre ++ post) ++ js →
  w_proc w' = m →
  (∀ id p, m !! id = Some p → cp_status p = "processing" → w_proc w !! id = Some p ∧
     (works_on id (cp_createdAt p) j → ∃ j', j' ∈ js ∧ works_on id (cp_createdAt p) j')) →
  attended w'.
Proof.
  intros Ha Hw Hw' <- Hm id p Hp Hs. destruct (Hm id p Hp Hs) as [Hp0 Hj].
  destruct (Ha id p Hp0 Hs) as (j0 & Hin & Hwork). rewrite Hw' in *. rewrite Hw in Hin.
  apply elem_of_app in Hin as [Hin|[->|Hin]%elem_of_cons].
  - exists j0. by rewrite !elem_of_app; auto.
  - destruct (Hj Hwork) as (j' & Hj' & Hw2). exists j'. by rewrite !elem_of_app; auto.
  - exists j0. by rewrite !elem_of_app; auto.
Qed.

Lemma record_failed_processing errType msg id created m i p :
  record_failed errType msg id created m !! i = Some p → cp_status p = "processing" →
  m !! i = Some p ∧ ¬ (i = id ∧ cp_createdAt p = created).
Proof.
  unfold record_failed. destruct (decide (i = id)) as [->|Hne].
  - rewrite lookup_alter_eq. intros (q & -> & ->)%fmap_Some. simpl.
    destruct (Z.eqb_spec (cp_createdAt q) created) as [|Hc]; [done|]. intros _. split; [done|tauto].
  - rewrite lookup_alter_ne by done. tauto.
Qed.

Lemma cleanup_adds c u v token script t : keeps adds_jobs (cleanup_step c u v token script t).
Proof.
  assert (∀ sc e, keeps adds_jobs (emit (EvHook sc e))) as Hemit by (intros ?? w; by apply adds_jobs_same).
  assert (∀ j, keeps adds_jobs (start_job j)) as Hstart by (intros j w; split; [done|by eexists]).
  unfold cleanup_step, runDNSHookScript, validateDNSHookScriptPath, exec_hook. keeps_auto.
Qed.

Lemma attended_job rounds pre j post w u w' :
  w_jobs w = pre ++ j :: post →
  run_job cfg rounds j (set_jobs (pre ++ post) w) = (Some (Some u), w') → attended w → attended w'.
Proof.
  destruct u. set (w0 := set_jobs (pre ++ post) w). intros Hj Hrun Ha.
  destruct j as [c o url id t|c url id t|c au v token sc tg]; cbn [run_job] in Hrun.
  - pose proof (process_processed cfg rounds c o url id t w0) as Hp. unfold after in Hp. rewrite Hrun in Hp.
    destruct (Hp eq_refl) as [[Hj' [msg Hm]]|[Hm [js Hj']]].
    + eapply (attended_rest pre _ post _ w w' []); [done..|by rewrite app_nil_r|exact Hm|].
      intros i p Hi Hs. destruct (record_failed_processing _ _ _ _ _ _ _ Hi Hs) as [Hi0 Hn].
      split; [exact Hi0|]. intros [? ?]. by destruct Hn.
    + eapply (attended_rest pre _ post _ w w'); [done..|exact Hj'|exact Hm|].
      intros i p Hi _. split; [exact Hi|]. intros [<- <-]. eexists. rewrite elem_of_app, list_elem_of_singleton.
      split; [by right|done].
  - pose proof (trigger_triggered c url id t w0) as Hp. unfold after in Hp. rewrite Hrun in Hp.
    destruct (Hp eq_refl) as [Hj' [[msg Hm]|[Hm _]]];
      (eapply (attended_rest pre _ post _ w w' []); [done..|by rewrite app_nil_r|exact Hm|]); intros i p Hi Hs.
    + destruct (record_failed_processing _ _ _ _ _ _ _ Hi Hs) as [Hi0 Hn].
      split; [exact Hi0|]. intros [? ?]. by destruct Hn.
    + apply lookup_delete_Some in Hi as [Hne Hi]. split; [exact Hi|]. by intros [? _].
  - pose proof (cleanup_adds c au v token sc tg w0) as [Hp [js Hj']]. rewrite Hrun in Hp, Hj'.
    eapply (attended_rest pre _ post _ w w'); [done..|exact Hj'|exact Hp|]. by intros i p Hi _.
Qed.

Lemma attended_step w w' : step w w' → attended w → attended w'.
Proof.
  intros [r w0|rounds pre j post w0 u w0' Hj Hrun|w0|up rounds current w0 u w0' _ _ Hrun].
  - apply (serve_keeps cfg probeKey attended_kept). intros w1. by apply attended_same.
  - by apply (attended_job rounds pre j post w0 u).
  - assert (∀ n, keeps attended_kept (db (PruneExpiredNonces (env_now n)))) as Hdb
      by (intros n; apply keeps_db; [apply _|]; intros w1; by apply attended_same).
    assert (keeps attended_kept prune_nonces) as Hk by (unfold prune_nonces; handler_auto). apply Hk.
  - assert (∀ ev, keeps attended_kept (emit ev)) as Hemit by (intros ev w1; by apply attended_same).
    pose proof (keeps_renewal_turn disk (Bootstrap cfg) up attended_kept) as Hk.
    specialize (Hk (λ op, Hemit _) (λ s e, Hemit _)). unshelve epose proof (Hk _ rounds current w0) as Hr.
    { intros rd k cl Hcl. keeps_step; [by apply (hl_new (cfg := cfg))|].
      apply keeps_obtain; [apply _|intros; apply Hemit..|]. intros c. by apply pl_SetAccountURL. }
    by rewrite Hrun in Hr.
Qed.

Lemma attended_reaches w w' : reaches w w' → attended w → attended w'.
Proof. induction 1 as [|w1 w2 w3 Hs _ IH]; [done|]. intros Ha. by eapply IH, attended_step. Qed.

(** C21: a challenge in processing has its goroutine. In every state the process reaches,
    over any requests, jobs that ran, prunings and renewals, a record that says processing
    has one half of its goroutine still to run, for that very record. *)
Theorem processing_has_worker w w' id p :
  w_proc w = ∅ → reaches w w' →
  w_proc w' !! id = Some p → cp_status p = "processing" →
  ∃ j, j ∈ w_jobs w' ∧ works_on id (cp_createdAt p) j.
Proof.
  intros Hw Hr. apply (attended_reaches w w' Hr). intros i q. by rewrite Hw, lookup_empty.
Qed.
End system.
