(* ===== verification/Startup.v ===== *)
(** * From the configuration to the listener (cmd/acme-gateway, internal/server/server.go)

    [run]: the configuration, the database, the certificate, the listener, and how it
    ends; and the certificate a TLS listener hands out, which the renewal replaces. *)
From S2P Require Export System.

(** ** The server (server.go) *)
Section server.
Context `{!TLSFiles}.

(** The fields of [http.Server] the code sets; [hs_TLSConfig] is the minimal version. *)
Record http_Server := MkHTTPServer {
  hs_Addr : string; hs_TLSConfig : option Z;
  hs_ReadHeaderTimeout : Z; hs_ReadTimeout : Z; hs_WriteTimeout : Z; hs_IdleTimeout : Z
}.
Record server_state := MkServer { tlsCert : option tls_Certificate; httpServer : option http_Server }.

Definition NewServer : server_state := MkServer None None.
Definition SetCertificate (cert : tls_Certificate) (s : server_state) : server_state :=
  MkServer (Some cert) (httpServer s).

(** The callback of the TLS configuration. *)
Definition GetCertificate (s : server_state) : result tls_Certificate :=
  match tlsCert s with
  | None => Errorf "no TLS certificate loaded"
  | Some cert => Ok cert
  end.

Definition tls_VersionTLS12 : Z := 771.
(** The servers the methods hand to net/http. *)
Definition ListenAndServe (addr : string) (s : server_state) : server_state :=
  MkServer (tlsCert s) (Some (MkHTTPServer addr None
    (10 * second) (30 * second) (90 * second) (120 * second))).
Definition ListenAndServeTLS (addr : string) (s : server_state) : server_state :=
  MkServer (tlsCert s) (Some (MkHTTPServer addr (Some tls_VersionTLS12)
    (10 * second) (30 * second) (90 * second) (120 * second))).
Definition ServeListener (s : server_state) : server_state :=
  MkServer (tlsCert s) (Some (MkHTTPServer "" (Some tls_VersionTLS12)
    (10 * second) (30 * second) (90 * second) (120 * second))).

(** What a connection gets: no certificate without TLS. *)
Definition accept (s : server_state) : option (result (option tls_Certificate)) :=
  hs ← httpServer s;
  Some (match hs_TLSConfig hs with
        | None => Ok None
        | Some _ => let? cert := GetCertificate s in Ok (Some cert)
        end).

(** [http] is net/http's own [Shutdown]. *)
Definition Shutdown (http : http_Server → result unit) (s : server_state) : result unit :=
  match httpServer s with
  | None => Ok tt
  | Some hs => http hs
  end.
End server.

(** ** Starting and stopping (main.go) *)
Section startup.
Context `{Env} `{!NetURL} `{!SQLDriver} `{!TLSFiles} (disk : gmap string file).
(** What [config.Load] is given. *)
Context (read_config : string → result string) (LookupEnv : string → option string)
  (yaml_Unmarshal : string → result Config)
  (range_order : gmap string UpstreamConfig → list (string * UpstreamConfig)).

(** The server, and the certificate the renewal loop starts from, if one runs. *)
Record started := MkStarted {
  st_cfg : Config; st_server : server_state; st_renewal : option tls_Certificate
}.

Definition setup_tls (rounds : nat) (cfg : Config) : M (option (result started)) :=
  let b := Bootstrap cfg in
  if TLSEnabled (Server cfg) then
    if boot_Enabled b then
      let upCfg := default zero_UpstreamConfig (Upstreams cfg !! boot_Upstream b) in
      let! r := bootstrap_run disk b upCfg rounds in
      ret (match r with
           | None => None
           | Some (Err e) => Some (Wrapf "bootstrapping certificate: " e)
           | Some (Ok cert) => Some (Ok (MkStarted cfg (SetCertificate cert NewServer) (Some cert)))
           end)
    else
      let!! cert := once (wrap "loading external TLS certificate: " (loadExistingCert disk b)) in
      ret (Some (Ok (MkStarted cfg (SetCertificate cert NewServer) None)))
  else ret (Some (Ok (MkStarted cfg NewServer None))).

Definition start_listener (cfg : Config) (s : server_state) : server_state :=
  if TLSEnabled (Server cfg) then ListenAndServeTLS (Listen (Server cfg)) s
  else ListenAndServe (Listen (Server cfg)) s.

(** [run], until it listens.  Opening the database ([Migration.New]) succeeds or not. *)
Definition run (rounds : nat) (cfgPath : string) : M (option (result started)) :=
  match Load read_config LookupEnv yaml_Unmarshal range_order cfgPath with
  | Err e => ret (Some (Wrapf "loading config: " e))
  | Ok cfg =>
      let! e := ask env_db in
      match e with
      | Some e => ret (Some (Wrapf "opening state store: " e))
      | None =>
          do! prune_nonces in
          let!! st := setup_tls rounds cfg in
          ret (Some (Ok (MkStarted cfg (start_listener cfg (st_server st)) (st_renewal st))))
      end
  end.

(** The [select] at the end of [run]: the listener failed, or a signal came. *)
Inductive stop_event := ListenerError (e : error) | Signal.
Definition wait_stop (http : http_Server → result unit) (ev : stop_event) (s : server_state) : result unit :=
  match ev with
  | ListenerError e => Wrapf "server error: " e
  | Signal => Shutdown http s
  end.
(** The exit code of [main]. *)
Definition exit_code (r : result unit) : Z := match r with Err _ => 1 | Ok _ => 0 end.

(** A turn of the renewal loop, [onRenew] being the server's. *)
Definition renew_server (rounds : nat) (cfg : Config) (up : UpstreamConfig)
    (st : server_state * tls_Certificate) : M (option (server_state * tls_Certificate)) :=
  let! r := renewal_turn disk (Bootstrap cfg) up rounds st.2 in
  ret (match r with
       | None => None
       | Some (current, None) => Some (st.1, current)
       | Some (current, Some cert) => Some (SetCertificate cert st.1, current)
       end).

(** ** What a TLS listener hands out *)
Lemma bootstrap_loads boot up rounds w :
  after (bootstrap_run disk boot up rounds) w (λ r w', ∀ cert, r = Some (Some (Ok cert)) →
    loads boot (files disk w') cert).
Proof using Type.
  unfold bootstrap_run. apply after_bind. eapply after_mono; [apply after_load|].
  intros existing w1 [_ Hex].
  assert (∀ w2, after (let! r := acquire disk boot up rounds in
    match r with
    | None => ret None
    | Some (Err e) => ret (Some (Wrapf "bootstrap acquire: " e))
    | Some (Ok _) => once (wrap "loading certificate after acquire: " (loadExistingCert disk boot))
    end) w2 (λ r w', ∀ cert, r = Some (Some (Ok cert)) → loads boot (files disk w') cert)) as Hacq.
  { intros w2. apply after_bind, after_run. intros r w3 _. destruct r as [[[[]|e]|]|]; [|done..].
    apply after_once, after_wrap. eapply after_mono; [apply after_load|].
    by intros r w4 [_ [(e & ->)|(cert & -> & Hl)]] c; [|intros [= <-]]. }
  destruct Hex as [(e & ->)|(cert & -> & Hl)]; [apply after_bind, after_ret, Hacq|].
  apply after_bind. eapply after_mono; [apply after_expiring|]. intros b w2 [Hr2 (soon & -> & _)].
  destruct soon; [apply Hacq|]. apply after_ret. intros c [= <-]. by rewrite (reads_files disk _ _ Hr2).
Qed.

(** Turns of the renewal, whatever happens between them. *)
Definition renews (cfg : Config) (up : UpstreamConfig) (st st' : server_state * tls_Certificate) : Prop :=
  ∃ rounds w w', renew_server rounds cfg up st w = (Some (Some st'), w').

Lemma renewal_turn_hands boot up rounds current w :
  after (renewal_turn disk boot up rounds current) w (λ r _, ∀ next handed,
    r = Some (Some (next, handed)) → match handed with None => next = current | Some cert => next = cert end).
Proof using Type.
  unfold renewal_turn. apply after_bind, after_run. intros [soon|] w1 _; [|done].
  destruct soon; simpl; [|apply after_ret; by intros ? ? [= <- <-]].
  apply after_bind, after_run. intros [[[[]|e]|]|] w2 _; [|apply after_ret; by intros ? ? [= <- <-]|done..].
  apply after_bind, after_run. intros [[cert|e]|] w3 _; [| |done]; apply after_ret; by intros ? ? [= <- <-].
Qed.
Lemma renews_serves cfg up st st' :
  rtc (renews cfg up) st st' → GetCertificate st.1 = Ok st.2 →
  GetCertificate st'.1 = Ok st'.2 ∧ httpServer st'.1 = httpServer st.1.
Proof using Type.
  induction 1 as [|st1 st2 st3 (rounds & w & w' & Hr) _ IH]; [done|]. intros Hg.
  pose proof (renewal_turn_hands (Bootstrap cfg) up rounds st1.2 w) as Hh. unfold after in Hh.
  unfold renew_server, bind, ret in Hr.
  destruct (renewal_turn disk (Bootstrap cfg) up rounds st1.2 w) as [[[[next handed]|]|] w1]; [|by simplify_eq/=..].
  specialize (Hh _ _ eq_refl). by destruct handed; simplify_eq/=; apply IH.
Qed.

(** What [setup_tls] hands to the server. *)
Definition set_up (cfg : Config) (fs : gmap string file) (st : started) : Prop :=
  st_cfg st = cfg ∧
  if TLSEnabled (Server cfg) then
    ∃ cert, GetCertificate (st_server st) = Ok cert ∧ loads (Bootstrap cfg) fs cert ∧
      st_renewal st = (if boot_Enabled (Bootstrap cfg) then Some cert else None)
  else st_renewal st = None.
Lemma after_setup rounds cfg w :
  after (setup_tls rounds cfg) w (λ r w', ∀ st, r = Some (Some (Ok st)) → set_up cfg (files disk w') st).
Proof using Type.
  unfold setup_tls, set_up. destruct (TLSEnabled (Server cfg)); [|apply after_ret; by intros st [= <-]].
  destruct (boot_Enabled (Bootstrap cfg)).
  - apply after_bind. eapply after_mono; [apply bootstrap_loads|]. intros r w2 Hl.
    destruct r as [[[cert|e]|]|]; [|done..]. apply after_ret. intros st [= <-]. split; [done|].
    exists cert. split_and!; [done|by apply Hl|done].
  - apply after_bind, after_once, after_wrap. eapply after_mono; [apply after_load|].
    intros r w2 [_ [(e & ->)|(cert & -> & Hl)]]; [done|]. apply after_ret. intros st [= <-].
    split; [done|]. by exists cert.
Qed.

(** C25: a gateway that terminates TLS never listens without a certificate.  When [run]
    gets to the listener it serves the configured address; with TLS, version 1.2 or later,
    every connection gets the key pair of the two configured files, and after any number
    of turns of the renewal loop the certificate that the loop holds.  The loop runs only
    for a certificate the gateway obtains itself, and a gateway behind a proxy listens
    without TLS. *)
Theorem tls_always_served rounds cfgPath w :
  let '(r, w') := run rounds cfgPath w in
  ∀ st, r = Some (Some (Ok st)) →
    hs_Addr <$> httpServer (st_server st) = Some (Listen (Server (st_cfg st))) ∧
    if TLSEnabled (Server (st_cfg st)) then
      ∃ cert, accept (st_server st) = Some (Ok (Some cert)) ∧
        loads (Bootstrap (st_cfg st)) (files disk w') cert ∧
        st_renewal st = (if boot_Enabled (Bootstrap (st_cfg st)) then Some cert else None) ∧
        ∀ up st', rtc (renews (st_cfg st) up) (st_server st, cert) st' →
          accept st'.1 = Some (Ok (Some st'.2))
    else accept (st_server st) = Some (Ok None) ∧ st_renewal st = None.
Proof using Type.
  refine (after_let _ _ (λ r w', ∀ st, _ → _) _). unfold run.
  destruct (Load _ _ _ _ _) as [cfg|e]; [|by apply after_ret].
  apply after_bind, after_ask. destruct (env_db _); [by apply after_ret|].
  apply after_bind, after_run. intros [[]|] w1 _; [|done].
  apply after_bind. eapply after_mono; [apply after_setup|]. intros r w2 Hs.
  destruct r as [[[st0|e]|]|]; [|done..]. destruct (Hs st0 eq_refl) as [_ Hst]. clear Hs.
  apply after_ret. intros st [= <-]. unfold start_listener, accept. cbn [st_cfg st_server st_renewal].
  destruct (TLSEnabled (Server cfg)); [|by split].
  destruct Hst as (cert & Hg & Hl & Hn). split; [done|]. exists cert.
  assert (GetCertificate (ListenAndServeTLS (Listen (Server cfg)) (st_server st0)) = Ok cert) as Hg' by done.
  split_and!; [cbn; by rewrite Hg'|done|done|]. intros up st' Hr.
  destruct (renews_serves _ _ _ _ Hr Hg') as [Hg2 ->]. cbn. by rewrite Hg2.
Qed.
End startup.
