(* ===== verification/Scenario.v ===== *)
(** * A concrete gateway

    One instance of everything the development leaves open (an upstream that answers
    by URL, keys that are their own encodings, go-jose by members of the body), the runs
    of requests against it, and with them the witnesses of the theorems about states that
    only a run reaches. *)
From S2P Require Import ClientThreads PoolThreadsProps System OrderProps Responses.

(** ** The instance *)
#[export] Instance ex_crypto : Crypto := {
  ECKey := string;
  MarshalECPrivateKey k := Ok k;
  ParseECPrivateKey s := Ok s;
  pem_EncodeECKey s := "PEM " +:+ s;
  pem_Decode s := Some (TrimPrefix s "PEM ");
  sha256 s := s;
  ec_Thumbprint k := Ok k;
  jose_SignEAB _ _ _ _ := Ok JNull
}.
#[export] Instance ex_crypto_laws : CryptoLaws.
Proof.
  split. intros k der [= <-]. unfold parseECPrivateKeyPEM.
  change (pem_Decode (pem_EncodeECKey k)) with (Some (TrimPrefix ("PEM " +:+ k) "PEM ")).
  by rewrite TrimPrefix_app.
Qed.

Definition ca (path : string) : string := "https://ca.example" +:+ path.

(** The certificate authority: one order with one authorization. *)
Definition ca_order : json :=
  JObj [("status", JStr "pending");
        ("identifiers", JArr [JObj [("type", JStr "dns"); ("value", JStr "www.example.com")]]);
        ("authorizations", JArr [JStr (ca "/authz/1")]); ("finalize", JStr (ca "/finalize/1"))].
Definition ca_authz : json :=
  JObj [("identifier", JObj [("type", JStr "dns"); ("value", JStr "www.example.com")]);
        ("status", JStr "pending");
        ("challenges", JArr [JObj [("type", JStr "dns-01"); ("url", JStr (ca "/chall/1"));
                                   ("token", JStr "tok"); ("status", JStr "pending")]])].
Definition ca_directory : json :=
  JObj [("newNonce", JStr (ca "/new-nonce")); ("newAccount", JStr (ca "/new-account"));
        ("newOrder", JStr (ca "/new-order")); ("revokeCert", JStr (ca "/revoke"));
        ("keyChange", JStr (ca "/key-change"))].
Definition ca_answers : list (string * (Z * string * json)) :=
  [(ca "/dir", (200%Z, "", ca_directory));
   (ca "/new-nonce", (200%Z, "", JNull));
   (ca "/new-account", (201%Z, ca "/acct/1", JObj []));
   (ca "/new-order", (201%Z, ca "/order/1", ca_order));
   (ca "/order/1", (200%Z, "", ca_order));
   (ca "/authz/1", (200%Z, "", ca_authz))].

(** Every answer carries a nonce of its own. *)
Definition ca_http (n : nat) (rq : http_request) : result http_response :=
  match List.find (λ a, a.1 ==? rq_URL rq) ca_answers with
  | Some (_, (status, location, body)) =>
      Ok (MkResponse status location ("nonce-" +:+ pretty n) [] (Marshal body) None None)
  | None => Ok (MkResponse 404 "" ("nonce-" +:+ pretty n) [] "" None None)
  end.

#[export] Instance ex_env : Env := {
  env_now _ := ex_now;
  env_rand n := Some (pretty n);
  env_uuid n := "uuid-" +:+ pretty n;
  env_db _ := None;
  env_http := ca_http;
  env_genkey n := Ok ("key-" +:+ pretty n);
  env_sign _ := None;
  env_cacert _ _ := None;
  env_ctx _ := None;
  env_sleep _ _ := None;
  env_LookupCNAME _ _ := Err (EDNS "no such host" "no such host" true);
  env_LookupNS _ _ := Ok ["ns1.example."; "ns2.example."];
  env_LookupTXT _ _ _ := Ok ["tok"];
  env_LookupIP _ _ := Ok [("192.0.2.1", true)];
  env_stat _ _ := Ok (false, true);
  env_exec _ _ _ := ("", None);
  env_file _ := None;
  env_partial _ := 0;
  env_tmp n := [pretty n];
  env_csr _ k domain := Ok (k +:+ " " +:+ domain);
  request_url_error _ := None
}.

Lemma prefixed_inj p n m : p +:+ pretty n = p +:+ pretty (m : nat) → n = m.
Proof. intros Heq%(inj _). by apply (inj pretty) in Heq. Qed.

#[export] Instance ex_fresh_nonces : FreshNonces.
Proof.
  split. intros i j rq rq' r r' Hr Hr' Heq _. simpl in *. unfold ca_http in *.
  assert (rs_ReplayNonce r = "nonce-" +:+ pretty i) as Hi by by repeat case_match; simplify_eq.
  assert (rs_ReplayNonce r' = "nonce-" +:+ pretty j) as Hj by by repeat case_match; simplify_eq.
  apply (prefixed_inj "nonce-"). congruence.
Qed.
#[export] Instance ex_fresh_uuids : FreshUUIDs.
Proof. split. intros n m. apply prefixed_inj. Qed.
#[export] Instance ex_sane_clock : SaneClock.
Proof. split. intros n. split; [apply ex_representable|apply ex_expiry_representable]. Qed.

(** ** Signed requests

    The protected header is JSON; "jwk" and "signer" are names of keys. *)
Definition member (k : string) (j : json) : option string :=
  match j with
  | JObj m => match List.find (λ kv, kv.1 ==? k) m with Some (_, JStr s) => Some s | _ => None end
  | _ => None
  end.

#[export] Instance ex_keys : KeyTypes := {
  RSAKey := string; ECDSAKey := string; Ed25519Key := string;
  RSAEqual := String.eqb; ECDSAEqual := String.eqb; Ed25519Equal := String.eqb
}.
#[export] Instance ex_pki : PKI := {
  JSONWebKey := string;
  jwk_Key k := ECDSAPublic k;
  jwk_Thumbprint k := Ok k;
  jwk_Marshal k := Ok k;
  jwk_Unmarshal k := Some k;
  JSONWebSignature := json;
  jose_ParseSigned body _ :=
    match Unmarshal body ≫= decode_rawJWS with
    | Some raw => match DecodeString (raw_Protected raw) ≫= Unmarshal with
                  | Some j => Ok j
                  | None => Errorf "bad protected header"
                  end
    | None => Errorf "bad JWS"
    end;
  jws_Signatures j := [MkHeader (default "" (member "nonce" j)) (member "url" j) (member "jwk" j)
                         (default "" (member "kid" j))];
  jws_Verify j k :=
    match k with
    | Some (ECDSAPublic k) => if bool_decide (member "signer" j = Some k) then None
                              else Some (EStr "verification failed")
    | _ => Some (EStr "unsupported key")
    end;
  x509_ParseCertificate der := Ok (ECDSAPublic der);
  x509_ParseCertificateRequest der := Ok (ECDSAPublic der)
}.
(** A key pair of its key; a certificate is the PEM text of a key and ends in a year. *)
#[export] Instance ex_tls : TLSFiles := {
  tls_Certificate := string;
  tls_X509KeyPair cert key := if HasPrefix key "PEM " then Ok cert else Errorf "no key";
  cert_Chain c := [c];
  x509_NotAfter _ := Some (ex_now + 365 * (24 * 3600 * second))%Z
}.
#[export] Instance ex_rows : RowOrder := table_order.
#[export] Instance ex_driver : SQLDriver := go_driver.
#[export] Instance ex_url : NetURL := {
  URL := string;
  url_Parse u := Some u;
  url_Scheme u := default "" (Split u ":" !! 0);
  url_Host u := default "" (Split u "/" !! 2);
  ResolveReference _ ref := ref;
  url_String u := u
}.

(** A pattern ends in a literal path or in "{id}", one non-empty segment. *)
Definition pattern_match (pattern path : string) : option string :=
  if HasSuffix pattern "{id}" then
    let prefix := TrimSuffix pattern "{id}" in
    let id := TrimPrefix path prefix in
    if HasPrefix path prefix && (id !=? "") && negb (Contains id "/") then Some id else None
  else if pattern ==? path then Some "" else None.
#[export] Instance ex_mux : Mux := {
  mux_match routes method path :=
    let fix find i l :=
      match l with
      | [] => if existsb (λ r, bool_decide (is_Some (pattern_match r.2 path))) routes
              then MethodNotAllowed else NotFound
      | (m, p) :: l =>
          match pattern_match p path with
          | Some id => if m ==? method then Found i id else find (S i) l
          | None => find (S i) l
          end
      end in find 0 routes
}.

(** ** A run *)
Definition ex_hook : DNSHook := MkDNSHook "/hooks/deploy" "/hooks/cleanup"
  (MkDNSPropagationPolicy (Some false) 0 0 0 0 0) zero_delegation.
Definition ex_upstream : UpstreamConfig :=
  MkUpstreamConfig (ca "/dir") "ops@example.com" None ex_hook 1 "".
Definition ex_cfg : Config :=
  MkConfig (MkServerConfig ":8080" "https://acme.example" (Some false)) (MkStateConfig "state.db")
    zero_Bootstrap (<["ca" := ex_upstream]> ∅) ∅ (MkRoutingConfig [] "ca").

(** The request of [signer] for [path]: with its key, or with the account of that key. *)
Definition signed (path nonce : string) (with_key : bool) (signer payload : string) : inbound :=
  let header := JObj ([("nonce", JStr nonce); ("url", JStr ("https://acme.example" +:+ path));
    ("signer", JStr signer)]
    ++ (if with_key then [("jwk", JStr signer)]
        else [("kid", JStr ("https://acme.example/account/" +:+ EncodeToString signer))])) in
  MkInbound "POST" path "application/jose+json"
    (Ok (Marshal (JObj [("protected", JStr (EncodeToString (Marshal header)));
                        ("payload", JStr (EncodeToString payload)); ("signature", JStr "AA")]))) "".

(** The gateway's nonces are the random bytes, encoded; the one of the last answer. *)
Definition last_nonce (w : World) : string :=
  default "" (head (header_get "Replay-Nonce" (rp_headers (w_resp w)))).

Definition fresh_world : World := MkWorld _ 0 empty_store ∅ 0 (MkPool ∅ ∅ ∅) ∅ [] [] empty_response.

(** A signed request under the nonce of the previous answer. *)
Definition ask_gateway (path : string) (with_key : bool) (signer payload : string) (w : World) : World :=
  serve ex_cfg None (signed path (last_nonce w) with_key signer payload) w.

Definition w_nonce : World :=
  serve ex_cfg None (MkInbound "HEAD" "/new-nonce" "" (Ok "") "") fresh_world.
Definition w_account : World :=
  ask_gateway "/new-account" true "alice" "{}" w_nonce.
Definition order_payload : string :=
  Marshal (JObj [("identifiers", JArr [JObj [("type", JStr "dns"); ("value", JStr "www.example.com")]])]).
Definition w_order : World := ask_gateway "/new-order" false "alice" order_payload w_account.

(** The account is created and the order answered with mapped URLs; the upstream
    was asked for the account and the order, each under a nonce of its own. *)
Example run_account : rp_status (w_resp w_account) = [201%Z].
Proof. vm_compute. reflexivity. Qed.
Example run_order :
  rp_status (w_resp w_order) = [201%Z] ∧
  header_get "Location" (rp_headers (w_resp w_order)) = ["https://acme.example/order/uuid-27"] ∧
  sent_nonces w_order = ["nonce-20"; "nonce-22"].
Proof. vm_compute. done. Qed.

(** The authorization, its challenge, and the goroutine the challenge starts. *)
Definition w_authz : World := ask_gateway "/authz/uuid-33" false "alice" "" w_order.
Definition challenge_id : string :=
  default "" (head (omap (λ kv, if rr_type kv.2 ==? ResourceTypeChallenge then Some kv.1 else None)
                      (map_to_list (resource_map (w_store w_authz))))).
Definition w_challenge : World :=
  ask_gateway ("/challenge/" +:+ challenge_id) false "alice" "{}" w_authz.
Definition w_again : World :=
  ask_gateway ("/challenge/" +:+ challenge_id) false "alice" "{}" w_challenge.
Example run_challenge :
  rp_status (w_resp w_authz) = [200%Z] ∧ rp_status (w_resp w_challenge) = [200%Z] ∧
  length (w_jobs w_challenge) = 1 ∧ w_jobs w_again = w_jobs w_challenge.
Proof. vm_compute. done. Qed.

(** The goroutine deploys the record and goes on to trigger the upstream, which
    does not know the challenge: the failure is recorded. *)
Definition take_job (w : World) : World :=
  match w_jobs w with
  | j :: js => (run_job ex_cfg 1 j (set_jobs js w)).2
  | [] => w
  end.
Definition w_deployed : World := take_job w_challenge.
Example run_deploy :
  hooks_of w_deployed =
    [EvHook "/hooks/deploy" (hook_env
       (MkTarget "www.example.com" "_acme-challenge.www.example.com" "www.example.com"
          "_acme-challenge.www.example.com") (EncodeToString ("tok." +:+ EncodeToString "key-18")) "tok")] ∧
  length (w_jobs w_deployed) = 2.
Proof. vm_compute. done. Qed.

(** ** Reachability of the run *)
Lemma reach_ask path with_key signer payload w :
  reaches ex_cfg None ∅ fresh_world w →
  reaches ex_cfg None ∅ fresh_world (ask_gateway path with_key signer payload w).
Proof. intros Hw. eapply rtc_r; [exact Hw|]. apply step_request. Qed.
Lemma reach_nonce : reaches ex_cfg None ∅ fresh_world w_nonce.
Proof. apply rtc_once, step_request. Qed.
Lemma reach_order : reaches ex_cfg None ∅ fresh_world w_order.
Proof. apply reach_ask, reach_ask, reach_nonce. Qed.
Lemma reach_challenge : reaches ex_cfg None ∅ fresh_world w_challenge.
Proof. apply reach_ask, reach_ask, reach_order. Qed.

Lemma fresh_pool_ok : pool_ok fresh_world.
Proof.
  split.
  - intros c. simpl. rewrite lookup_empty. by intros [].
  - intros u cs. simpl. by rewrite lookup_empty.
  - intros u a c. unfold lookup_account. simpl. by rewrite lookup_empty.
  - intros u a c v cs. unfold lookup_account. simpl. by rewrite lookup_empty.
Qed.
Lemma order_pool_ok : pool_ok w_order.
Proof. exact (reaches_keeps ex_cfg None ∅ pool_kept fresh_world w_order reach_order fresh_pool_ok). Qed.

(** ** Witnesses *)
Lemma schema_always_holds_witness : store_wf (w_store w_challenge).
Proof.
  apply (schema_always_holds ex_cfg None ∅ fresh_world w_challenge); [apply reach_challenge|apply empty_store_wf].
Defined.
Lemma nonces_sent_once_witness : NoDup (sent_nonces w_challenge) ∧ length (sent_nonces w_challenge) = 4.
Proof.
  split; [|vm_compute; reflexivity].
  apply (nonces_sent_once ex_cfg None ∅ fresh_world w_challenge); [reflexivity..|apply reach_challenge].
Defined.
Lemma pool_always_coherent_witness : pool_ok w_challenge.
Proof.
  apply (pool_always_coherent ex_cfg None ∅ fresh_world w_challenge); [apply reach_challenge|apply fresh_pool_ok].
Defined.

Lemma account_client_persisted_witness :
  let '(r, w') := GetClientForAccount ex_cfg "ca" "YWxpY2U" w_order in
  ∃ c, r = Some (Ok c) ∧ GetClientForAccount ex_cfg "ca" "YWxpY2U" w' = (Some (Ok c), w').
Proof.
  pose proof (account_client_persisted ex_cfg "ca" "YWxpY2U" w_order order_pool_ok) as Hp.
  destruct (GetClientForAccount ex_cfg "ca" "YWxpY2U" w_order) as [r w'] eqn:Hr.
  assert (∃ c, r = Some (Ok c)) as [c ->].
  { exists 0. change r with ((r, w').1). rewrite <- Hr. vm_compute. reflexivity. }
  destruct Hp as [_ Hp]. exists c. split; [reflexivity|]. by apply Hp.
Defined.

(** The process after a restart: nothing but the database. *)
Definition restarted (s : Store) : World :=
  MkWorld _ 100 s ∅ 0 (MkPool ∅ ∅ ∅) ∅ [] [] empty_response.
Definition w_restarted : World := restarted (w_store w_order).
Lemma restarted_store s : w_store (restarted s) = s.
Proof. reflexivity. Qed.
Definition order_client : Client :=
  default (MkClient _ "" "" "" None empty_ring) (w_heap w_order !! 0).
Lemma account_survives_restart_witness :
  let '(r, w') := GetClientForAccount ex_cfg "ca" "YWxpY2U" w_restarted in
  w_trace w' = [] ∧ ∃ c' cl', r = Some (Ok c') ∧ w_heap w' !! c' = Some cl' ∧ key cl' = "key-18".
Proof.
  pose proof (account_survives_restart ex_cfg "ca" "YWxpY2U" w_order 0 order_client w_restarted ex_upstream
    order_pool_ok ltac:(vm_compute; reflexivity) ltac:(vm_compute; reflexivity) (restarted_store _)
    ltac:(vm_compute; reflexivity) ltac:(vm_compute; reflexivity) eq_refl
    ltac:(vm_compute; reflexivity)) as Hp.
  destruct (GetClientForAccount ex_cfg "ca" "YWxpY2U" w_restarted) as [r w'].
  destruct Hp as (Ht & _ & c' & cl' & Hr & Hcl & Hk & _). split; [exact Ht|].
  exists c', cl'. split; [exact Hr|]. split; [exact Hcl|]. rewrite Hk. vm_compute. reflexivity.
Defined.

(** The slots of an upstream with two accounts, registered by two orders. *)
Definition two_cfg : Config :=
  MkConfig (MkServerConfig ":8080" "https://acme.example" (Some false)) (MkStateConfig "state.db")
    zero_Bootstrap (<["ca" := MkUpstreamConfig (ca "/dir") "ops@example.com" None ex_hook 2 ""]> ∅) ∅
    (MkRoutingConfig [] "ca").
Definition w_slots : World := (GetSlot two_cfg "ca" 0 fresh_world).2.
Definition w_registered : World := (NextClient two_cfg "ca" (NextClient two_cfg "ca" fresh_world).2).2.

Lemma slots_pool_ok : pool_ok w_slots.
Proof. exact (hl_GetSlot (cfg := two_cfg) (R := pool_kept) "ca" 0 fresh_world fresh_pool_ok). Qed.
Lemma get_slot_clamped_witness :
  ∃ c, GetSlot two_cfg "ca" 7 w_slots = (Some (Ok c), w_slots) ∧ [0; 1] !! 0 = Some c.
Proof.
  destruct (get_slot_clamped two_cfg "ca" 7 w_slots [0; 1] slots_pool_ok ltac:(vm_compute; reflexivity))
    as (c & Hc & Hi).
  exists c. split; [exact Hc|exact Hi].
Defined.

Lemma next_client_round_robin_witness : next_slots two_cfg "ca" 3 w_registered = Some [0; 1; 0]%Z.
Proof.
  rewrite (next_client_round_robin two_cfg "ca" w_registered [0; 1] 3).
  - vm_compute. reflexivity.
  - vm_compute. reflexivity.
  - discriminate.
  - intros c Hc. apply elem_of_cons in Hc as [->|Hc].
    + eexists. split; vm_compute; [reflexivity|discriminate].
    + apply list_elem_of_singleton in Hc as ->. eexists. split; vm_compute; [reflexivity|discriminate].
  - vm_compute. discriminate.
Defined.

(** A wait that reaches its quorum: two nameservers have the record. *)
Definition wait_hook : DNSHook :=
  MkDNSHook "/hooks/deploy" "" (MkDNSPropagationPolicy (Some true) 0 0 0 0 0) zero_delegation.
Definition wait_run : option (option (result unit)) * World :=
  waitForDNSPropagation 10 wait_hook "_acme-challenge.www.example.com" "tok" fresh_world.
Lemma wait_needs_quorum_witness :
  ∃ ep m stable,
    length stable = 2 ∧ NoDup stable ∧
    Forall (shown_for ep "_acme-challenge.www.example.com" "tok" ["ns1.example"; "ns2.example"] 5 3 m) stable.
Proof.
  pose proof (wait_needs_quorum 10 wait_hook "_acme-challenge.www.example.com" "tok" fresh_world eq_refl) as Hq.
  change (waitForDNSPropagation 10 wait_hook _ _ _) with wait_run in Hq.
  assert (wait_run.1 = Some (Some (Ok tt))) as Hr by (vm_compute; reflexivity).
  destruct wait_run as [r w]. destruct (Hq Hr) as (hosts & ep & w1 & w2 & m & stable & Ha & Hnd & He & Hq').
  assert (hosts = ["ns1.example"; "ns2.example"]) as ->.
  { apply (f_equal fst) in Ha. vm_compute in Ha. congruence. }
  assert (w_tick w1 = 1) as Ht1 by (apply (f_equal (λ x, w_tick x.2)) in Ha; vm_compute in Ha; by symmetry).
  assert (w_tick w2 = 3) as Ht2.
  { apply (f_equal (λ x, w_tick x.2)) in He. cbn in He. rewrite Ht1 in He. by symmetry. }
  rewrite Ht2 in Hq'. cbn in Hq'. destruct Hq' as (Hsd & Hle & Hall & _). exists ep, m, stable.
  split; [|split; [exact Hsd|exact Hall]]. apply Nat.le_antisymm.
  - change 2 with (length ["ns1.example"; "ns2.example"]). apply submseteq_length, NoDup_submseteq; [exact Hsd|].
    intros ns Hns. rewrite Forall_forall in Hall. destruct (Hall ns Hns) as (_ & k & Hk & _).
    by eapply list_elem_of_lookup_2.
  - apply Nat2Z.inj_le. etrans; [|exact Hle]. vm_compute. discriminate.
Defined.

(** A clock on which every reading is a minute later. *)
Definition slow_env : Env := {|
  env_now n := (ex_now + Z.of_nat n * (60 * second))%Z;
  env_rand := env_rand; env_uuid := env_uuid; env_db := env_db; env_http := env_http;
  env_genkey := env_genkey; env_sign := env_sign; env_cacert := env_cacert; env_ctx := env_ctx;
  env_sleep _ _ := None; env_LookupCNAME := env_LookupCNAME; env_LookupNS := env_LookupNS;
  env_LookupTXT _ _ _ := Ok []; env_LookupIP := env_LookupIP; env_stat := env_stat;
  env_exec := env_exec; env_file := env_file;
  env_partial := env_partial; env_tmp := env_tmp; env_csr := env_csr; request_url_error := request_url_error
|}.
Lemma wait_returns_witness :
  ∃ res, (waitForDNSPropagation (H0 := slow_env) 301 wait_hook "_acme-challenge.www.example.com" "tok"
            fresh_world).1 = Some (Some res).
Proof.
  apply (wait_returns (H0 := slow_env) 300).
  - vm_compute. reflexivity.
  - intros k i j _ Hi Hj. change (env_now (Env := slow_env)) with (λ n, (ex_now + Z.of_nat n * (60 * second))%Z).
    change (PollOrDefault (Propagation wait_hook)) with (2 * second)%Z. unfold second. lia.
  - intros i j Hij. simpl. unfold second. lia.
  - vm_compute. discriminate.
Defined.

(** The goroutine of the challenge, on that clock. *)
Lemma slow_passes hook : PollOrDefault (Propagation hook) = (2 * second)%Z → time_passes (H0 := slow_env) hook.
Proof.
  intros Hp. unfold time_passes. rewrite Hp. split; [done|]. split.
  - intros k i j _ Hi Hj. change (env_now (Env := slow_env)) with (λ n, (ex_now + Z.of_nat n * (60 * second))%Z).
    unfold second. lia.
  - intros i j Hij. simpl. unfold second. lia.
Qed.
Lemma challenge_ends_witness :
  ∃ w1, process_step (H0 := slow_env) ex_cfg 301 0 (MkOrder "uuid-27" "YWxpY2U" "ca" 0 "" "" "" "" "" ex_now ex_now)
          (ca "/chall/1") challenge_id ex_now w_challenge = (Some (Some tt), w1) ∧
    (failed_with w1 challenge_id "dns" ex_now ∨ w_proc w1 = w_proc w_challenge).
Proof.
  destruct (challenge_ends (H0 := slow_env) ex_cfg 300 0
    (MkOrder "uuid-27" "YWxpY2U" "ca" 0 "" "" "" "" "" ex_now ex_now) (ca "/chall/1") challenge_id ex_now w_challenge)
    as (w1 & Hr & _ & He).
  - apply slow_passes. vm_compute. reflexivity.
  - vm_compute. discriminate.
  - eexists. vm_compute. reflexivity.
  - eexists. split; vm_compute; reflexivity.
  - exists w1. split; [exact Hr|]. destruct He as [[He _]|[He _]]; [by left|by right].
Defined.
Lemma processing_has_worker_witness :
  ∃ j, j ∈ w_jobs w_challenge ∧ works_on challenge_id ex_now j.
Proof.
  assert (∃ p, w_proc w_challenge !! challenge_id = Some p ∧ cp_status p = "processing" ∧ cp_createdAt p = ex_now)
    as (p & Hp & Hs & Hc) by (eexists; split; [|split]; vm_compute; reflexivity).
  rewrite <- Hc.
  exact (processing_has_worker ex_cfg None ∅ fresh_world w_challenge challenge_id p eq_refl reach_challenge Hp Hs).
Defined.

(** The account's client after the registration: one nonce is cached. *)
Definition account_client : Client :=
  default (MkClient _ "" "" "" None empty_ring) (w_heap w_order !! 0).
Lemma post_spends_and_refills_witness :
  let '(r, w') := post_attempt 0 (ca "/order/1") None "" w_order in
  is_Some r ∧ length (w_trace w') = S (length (w_trace w_order)).
Proof.
  assert (∃ n q, ring_queue (client_nonces account_client) = n :: q) as (n & q & Hq)
    by (eexists _, _; vm_compute; reflexivity).
  assert (w_heap w_order !! 0 = Some account_client) as Hc by (vm_compute; reflexivity).
  assert (ring_ok (client_nonces account_client)) as Hok.
  { assert (nonce_inv ∅ w_order) as Hi.
    { apply (reaches_keeps ex_cfg None ∅ keeps_all fresh_world w_order reach_order), nonce_inv_start; done. }
    exact (ni_rings _ _ Hi 0 account_client Hc). }
  pose proof (post_spends_and_refills 0 (ca "/order/1") None "" account_client n q w_order Hc Hok Hq) as Hp.
  destruct (post_attempt 0 (ca "/order/1") None "" w_order) as [r w'].
  cbv zeta in Hp. change (env_sign (w_tick w_order)) with (@None error) in Hp.
  change (request_url_error (ca "/order/1")) with (@None error) in Hp. cbn beta iota in Hp.
  destruct (env_http _ _) as [rs|e]; destruct Hp as [-> [-> _]];
    (split; [by eexists|rewrite length_app, Nat.add_comm; reflexivity]).
Defined.

(** The upstream's answer, recorded for the account that asked. *)
Definition w_before : World := set_resp empty_response w_account.
Definition ex_account_row : Account := MkAccount "YWxpY2U" "alice" "ECDSA" [] "valid" ex_now.
Definition ex_request : newOrderRequest := MkNewOrder [MkIdentifier "dns" "www.example.com"] "".
Definition ex_decision : Decision := MkDecision "ca" "" "ECDSA".
(** An upstream order that lists its authorization twice. *)
Definition twice_order : ACMEOrder := default zero_order (decode_order (JObj
  [("status", JStr "pending"); ("authorizations", JArr [JStr (ca "/authz/1"); JStr (ca "/authz/1")]);
   ("finalize", JStr (ca "/finalize/1"))])).
Definition w_recorded : World :=
  (record_order ex_cfg ex_account_row ex_request ex_decision twice_order (ca "/order/1") w_before).2.

Lemma w_before_wf : store_wf (w_store w_before).
Proof.
  apply (reaches_keeps ex_cfg None ∅ schema_kept fresh_world w_account); [|apply empty_store_wf].
  apply reach_ask, reach_nonce.
Qed.
Lemma w_before_fresh : fresh_ids (w_tick w_before) (w_store w_before).
Proof.
  intros n _.
  assert (orders (w_store w_before) = ∅ ∧ resource_map (w_store w_before) = ∅) as [-> ->] by (vm_compute; done).
  by rewrite !lookup_empty.
Qed.
(** The second identifier of the answer names nothing. *)
Lemma new_order_recorded_witness :
  ∃ orderID id1 id2 o, GetOrder orderID (w_store w_recorded) = Ok (Some o) ∧
    order_AccountID o = "YWxpY2U" ∧
    decode_identifiers (order_Identifiers o) = [MkIdentifier "dns" "www.example.com"] ∧
    mapped (w_store w_recorded) ResourceTypeAuthz orderID id1 (ca "/authz/1") ∧
    resource_map (w_store w_recorded) !! id2 = None.
Proof.
  destruct (new_order_recorded ex_cfg ex_account_row ex_request ex_decision twice_order (ca "/order/1") w_before)
    as (_ & orderID & finalizeID & ids & o & Ho & Ha & _ & _ & _ & _ & Hid & _ & Hlen & Hall & _).
  - apply w_before_wf.
  - apply w_before_fresh.
  - split; reflexivity.
  - vm_compute. reflexivity.
  - destruct ids as [|id1 [|id2 ids]]; [discriminate Hlen|discriminate Hlen|].
    exists orderID, id1, id2, o. split; [exact Ho|]. split; [exact Ha|]. split; [exact Hid|]. split.
    + apply (Hall 0 id1 (ca "/authz/1") eq_refl eq_refl). cbn. rewrite list_elem_of_singleton. discriminate.
    + apply (Hall 1 id2 (ca "/authz/1") eq_refl eq_refl). right. left.
Defined.

(** The record of the challenge survives the client's retries. *)
Definition ex_progress : challengeProgress := MkProgress ex_now "processing" "" "".
Definition ex_retries : list inbound :=
  [signed ("/challenge/" +:+ challenge_id) (last_nonce w_challenge) false "alice" "{}";
   MkInbound "GET" "/directory" "" (Ok "") ""].
Lemma challenge_single_flight_witness :
  let w' := serve_all ex_cfg None ex_retries w_challenge in
  w_proc w' !! challenge_id = Some ex_progress ∧ jobs_of challenge_id w' = jobs_of challenge_id w_challenge.
Proof.
  apply (challenge_single_flight challenge_id ex_progress ex_cfg None ex_retries w_challenge).
  - intros n _. vm_compute. discriminate.
  - vm_compute. reflexivity.
Defined.

Definition w_order2 : World := ask_gateway "/new-order" false "alice" order_payload w_order.
Definition order2_path : string :=
  TrimPrefix (default "" (head (header_get "Location" (rp_headers (w_resp w_order2))))) "https://acme.example".
Definition w_poll2 : World := ask_gateway order2_path false "alice" "" w_order2.
(** When the upstream answers a repeated order with the one it has, polling the
    second gateway order shows the finalize URL of the first: that look-up is by
    upstream URL alone, unlike those of challenges and certificates. *)
Definition finalize_shown (w : World) : list string :=
  omap (λ b, match b with BodyJSON j => member "finalize" j | BodyBytes _ => None end) (rp_body (w_resp w)).
Example finalize_of_other_order :
  order2_path = "/order/uuid-43" ∧
  finalize_shown w_order2 = ["https://acme.example/finalize/uuid-47"] ∧
  finalize_shown w_poll2 = ["https://acme.example/finalize/uuid-31"] ∧
  rr_order_id <$> resource_map (w_store w_poll2) !! "uuid-31" = Some "uuid-27".
Proof. vm_compute. done. Qed.

(** ** Two calls at once

    Two requests of one account need its client, and two orders the slot of the upstream;
    all four calls run interleaved. *)
Lemma fresh_slots_ok : slots_ok fresh_world.
Proof. split; intros *; simpl; by rewrite lookup_empty. Qed.

Definition m_called : machine :=
  MkMachine fresh_world ∅
    (<[3 := NEnter "ca"]> (<[2 := NEnter "ca"]> (<[1 := AEnter "ca" "acct"]> (<[0 := AEnter "ca" "acct"]> ∅)))).
Lemma called_reaches : m_reaches ex_cfg (idle fresh_world) m_called.
Proof.
  assert (∀ i t ts, ts !! i = None → (∃ u a, t = AEnter u a) ∨ (∃ u, t = NEnter u) ∨ (∃ u n, t = GEnter u n) →
    m_reaches ex_cfg (idle fresh_world) (MkMachine fresh_world ∅ ts) →
    m_reaches ex_cfg (idle fresh_world) (MkMachine fresh_world ∅ (<[i := t]> ts))) as Hcall.
  { intros i t ts Hi Ht Hs. eapply rtc_r; [exact Hs|]. by apply (step_call ex_cfg i t (MkMachine fresh_world ∅ ts)). }
  unfold m_called. do 4 (apply Hcall; [reflexivity|by eauto|]). apply rtc_refl.
Qed.

(** Both look, the first takes the mutex and registers, the second finds its client. *)
Definition m_after (sched : list nat) : machine := default m_called (run_schedule ex_cfg sched m_called).
Definition account_sched : list nat := [0; 1; 0; 0; 0; 0; 0; 0; 0; 1; 1].
Definition slot_sched : list nat := [2; 3; 2; 3; 2; 2].
Lemma after_reaches sched s : run_schedule ex_cfg sched m_called = Some s → m_reaches ex_cfg (idle fresh_world) s.
Proof. intros Hs. etrans; [apply called_reaches|by eapply run_schedule_reaches]. Qed.

Definition m_account : machine := m_after account_sched.
Definition m_slots : machine := m_after slot_sched.
Lemma account_reaches : m_reaches ex_cfg (idle fresh_world) m_account.
Proof. apply (after_reaches account_sched). vm_compute. reflexivity. Qed.
Lemma slots_reaches : m_reaches ex_cfg (idle fresh_world) m_slots.
Proof. apply (after_reaches slot_sched). vm_compute. reflexivity. Qed.
Definition m_registered : machine := m_after (slot_sched ++ [2]).
Lemma registered_step : machine_step ex_cfg m_slots m_registered.
Proof. apply (step_at_step ex_cfg 2). vm_compute. reflexivity. Qed.

Lemma pool_coherent_concurrently_witness : pool_ok (m_world m_account).
Proof.
  apply (pool_coherent_concurrently ex_cfg fresh_world fresh_pool_ok fresh_slots_ok m_account account_reaches).
Defined.
Lemma one_client_per_account_witness : ∃ c, ∀ i, i = 0 ∨ i = 1 →
  m_threads m_account !! i = Some (AReturn "ca" "acct" (Ok c)).
Proof.
  assert (∃ c, m_threads m_account !! 0 = Some (AReturn "ca" "acct" (Ok c))) as [c Hc] by (vm_compute; eauto).
  assert (∃ c', m_threads m_account !! 1 = Some (AReturn "ca" "acct" (Ok c'))) as [c' Hc'] by (vm_compute; eauto).
  exists c. destruct (one_client_per_account ex_cfg fresh_world fresh_pool_ok fresh_slots_ok m_account 0 1
    "ca" "acct" c c' account_reaches Hc Hc') as [<- _].
  intros i [->| ->]; [exact Hc|exact Hc'].
Defined.
Lemma registered_once_witness :
  Forall (λ i, m_threads m_registered !! i ≠ Some (SRegister "ca" 0 0)) [0; 1; 2].
Proof.
  apply Forall_forall. intros i _. apply (registered_once ex_cfg fresh_world fresh_pool_ok fresh_slots_ok m_slots m_registered m_registered
    slots_reaches (rtc_refl _ _)).
  split; [apply registered_step|]. exists 2, "ca", 0%Z, (ca "/acct/1"). vm_compute. done.
Defined.
Lemma calls_can_finish_witness :
  ∃ s', m_reaches ex_cfg m_slots s' ∧ ∀ i t, m_threads s' !! i = Some t → returned t = true.
Proof. apply (calls_can_finish ex_cfg fresh_world fresh_pool_ok fresh_slots_ok m_slots slots_reaches). Defined.

(** ** Three signed requests at once

    Two goroutines find no nonce and fetch one each; the third finds one that an answer to
    them brought. *)
Definition ex_client : Client := MkClient _ (ca "/dir") "key" (ca "/acct/1") None empty_ring.
Definition post_world : World := (new_client ex_client fresh_world).2.
Definition ex_call : post_call := MkCall 0 (ca "/order/1") None "".
Definition posts_called : posting :=
  MkPosting post_world (<[2 := (ex_call, post_start)]> (<[1 := (ex_call, post_start)]>
    (<[0 := (ex_call, post_start)]> ∅))).
Definition posts_idle : posting := MkPosting fresh_world ∅.
Lemma posts_called_reaches : posting_reaches posts_idle posts_called.
Proof.
  assert (∀ i pc ts, ts !! i = None → pc_client pc = 0 → posting_reaches posts_idle (MkPosting post_world ts) →
    posting_reaches posts_idle (MkPosting post_world (<[i := (pc, post_start)]> ts))) as Hcall.
  { intros i pc ts Hi Hpc Hs. eapply rtc_r; [exact Hs|].
    apply (post_step_call i pc (MkPosting post_world ts)); [done|]. rewrite Hpc. by eexists. }
  unfold posts_called. do 3 (apply Hcall; [reflexivity|reflexivity|]).
  apply rtc_once, (post_step_elsewhere post_world posts_idle). split; cbn; [lia|done| |by intros ? []|].
  - intros c [cl Hc]. apply lookup_insert_Some in Hc as [[<- _]|[_ Hc]]; [simpl; lia|done].
  - intros c cl' Hc. apply lookup_insert_Some in Hc as [[_ <-]|[_ Hc]]; [by left|done].
Qed.

Definition post_sched : list nat :=
  [0; 1; 0; 1; 0; 1; 0; 1; 0; 1; 0; 1; 0; 1; 0; 2; 2; 1; 2].
Definition posts_run : posting := default posts_called (post_schedule post_sched posts_called).
Lemma posts_run_reaches : posting_reaches posts_idle posts_run.
Proof.
  etrans; [apply posts_called_reaches|]. apply (post_schedule_reaches post_sched). vm_compute. reflexivity.
Qed.

Lemma nonces_sent_once_concurrently_witness :
  NoDup (sent_nonces (p_world posts_run)) ∧
  sent_nonces (p_world posts_run) = ["nonce-2"; "nonce-3"; "nonce-6"].
Proof.
  split; [|vm_compute; reflexivity].
  apply (nonces_sent_once_concurrently posts_idle posts_run); [by split_and!|apply posts_run_reaches].
Defined.
Lemma post_calls_return_witness :
  ∃ t, p_calls posts_run !! 2 = Some (ex_call, t) ∧ steps_left t ≤ 24.
Proof.
  assert (∃ t, p_calls posts_run !! 2 = Some (ex_call, t) ∧ post_returned t = false) as (t & Ht & Hr)
    by (eexists; split; vm_compute; reflexivity).
  exists t. split; [exact Ht|].
  destruct (post_calls_return posts_idle posts_run 2 ex_call t eq_refl posts_run_reaches Ht Hr) as [Hle _].
  exact Hle.
Defined.
