(* ===== verification/BootScenario.v ===== *)
(** * A run of the bootstrap

    The concrete gateway gets its certificate, and with that run the witnesses of the
    theorems about the bootstrap. *)
From S2P Require Import System Startup Scenario.

(** ** The upstream

    It issues for the gateway's domain once its authorization is valid, which it is at the
    second look. *)
Definition boot_order (status cert : string) : json :=
  JObj [("status", JStr status); ("authorizations", JArr [JStr (ca "/authz/9")]);
        ("finalize", JStr (ca "/finalize/9")); ("certificate", JStr cert)].
Definition boot_authz (status : string) : json :=
  JObj [("identifier", JObj [("type", JStr "dns"); ("value", JStr "acme.example")]);
        ("status", JStr status);
        ("challenges", JArr [JObj [("type", JStr "dns-01"); ("url", JStr (ca "/chall/9"));
                                   ("token", JStr "tok"); ("status", JStr status)]])].
Definition boot_answers (n : nat) : list (string * (Z * string * json)) :=
  [(ca "/new-order", (201%Z, ca "/order/9", boot_order "pending" ""));
   (ca "/order/9", (200%Z, "", boot_order "valid" (ca "/cert/9")));
   (ca "/authz/9", (200%Z, "", boot_authz (if Nat.ltb n 45 then "pending" else "valid")));
   (ca "/chall/9", (200%Z, "", JObj []));
   (ca "/finalize/9", (200%Z, "", boot_order "processing" ""));
   (ca "/cert/9", (200%Z, "", JStr "chain"))] ++ ca_answers.
Definition boot_http (n : nat) (rq : http_request) : result http_response :=
  match List.find (λ a, a.1 ==? rq_URL rq) (boot_answers n) with
  | Some (_, (status, location, body)) =>
      Ok (MkResponse status location ("nonce-" +:+ pretty n) [] (Marshal body) None None)
  | None => Ok (MkResponse 404 "" ("nonce-" +:+ pretty n) [] "" None None)
  end.
(** Every reading of the clock is five seconds later. *)
#[local] Instance boot_env : Env := {|
  env_now n := (ex_now + Z.of_nat n * (5 * second))%Z;
  env_rand := env_rand; env_uuid := env_uuid; env_db := env_db; env_http := boot_http;
  env_genkey := env_genkey; env_sign := env_sign; env_cacert := env_cacert; env_ctx := env_ctx;
  env_sleep := env_sleep; env_LookupCNAME := env_LookupCNAME; env_LookupNS := env_LookupNS;
  env_LookupTXT := env_LookupTXT; env_LookupIP := env_LookupIP; env_stat := env_stat;
  env_exec := env_exec; env_file := env_file;
  env_partial := env_partial; env_tmp := env_tmp; env_csr := env_csr; request_url_error := request_url_error
|}.
Definition ex_boot : BootstrapConfig :=
  MkBootstrapConfig true "ca" "acme.example" "" "dns-01" "/etc/acme/cert.pem" "/etc/acme/key.pem" 30 ex_hook.
Definition boot_run : option (option (result tls_Certificate)) * World :=
  bootstrap_run ∅ ex_boot ex_upstream enough_rounds fresh_world.
Definition w_boot : World := boot_run.2.

Definition ex_cert : tls_Certificate := Marshal (JStr "chain").

(** The certificate is acquired: the record is deployed and cleaned up, and the files
    hold the new pair; the account's key and URL lie beside them. *)
Example run_bootstrap :
  boot_run.1 = Some (Some (Ok ex_cert)) ∧
  map (λ e, match e with EvHook s _ => s | _ => "" end) (hooks_of w_boot) =
    ["/hooks/deploy"; "/hooks/cleanup"] ∧
  f_data <$> files ∅ w_boot !! "/etc/acme/bootstrap-account.key.url" = Some (ca "/acct/1") ∧
  f_mode <$> files ∅ w_boot !! "/etc/acme/key.pem" = Some 384%Z.
Proof. vm_compute. done. Qed.

(** ** Witnesses *)
Definition etc_paths : list string :=
  ["/etc/acme/cert.pem"; "/etc/acme/key.pem"; "/etc/acme/bootstrap-account.key";
   "/etc/acme/bootstrap-account.key.url"].
Lemma etc_apart p q : p ∈ etc_paths → q ∈ etc_paths → apart p q.
Proof.
  intros Hp Hq r. assert (tmp_path (filepath_Dir p) r = "/etc/acme/.tmp-" +:+ r) as ->.
  { assert (filepath_Dir p = "/etc/acme") as ->; [|done]. by set_unfold; naive_solver. }
  by set_unfold; naive_solver.
Qed.
Lemma ex_distinct : distinct_paths ex_boot.
Proof.
  split; [done| |].
  - intros p [->| ->]; by vm_compute.
  - intros p Hp. assert (p ∈ etc_paths).
    { destruct Hp as [[->| ->]|[->| ->]]; vm_compute; set_unfold; tauto. }
    split; apply etc_apart; try done; set_unfold; tauto.
Qed.

Lemma atomic_write_crash_safe_witness :
  stays ∅ (λ fs, fs !! "/etc/acme/key.pem" = None ∨ fs !! "/etc/acme/key.pem" = Some (MkFile "key" 384))
    fresh_world (atomicWrite ∅ "/etc/acme/key.pem" "key" 384 fresh_world).2.
Proof.
  pose proof (atomic_write_crash_safe ∅ "/etc/acme/key.pem" "key" 384 fresh_world
    ltac:(apply etc_apart; set_unfold; tauto)) as Hw.
  destruct (atomicWrite ∅ "/etc/acme/key.pem" "key" 384 fresh_world) as [r w'].
  destruct Hw as [Hs _]. eapply stays_mono; [|exact Hs]. intros fs [Hp _]. exact Hp.
Defined.

Definition w_key : World := (loadOrCreateAccountKey ∅ ex_boot fresh_world).2.
Lemma account_key_kept_witness : (loadOrCreateAccountKey ∅ ex_boot (set_tick 500 w_key)).1 = Some (Ok "key-1").
Proof.
  pose proof (account_key_kept ∅ ex_boot fresh_world) as Hk.
  destruct (loadOrCreateAccountKey ∅ ex_boot fresh_world) as [r w'] eqn:Hr.
  assert (r = Some (Ok "key-1")) as ->.
  { change r with ((r, w').1). rewrite <- Hr. vm_compute. reflexivity. }
  assert (w' = w_key) as -> by (unfold w_key; by rewrite Hr).
  rewrite (Hk "key-1" eq_refl ∅ (set_tick 500 w_key)); [reflexivity|vm_compute; reflexivity|reflexivity].
Defined.

Lemma acquire_pair_on_disk_witness :
  acquired ∅ ex_boot fresh_world (acquire ∅ ex_boot ex_upstream enough_rounds fresh_world).2.
Proof.
  pose proof (acquire_pair_on_disk ∅ ex_boot ex_upstream ex_distinct enough_rounds fresh_world) as Ha.
  destruct (acquire ∅ ex_boot ex_upstream enough_rounds fresh_world) as [r w'] eqn:Hr.
  destruct Ha as (_ & Ha & _). apply Ha. change r with ((r, w').1). rewrite <- Hr. vm_compute. reflexivity.
Defined.

(** Both scripts of the run belong to its one authorization. *)
Lemma acquire_cleans_up_witness :
  let w' := (acquire ∅ ex_boot ex_upstream enough_rounds fresh_world).2 in
  ∃ c order wb wc bs, authzs_run ex_boot enough_rounds c (ao_Authorizations order) wb bs wc ∧
    length (concat bs) = 2.
Proof.
  pose proof (acquire_cleans_up ∅ ex_boot ex_upstream enough_rounds fresh_world) as Ha.
  assert (length (hooks_of (acquire ∅ ex_boot ex_upstream enough_rounds fresh_world).2) = 2) as Hl
    by (vm_compute; reflexivity).
  assert ((acquire ∅ ex_boot ex_upstream enough_rounds fresh_world).1 = Some (Some (Ok tt))) as Hr
    by (vm_compute; reflexivity).
  destruct (acquire ∅ ex_boot ex_upstream enough_rounds fresh_world) as [r w']. cbn [fst snd] in *.
  destruct (Ha (ex_intro _ (Ok tt) Hr)) as [Hh|(c & order & u & wa & wb & bs & wc & _ & _ & Hrun & _ & Hh)];
    rewrite Hh in Hl; [discriminate Hl|].
  exists c, order, wb, wc, bs. split; [exact Hrun|exact Hl].
Defined.

#[local] Instance boot_steady : SteadyClock.
Proof.
  split; intros *; change (env_now (Env := boot_env)) with (λ n, (ex_now + Z.of_nat n * (5 * second))%Z);
    unfold pollInterval, second; lia.
Qed.
Lemma acquire_returns_witness :
  ∃ res, (acquire ∅ ex_boot ex_upstream enough_rounds (set_tick 100 fresh_world)).1 = Some (Some res).
Proof. apply (acquire_returns ∅ ex_boot ex_upstream (set_tick 100 fresh_world)). Defined.

Lemma bootstrap_serves_pair_witness : loads ex_boot (files ∅ w_boot) ex_cert.
Proof.
  pose proof (bootstrap_serves_pair ∅ ex_boot ex_upstream ex_distinct enough_rounds fresh_world) as Hb.
  change (bootstrap_run ∅ ex_boot ex_upstream enough_rounds fresh_world) with boot_run in Hb.
  unfold w_boot. destruct boot_run as [r w'] eqn:Hr. destruct Hb as [Hb _].
  apply (Hb ex_cert). change r with ((r, w').1). rewrite <- Hr. vm_compute. reflexivity.
Defined.

(** The certificate lasts: the turn leaves it. *)
Lemma renewal_replaces_or_keeps_witness :
  (renewal_turn ∅ ex_boot ex_upstream 0 ex_cert w_boot).1
  = Some (Some (ex_cert, None)).
Proof.
  pose proof (renewal_replaces_or_keeps ∅ ex_boot ex_upstream ex_distinct 0 ex_cert w_boot) as Hn.
  destruct (renewal_turn ∅ ex_boot ex_upstream 0 ex_cert w_boot) as [r w'].
  destruct Hn as [Hn _]. apply Hn. vm_compute. split; discriminate.
Defined.

(** ** The gateway starts

    It terminates TLS with a certificate of its own. *)
Definition boot_cfg : Config :=
  MkConfig (MkServerConfig ":443" "https://acme.example" None) (MkStateConfig "state.db")
    ex_boot (Upstreams ex_cfg) ∅ (Routing ex_cfg).
Definition started_run : option (option (result started)) * World :=
  run ∅ (λ _, Ok "") (λ _, None) (λ _, Ok boot_cfg) map_to_list enough_rounds "config.yaml" fresh_world.

Example run_starts :
  (λ r, match r with
        | Some (Some (Ok st)) => Some (st_cfg st, accept (st_server st), st_renewal st)
        | _ => None
        end) started_run.1 = Some (boot_cfg, Some (Ok (Some ex_cert)), Some ex_cert).
Proof. vm_compute. done. Qed.

Lemma tls_always_served_witness :
  ∃ st cert, started_run.1 = Some (Some (Ok st)) ∧ accept (st_server st) = Some (Ok (Some cert)) ∧
    loads ex_boot (files ∅ started_run.2) cert ∧ st_renewal st = Some cert.
Proof.
  pose proof (tls_always_served ∅ (λ _, Ok "") (λ _, None) (λ _, Ok boot_cfg) map_to_list enough_rounds
    "config.yaml" fresh_world) as Ht.
  fold started_run in Ht. pose proof run_starts as Hrun. destruct started_run as [r w'].
  cbn in Hrun |- *. destruct r as [[[st|]|]|]; try discriminate.
  destruct (Ht st eq_refl) as [_ Hs]. exists st.
  assert (st_cfg st = boot_cfg) as Hcfg by congruence. rewrite Hcfg in Hs.
  destruct Hs as (cert & Ha & Hl & Hn & _). by exists cert.
Defined.
